(* ===== verification/_CoqProject ===== *)
-Q . S2P
Prelude.v
Base64.v
WordExtraction.v
Similarity.v
Selection.v
Acceptance.v
Encoding.v
Debounce.v
Popup.v
ParseTree.v
ParseTreeView.v
Parsing.v
Editor.v
Page.v
Workers.v
Highlights.v
HighlightText.v
ErrorsList.v
ShareButton.v
Sharing.v
Examples.v
