(* ===== verification/Prelude.v ===== *)
(** * A verification development of the syntaxica editor front end

    The repository is a React/TypeScript web editor for grammars run in
    a web worker.  Its only algorithmic part is the suggestion engine of
    the code editor; everything else renders widgets or forwards
    messages.  This development models the engine and the glue around it
    as executable Rocq functions over explicit state and proves what the
    code does, including where it departs from the specification.

    ** The program and how its parts interact

    - [src/src/components/autocomplete/autocomplete.component.tsx]
      ([Autocomplete]) holds five pieces of React state (suggestions,
      word span, popup visibility, selected index, skip flag).  A
      debounced effect re-runs [getWordBackwards] (word under the caret)
      and [findSimilarWords] (ranking with [calculateAccuracy]) and
      stores the result; its callback is written inline, so every render
      re-arms the timer; a document [keydown] listener navigates,
      accepts, dismisses and reveals; accepting calls the parent's
      [onSuggestionAccept]; [getModalStyles] places the popup under the
      caret's line.
    - [src/src/components/code-editor/code-editor.tsx] ([CodeEditor])
      owns the text (through its parent's [setQuery]), the caret data
      and the pending caret index; [handleSuggestionAccept] splices the
      accepted word into the text, [handleSelectCapture] moves the caret,
      [getCaretCoordinates] computes the caret's line and column, which
      listeners on the text area's clicks and key presses store; it
      renders [Autocomplete] with the text, the caret and the grammar's
      keywords.
    - [src/src/hooks/debounce/debounced-effect.ts] ([useDebouncedEffect])
      is the timer behind the recomputation: every effect run cancels the
      pending timer and arms a new one; a firing timer first calls the
      destructor returned by the previous firing.
    - [src/src/hooks/encoding/encoding.ts] ([useEncoding]) encodes the
      shared document (gzip + base64) and decodes it, re-padding a
      base64 string whose padding was stripped.
    - [src/src/hooks/parsing/parsing.ts] ([useParsing]) talks to the
      grammar worker: an effect on the selected [WorkerInfo] creates the
      worker and posts [grammar/initialize]; a debounced effect (800 ms)
      posts [grammar/parse] with the text; the answers set the
      specification, the parse result and the [isParsing] and
      [isInitializing] flags shown by [ErrorsList].
    - [src/src/hooks/parse-tree-converter/parse-tree-converter.ts]
      ([useParseTreeConverter]) turns the parse tree of an answer into
      the nodes and edges [ParseTreeView] draws.
    - [src/src/hooks/highlights/highlights.tsx] ([useHighlights]) builds
      a Prism grammar from the specification and renders the text as a
      table, one row per line, marking the lines with parse errors.
    - [CodeEditor] also renders [ViewSelect], [WorkerSelect] and
      [ErrorsList], stores the DOM text area, and loads the document
      shared in the page URL ([useCodeLoader]) through an effect.
    - [src/src/components/share-button/share-button.tsx] ([ShareButton])
      builds a link to the page with the encoded document in its [code]
      parameter, has it shortened and copies it;
      [src/src/components/button/button.component.tsx] ([Button]) draws
      its spinner and its ["Copied!"] state.
    - [src/src/components/examples-list/] ([ExamplesList],
      [ExampleElement], [ExampleCode]) lists the grammar's examples with a
      [Fuse] search and draws each one highlighted.

    ** Files, in dependency order

    - [Prelude] (this file): the JavaScript string and array primitives
      the sources call ([input[i]], [substring], [toUpperCase],
      [startsWith], [includes], [split] and [join] on one code unit, string
      conversion of [undefined]), the [js_scope] notations, the
      [syntaxica] hint databases, the tactic [js_norm] and the lemmas on
      them that every component uses (split/join round trip, counting
      separators).
    - [Base64] (Module [Base64]): [fromByteArray] and [toByteArray] of
      the base64-js library the encoding calls, written from the
      library with its bit operations; [toByteArray] inverts
      [fromByteArray], and an encoding is the alphabet then its padding.
    - [WordExtraction]: [getWordBackwards] and [isWhiteSpace] of
      [Autocomplete]; a reference definition of "the word before the
      caret" and the theorem that the loop computes it for every caret
      inside the text, and what it computes past the end (C1).
    - [Similarity]: [calculateAccuracy], [assemblySuggestionForWords]
      and [findSimilarWords]; JS [Set]s as duplicate-free lists in
      insertion order; the stable descending sort as an insertion sort
      with the proof that any stable sort gives the same list (C3-C5).
    - [Selection] (Module [Autocomplete]): the state of [Autocomplete],
      the debounced callback, every key handler, the option click and
      the memoised callbacks ([useCallback] with its dependency lists),
      as a transition function on events with a reachability relation;
      its invariant and the two stale-closure defects, and the popup's
      rendered options (C6-C11).
    - [Acceptance] (Module [CodeEditor]): [handleSuggestionAccept],
      [handleValueChange], [handleSelectCapture] and
      [getCaretCoordinates], with React's batched state updates applied
      in order (C12-C15).
    - [Encoding]: the padding loop of [decode] ([length mod 4] signs
      [=]) and the fuel it needs.
    - [Debounce]: [useDebouncedEffect] as a state machine of its two refs,
      the pending timer and a clock; bursts, destructors, unmounting
      (C18).
    - [Popup] (Module [Popup]): [Autocomplete] as a component, its
      state ([Selection]) composed with its debounced effect
      ([Debounce]); the inline callback is a new dependency at every
      render, so a tick is always pending, each tick re-arms the next
      (C39), and the tick undoes Escape and ArrowDown 100 ms after them
      (C38); with an empty vocabulary the modal stays hidden and empty
      whatever happens ([empty_vocabulary_never_shows], by the invariant
      [no_vocabulary], which covers the closure of the armed timer); an
      unmounted component runs nothing more ([unmount_is_final]).
    - [ParseTree] (Module [ParseTreeConverter]): the stack loop of
      [loadDataFromParseTree], its termination, the forest invariant and
      the node and edge counts, and the effect's batched flag (C19-C20).
    - [ParseTreeView] (Module [ParseTreeView]): [ParseTreeView] composed
      with the converter hook: the [vis-network] instances it builds and
      destroys, with the identities of [parseTree] and [convertResult];
      one live network drawing the current tree (C37), rebuilt three
      times per parse round.
    - [Parsing] (Module [Parsing]): the worker, its mailbox and
      [onmessage] handler, [useParsing]'s effects composed with
      [Debounce]'s machine, rendering, and the protocol invariant; an idle
      editor re-parses forever (C21-C22).
    - [Editor] (Module [Editor]): [WorkerSelect], [ViewSelect],
      [ErrorsList] and [CodeEditor]'s effects and DOM text area, with
      user events; the worker picker always picks the first worker and a
      switch of view reloads the shared document (C23-C24); a click on
      an example keeps the old caret, so the autocomplete reads past the
      end of a shorter example (C2); the text area's caret listeners,
      the autocomplete's acceptance (the text is kept and the caret
      lands inside the old text) and [onSelectCapture]; the option React
      selects in the worker picker; [App]'s initial query.
    - [Page] (Module [Page]): [CodeEditor] and [Autocomplete]
      together: each render of the first renders the second with the
      text, the caret and the keywords, and an accepted suggestion calls
      back into [CodeEditor] in the same event; accepting with Enter
      leaves the text as it was and the popup offers the same
      suggestions again 200 ms later (C36).
    - [Workers] (Module [Workers]): [useWorkers] with the JSON its
      response holds, each request's [async] progress and [StrictMode]'s
      second effect run, and [CodeEditor]'s [[workers]] effect read on a
      JSON value; the unchecked cast, the lost [isLoading], the answer
      that arrives last winning, and the refinement of [Editor]'s typed
      effect (C32-C34).
    - [Highlights] (Module [Highlights]): [NODE_REGEX] written out as a
      matcher, [splitMultilineNode], the [replace]/[replaceAll] scans, the
      rows of the table and the grammar effect (C26-C27).
    - [HighlightText] (Module [HighlightText]): Prism's [highlight]
      ([Token.stringify] of [util.encode] of the tokens, the tokenizer a
      parameter with the class [PrismTokenizer]) and the text
      html-react-parser renders from a row; markup as a list of units
      (tag, entity, code unit) and every step of [highlightCallback] on
      units: the table shows the code line by line, unless the code
      contains the text the class renaming looks for, which is then
      rewritten in the text too (C25, C35).
    - [ErrorsList] (Module [ErrorsList]): [ErrorsList] and
      [ErrorsListItem] with numbers printed in decimal; the item texts
      read back, distinct keys, and the agreement of the list with the
      error rows of [Highlights]' table (C40).
    - [ShareButton] (Modules [Url] and [ShareButton]): the URL built-ins
      ([encodeURIComponent], [decodeURIComponent], [URLSearchParams],
      [location.search]), the [code=] regular expression, the link, the
      code loader's reading of it, [Button] with its props,
      [defaultProps], content and [data-testid]s, and [handleClick]
      as an asynchronous state machine; the lost parameter behind a
      fragment, the endless spinner after a failed request (C29-C30),
      the successful flow, and a [Button] without [icon] drawing no
      spinner and no copy mark, against what its tests expect.
    - [Sharing] (Module [Sharing]): [useEncoding]'s [encode] and
      [decode] on [Base64] and [Encoding], with pako and the UTF-8 codec
      as the classes [Pako] and [TextCodec]; [useCodeLoader] and the
      page [App] mounts: [decode] inverts [encode] (C16), a stripped
      single [=] makes [decode] throw (C17), and the link the share
      button builds loads the shared text into the editor (C28).
    - [Examples] (Module [Examples]): [ExampleCode]'s rows, and
      [ExamplesList]'s state, effects and renders with object identities;
      once the examples are loaded it never stops re-rendering (C31).

    Components talk through interfaces that are parameters: [Parsing]
    and [Popup] instantiate [Debounce]'s hook machine with their own
    callback types (the closure of the render that armed the timer);
    [Page] composes [Editor] and [Popup] through the props one renders
    the other with and the acceptance callback;
    [Editor] reuses [Acceptance]'s [handleValueChange] on its own state
    through [to_ce]; the worker's answers ([Parsing]), Fuse's search
    ([Examples]) and Prism's [highlight] ([Highlights]) are section
    variables, so every theorem holds for every grammar; pako and the
    UTF-8 codec ([Sharing.Pako], [Sharing.TextCodec]) and Prism's
    tokenizer ([HighlightText.PrismTokenizer]) are classes whose laws
    state what the code relies on, each with an instance showing the
    laws can hold.  What the
    highlighter must do for the table to be right is the class
    [Highlighter]: [highlight_rows] is proved against it, and an instance
    escaping the text as Prism does discharges its laws.

    ** Fuel and bounds

    [getWordBackwards]'s loop recurses on the caret index itself, which
    it decrements.  Loops that are not structural run on fuel and come
    with a lemma that the fuel is enough: the padding loop of [decode]
    (fuel 4, at most 3 iterations); the stack loop of
    [loadDataFromParseTree] (the number of tree nodes plus 2, by the
    measure [pending]); the scans of [NODE_REGEX] and [replaceAll] (the
    length of the text, each step consumes a code unit); the loop of
    [Base64.toByteArray] over groups of four characters (the length of
    the text plus one, [quad_loop_from]).
    [ExamplesList]'s renders run on fuel because they do not terminate:
    the theorem is that no fuel is enough.  React's re-render loop after
    an event runs [RENDER_FUEL] = 5 rounds in [Editor]: the events of
    the theorems settle within three rounds (render, the text-area
    effect, the loaded-code effect), and the theorems compute the states
    explicitly, so the bound is never reached in them.  [ParseTreeView]
    settles within two commits per render of its parent ([ParseTreeView.render_settles]);
    its bound is 3.  [Popup] and [Page] need no fuel: a render or a
    tick is one step, and their theorems are invariants of the reachable
    states and statements about the next ticks.  Decimal printing ([ErrorsList.js_of_Z]) runs on the
    number of bits of the number, which bounds its number of digits
    ([nat_to_js_fuel]).

    ** Modelling choices

    - JavaScript strings are lists of [ascii] ([JsString]): one list
      element per UTF-16 code unit, for code units below 256.
      [isWhiteSpace] is exact on that range (the [\s] class there is
      9-13, 32 and 160); [toUpperCase] is modelled on 7-bit ASCII, where
      it maps [a-z] to [A-Z] and keeps the length; for the other
      Latin-1 letters the model leaves the character unchanged, which is
      why the theorems about case never depend on them.
    - Indices and lengths are JavaScript numbers that the code only ever
      sets to integers: they are [Z].  Out-of-range indexing returns
      [None] ([undefined]); string conversion of [undefined] is the text
      ["undefined"], as in [word = input[i] + word].
    - Accuracies are exact rationals [Q].  The code computes them as IEEE
      doubles [p / q] and [(p / q) * 2] with [p, q] below 2^16;
      correctly rounded division is monotone and injective on such
      ratios, so every comparison the code makes (the sort and the
      threshold 0.6, whose double is the double of 3/5) has the same
      outcome on doubles and on rationals.
    - React semantics: state updates made during one event are batched
      and applied in order; a [useCallback] closure is rebuilt only when
      one of its listed dependencies changed, so a handler sees the
      state of the render at which it was last rebuilt.  The model keeps
      that snapshot explicitly.  A setter renders the component when it
      stores a value different by [Object.is] from the committed one; an
      array or object literal always is.
    - The popup's position is computed on exact rationals; the doubles
      of JavaScript round [y * 7.2] to the nearest representable value,
      a difference below a millionth of a pixel.

    ** Not modelled, and why

    The markup-only components ([ButtonGroup], the icons) produce
    markup only; of the icons only [ShareIcon]'s default [data-testid]
    is read ([ShareButton.icon_testId]).  The server behind [useWorkers], the shortener and the
    clipboard are external services (their answers are events of the
    models); pako's gzip, the UTF-8 codec, Prism's tokenizer and
    [vis-network] are libraries the sources only call: the first three
    are classes with the laws the code relies on, [vis-network] is
    modelled by what a network draws and whether it was destroyed
    ([fit()] and [redraw()] change no state the code reads).
    [html-react-parser] is modelled by the text it renders, on the
    markup Prism writes (tags and the entities [&amp;] and [&lt;]), not
    by the React elements it builds.  A grammar [syntaxType]
    naming a member of [Object.prototype], and class names that look
    like array indices (which JavaScript orders first), are outside the
    model of [cssClassNames] and of the grammar object.  The text
    area's own [keydown] handling in [react-simple-code-editor] (an
    indented new line on Enter when the line starts with white space)
    is a library's and is not modelled; React's choice of the selected
    option of a controlled [<select>] is. *)

From stdpp Require Export base list strings decidable sets.
From Stdlib Require Export ZArith Ascii String Lia.

Declare Scope js_scope.
Delimit Scope js_scope with js.
Open Scope Z_scope.

(** A JavaScript string: one element per UTF-16 code unit. *)
Abbreviation JsString := (list ascii).

(** A string literal of the source, as a [JsString]. *)
Definition js (s : string) : JsString := list_ascii_of_string s.

(** [String(undefined)]. *)
Definition js_undefined : JsString := js "undefined".

(** The length property of a string, as a JavaScript number. *)
Definition js_length (s : JsString) : Z := Z.of_nat (List.length s).

(** [s[i]]: the code unit at index [i], or [undefined]. *)
Definition js_char_at (s : JsString) (i : Z) : option ascii :=
  if decide (0 <= i) then s !! Z.to_nat i else None.
Notation "s @@ i" := (js_char_at s i) (at level 20, no associativity) : js_scope.

(** String conversion of [s[i]] as done by [+] and by [RegExp.test]. *)
Definition js_str_of_char (c : option ascii) : JsString :=
  match c with Some a => [a] | None => js_undefined end.

Definition clamp (lo hi x : Z) : Z := Z.max lo (Z.min hi x).

(** [String.prototype.substring(start, end)]: clamps both bounds into
    [0, length] and swaps them when [start > end]. *)
Definition js_substring (s : JsString) (start end_ : Z) : JsString :=
  let a := clamp 0 (js_length s) start in
  let b := clamp 0 (js_length s) end_ in
  take (Z.to_nat (Z.max a b - Z.min a b)) (drop (Z.to_nat (Z.min a b)) s).

(** [s.substring(start)]. *)
Definition js_substring_from (s : JsString) (start : Z) : JsString :=
  js_substring s start (js_length s).

(** [toUpperCase] on one code unit (7-bit ASCII). *)
Definition js_to_upper_char (c : ascii) : ascii :=
  let n := nat_of_ascii c in
  if (97 <=? n)%nat && (n <=? 122)%nat then ascii_of_nat (n - 32) else c.

Definition js_to_upper_case (s : JsString) : JsString := map js_to_upper_char s.

(** [s.startsWith(p)]. *)
Definition js_starts_with (s p : JsString) : bool :=
  bool_decide (take (List.length p) s = p).

(** [arr[i]] on an array: the element or [undefined]. *)
Definition js_index {A} (l : list A) (i : Z) : option A :=
  if decide (0 <= i) then l !! Z.to_nat i else None.

(** [s] starts with [p]: the rest. *)
Fixpoint strip_prefix (p s : JsString) : option JsString :=
  match p, s with
  | [], _ => Some s
  | a :: p', b :: s' => if decide (a = b) then strip_prefix p' s' else None
  | _ :: _, [] => None
  end.

(** [s.includes(p)]. *)
Fixpoint js_includes (s p : JsString) : bool :=
  js_starts_with s p || match s with [] => false | _ :: s' => js_includes s' p end.

(** ['\n']. *)
Definition newline : ascii := "010"%char.

(** [s.split(sep)] for a one-unit separator: always at least one
    (possibly empty) part. *)
Fixpoint js_split (sep : ascii) (s : JsString) : list JsString :=
  match s with
  | [] => [[]]
  | c :: s' =>
      let rest := js_split sep s' in
      if decide (c = sep) then [] :: rest
      else match rest with
           | r :: rs => (c :: r) :: rs
           | [] => [[c]]
           end
  end.

(** [parts.join(sep)]. *)
Fixpoint js_join (sep : ascii) (parts : list JsString) : JsString :=
  match parts with
  | [] => []
  | [p] => p
  | p :: ps => p ++ sep :: js_join sep ps
  end.

Create HintDb syntaxica.
Create Rewrite HintDb syntaxica_rw.

(** Normalisation of the JavaScript primitives. *)
Ltac js_norm :=
  unfold js_char_at, js_index, js_substring_from, js_length in *;
  repeat match goal with
  | |- context [decide (0 <= ?i)] => destruct (decide (0 <= i)); [|try lia]
  | H : context [decide (0 <= ?i)] |- _ => destruct (decide (0 <= i)); [|try lia]
  end.

(** ** Lemmas on the primitives *)

Lemma js_length_app (s t : JsString) : js_length (s ++ t) = js_length s + js_length t.
Proof. unfold js_length. rewrite length_app. lia. Qed.

Lemma js_length_nonneg (s : JsString) : 0 <= js_length s.
Proof. unfold js_length. lia. Qed.

Lemma js_char_at_in_range (s : JsString) (i : Z) :
  0 <= i < js_length s -> exists c, js_char_at s i = Some c /\ s !! Z.to_nat i = Some c.
Proof.
  intros Hi. unfold js_char_at, js_length in *.
  rewrite decide_True by lia.
  destruct (s !! Z.to_nat i) eqn:E; [eauto|].
  apply lookup_ge_None in E. lia.
Qed.

Lemma js_char_at_out_of_range (s : JsString) (i : Z) :
  js_length s <= i -> js_char_at s i = None.
Proof.
  intros Hi. unfold js_char_at, js_length in *.
  case_decide; [|done]. apply lookup_ge_None. lia.
Qed.

Lemma js_char_at_neg (s : JsString) (i : Z) : i < 0 -> js_char_at s i = None.
Proof. intros Hi. unfold js_char_at. by rewrite decide_False by lia. Qed.

Lemma js_index_in_range {A} (l : list A) (i : Z) :
  0 <= i < Z.of_nat (List.length l) -> exists x, js_index l i = Some x.
Proof.
  intros Hi. unfold js_index. rewrite decide_True by lia.
  destruct (l !! Z.to_nat i) eqn:E; [eauto|].
  apply lookup_ge_None in E. lia.
Qed.

Lemma js_index_out_of_range {A} (l : list A) (i : Z) :
  Z.of_nat (List.length l) <= i -> js_index l i = None.
Proof.
  intros Hi. unfold js_index. case_decide; [|done]. apply lookup_ge_None. lia.
Qed.

(** In range, [substring] is [take]/[drop] on the list. *)
Lemma js_substring_in_range (s : JsString) (a b : Z) :
  0 <= a <= b -> b <= js_length s ->
  js_substring s a b = take (Z.to_nat (b - a)) (drop (Z.to_nat a) s).
Proof.
  intros Hab Hb. unfold js_substring, clamp.
  rewrite (Z.min_r _ a), (Z.max_r 0 a), (Z.min_r _ b), (Z.max_r 0 b) by lia.
  by rewrite Z.max_r, Z.min_l by lia.
Qed.

(** [s.substring(a)] for [0 <= a <= length s] is [drop a s]. *)
Lemma js_substring_from_in_range (s : JsString) (a : Z) :
  0 <= a <= js_length s -> js_substring_from s a = drop (Z.to_nat a) s.
Proof.
  intros Ha. unfold js_substring_from. rewrite js_substring_in_range by lia.
  apply take_ge. rewrite length_drop. unfold js_length in *. lia.
Qed.

(** [s.substring(0, a) + s.substring(a) = s] for [a] in range. *)
Lemma js_substring_split (s : JsString) (a : Z) :
  0 <= a <= js_length s -> js_substring s 0 a ++ js_substring_from s a = s.
Proof.
  intros Ha. rewrite js_substring_from_in_range, js_substring_in_range by lia.
  rewrite drop_0, Z.sub_0_r. apply take_drop.
Qed.

Lemma js_to_upper_case_length (s : JsString) :
  List.length (js_to_upper_case s) = List.length s.
Proof. apply length_map. Qed.

Lemma js_to_upper_case_app (s t : JsString) :
  js_to_upper_case (s ++ t) = js_to_upper_case s ++ js_to_upper_case t.
Proof. apply map_app. Qed.

Lemma js_starts_with_app (p t : JsString) : js_starts_with (p ++ t) p = true.
Proof. unfold js_starts_with. apply bool_decide_eq_true. apply take_app_length. Qed.

Lemma js_starts_with_spec (s p : JsString) :
  js_starts_with s p = true <-> exists t, s = p ++ t.
Proof.
  unfold js_starts_with. rewrite bool_decide_eq_true. split.
  - intros H. exists (drop (List.length p) s). by rewrite <- H at 1; rewrite take_drop.
  - intros [t ->]. apply take_app_length.
Qed.

Lemma js_split_nonempty (sep : ascii) (s : JsString) : js_split sep s <> [].
Proof. destruct s as [|c s]; simpl; [done|]. case_decide; [done|]. by destruct (js_split sep s). Qed.

Lemma js_split_single (sep : ascii) (s : JsString) :
  List.length (js_split sep s) = 1%nat -> js_split sep s = [s].
Proof.
  induction s as [|c s IH]; simpl; [done|]. case_decide as Hc.
  - simpl. intros H. pose proof (js_split_nonempty sep s). destruct (js_split sep s); [done|].
    simpl in H. lia.
  - pose proof (js_split_nonempty sep s) as Hne.
    destruct (js_split sep s) as [|r rs] eqn:E; [done|].
    simpl. intros H. assert (rs = []) as -> by (destruct rs; [done|simpl in H; lia]).
    by injection (IH eq_refl) as ->.
Qed.

Lemma js_join_cons_hd (sep c : ascii) (r : JsString) (rs : list JsString) :
  js_join sep ((c :: r) :: rs) = c :: js_join sep (r :: rs).
Proof. by destruct rs. Qed.

(** Joining the parts of a split with the separator gives the text back. *)
Lemma js_join_split (sep : ascii) (s : JsString) : js_join sep (js_split sep s) = s.
Proof.
  induction s as [|c s IH]; [done|]. pose proof (js_split_nonempty sep s) as Hne.
  cbn [js_split]. destruct (js_split sep s) as [|r rs]; [done|]. case_decide as Hc.
  - subst c. change (sep :: js_join sep (r :: rs) = sep :: s). by rewrite IH.
  - rewrite js_join_cons_hd. by rewrite IH.
Qed.

(** No part of a split contains the separator. *)
Lemma js_split_no_sep (sep : ascii) (s : JsString) : Forall (fun p => sep ∉ p) (js_split sep s).
Proof.
  induction s as [|c s IH]; simpl; [repeat constructor; set_solver|].
  pose proof (js_split_nonempty sep s) as Hne. case_decide as Hc.
  - constructor; [set_solver|done].
  - destruct (js_split sep s) as [|r rs]; [done|]. inversion IH; subst.
    constructor; [|done]. set_solver.
Qed.

(** The split of a text without the separator is the text itself. *)
Lemma js_split_without_sep (sep : ascii) (s : JsString) : sep ∉ s -> js_split sep s = [s].
Proof.
  induction s as [|c s IH]; simpl; [done|]. intros Hs.
  rewrite decide_False by set_solver. rewrite IH by set_solver. done.
Qed.

Lemma strip_prefix_spec (p s r : JsString) : strip_prefix p s = Some r -> s = p ++ r.
Proof.
  revert s. induction p as [|a p IH]; intros [|b s] H; simpl in H; try done; try by injection H as <-.
  case_decide; [subst b|done]. simpl. f_equal. by apply IH.
Qed.

Lemma strip_prefix_app (p r : JsString) : strip_prefix p (p ++ r) = Some r.
Proof. induction p as [|a p IH]; [done|]. simpl. by rewrite decide_True. Qed.

Lemma strip_prefix_starts_with (p s r : JsString) : strip_prefix p s = Some r -> js_starts_with s p = true.
Proof. intros H. apply strip_prefix_spec in H as ->. apply js_starts_with_app. Qed.

Lemma js_includes_starts (s p : JsString) : js_includes s p = false -> js_starts_with s p = false.
Proof. destruct s; simpl; rewrite orb_false_iff; tauto. Qed.

Lemma js_includes_single (s : JsString) (c : ascii) : js_includes s [c] = bool_decide (c ∈ s).
Proof.
  induction s as [|a s IH]; [by rewrite bool_decide_false by set_solver|].
  cbn [js_includes]. rewrite IH. unfold js_starts_with. cbn [List.length take].
  destruct (decide (a = c)) as [->|Hne].
  - rewrite bool_decide_true by done. symmetry. apply bool_decide_eq_true. set_solver.
  - rewrite (bool_decide_false ([a] = [c])) by congruence. apply bool_decide_ext.
    rewrite elem_of_cons. naive_solver.
Qed.

(** The number of separators in a text. *)
Definition js_count (sep : ascii) (s : JsString) : nat := List.length (filter (fun c => c = sep) s).

Lemma js_count_app (sep : ascii) (s t : JsString) : js_count sep (s ++ t) = (js_count sep s + js_count sep t)%nat.
Proof. unfold js_count. by rewrite filter_app, length_app. Qed.

Lemma js_count_not_in (sep : ascii) (s : JsString) : sep ∉ s -> js_count sep s = 0%nat.
Proof.
  unfold js_count. induction s as [|c s IH]; intros Hs; [done|]. rewrite filter_cons.
  rewrite decide_False by set_solver. apply IH. set_solver.
Qed.

(** A split has one part more than the text has separators. *)
Lemma js_split_length (sep : ascii) (s : JsString) :
  List.length (js_split sep s) = S (js_count sep s).
Proof.
  unfold js_count. induction s as [|c s IH]; [done|]. cbn [js_split]. rewrite filter_cons.
  pose proof (js_split_nonempty sep s) as Hne.
  case_decide; simpl; [by rewrite IH|]. by destruct (js_split sep s).
Qed.

Lemma js_split_app_no_sep (sep : ascii) (p q : JsString) :
  sep ∉ p -> js_split sep (p ++ q) =
  match js_split sep q with r :: rs => (p ++ r) :: rs | [] => [] end.
Proof.
  induction p as [|c p IH]; intros Hp; simpl; [by destruct (js_split sep q)|].
  rewrite decide_False by set_solver. rewrite IH by set_solver.
  pose proof (js_split_nonempty sep q). by destruct (js_split sep q).
Qed.

Lemma js_split_sep_app (sep : ascii) (p q : JsString) :
  sep ∉ p -> js_split sep (p ++ sep :: q) = p :: js_split sep q.
Proof.
  intros Hp. rewrite js_split_app_no_sep by done. cbn. rewrite decide_True by done.
  by rewrite app_nil_r.
Qed.

(** A separator splits the text into the parts before and after it. *)
Lemma js_split_app_sep (sep : ascii) (p q : JsString) :
  js_split sep (p ++ sep :: q) = js_split sep p ++ js_split sep q.
Proof.
  induction p as [|c p IH]; simpl; [by rewrite decide_True|].
  rewrite IH. pose proof (js_split_nonempty sep p). case_decide; [done|].
  by destruct (js_split sep p).
Qed.

(** Splitting a join of parts without the separator gives the parts back. *)
Lemma js_split_join (sep : ascii) (parts : list JsString) :
  parts <> [] -> Forall (fun p => sep ∉ p) parts -> js_split sep (js_join sep parts) = parts.
Proof.
  induction parts as [|p ps IH]; intros Hne Hall; [done|]. inversion Hall as [|? ? Hp Hps]; subst.
  destruct ps as [|p' ps].
  - cbn [js_join]. transitivity (js_split sep (p ++ [])); [by rewrite app_nil_r|].
    rewrite js_split_app_no_sep by done. simpl. by rewrite app_nil_r.
  - change (js_join sep (p :: p' :: ps)) with (p ++ sep :: js_join sep (p' :: ps)).
    rewrite js_split_sep_app by done. by rewrite IH.
Qed.

#[export] Hint Resolve js_length_nonneg : syntaxica.
#[export] Hint Rewrite js_length_app js_to_upper_case_length js_to_upper_case_app
  js_starts_with_app : syntaxica_rw.
