(* ===== verification/Base64.v ===== *)
(** * base64-js: the codec under [useEncoding]

    [src/src/hooks/encoding/encoding.ts] calls [base64.fromByteArray] on
    the gzip output and [base64.toByteArray] on the re-padded parameter.
    The library is not among the sources; this file writes its two
    functions (base64-js 1.5) the way the library does, on byte arrays
    as lists of [Z] and with its bit operations ([>>], [<<], [&], [|]) as
    [Z.shiftr], [Z.shiftl], [Z.land] and [Z.lor]:
    - [fromByteArray]: every three bytes give four characters of the
      alphabet; one or two trailing bytes give two or three characters
      and the padding [==] or [=];
    - [toByteArray]: [getLens] throws unless the length is a multiple of
      4 and finds the first [=]; the byte array has the length
      [_byteLength] computes; each group of four characters gives three
      bytes; one or two placeholders give two or one trailing bytes.
      Characters outside the alphabet read as 0 ([undefined << n]).

    It proves that [toByteArray] inverts [fromByteArray] on bytes, that
    the encoding is the alphabet followed by its padding, and how long it
    is: what [Sharing] needs of the library. *)

From S2P Require Import Prelude.

Module Base64.

Definition code : JsString := js "ABCDEFGHIJKLMNOPQRSTUVWXYZabcdefghijklmnopqrstuvwxyz0123456789+/".

(** [lookup[n]]. *)
Definition lookup (n : Z) : ascii := nth (Z.to_nat n) code "A"%char.

Fixpoint index_of (c : ascii) (s : JsString) : option nat :=
  match s with
  | [] => None
  | c' :: s' => if decide (c' = c) then Some 0%nat else S <$> index_of c s'
  end.

(** [revLookup[c]], with [-] and [_] of URL-safe base64, and
    [undefined] (read as 0 by the shifts) for the other characters. *)
Definition revLookup (c : ascii) : Z :=
  match index_of c code with
  | Some i => Z.of_nat i
  | None => if decide (c = "-"%char) then 62 else if decide (c = "_"%char) then 63 else 0
  end.

(** [revLookup[b64.charCodeAt(i)]]: [NaN] past the end reads as 0 too. *)
Definition rev_at (b64 : JsString) (i : Z) : Z :=
  match b64 !! Z.to_nat i with Some c => revLookup c | None => 0 end.

(** ** [fromByteArray] *)

Definition tripletToBase64 (num : Z) : JsString :=
  [lookup (Z.land (Z.shiftr num 18) 63); lookup (Z.land (Z.shiftr num 12) 63);
   lookup (Z.land (Z.shiftr num 6) 63); lookup (Z.land num 63)].

(** [encodeChunk] on one triple. *)
Definition encodeTriple (x y z : Z) : JsString :=
  tripletToBase64 (Z.land (Z.shiftl x 16) 16711680 + Z.land (Z.shiftl y 8) 65280 + Z.land z 255).

(** The chunks of [maxChunkLength] bytes are joined, so the result is
    the triples' characters in order, then the trailing bytes'. *)
Fixpoint fromByteArray (uint8 : list Z) : JsString :=
  match uint8 with
  | x :: y :: z :: rest => encodeTriple x y z ++ fromByteArray rest
  | [x] => [lookup (Z.shiftr x 2); lookup (Z.land (Z.shiftl x 4) 63); "="%char; "="%char]
  | [x; y] =>
      let tmp := Z.shiftl x 8 + y in
      [lookup (Z.shiftr tmp 10); lookup (Z.land (Z.shiftr tmp 4) 63);
       lookup (Z.land (Z.shiftl tmp 2) 63); "="%char]
  | [] => []
  end.

(** How many [=] end the encoding of [n] bytes. *)
Definition padding_count (n : nat) : nat := ((3 - n mod 3) mod 3)%nat.

(** ** [toByteArray] *)

(** [getLens]: [None] is the thrown "Invalid string" error. *)
Definition getLens (b64 : JsString) : option (Z * Z) :=
  let len := js_length b64 in
  if negb (len mod 4 =? 0) then None
  else
    let validLen := match index_of "="%char b64 with Some i => Z.of_nat i | None => len end in
    Some (validLen, if validLen =? len then 0 else 4 - validLen mod 4).

Definition _byteLength (validLen placeHoldersLen : Z) : Z :=
  (validLen + placeHoldersLen) * 3 / 4 - placeHoldersLen.

Definition quad_bytes (b64 : JsString) (i : Z) : list Z :=
  let tmp := Z.lor (Z.lor (Z.lor (Z.shiftl (rev_at b64 i) 18) (Z.shiftl (rev_at b64 (i + 1)) 12))
                          (Z.shiftl (rev_at b64 (i + 2)) 6)) (rev_at b64 (i + 3)) in
  [Z.land (Z.shiftr tmp 16) 255; Z.land (Z.shiftr tmp 8) 255; Z.land tmp 255].

(** [for (i = 0; i < len; i += 4)]: the bytes pushed and the final [i]. *)
Fixpoint quad_loop (fuel : nat) (b64 : JsString) (i len : Z) : list Z * Z :=
  match fuel with
  | O => ([], i)
  | S fuel' =>
      if i <? len then let '(bs, i') := quad_loop fuel' b64 (i + 4) len in (quad_bytes b64 i ++ bs, i')
      else ([], i)
  end.

Definition tail_bytes (b64 : JsString) (i placeHoldersLen : Z) : list Z :=
  if placeHoldersLen =? 2 then
    [Z.land (Z.lor (Z.shiftl (rev_at b64 i) 2) (Z.shiftr (rev_at b64 (i + 1)) 4)) 255]
  else if placeHoldersLen =? 1 then
    let tmp := Z.lor (Z.lor (Z.shiftl (rev_at b64 i) 10) (Z.shiftl (rev_at b64 (i + 1)) 4))
                     (Z.shiftr (rev_at b64 (i + 2)) 2) in
    [Z.land (Z.shiftr tmp 8) 255; Z.land tmp 255]
  else [].

(** [new Uint8Array(n)] holds [n] zeros ([None]: a negative length
    throws); the writes past its end are dropped.  The loop runs at most
    [length b64] times. *)
Definition toByteArray (b64 : JsString) : option (list Z) :=
  '(validLen, placeHoldersLen) ← getLens b64;
  let n := _byteLength validLen placeHoldersLen in
  if n <? 0 then None
  else
    let len := if 0 <? placeHoldersLen then validLen - 4 else validLen in
    let '(bs, i) := quad_loop (S (List.length b64)) b64 0 len in
    let written := bs ++ tail_bytes b64 i placeHoldersLen in
    Some (take (Z.to_nat n) (written ++ replicate (Z.to_nat n) 0)).

(** ** Arithmetic of the bit operations *)

Definition is_byte (x : Z) : Prop := 0 <= x < 256.

Lemma range_check (n : nat) (f : Z -> bool) :
  forallb (fun k => f (Z.of_nat k)) (seq 0 n) = true -> forall x, 0 <= x < Z.of_nat n -> f x = true.
Proof.
  intros H x Hx. rewrite forallb_forall in H. replace x with (Z.of_nat (Z.to_nat x)) by lia.
  apply H, in_seq. lia.
Qed.

Lemma revLookup_lookup f : 0 <= f < 64 -> revLookup (lookup f) = f.
Proof.
  intros Hf. apply Z.eqb_eq. revert f Hf.
  apply (range_check 64 (fun f => revLookup (lookup f) =? f)). vm_compute. reflexivity.
Qed.

Lemma lookup_not_pad f : 0 <= f < 64 -> lookup f <> "="%char.
Proof.
  intros Hf. apply (bool_decide_eq_false_1 (lookup f = "="%char)), negb_true_iff. revert f Hf.
  apply (range_check 64 (fun f => negb (bool_decide (lookup f = "="%char)))). vm_compute. reflexivity.
Qed.

(** [a << k | b] is a sum when [b] fits in [k] bits. *)
Lemma lor_disjoint a b k : 0 <= k -> 0 <= a -> 0 <= b < 2 ^ k -> Z.lor (a * 2 ^ k) b = a * 2 ^ k + b.
Proof.
  intros Hk Ha Hb.
  assert (Hl : Z.land (a * 2 ^ k) b = 0).
  { apply Z.bits_inj'. intros n Hn. rewrite Z.land_spec, Z.bits_0.
    destruct (Z.lt_ge_cases n k) as [Hnk|Hnk]; [by rewrite Z.mul_pow2_bits_low|].
    destruct (Z.eq_dec b 0) as [->|Hb0]; [by rewrite Z.bits_0, andb_false_r|].
    rewrite (Z.bits_above_log2 b n), andb_false_r; [done|lia|].
    apply Z.log2_lt_pow2; [lia|]. eapply Z.lt_le_trans; [apply Hb|]. apply Z.pow_le_mono_r; lia. }
  pose proof (Z.add_lor_land (a * 2 ^ k) b) as Hs. lia.
Qed.

Lemma shiftr_land_63 n k : 0 <= k -> Z.land (Z.shiftr n k) 63 = (n / 2 ^ k) mod 64.
Proof. intros Hk. change 63 with (Z.ones 6). by rewrite Z.land_ones, Z.shiftr_div_pow2. Qed.

Lemma land_255 n : Z.land n 255 = n mod 256.
Proof. change 255 with (Z.ones 8). by rewrite Z.land_ones. Qed.

Lemma encode_masks x y z : is_byte x -> is_byte y -> is_byte z ->
  Z.land (Z.shiftl x 16) 16711680 + Z.land (Z.shiftl y 8) 65280 + Z.land z 255 = x * 65536 + y * 256 + z.
Proof.
  intros Hx Hy Hz.
  assert (H16 : Z.land (Z.shiftl x 16) 16711680 = x * 65536).
  { apply Z.eqb_eq. revert x Hx. apply (range_check 256 (fun x => Z.land (Z.shiftl x 16) 16711680 =? x * 65536)).
    vm_compute. reflexivity. }
  assert (H8 : Z.land (Z.shiftl y 8) 65280 = y * 256).
  { apply Z.eqb_eq. revert y Hy. apply (range_check 256 (fun y => Z.land (Z.shiftl y 8) 65280 =? y * 256)).
    vm_compute. reflexivity. }
  rewrite H16, H8, land_255, Z.mod_small; [done|unfold is_byte in *; lia].
Qed.

(** Linear arithmetic with division and remainder by constants, and
    powers of 2 with constant exponents. *)
Ltac zdiv := cbn [Z.pow Z.pow_pos Pos.iter Z.mul Pos.mul] in *; Z.div_mod_to_equations; lia.

(** [a | b] is a sum when the low [k] bits of [a] are clear and [b]
    fits in them. *)
Lemma lor_add a b k : 0 <= k -> 0 <= a -> a mod 2 ^ k = 0 -> 0 <= b < 2 ^ k -> Z.lor a b = a + b.
Proof.
  intros Hk Ha Hm Hb. assert (Hp : 0 < 2 ^ k) by (apply Z.pow_pos_nonneg; lia).
  assert (Ha' : a = 2 ^ k * (a / 2 ^ k)) by (apply Z.div_exact; lia).
  rewrite Ha', Z.mul_comm. apply lor_disjoint; [lia| |lia]. apply Z.div_pos; lia.
Qed.

Lemma shiftl_literal a k : 0 <= k -> Z.shiftl a k = a * 2 ^ k.
Proof. apply Z.shiftl_mul_pow2. Qed.

(** Four characters of a triple decode to its three bytes. *)
Lemma triple_roundtrip x y z : is_byte x -> is_byte y -> is_byte z ->
  let num := x * 65536 + y * 256 + z in
  let tmp := Z.lor (Z.lor (Z.lor (Z.shiftl ((num / 262144) mod 64) 18) (Z.shiftl ((num / 4096) mod 64) 12))
                          (Z.shiftl ((num / 64) mod 64) 6)) (num mod 64) in
  [Z.land (Z.shiftr tmp 16) 255; Z.land (Z.shiftr tmp 8) 255; Z.land tmp 255] = [x; y; z].
Proof.
  unfold is_byte. intros Hx Hy Hz. set (num := x * 65536 + y * 256 + z). cbv zeta.
  set (tmp := Z.lor _ (num mod 64)).
  assert (Htmp : tmp = num).
  { unfold tmp. rewrite !shiftl_literal by lia.
    change (2 ^ 18) with 262144. change (2 ^ 12) with 4096. change (2 ^ 6) with 64.
    unfold num. clear tmp num.
    rewrite (lor_add _ (((x * 65536 + y * 256 + z) / 4096) mod 64 * 4096) 18) by zdiv.
    rewrite (lor_add _ (((x * 65536 + y * 256 + z) / 64) mod 64 * 64) 12) by zdiv.
    rewrite (lor_add _ ((x * 65536 + y * 256 + z) mod 64) 6) by zdiv.
    zdiv. }
  rewrite Htmp, !land_255, !Z.shiftr_div_pow2 by lia.
  unfold num. f_equal; [|f_equal; [|f_equal]]; zdiv.
Qed.

(** The two characters of one trailing byte decode to it. *)
Lemma one_byte_roundtrip x : is_byte x ->
  Z.land (Z.lor (Z.shiftl (revLookup (lookup (Z.shiftr x 2))) 2)
                (Z.shiftr (revLookup (lookup (Z.land (Z.shiftl x 4) 63))) 4)) 255 = x.
Proof.
  intros Hx. apply Z.eqb_eq. revert x Hx.
  apply (range_check 256 (fun x => Z.land (Z.lor (Z.shiftl (revLookup (lookup (Z.shiftr x 2))) 2)
            (Z.shiftr (revLookup (lookup (Z.land (Z.shiftl x 4) 63))) 4)) 255 =? x)).
  vm_compute. reflexivity.
Qed.

(** The three characters of two trailing bytes decode to them. *)
Lemma two_bytes_roundtrip x y : is_byte x -> is_byte y ->
  let tmp := Z.shiftl x 8 + y in
  let c0 := Z.shiftr tmp 10 in
  let c1 := Z.land (Z.shiftr tmp 4) 63 in
  let c2 := Z.land (Z.shiftl tmp 2) 63 in
  let tmp' := Z.lor (Z.lor (Z.shiftl c0 10) (Z.shiftl c1 4)) (Z.shiftr c2 2) in
  [Z.land (Z.shiftr tmp' 8) 255; Z.land tmp' 255] = [x; y] /\
  0 <= c0 < 64 /\ 0 <= c1 < 64 /\ 0 <= c2 < 64.
Proof.
  unfold is_byte. intros Hx Hy. cbv zeta.
  rewrite !shiftl_literal, !Z.shiftr_div_pow2 by lia.
  change 63 with (Z.ones 6). rewrite !Z.land_ones by lia. change (Z.ones 6) with 63.
  rewrite (lor_add _ ((((x * 2 ^ 8 + y) / 2 ^ 4) mod 2 ^ 6) * 2 ^ 4) 10) by zdiv.
  rewrite (lor_add _ ((((x * 2 ^ 8 + y) * 2 ^ 2) mod 2 ^ 6) / 2 ^ 2) 4) by zdiv.
  rewrite !land_255. split_and!; [f_equal; [|f_equal]|..]; zdiv.
Qed.

(** ** The shape of the encoding *)

(** Induction on a list by steps of three elements. *)
Lemma list_ind3 {A} (P : list A -> Prop) :
  P [] -> (forall x, P [x]) -> (forall x y, P [x; y]) ->
  (forall x y z l, P l -> P (x :: y :: z :: l)) -> forall l, P l.
Proof.
  intros H0 H1 H2 H3 l. remember (List.length l) as n eqn:Hn.
  revert l Hn. induction n as [n IH] using lt_wf_ind. intros [|x [|y [|z l]]] Hn; auto.
  apply H3, (IH (List.length l)); [cbn in Hn; lia|done].
Qed.

Lemma fromByteArray_app T R :
  (List.length T mod 3 = 0)%nat -> fromByteArray (T ++ R) = fromByteArray T ++ fromByteArray R.
Proof.
  induction T as [|x|x y|x y z T IH] using list_ind3; intros HT; cbn [List.length] in HT; try done.
  cbn [app fromByteArray]. rewrite IH, app_assoc; [done|]. replace (S (S (S (List.length T)))) with (List.length T + 1 * 3)%nat in HT by lia.
  by rewrite Nat.Div0.mod_add in HT.
Qed.

Lemma length_fromByteArray b : List.length (fromByteArray b) = (4 * ((List.length b + 2) / 3))%nat.
Proof.
  induction b as [| | |x y z b IH] using list_ind3; try done.
  cbn [fromByteArray]. rewrite length_app, IH. cbn [List.length]. replace (S (S (S (List.length b))) + 2)%nat with (List.length b + 2 + 1 * 3)%nat by lia.
  rewrite Nat.div_add by lia. cbn. lia.
Qed.

Lemma rev_at_app pre s i : 0 <= i -> rev_at (pre ++ s) (js_length pre + i) = rev_at s i.
Proof.
  intros Hi. unfold rev_at, js_length. rewrite Z2Nat.inj_add, Nat2Z.id by lia.
  by rewrite lookup_app_r, Nat.add_sub' by lia.
Qed.

Lemma rev_at_app0 pre s : rev_at (pre ++ s) (js_length pre) = rev_at s 0.
Proof. rewrite <-(rev_at_app pre s 0), Z.add_0_r; done. Qed.

Lemma rev_at_quad c0 c1 c2 c3 s :
  rev_at (c0 :: c1 :: c2 :: c3 :: s) 0 = revLookup c0 /\ rev_at (c0 :: c1 :: c2 :: c3 :: s) 1 = revLookup c1 /\
  rev_at (c0 :: c1 :: c2 :: c3 :: s) 2 = revLookup c2 /\ rev_at (c0 :: c1 :: c2 :: c3 :: s) 3 = revLookup c3.
Proof. done. Qed.

Lemma mod64_bound n : 0 <= n mod 64 < 64.
Proof. apply Z.mod_pos_bound. lia. Qed.

(** The four characters of a triple, read at its position, give it back. *)
Lemma quad_triple pre x y z s : is_byte x -> is_byte y -> is_byte z ->
  quad_bytes (pre ++ encodeTriple x y z ++ s) (js_length pre) = [x; y; z].
Proof.
  intros Hx Hy Hz. unfold quad_bytes.
  rewrite rev_at_app0, !rev_at_app by lia.
  unfold encodeTriple, tripletToBase64. rewrite encode_masks by done.
  cbn [app]. destruct (rev_at_quad (lookup (Z.land (Z.shiftr (x * 65536 + y * 256 + z) 18) 63))
    (lookup (Z.land (Z.shiftr (x * 65536 + y * 256 + z) 12) 63))
    (lookup (Z.land (Z.shiftr (x * 65536 + y * 256 + z) 6) 63))
    (lookup (Z.land (x * 65536 + y * 256 + z) 63)) s) as (-> & -> & -> & ->).
  rewrite !shiftr_land_63 by lia. change 63 with (Z.ones 6). rewrite Z.land_ones by lia.
  change (Z.ones 6) with 63. change (2 ^ 18) with 262144. change (2 ^ 12) with 4096.
  change (2 ^ 6) with 64. rewrite !revLookup_lookup by apply mod64_bound.
  by apply triple_roundtrip.
Qed.

Lemma length_encodeTriple x y z : js_length (encodeTriple x y z) = 4.
Proof. done. Qed.

(** Every character [lookup] writes is of the alphabet. *)
Lemma lookup_in_code n : lookup n ∈ code.
Proof.
  unfold lookup. destruct (decide (Z.to_nat n < List.length code)%nat) as [Hn|Hn].
  - apply list_elem_of_In, nth_In, Hn.
  - rewrite nth_overflow by lia. apply list_elem_of_In. left. done.
Qed.

Ltac in_code := repeat first [apply Forall_nil_2 | apply Forall_cons_2; [apply lookup_in_code|]].

(** An encoding is characters of the alphabet, then its padding; the
    characters before the padding are [0], [2] or [3] modulo 4 for [0],
    [1] or [2] bytes modulo 3. *)
Lemma fromByteArray_padded b :
  exists p : JsString, fromByteArray b = p ++ replicate (padding_count (List.length b)) "="%char /\
    Forall (fun c => c ∈ code) p /\
    (List.length p mod 4 = match List.length b mod 3 with 0 => 0 | 1 => 2 | _ => 3 end)%nat.
Proof.
  induction b as [|x|x y|x y z b (p & Hp & Hc & Hl)] using list_ind3.
  - by exists [].
  - eexists [_; _]. split_and!; [done|in_code|done].
  - eexists [_; _; _]. split_and!; [done|in_code|done].
  - exists (encodeTriple x y z ++ p). cbn [fromByteArray List.length]. rewrite Hp, app_assoc.
    replace (S (S (S (List.length b)))) with (List.length b + 1 * 3)%nat by lia.
    rewrite length_app. replace (List.length (encodeTriple x y z) + List.length p)%nat
      with (List.length p + 1 * 4)%nat by (cbn; lia).
    unfold padding_count. rewrite !Nat.Div0.mod_add. split_and!; [done| |done].
    apply Forall_app. split; [in_code|done].
Qed.

(** A character outside the alphabet other than [=] is not in an
    encoding. *)
Lemma fromByteArray_excludes b c : c ∉ code -> c <> "="%char -> c ∉ fromByteArray b.
Proof.
  intros Hc He. destruct (fromByteArray_padded b) as (p & -> & Hp & _).
  rewrite elem_of_app, elem_of_replicate, Forall_forall in *. intros [Hin|[-> _]]; [|done].
  by apply Hc, Hp.
Qed.

(** [getLens] throws on a length that is not a multiple of 4. *)
Lemma toByteArray_bad_length b64 : js_length b64 mod 4 <> 0 -> toByteArray b64 = None.
Proof. intros H. unfold toByteArray, getLens. by rewrite (proj2 (Z.eqb_neq _ _) H). Qed.

(** The loop decodes the triples: with its bound [len] in the last group
    of four characters, it reads every triple and stops after them. *)
Lemma quad_loop_from pre b fuel L :
  Forall is_byte b -> (List.length b / 3 < fuel)%nat ->
  L <= 4 * Z.of_nat (List.length b / 3) -> 4 * Z.of_nat (List.length b / 3) - 4 < L ->
  quad_loop fuel (pre ++ fromByteArray b) (js_length pre) (js_length pre + L) =
    (take (3 * (List.length b / 3)) b, js_length pre + 4 * Z.of_nat (List.length b / 3)).
Proof.
  revert pre fuel L.
  induction b as [|x|x y|x y z b IH] using list_ind3; intros pre [|fuel] L Hb Hf HL1 HL2; try (cbn in Hf; lia).
  1-3: cbn [quad_loop]; rewrite (proj2 (Z.ltb_ge _ _)) by (cbn in HL1; lia); cbn; f_equal; lia.
  apply Forall_cons in Hb as [Hx Hb]. apply Forall_cons in Hb as [Hy Hb]. apply Forall_cons in Hb as [Hz Hb].
  replace (List.length (x :: y :: z :: b) / 3)%nat with (S (List.length b / 3)) in *
    by (cbn [List.length]; replace (S (S (S (List.length b)))) with (List.length b + 1 * 3)%nat by lia;
        rewrite Nat.div_add by lia; lia).
  cbn [quad_loop]. rewrite (proj2 (Z.ltb_lt _ _)) by lia.
  cbn [fromByteArray]. rewrite quad_triple by done.
  rewrite app_assoc.
  replace (js_length pre + 4) with (js_length (pre ++ encodeTriple x y z)) by (rewrite js_length_app; done).
  replace (js_length pre + L) with (js_length (pre ++ encodeTriple x y z) + (L - 4))
    by (rewrite js_length_app, length_encodeTriple; lia).
  rewrite IH by (done || lia). rewrite js_length_app, length_encodeTriple.
  replace (3 * S (List.length b / 3))%nat with (3 + 3 * (List.length b / 3))%nat by lia.
  cbn. f_equal. lia.
Qed.

Lemma lookup_land_not_pad n : lookup (Z.land n 63) <> "="%char.
Proof.
  apply lookup_not_pad. change 63 with (Z.ones 6). rewrite Z.land_ones by lia. apply mod64_bound.
Qed.

Lemma shiftr2_bound x : is_byte x -> 0 <= Z.shiftr x 2 < 64.
Proof. unfold is_byte. intros Hx. rewrite Z.shiftr_div_pow2 by lia. zdiv. Qed.

(** Only the padding is [=]. *)
Lemma no_pad_triples T : (List.length T mod 3 = 0)%nat -> "="%char ∉ fromByteArray T.
Proof.
  induction T as [|x|x y|x y z T IH] using list_ind3; intros HT; cbn [List.length] in HT; try (cbn in HT; lia).
  - apply not_elem_of_nil.
  - cbn [fromByteArray]. rewrite elem_of_app. intros [Hin|Hin].
    + unfold encodeTriple, tripletToBase64 in Hin. repeat rewrite elem_of_cons in Hin.
      rewrite elem_of_nil in Hin. repeat destruct Hin as [Hin|Hin]; try done; by apply (lookup_land_not_pad _ (eq_sym Hin)).
    + apply IH; [|done]. replace (S (S (S (List.length T)))) with (List.length T + 1 * 3)%nat in HT by lia.
      by rewrite Nat.Div0.mod_add in HT.
Qed.

Lemma index_of_app_notin c s t : c ∉ s -> index_of c (s ++ t) = Nat.add (List.length s) <$> index_of c t.
Proof.
  induction s as [|c' s IH]; intros Hc; cbn; [by destruct (index_of c t)|].
  rewrite decide_False by (intros ->; apply Hc; left). rewrite IH by (intros ?; apply Hc; by right).
  by destruct (index_of c t).
Qed.

Lemma index_of_notin c s : c ∉ s -> index_of c s = None.
Proof. intros Hc. pose proof (index_of_app_notin c s [] Hc) as H. by rewrite app_nil_r in H. Qed.

(** The tail of one or two bytes, read at its position. *)
Lemma tail_one pre x : is_byte x ->
  tail_bytes (pre ++ [lookup (Z.shiftr x 2); lookup (Z.land (Z.shiftl x 4) 63); "="%char; "="%char])
    (js_length pre) 2 = [x].
Proof.
  intros Hx. unfold tail_bytes. cbn [Z.eqb Pos.eqb]. rewrite rev_at_app0, rev_at_app by lia.
  destruct (rev_at_quad (lookup (Z.shiftr x 2)) (lookup (Z.land (Z.shiftl x 4) 63)) "="%char "="%char [])
    as (-> & -> & _ & _).
  by rewrite one_byte_roundtrip.
Qed.

Lemma tail_two pre x y : is_byte x -> is_byte y ->
  tail_bytes (pre ++ [lookup (Z.shiftr (Z.shiftl x 8 + y) 10); lookup (Z.land (Z.shiftr (Z.shiftl x 8 + y) 4) 63);
                      lookup (Z.land (Z.shiftl (Z.shiftl x 8 + y) 2) 63); "="%char])
    (js_length pre) 1 = [x; y].
Proof.
  intros Hx Hy. unfold tail_bytes. cbn [Z.eqb Pos.eqb]. rewrite rev_at_app0, !rev_at_app by lia.
  destruct (two_bytes_roundtrip x y Hx Hy) as (Hxy & H0 & H1 & H2).
  destruct (rev_at_quad (lookup (Z.shiftr (Z.shiftl x 8 + y) 10)) (lookup (Z.land (Z.shiftr (Z.shiftl x 8 + y) 4) 63))
             (lookup (Z.land (Z.shiftl (Z.shiftl x 8 + y) 2) 63)) "="%char []) as (-> & -> & -> & _).
  by rewrite !revLookup_lookup.
Qed.

Lemma split3 {A} (b : list A) :
  exists T R, b = T ++ R /\ (List.length T mod 3 = 0)%nat /\ (List.length R < 3)%nat.
Proof.
  exists (take (3 * (List.length b / 3)) b), (drop (3 * (List.length b / 3)) b).
  rewrite take_drop, length_take, length_drop. split_and!; [done| |].
  - rewrite Nat.min_l by (apply Nat.Div0.mul_div_le). by rewrite Nat.mul_comm, Nat.Div0.mod_mul.
  - pose proof (Nat.Div0.mul_div_le (List.length b) 3). pose proof (Nat.Div0.mod_le (List.length b) 3).
    rewrite (Nat.div_mod_eq (List.length b) 3) at 1. pose proof (Nat.mod_upper_bound (List.length b) 3). lia.
Qed.

Lemma length_fromByteArray_triples T :
  (List.length T mod 3 = 0)%nat -> js_length (fromByteArray T) = 4 * Z.of_nat (List.length T / 3).
Proof.
  intros HT. unfold js_length. rewrite length_fromByteArray.
  assert (Hq : List.length T = (3 * (List.length T / 3))%nat) by (pose proof (Nat.div_mod_eq (List.length T) 3); lia).
  set (q := (List.length T / 3)%nat) in *. rewrite Hq.
  replace (3 * q + 2)%nat with (2 + q * 3)%nat by lia. rewrite Nat.div_add by lia.
  change (2 / 3)%nat with 0%nat. lia.
Qed.

Lemma quad_loop_from0 b fuel L :
  Forall is_byte b -> (List.length b / 3 < fuel)%nat ->
  L <= 4 * Z.of_nat (List.length b / 3) -> 4 * Z.of_nat (List.length b / 3) - 4 < L ->
  quad_loop fuel (fromByteArray b) 0 L = (take (3 * (List.length b / 3)) b, 4 * Z.of_nat (List.length b / 3)).
Proof. intros. by apply (quad_loop_from [] b fuel L). Qed.

(** What [getLens] finds on an encoding: the [=] after the triples
    and the tail, and the number of placeholders. *)
Lemma getLens_spec s v p :
  js_length s mod 4 = 0 -> (index_of "="%char s = None /\ v = js_length s /\ p = 0 \/
    exists i, index_of "="%char s = Some i /\ v = Z.of_nat i /\ v <> js_length s /\ p = 4 - v mod 4) ->
  getLens s = Some (v, p).
Proof.
  intros Hm Hv. unfold getLens. rewrite Hm. cbn [Z.eqb negb].
  destruct Hv as [(-> & -> & ->)|(i & -> & -> & Hne & ->)]; [by rewrite Z.eqb_refl|].
  by rewrite (proj2 (Z.eqb_neq _ _) Hne).
Qed.

Lemma getLens_tail T R :
  (List.length T mod 3 = 0)%nat -> (List.length R < 3)%nat -> Forall is_byte R ->
  let q := Z.of_nat (List.length T / 3) in
  getLens (fromByteArray T ++ fromByteArray R) =
    Some (match R with [] => (4 * q, 0) | [_] => (4 * q + 2, 2) | _ => (4 * q + 3, 1) end).
Proof.
  intros HT HR HbR q. pose proof (length_fromByteArray_triples T HT) as HfT. fold q in HfT.
  assert (Hn : "="%char ∉ fromByteArray T) by by apply no_pad_triples.
  destruct R as [|x [|y [|z R]]]; cbn [List.length] in HR; try lia;
    (apply getLens_spec; rewrite js_length_app, HfT;
       [unfold js_length; cbn [fromByteArray List.length]; zdiv|]);
    rewrite index_of_app_notin by done; cbn [fromByteArray]; unfold js_length; cbn [List.length].
  - left. split_and!; [done|lia|done].
  - right. apply Forall_cons in HbR as [Hx _].
    cbn [index_of]. rewrite !decide_False by (apply lookup_land_not_pad || (apply lookup_not_pad, shiftr2_bound; done)).
    rewrite decide_True by done. eexists. split; [done|]. unfold js_length in HfT. split_and!; [lia|lia|zdiv].
  - right. apply Forall_cons in HbR as [Hx HbR]. apply Forall_cons in HbR as [Hy _].
    destruct (two_bytes_roundtrip x y Hx Hy) as (_ & H0 & _).
    cbn [index_of]. rewrite !decide_False by (apply lookup_land_not_pad || (apply lookup_not_pad; done)).
    rewrite decide_True by done. eexists. split; [done|]. unfold js_length in HfT. split_and!; [lia|lia|zdiv].
Qed.

(** ** Theorems *)

(** [toByteArray] inverts [fromByteArray] on every byte array. *)
Theorem toByteArray_fromByteArray b : Forall is_byte b -> toByteArray (fromByteArray b) = Some b.
Proof.
  intros Hb. destruct (split3 b) as (T & R & -> & HT & HR).
  pose proof Hb as Hall. apply Forall_app in Hb as [HbT HbR].
  assert (Hk : (List.length (T ++ R) / 3 = List.length T / 3)%nat).
  { rewrite length_app. assert (Hq : List.length T = (3 * (List.length T / 3))%nat)
      by (pose proof (Nat.div_mod_eq (List.length T) 3); lia).
    rewrite Hq at 1. replace (3 * (List.length T / 3) + List.length R)%nat
      with (List.length R + (List.length T / 3) * 3)%nat by lia.
    rewrite Nat.div_add, Nat.div_small by lia. lia. }
  pose proof (fun L => quad_loop_from0 (T ++ R) (S (List.length (fromByteArray (T ++ R)))) L) as Hloop.
  rewrite Hk, fromByteArray_app in Hloop by done.
  unfold toByteArray. rewrite fromByteArray_app, getLens_tail by done.
  assert (HTq : List.length T = (3 * (List.length T / 3))%nat)
    by (pose proof (Nat.div_mod_eq (List.length T) 3); lia).
  set (q := (List.length T / 3)%nat) in *.
  assert (Hfuel : (q < S (List.length (fromByteArray T ++ fromByteArray R)))%nat).
  { pose proof (length_fromByteArray_triples T HT) as HL. fold q in HL. unfold js_length in HL.
    rewrite length_app. lia. }
  pose proof (length_fromByteArray_triples T HT) as HfT. fold q in HfT.
  destruct R as [|x [|y [|z R]]]; cbn [List.length] in HR; try lia; cbn [mbind option_bind];
    (rewrite (proj2 (Z.ltb_ge _ _)) by (unfold _byteLength; zdiv)); cbn [Z.ltb Z.compare].
  - rewrite Hloop by (done || lia). cbn [tail_bytes Z.eqb Pos.eqb]. rewrite !app_nil_r.
    replace (_byteLength _ _) with (Z.of_nat (3 * q)) by (unfold _byteLength; zdiv).
    rewrite Nat2Z.id, (take_ge T), take_app_length'; [done|lia..].
  - rewrite Hloop by (done || lia). rewrite <-HfT. cbn [fromByteArray].
    apply Forall_cons in HbR as [Hx _]. rewrite tail_one by done.
    replace (_byteLength _ _) with (Z.of_nat (3 * q + 1)) by (unfold _byteLength; zdiv).
    rewrite Nat2Z.id, (take_app_length' T) by lia.
    rewrite (take_app_length' (T ++ [x])); [done|rewrite length_app; cbn [List.length]; lia].
  - rewrite Hloop by (done || lia). rewrite <-HfT. cbn [fromByteArray].
    apply Forall_cons in HbR as [Hx HbR]. apply Forall_cons in HbR as [Hy _].
    rewrite tail_two by done.
    replace (_byteLength _ _) with (Z.of_nat (3 * q + 2)) by (unfold _byteLength; zdiv).
    rewrite Nat2Z.id, (take_app_length' T) by lia.
    rewrite (take_app_length' (T ++ [x; y])); [done|rewrite length_app; cbn [List.length]; lia].
Qed.
End Base64.
