(* ===== verification/WordExtraction.v ===== *)
(** * The word before the caret: [getWordBackwards] of [Autocomplete]

    Models [isWhiteSpace] and [getWordBackwards] of
    [src/src/components/autocomplete/autocomplete.component.tsx] and the
    [WordData]/[WordExtraction] records.  The backward [for] loop is a
    structural recursion on the number of iterations left.  The theorems
    compare it with a reference definition ([trailing_word]: the longest
    whitespace-free suffix of the text before the caret), characterise
    the span it returns, and describe what it returns when the caret
    index lies past the end of the text, where [input[i]] is
    [undefined]. *)

From S2P Require Import Prelude.

(** [{ startIndex, length }] of [types/word-data] (not among the
    sources; its fields are those [getWordBackwards] builds). *)
Module WordData.
Record t := mk { startIndex : Z; length : Z }.
End WordData.

(** [types/word-extraction.ts]. *)
Record WordExtraction := mkWordExtraction { word : JsString; wordData : WordData.t }.

(** The class [[\s \r\n]] on one code unit below 256: tab, line feed,
    vertical tab, form feed, carriage return, space, no-break space. *)
Definition is_space_code (a : ascii) : bool :=
  let n := nat_of_ascii a in
  ((9 <=? n) && (n <=? 13))%nat || (n =? 32)%nat || (n =? 160)%nat.

(** [isWhiteSpace = (char) => /[\s \r\n]/.test(char)]: the unanchored
    test succeeds when some code unit of the converted argument is in the
    class. *)
Definition isWhiteSpace (char : JsString) : bool := existsb is_space_code char.

(** The loop [for (i = startIndex - 1; i >= 0; i -= 1)]: [n] is [i + 1],
    the number of iterations left. *)
Fixpoint getWordBackwards_loop (input : JsString) (n : nat) (word : JsString)
    (lastIndex : Z) : JsString * Z :=
  match n with
  | O => (word, lastIndex)
  | S i =>
      let c := js_str_of_char (js_char_at input (Z.of_nat i)) in
      if isWhiteSpace c then (word, lastIndex)
      else getWordBackwards_loop input i (c ++ word) (Z.of_nat i)
  end.

Definition getWordBackwards (input : JsString) (startIndex : Z) : WordExtraction :=
  let '(word, lastIndex) := getWordBackwards_loop input (Z.to_nat startIndex) [] startIndex in
  {| word := word;
     wordData := {| WordData.startIndex := lastIndex;
                    WordData.length := startIndex - lastIndex |} |}.

(** ** Reference: the longest whitespace-free suffix *)

Fixpoint word_prefix (l : JsString) : JsString :=
  match l with
  | [] => []
  | c :: l' => if is_space_code c then [] else c :: word_prefix l'
  end.

Definition trailing_word (s : JsString) : JsString := reverse (word_prefix (reverse s)).

Definition no_space (w : JsString) : Prop := Forall (fun c => is_space_code c = false) w.

(** ** Lemmas *)

Lemma trailing_word_snoc (s : JsString) (c : ascii) :
  trailing_word (s ++ [c]) = if is_space_code c then [] else trailing_word s ++ [c].
Proof.
  unfold trailing_word. rewrite reverse_snoc. simpl.
  destruct (is_space_code c); [done|]. by rewrite reverse_cons.
Qed.

Lemma trailing_word_length (s : JsString) : (List.length (trailing_word s) <= List.length s)%nat.
Proof.
  induction s as [|c s IH] using rev_ind; [done|].
  rewrite trailing_word_snoc, length_app. simpl.
  destruct (is_space_code c); simpl; [lia|]. rewrite length_app. simpl. lia.
Qed.

Lemma trailing_word_no_space (s : JsString) : no_space (trailing_word s).
Proof.
  induction s as [|c s IH] using rev_ind; [constructor|].
  rewrite trailing_word_snoc. destruct (is_space_code c) eqn:E; [constructor|].
  apply Forall_app. split; [done|]. by constructor.
Qed.

(** [trailing_word s] is a suffix of [s], preceded by a separator or by
    the start of [s]. *)
Lemma trailing_word_split (s : JsString) :
  exists pre, s = pre ++ trailing_word s /\
    (pre = [] \/ exists pre' c, pre = pre' ++ [c] /\ is_space_code c = true).
Proof.
  induction s as [|c s IH] using rev_ind; [exists []; auto|].
  rewrite trailing_word_snoc. destruct (is_space_code c) eqn:E.
  - exists (s ++ [c]). rewrite app_nil_r. eauto 6.
  - destruct IH as (pre & Hs & Hpre). exists pre. split; [|done].
    rewrite app_assoc, <- Hs. done.
Qed.

Lemma isWhiteSpace_char (c : ascii) : isWhiteSpace [c] = is_space_code c.
Proof. unfold isWhiteSpace. simpl. apply orb_false_r. Qed.

Lemma isWhiteSpace_undefined : isWhiteSpace js_undefined = false.
Proof. reflexivity. Qed.

(** Inside the text the loop computes the reference word. *)
Lemma getWordBackwards_loop_in_range (input : JsString) (n : nat) (acc : JsString) :
  (n <= List.length input)%nat ->
  getWordBackwards_loop input n acc (Z.of_nat n) =
  (trailing_word (take n input) ++ acc,
   Z.of_nat (n - List.length (trailing_word (take n input)))).
Proof.
  revert acc. induction n as [|i IH]; intros acc Hn; [done|].
  destruct (js_char_at_in_range input (Z.of_nat i)) as (c & Hc & Hl);
    [unfold js_length; lia|].
  rewrite Nat2Z.id in Hl.
  rewrite (take_S_r _ _ c) by done. rewrite trailing_word_snoc.
  cbn [getWordBackwards_loop]. rewrite Hc. cbn [js_str_of_char]. rewrite isWhiteSpace_char.
  destruct (is_space_code c); [simpl; f_equal; lia|].
  rewrite IH by lia. rewrite length_app, <- app_assoc. simpl. f_equal. lia.
Qed.

(** Past the end every iteration prepends the text ["undefined"]. *)
Lemma getWordBackwards_loop_past_end (input : JsString) (k : nat) (acc : JsString) :
  getWordBackwards_loop input (List.length input + k) acc (Z.of_nat (List.length input + k)) =
  getWordBackwards_loop input (List.length input)
    (mjoin (replicate k js_undefined) ++ acc) (Z.of_nat (List.length input)).
Proof.
  revert acc. induction k as [|k IH]; intros acc; [by rewrite Nat.add_0_r|].
  rewrite Nat.add_succ_r. cbn [getWordBackwards_loop].
  rewrite js_char_at_out_of_range by (unfold js_length; lia).
  cbn [js_str_of_char]. rewrite isWhiteSpace_undefined.
  rewrite IH. f_equal. rewrite replicate_S_end, join_app, <- app_assoc.
  f_equal.
Qed.

Lemma getWordBackwards_unfold (input : JsString) (startIndex : Z) :
  getWordBackwards input startIndex =
  let '(w, l) := getWordBackwards_loop input (Z.to_nat startIndex) [] startIndex in
  mkWordExtraction w (WordData.mk l (startIndex - l)).
Proof. reflexivity. Qed.

(** The whole function inside the text, at a natural caret. *)
Lemma getWordBackwards_in_range (input : JsString) (n : nat) :
  (n <= List.length input)%nat ->
  let w := trailing_word (take n input) in
  getWordBackwards input (Z.of_nat n) =
  mkWordExtraction w (WordData.mk (Z.of_nat n - js_length w) (js_length w)).
Proof.
  intros Hn. cbn zeta. rewrite getWordBackwards_unfold, Nat2Z.id.
  pose proof (trailing_word_length (take n input)) as Hl. rewrite length_take in Hl.
  rewrite getWordBackwards_loop_in_range by done.
  rewrite app_nil_r. unfold js_length. simpl. f_equal; f_equal; lia.
Qed.

(** The index the loop stops at lies between 0 and its start. *)
Lemma getWordBackwards_loop_index (input : JsString) (n : nat) (acc : JsString) :
  0 <= (getWordBackwards_loop input n acc (Z.of_nat n)).2 <= Z.of_nat n.
Proof.
  revert acc. induction n as [|i IH]; intros acc; cbn [getWordBackwards_loop]; [simpl; lia|].
  destruct (isWhiteSpace _); [simpl; lia|].
  specialize (IH (js_str_of_char (js_char_at input (Z.of_nat i)) ++ acc)). lia.
Qed.

(** ** Theorems *)

(** C1: for a caret inside the text, [getWordBackwards] returns the
    longest whitespace-free run that ends at the caret, with the span
    [startIndex = caret - |word|] and [length = |word|]. *)
Theorem getWordBackwards_reference (input : JsString) (caret : Z) :
  0 <= caret <= js_length input ->
  getWordBackwards input caret =
  let w := trailing_word (take (Z.to_nat caret) input) in
  mkWordExtraction w (WordData.mk (caret - js_length w) (js_length w)).
Proof.
  intros Hc. destruct (Z_of_nat_complete caret) as [n ->]; [lia|]. rewrite Nat2Z.id.
  apply getWordBackwards_in_range. unfold js_length in Hc. lia.
Qed.

Example getWordBackwards_reference_witness :
  0 <= 6 <= js_length (js "let ap") /\
  getWordBackwards (js "let ap") 6 = mkWordExtraction (js "ap") (WordData.mk 4 2).
Proof.
  split; [vm_compute; split; discriminate|].
  rewrite (getWordBackwards_reference (js "let ap") 6) by (vm_compute; split; discriminate).
  reflexivity.
Defined.

(** The span of the reference word inside the text before the caret. *)
Lemma trailing_word_take_span (input : JsString) (n : nat) :
  (n <= List.length input)%nat ->
  let w := trailing_word (take n input) in
  let k := (n - List.length w)%nat in
  w = take (n - k) (drop k input) /\
  (k = 0%nat \/ (0 < k)%nat /\ exists c, input !! (k - 1)%nat = Some c /\ is_space_code c = true).
Proof.
  intros Hn w k.
  destruct (trailing_word_split (take n input)) as (pre & Hs & Hpre). fold w in Hs, Hpre.
  assert (Hk : k = List.length pre).
  { unfold k. apply (f_equal List.length) in Hs. rewrite length_app, length_take in Hs. lia. }
  split.
  - rewrite take_drop_commute. replace (k + (n - k))%nat with n by lia.
    rewrite Hs, Hk, drop_app_length. done.
  - destruct Hpre as [-> | (pre' & c & -> & Hc)]; [left; simpl in Hk; lia|].
    rewrite length_app in Hk. simpl in Hk. right. split; [lia|]. exists c. split; [|done].
    rewrite <- (lookup_take_lt input n) by lia. rewrite Hs, <- app_assoc.
    apply list_lookup_middle. lia.
Qed.

(** inside the text the returned word is exactly
    [input.substring(startIndex, caret)], the span's length is the word's
    length, the word contains no separator, and it starts at the start of
    the text or right after a separator (it is maximal). *)
Theorem getWordBackwards_span (input : JsString) (caret : Z) :
  0 <= caret <= js_length input ->
  let e := getWordBackwards input caret in
  let s := WordData.startIndex (wordData e) in
  word e = js_substring input s caret /\
  WordData.length (wordData e) = js_length (word e) /\
  no_space (word e) /\
  (s = 0 \/ exists c, js_char_at input (s - 1) = Some c /\ is_space_code c = true).
Proof.
  intros Hc. destruct (Z_of_nat_complete caret) as [n ->]; [lia|].
  unfold js_length in Hc. rewrite getWordBackwards_in_range by lia. cbn zeta. simpl.
  pose proof (trailing_word_length (take n input)) as Hl. rewrite length_take in Hl.
  destruct (trailing_word_take_span input n) as [Hw Hb]; [lia|].
  split; [|split; [done|split; [apply trailing_word_no_space|]]].
  - rewrite js_substring_in_range by (unfold js_length in *; lia).
    unfold js_length. rewrite Hw at 1. f_equal; [lia|f_equal; lia].
  - unfold js_length. destruct Hb as [Hk | (Hk & c & Hi & Hs)]; [left; lia|]. right. exists c.
    split; [|done]. unfold js_char_at. rewrite decide_True by lia.
    rewrite <- Hi. f_equal. lia.
Qed.

Example getWordBackwards_span_witness :
  0 <= 6 <= js_length (js "a  bcd e") /\
  word (getWordBackwards (js "a  bcd e") 6) = js_substring (js "a  bcd e") 3 6.
Proof.
  split; [vm_compute; split; discriminate|].
  destruct (getWordBackwards_span (js "a  bcd e") 6) as (H & _);
    [vm_compute; split; discriminate|].
  rewrite H. vm_compute. reflexivity.
Defined.

(** For a caret past the end of the text (the caret data of the
    editor is older than the text), every index [i >= input.length] reads
    [undefined], which [+] turns into the text ["undefined"]: the word is
    the last word of the text followed by one ["undefined"] per missing
    code unit, while the span still counts one unit per iteration. *)
Theorem getWordBackwards_past_end (input : JsString) (caret : Z) :
  js_length input < caret ->
  let tw := trailing_word input in
  let s := js_length input - js_length tw in
  getWordBackwards input caret =
  mkWordExtraction (tw ++ mjoin (replicate (Z.to_nat (caret - js_length input)) js_undefined))
    (WordData.mk s (caret - s)).
Proof.
  intros Hc tw s. rewrite getWordBackwards_unfold. unfold js_length in *.
  set (k := Z.to_nat (caret - Z.of_nat (List.length input))).
  assert (Hk : caret = Z.of_nat (List.length input + k)) by (unfold k; lia).
  rewrite Hk at 2. replace (Z.to_nat caret) with (List.length input + k)%nat by lia.
  rewrite getWordBackwards_loop_past_end, getWordBackwards_loop_in_range by lia.
  rewrite take_ge by lia. fold tw. unfold s. pose proof (trailing_word_length input) as Hl. fold tw in Hl.
  rewrite app_nil_r. f_equal. f_equal; lia.
Qed.

Example getWordBackwards_past_end_witness :
  js_length (js "ab") < 3 /\
  getWordBackwards (js "ab") 3 = mkWordExtraction (js "abundefined") (WordData.mk 0 3).
Proof.
  split; [reflexivity|].
  rewrite (getWordBackwards_past_end (js "ab") 3) by reflexivity. vm_compute. reflexivity.
Defined.

(** for every text and every caret index, the span ends at the caret
    ([startIndex + length = caret]) and its length lies between 0 and the
    caret (0 for a negative caret). *)
Theorem getWordBackwards_span_bounds (input : JsString) (caret : Z) :
  let wd := wordData (getWordBackwards input caret) in
  WordData.startIndex wd + WordData.length wd = caret /\
  0 <= WordData.length wd <= Z.max 0 caret.
Proof.
  cbn zeta. rewrite getWordBackwards_unfold. simpl. destruct (Z_lt_le_dec caret 0) as [Hn|Hn].
  - replace (Z.to_nat caret) with 0%nat by lia. simpl. lia.
  - pose proof (getWordBackwards_loop_index input (Z.to_nat caret) []) as Hb.
    rewrite Z2Nat.id in Hb by done. destruct (getWordBackwards_loop _ _ _ _). simpl in *. lia.
Qed.
