(* ===== verification/Similarity.v ===== *)
(** * Ranking vocabulary words: [calculateAccuracy] and [findSimilarWords]

    Models [calculateAccuracy], [assemblySuggestionForWords] and
    [findSimilarWords] of
    [src/src/components/autocomplete/autocomplete.component.tsx].
    A JavaScript [Set] built from an iterable is the list of its
    distinct elements in order of first insertion ([js_set_of]); its
    [size] is the list's length.  [Array.prototype.sort] with the
    comparator [(a, b) => b.accuracy - a.accuracy] is stable (ES2019),
    so it is modelled by a stable insertion sort on descending accuracy
    ([sort_desc]); [sort_desc_unique] shows that every stable sort
    returns the same list, which is why the choice of algorithm does not
    matter.  Accuracies are rationals (see the root file for why this is
    exact for the comparisons the code makes). *)

From S2P Require Import Prelude.
From Stdlib Require Import QArith Qfield Sorted Permutation.

(** ** JavaScript sets of code units *)

(** [set.add(c)]. *)
Definition js_set_add (s : list ascii) (c : ascii) : list ascii :=
  if bool_decide (c ∈ s) then s else s ++ [c].

(** [new Set(iterable)]. *)
Definition js_set_of (l : list ascii) : list ascii := fold_left js_set_add l [].

(** [set.has(c)]. *)
Definition js_set_has (s : list ascii) (c : ascii) : bool := bool_decide (c ∈ s).

(** ** Scores *)

(** [types/suggestion-with-accuracy] (not among the sources; its fields
    are those [assemblySuggestionForWords] builds). *)
Module SuggestionWithAccuracy.
Record t := mk { word : JsString; accuracy : Q }.
End SuggestionWithAccuracy.

Definition Qltb (a b : Q) : bool := negb (Qle_bool b a).

(** Closes [q1 <= q2] from a strict hypothesis [q1 < q2] or [q2 < q1]. *)
Ltac qle_of_lt H := apply Qlt_le_weak; exact H.

(** [calculateAccuracy(word1, word2)].  The union is empty only when both
    words are empty, where JavaScript computes [0 / 0 = NaN]; the caller
    never passes an empty input word ([word.length <= 1] returns early)
    and [js_set_of_union_nonempty] shows the union is then non-empty. *)
Definition jaccard (word1Upper word2Upper : JsString) : Q :=
  let set1 := js_set_of word1Upper in
  let set2 := js_set_of word2Upper in
  let intersection := js_set_of (List.filter (fun char => js_set_has set2 char) set1) in
  let union := js_set_of (set1 ++ set2) in
  inject_Z (Z.of_nat (List.length intersection)) / inject_Z (Z.of_nat (List.length union)).

Definition calculateAccuracy (word1 word2 : JsString) : Q :=
  let word1Upper := js_to_upper_case word1 in
  let word2Upper := js_to_upper_case word2 in
  if (List.length word2 <? List.length word1)%nat && js_starts_with word1Upper word2Upper
  then (inject_Z (js_length word2) / inject_Z (js_length word1)) * 2
  else jaccard word1Upper word2Upper.

(** [assemblySuggestionForWords(word1, word2)]: note the swapped
    arguments, the vocabulary word comes first. *)
Definition assemblySuggestionForWords (word1 word2 : JsString) : SuggestionWithAccuracy.t :=
  SuggestionWithAccuracy.mk word2 (calculateAccuracy word2 word1).

(** ** Stable sort on a descending key *)

Section StableSort.
Context {A : Type} (key : A -> Q).

(** [x] goes before the first element whose key is not greater. *)
Fixpoint insert_desc (x : A) (l : list A) : list A :=
  match l with
  | [] => [x]
  | y :: l' => if Qltb (key x) (key y) then y :: insert_desc x l' else x :: y :: l'
  end.

Definition sort_desc (l : list A) : list A := fold_right insert_desc [] l.

Definition desc (a b : A) : Prop := key b <= key a.

Definition key_class (q : Q) (l : list A) : list A := List.filter (fun x => Qeq_bool (key x) q) l.
End StableSort.

(** The threshold [0.6]. *)
Definition threshold : Q := 3 # 5.

(** [findSimilarWords(inputWord, wordsList)]: map, sort, filter. *)
Definition findSimilarWords (inputWord : JsString) (wordsList : list JsString)
    : list SuggestionWithAccuracy.t :=
  List.filter (fun suggestion => Qltb threshold (SuggestionWithAccuracy.accuracy suggestion))
    (sort_desc SuggestionWithAccuracy.accuracy
       (map (fun word => assemblySuggestionForWords inputWord word) wordsList)).

(** ** Lemmas on sets *)

Lemma js_set_add_cases (acc : list ascii) (x : ascii) :
  (x ∈ acc /\ js_set_add acc x = acc) \/ ((x ∉ acc) /\ js_set_add acc x = acc ++ [x]).
Proof. unfold js_set_add. case_bool_decide; auto. Qed.

Lemma js_set_of_acc (l acc : list ascii) :
  NoDup acc ->
  NoDup (fold_left js_set_add l acc) /\
  (forall c, c ∈ fold_left js_set_add l acc <-> c ∈ acc \/ c ∈ l).
Proof.
  revert acc. induction l as [|x l IH]; intros acc Hnd; simpl.
  - split; [done|]. set_solver.
  - destruct (js_set_add_cases acc x) as [[Hx ->]|[Hx ->]].
    + destruct (IH acc Hnd) as [H1 H2]. split; [done|]. intros c. rewrite H2. set_solver.
    + assert (Hnd' : NoDup (acc ++ [x])).
      { apply NoDup_app. split; [done|]. split; [set_solver|]. apply NoDup_singleton. }
      destruct (IH _ Hnd') as [H1 H2]. split; [done|]. intros c. rewrite H2. set_solver.
Qed.

Lemma js_set_of_NoDup (l : list ascii) : NoDup (js_set_of l).
Proof. apply js_set_of_acc, NoDup_nil_2. Qed.

Lemma elem_of_js_set_of (l : list ascii) (c : ascii) : c ∈ js_set_of l <-> c ∈ l.
Proof. unfold js_set_of. rewrite (proj2 (js_set_of_acc l [] NoDup_nil_2)). set_solver. Qed.

(** Folding [add] over elements already present changes nothing. *)
Lemma js_set_add_present (l acc : list ascii) :
  (forall c, c ∈ l -> c ∈ acc) -> fold_left js_set_add l acc = acc.
Proof.
  revert acc. induction l as [|x l IH]; intros acc H; simpl; [done|].
  destruct (js_set_add_cases acc x) as [[Hx ->]|[Hx _]]; [apply IH; set_solver|].
  exfalso. apply Hx, H. set_solver.
Qed.

Lemma js_set_add_fresh (l acc : list ascii) :
  NoDup (acc ++ l) -> fold_left js_set_add l acc = acc ++ l.
Proof.
  revert acc. induction l as [|x l IH]; intros acc Hnd; simpl; [by rewrite app_nil_r|].
  destruct (js_set_add_cases acc x) as [[Hx _]|[Hx ->]].
  - exfalso. apply NoDup_app in Hnd as (_ & Hd & _). specialize (Hd x Hx). set_solver.
  - rewrite IH; [by rewrite <- app_assoc|]. by rewrite <- app_assoc.
Qed.

Lemma js_set_of_NoDup_id (l : list ascii) : NoDup l -> js_set_of l = l.
Proof. intros Hnd. by apply js_set_add_fresh. Qed.

Lemma js_set_of_dup (l : list ascii) : NoDup l -> js_set_of (l ++ l) = l.
Proof.
  intros Hnd. unfold js_set_of. rewrite fold_left_app.
  fold (js_set_of l). rewrite js_set_of_NoDup_id by done.
  by apply js_set_add_present.
Qed.

Lemma filter_all_true {A} (f : A -> bool) (l : list A) :
  (forall x, x ∈ l -> f x = true) -> List.filter f l = l.
Proof.
  induction l as [|x l IH]; intros H; simpl; [done|].
  rewrite H by set_solver. f_equal. apply IH. set_solver.
Qed.

(** ** Lemmas on the score *)

Lemma Qdiv_Z_bounds (a b : Z) : (0 <= a <= b)%Z -> 0 <= inject_Z a / inject_Z b <= 1.
Proof.
  intros Hab. destruct (Z.eq_dec b 0) as [->|Hb].
  - replace a with 0%Z by lia. split; compute; discriminate.
  - split.
    + apply Qle_shift_div_l; [unfold Qlt; simpl; lia|]. rewrite Qmult_0_l. unfold Qle; simpl; lia.
    + apply Qle_shift_div_r; [unfold Qlt; simpl; lia|]. rewrite Qmult_1_l. unfold Qle; simpl; lia.
Qed.

Lemma jaccard_bounds (a b : JsString) : 0 <= jaccard a b <= 1.
Proof.
  unfold jaccard. apply Qdiv_Z_bounds. split; [lia|]. apply inj_le.
  apply NoDup_incl_length; [apply NoDup_ListNoDup, js_set_of_NoDup|].
  intros c Hc. apply list_elem_of_In, elem_of_js_set_of, list_elem_of_In, filter_In in Hc.
  destruct Hc as [Hc _]. apply list_elem_of_In, elem_of_js_set_of.
  apply list_elem_of_In in Hc. set_solver.
Qed.

Lemma jaccard_same (a : JsString) : a <> [] -> jaccard a a == 1.
Proof.
  intros Ha. unfold jaccard.
  rewrite filter_all_true by (intros c Hc; unfold js_set_has; by apply bool_decide_eq_true).
  rewrite js_set_of_NoDup_id, js_set_of_dup by apply js_set_of_NoDup.
  destruct a as [|c a]; [done|].
  assert (Hin : c ∈ js_set_of (c :: a)) by (apply elem_of_js_set_of; set_solver).
  destruct (js_set_of (c :: a)) as [|d s]; [set_solver|].
  apply Qmult_inv_r. unfold Qeq; simpl; lia.
Qed.

(** ** Lemmas on the sort *)

Lemma Qltb_spec (a b : Q) : Qltb a b = true <-> a < b.
Proof.
  unfold Qltb. rewrite negb_true_iff. split.
  - intros H. apply Qnot_le_lt. intros Hle. apply Qle_bool_iff in Hle. congruence.
  - intros H. destruct (Qle_bool b a) eqn:E; [|done].
    apply Qle_bool_iff in E. exfalso. by apply (Qlt_not_le a b).
Qed.

Lemma Qltb_false (a b : Q) : Qltb a b = false <-> b <= a.
Proof.
  unfold Qltb. rewrite negb_false_iff. apply Qle_bool_iff.
Qed.

Section StableSortFacts.
Context {A : Type} (key : A -> Q).
Local Abbreviation insert := (insert_desc key).
Local Abbreviation sort := (sort_desc key).
Local Abbreviation desc := (desc key).
Local Abbreviation cls := (key_class key).

Lemma desc_trans (a b c : A) : desc a b -> desc b c -> desc a c.
Proof. unfold desc. intros H1 H2. eapply Qle_trans; eauto. Qed.

Lemma insert_desc_perm (x : A) (l : list A) : Permutation (insert x l) (x :: l).
Proof.
  induction l as [|y l IH]; simpl; [done|].
  destruct (Qltb (key x) (key y)); [|done].
  rewrite IH. apply perm_swap.
Qed.

Lemma sort_desc_perm (l : list A) : Permutation (sort l) l.
Proof.
  induction l as [|x l IH]; simpl; [done|].
  rewrite insert_desc_perm, IH. done.
Qed.

Lemma insert_desc_sorted (x : A) (l : list A) : Sorted desc l -> Sorted desc (insert x l).
Proof.
  induction 1 as [|y l Hs IH Hd]; simpl; [repeat constructor|].
  destruct (Qltb (key x) (key y)) eqn:E.
  - apply Qltb_spec in E. constructor; [done|].
    destruct l as [|z l]; simpl in *; [constructor; unfold desc; qle_of_lt E|].
    inversion Hd; subst. destruct (Qltb (key x) (key z)); constructor; done || (unfold desc; qle_of_lt E).
  - apply Qltb_false in E. by repeat constructor.
Qed.

Lemma key_class_insert (q : Q) (x : A) (l : list A) :
  cls q (insert x l) = if Qeq_bool (key x) q then x :: cls q l else cls q l.
Proof.
  unfold key_class. induction l as [|y l IH]; simpl; [done|].
  destruct (Qltb (key x) (key y)) eqn:E; simpl; [|done].
  rewrite IH. apply Qltb_spec in E.
  destruct (Qeq_bool (key x) q) eqn:Ex, (Qeq_bool (key y) q) eqn:Ey; try done.
  apply Qeq_bool_iff in Ex, Ey. rewrite Ex, Ey in E. by apply Qlt_irrefl in E.
Qed.

(** Stability: within every class of equal keys the order is kept. *)
Lemma sort_desc_stable (q : Q) (l : list A) : cls q (sort l) = cls q l.
Proof.
  induction l as [|x l IH]; simpl; [done|].
  rewrite key_class_insert, IH. unfold key_class. simpl.
  by destruct (Qeq_bool (key x) q).
Qed.

Lemma sort_desc_sorted (l : list A) : Sorted desc (sort l).
Proof. induction l; simpl; [constructor|]. by apply insert_desc_sorted. Qed.

Lemma key_class_cons (q : Q) (x : A) (l : list A) :
  cls q (x :: l) = if Qeq_bool (key x) q then x :: cls q l else cls q l.
Proof. reflexivity. Qed.

Lemma key_class_In (x : A) (l : list A) : In x l -> In x (cls (key x) l).
Proof. intros H. apply filter_In. split; [done|]. apply Qeq_bool_iff. reflexivity. Qed.

(** Two sorted lists with the same classes of equal keys are equal. *)
Lemma sorted_key_class_unique (l1 l2 : list A) :
  Sorted desc l1 -> Sorted desc l2 -> (forall q, cls q l1 = cls q l2) -> l1 = l2.
Proof.
  intros H1 H2.
  apply (Sorted_StronglySorted desc_trans) in H1, H2.
  revert l2 H2. induction H1 as [|x r1 Hr1 IH Hx1]; intros l2 H2 Hc.
  - destruct l2 as [|y r2]; [done|]. exfalso.
    pose proof (key_class_In y (y :: r2) (or_introl eq_refl)) as Hy.
    rewrite <- Hc in Hy. done.
  - destruct H2 as [|y r2 Hr2 Hy2].
    { exfalso. pose proof (key_class_In x (x :: r1) (or_introl eq_refl)) as Hx.
      rewrite Hc in Hx. done. }
    assert (x = y) as <-.
    { pose proof (Hc (key x)) as Hk. rewrite !key_class_cons in Hk.
      rewrite (proj2 (Qeq_bool_iff _ _) (Qeq_refl _)) in Hk.
      destruct (Qeq_bool (key y) (key x)) eqn:E; [by injection Hk|].
      exfalso. apply Qeq_bool_neq in E. apply E.
      assert (Hxr : In x (cls (key x) r2)) by (rewrite <- Hk; left; done).
      apply filter_In in Hxr as [Hxr _].
      assert (Hyr : In y r1).
      { pose proof (key_class_In y (y :: r2) (or_introl eq_refl)) as Hy.
        rewrite <- Hc in Hy. apply filter_In in Hy as [[Hyx|Hy] _]; [|done].
        subst. contradict E. reflexivity. }
      apply Qle_antisym.
      + rewrite List.Forall_forall in Hx1. by apply Hx1.
      + rewrite List.Forall_forall in Hy2. by apply Hy2. }
    f_equal. apply IH; [done|]. intros q. pose proof (Hc q) as Hq.
    rewrite !key_class_cons in Hq. destruct (Qeq_bool (key x) q); [by injection Hq|done].
Qed.

(** Any stable descending sort returns [sort_desc]. *)
Lemma sort_desc_unique (l l' : list A) :
  Sorted desc l' -> (forall q, cls q l' = cls q l) -> l' = sort l.
Proof.
  intros Hs Hc. apply sorted_key_class_unique; [done|apply sort_desc_sorted|].
  intros q. by rewrite Hc, sort_desc_stable.
Qed.

Lemma filter_comm (f g : A -> bool) (l : list A) :
  List.filter f (List.filter g l) = List.filter g (List.filter f l).
Proof.
  induction l as [|x l IH]; simpl; [done|].
  destruct (g x) eqn:Eg, (f x) eqn:Ef; simpl; rewrite ?Eg, ?Ef, IH; done.
Qed.

Lemma sorted_filter (f : A -> bool) (l : list A) :
  Sorted desc l -> Sorted desc (List.filter f l).
Proof.
  intros H. apply StronglySorted_Sorted. apply (Sorted_StronglySorted desc_trans) in H.
  induction H as [|x l Hl IH Hx]; simpl; [constructor|].
  destruct (f x); [|done]. constructor; [done|].
  apply List.Forall_forall. intros y Hy. apply filter_In in Hy as [Hy _].
  rewrite List.Forall_forall in Hx. by apply Hx.
Qed.

(** Filtering commutes with the stable sort. *)
Lemma filter_sort_desc (f : A -> bool) (l : list A) :
  List.filter f (sort l) = sort (List.filter f l).
Proof.
  apply sort_desc_unique; [apply sorted_filter, sort_desc_sorted|].
  intros q. unfold key_class. rewrite filter_comm.
  fold (cls q (sort l)). rewrite sort_desc_stable. apply filter_comm.
Qed.
End StableSortFacts.

(** ** Theorems *)

Lemma prefix_branch_false (w1 w2 : JsString) :
  (List.length w1 <= List.length w2)%nat ->
  ((List.length w2 <? List.length w1)%nat && js_starts_with (js_to_upper_case w1) (js_to_upper_case w2))
  = false.
Proof. intros H. apply andb_false_intro1. apply Nat.ltb_ge. lia. Qed.

(** a vocabulary word equal to the input word up to case scores
    exactly 1. *)
Theorem calculateAccuracy_same_word (w1 w2 : JsString) :
  js_to_upper_case w1 = js_to_upper_case w2 -> w1 <> [] -> calculateAccuracy w1 w2 == 1.
Proof.
  intros Hu Hne. unfold calculateAccuracy. cbn zeta.
  assert (Hl : List.length w1 = List.length w2)
    by (rewrite <- (js_to_upper_case_length w1), <- (js_to_upper_case_length w2); by f_equal).
  rewrite prefix_branch_false by lia. rewrite Hu. apply jaccard_same.
  intros He. apply Hne. apply nil_length_inv. rewrite <- js_to_upper_case_length, Hu, He. done.
Qed.

Example calculateAccuracy_same_word_witness :
  js_to_upper_case (js "Select") = js_to_upper_case (js "SELECT") /\ js "Select" <> [] /\
  calculateAccuracy (js "Select") (js "SELECT") == 1.
Proof.
  split; [reflexivity|]. split; [discriminate|].
  apply calculateAccuracy_same_word; [reflexivity|discriminate].
Defined.

(** C3: every score lies in [0, 2): the Jaccard branch stays in [0, 1]
    but the prefix branch reaches up to (but not) 2, so scores above 1
    occur (see [calculateAccuracy_query_prefix]). *)
Theorem calculateAccuracy_bounds (w1 w2 : JsString) :
  0 <= calculateAccuracy w1 w2 /\ calculateAccuracy w1 w2 < 2.
Proof.
  unfold calculateAccuracy. cbn zeta.
  destruct (_ && _) eqn:E.
  - apply andb_true_iff in E as [E _]. apply Nat.ltb_lt in E.
    destruct (Qdiv_Z_bounds (js_length w2) (js_length w1)) as [H0 H1];
      [unfold js_length; lia|].
    split.
    + apply (Qmult_le_compat_r 0 _ 2) in H0; [|discriminate]. by rewrite Qmult_0_l in H0.
    + change (inject_Z (js_length w2) / inject_Z (js_length w1) * 2 < 1 * 2).
      apply Qmult_lt_compat_r; [reflexivity|].
      apply Qlt_shift_div_r; [unfold Qlt, js_length; simpl; lia|].
      rewrite Qmult_1_l. unfold Qlt, js_length; simpl; lia.
  - destruct (jaccard_bounds (js_to_upper_case w1) (js_to_upper_case w2)) as [H0 H1].
    split; [done|]. eapply Qle_lt_trans; [exact H1|reflexivity].
Qed.

Lemma Qlt_threshold_ratio (a b : Z) :
  (0 < b)%Z -> threshold < inject_Z (2 * a) / inject_Z b <-> (3 * b < 10 * a)%Z.
Proof.
  intros Hb. split.
  - intros H. destruct (Z_lt_le_dec (3 * b) (10 * a)) as [|Hle]; [done|]. exfalso.
    apply (Qlt_not_le _ _ H). apply Qle_shift_div_r; [unfold Qlt; simpl; lia|].
    unfold Qle, threshold; simpl. lia.
  - intros H. apply Qlt_shift_div_l; [unfold Qlt; simpl; lia|].
    unfold Qlt, threshold; simpl. lia.
Qed.

Lemma upper_prefix_length (q v t : JsString) :
  js_to_upper_case v = js_to_upper_case q ++ t ->
  List.length v = (List.length q + List.length t)%nat.
Proof.
  intros H. rewrite <- (js_to_upper_case_length v), <- (js_to_upper_case_length q), H.
  apply length_app.
Qed.

(** C4: when the input word is a proper case-insensitive prefix of a
    vocabulary word (the ordinary autocompletion case), the code takes
    the prefix branch with the vocabulary word as [word1]: the score is
    [2 |input| / |candidate|], and the candidate is offered exactly when
    [3 |candidate| < 10 |input|].  The specification states the prefix
    branch for the opposite case (input longer than candidate). *)
Theorem calculateAccuracy_query_prefix (q v t : JsString) :
  js_to_upper_case v = js_to_upper_case q ++ t -> t <> [] ->
  let a := SuggestionWithAccuracy.accuracy (assemblySuggestionForWords q v) in
  a == inject_Z (2 * js_length q) / inject_Z (js_length v) /\
  (Qltb threshold a = true <-> (3 * js_length v < 10 * js_length q)%Z).
Proof.
  intros Hv Ht a. pose proof (upper_prefix_length q v t Hv) as Hl.
  assert (Hlt : (List.length q < List.length v)%nat)
    by (destruct t; [done|]; simpl in Hl; lia).
  assert (Ha : a == inject_Z (2 * js_length q) / inject_Z (js_length v)).
  { unfold a, assemblySuggestionForWords, calculateAccuracy. simpl.
    rewrite Hv, js_starts_with_app, (proj2 (Nat.ltb_lt _ _) Hlt). simpl.
    rewrite inject_Z_mult. field. unfold Qeq, js_length; simpl; lia. }
  split; [done|]. rewrite Qltb_spec, Ha. apply Qlt_threshold_ratio. unfold js_length; lia.
Qed.

Example calculateAccuracy_query_prefix_witness :
  js_to_upper_case (js "apple") = js_to_upper_case (js "ap") ++ js "PLE" /\ js "PLE" <> [] /\
  SuggestionWithAccuracy.accuracy (assemblySuggestionForWords (js "ap") (js "apple")) == 4 # 5.
Proof.
  split; [reflexivity|]. split; [discriminate|].
  destruct (calculateAccuracy_query_prefix (js "ap") (js "apple") (js "PLE")) as [H _];
    [reflexivity|discriminate|].
  rewrite H. reflexivity.
Defined.

(** when a vocabulary word is a case-insensitive prefix of the input
    word (the case the specification gives the prefix bonus
    [2 |candidate| / |input|]), the code scores it by the Jaccard index
    of the character sets, which never exceeds 1. *)
Theorem calculateAccuracy_candidate_prefix (q v t : JsString) :
  js_to_upper_case q = js_to_upper_case v ++ t ->
  let a := SuggestionWithAccuracy.accuracy (assemblySuggestionForWords q v) in
  a == jaccard (js_to_upper_case v) (js_to_upper_case q) /\ a <= 1.
Proof.
  intros Hq a. pose proof (upper_prefix_length v q t Hq) as Hl.
  assert (Ha : a = jaccard (js_to_upper_case v) (js_to_upper_case q)).
  { unfold a, assemblySuggestionForWords, calculateAccuracy. simpl.
    by rewrite prefix_branch_false by lia. }
  rewrite Ha. split; [reflexivity|]. apply jaccard_bounds.
Qed.

Example calculateAccuracy_candidate_prefix_witness :
  js_to_upper_case (js "selects") = js_to_upper_case (js "select") ++ js "S" /\
  SuggestionWithAccuracy.accuracy (assemblySuggestionForWords (js "selects") (js "select")) == 1.
Proof.
  split; [reflexivity|].
  destruct (calculateAccuracy_candidate_prefix (js "selects") (js "select") (js "S")) as [H _];
    [reflexivity|].
  rewrite H. vm_compute. reflexivity.
Defined.

Definition above_threshold (s : SuggestionWithAccuracy.t) : bool :=
  Qltb threshold (SuggestionWithAccuracy.accuracy s).

Lemma findSimilarWords_filter_first (q : JsString) (vs : list JsString) :
  findSimilarWords q vs =
  sort_desc SuggestionWithAccuracy.accuracy
    (List.filter above_threshold (map (assemblySuggestionForWords q) vs)).
Proof. apply filter_sort_desc. Qed.

(** C5: [findSimilarWords] returns exactly the list that is sorted by
    non-increasing accuracy and keeps, within each accuracy, the
    vocabulary order of the suggestions scoring above 0.6.  Since this
    list is unique, any stable sort (the engine's [Array.prototype.sort])
    gives the same result as the insertion sort of the model. *)
Theorem findSimilarWords_stable_sort (q : JsString) (vs : list JsString)
    (l : list SuggestionWithAccuracy.t) :
  l = findSimilarWords q vs <->
  Sorted (desc SuggestionWithAccuracy.accuracy) l /\
  (forall c, key_class SuggestionWithAccuracy.accuracy c l =
             key_class SuggestionWithAccuracy.accuracy c
               (List.filter above_threshold (map (assemblySuggestionForWords q) vs))).
Proof.
  rewrite findSimilarWords_filter_first. split.
  - intros ->. split; [apply sort_desc_sorted|]. intros c. apply sort_desc_stable.
  - intros [Hs Hc]. by apply sort_desc_unique.
Qed.

(** a word is offered for the input [q] exactly when it is in the
    vocabulary and its score against [q] is above 0.6. *)
Theorem findSimilarWords_offered (q w : JsString) (vs : list JsString) :
  In w (map SuggestionWithAccuracy.word (findSimilarWords q vs)) <->
  In w vs /\ threshold < calculateAccuracy w q.
Proof.
  rewrite findSimilarWords_filter_first. rewrite in_map_iff. split.
  - intros (s & <- & Hs). apply (Permutation_in _ (sort_desc_perm _ _)) in Hs.
    apply filter_In in Hs as [Hs Ht]. apply in_map_iff in Hs as (v & <- & Hv).
    split; [done|]. by apply Qltb_spec.
  - intros [Hw Ht]. exists (assemblySuggestionForWords q w). split; [done|].
    apply (Permutation_in _ (Permutation_sym (sort_desc_perm _ _))). apply filter_In. split.
    + by apply in_map.
    + by apply Qltb_spec.
Qed.
