(* ===== verification/Selection.v ===== *)
(** * The suggestion popup: state and handlers of [Autocomplete]

    Models the React state of [Autocomplete]
    ([src/src/components/autocomplete/autocomplete.component.tsx]), the
    body of its debounced effect ([tick]), its key handlers, the option
    click and the re-render that rebuilds memoised callbacks.

    React semantics made explicit:
    - every handler reads the state of the render its closure was built
      in and emits [setX] calls ([Update]s) that are applied in order
      after the event ([commit]), then the component re-renders;
    - [handleUpKey], [handleDownKey], [handleEscapeKey] and
      [handleCtrlEnterKey] are [useCallback]s whose only dependency is
      [selectedOption]: they are rebuilt only at a render where
      [selectedOption] changed, and until then they see the
      [currentSuggestions] of that render ([navSuggestions]).
      [handleEnterKey] lists all the state it reads and always sees the
      current state;
    - the [useEffect] on [currentWordData] clears the suggestions after a
      render at which the word data became [undefined].

    The theorems give the tick's outcome on every branch, the one-tick
    suppression after an accept, the cyclic navigation when the memoised
    handlers are up to date, the invariant every reachable state
    satisfies, and two reachable states that break the specification's
    popup invariant because of the stale handlers. *)

From S2P Require Import Prelude WordExtraction Similarity.

Module Autocomplete.

(** [event.key] and [event.ctrlKey] of a DOM [KeyboardEvent]. *)
Record KeyboardEvent := mkKeyboardEvent { key : JsString; ctrlKey : bool }.

(** The five [useState]s, and the dependency and captured suggestions of
    the callbacks memoised on [[selectedOption]]. *)
Record State := mkState {
  currentSuggestions : list JsString;
  currentWordData : option WordData.t;
  shouldShowModal : bool;
  selectedOption : Z;
  shouldSkipNextChange : bool;
  navDep : Z;
  navSuggestions : list JsString
}.

(** The first render: [useState] initial values; the memo is built with
    them. *)
Definition initial : State := mkState [] None false (-1) false (-1) [].

(** The state setters called by the handlers. *)
Inductive Update :=
  | SetCurrentSuggestions (l : list JsString)
  | SetCurrentWordData (w : option WordData.t)
  | SetShouldShowModal (b : bool)
  | SetSelectedOption (i : Z)
  | SetShouldSkipNextChange (b : bool).

Definition apply_update (s : State) (u : Update) : State :=
  match u with
  | SetCurrentSuggestions l =>
      mkState l (currentWordData s) (shouldShowModal s) (selectedOption s)
        (shouldSkipNextChange s) (navDep s) (navSuggestions s)
  | SetCurrentWordData w =>
      mkState (currentSuggestions s) w (shouldShowModal s) (selectedOption s)
        (shouldSkipNextChange s) (navDep s) (navSuggestions s)
  | SetShouldShowModal b =>
      mkState (currentSuggestions s) (currentWordData s) b (selectedOption s)
        (shouldSkipNextChange s) (navDep s) (navSuggestions s)
  | SetSelectedOption i =>
      mkState (currentSuggestions s) (currentWordData s) (shouldShowModal s) i
        (shouldSkipNextChange s) (navDep s) (navSuggestions s)
  | SetShouldSkipNextChange b =>
      mkState (currentSuggestions s) (currentWordData s) (shouldShowModal s)
        (selectedOption s) b (navDep s) (navSuggestions s)
  end.

(** A render: [useCallback(fn, [selectedOption])] rebuilds its closure
    when the dependency changed. *)
Definition render (s : State) : State :=
  if decide (navDep s = selectedOption s) then s
  else mkState (currentSuggestions s) (currentWordData s) (shouldShowModal s)
         (selectedOption s) (shouldSkipNextChange s) (selectedOption s) (currentSuggestions s).

(** [useEffect(() => { if (currentWordData !== undefined) return;
    setCurrentSuggestions([]); }, [currentWordData])], run after a render
    at which [currentWordData] changed. *)
Definition wordDataEffect (before after : State) : State :=
  match currentWordData before, currentWordData after with
  | Some _, None => render (apply_update after (SetCurrentSuggestions []))
  | _, _ => after
  end.

(** The batch of one event, the re-render and the effect. *)
Definition commit (s : State) (us : list Update) : State :=
  wordDataEffect s (render (fold_left apply_update us s)).

(** What a handler asks of the outside world: [event.preventDefault()],
    a call [onSuggestionAccept(suggestion, wordData)] (the suggestion is
    [undefined] when the index is out of range) and
    [textAreaElement?.focus()]. *)
Record Output := mkOutput {
  prevented : bool;
  accepted : option (option JsString * option WordData.t);
  focused : bool
}.

Definition no_output : Output := mkOutput false None false.
Definition prevent : Output := mkOutput true None false.

(** The debounced callback, for the props [code], [caretData.index] and
    [keywords] of its render. *)
Definition tick (code : JsString) (caretIndex : Z) (keywords : list JsString) (s : State)
    : list Update :=
  [SetCurrentSuggestions []; SetShouldShowModal false] ++
  if shouldSkipNextChange s then [SetShouldSkipNextChange false; SetCurrentWordData None]
  else
    let e := getWordBackwards code caretIndex in
    if decide (js_length (word e) <= 1) then []
    else
      let suggestions := map SuggestionWithAccuracy.word (findSimilarWords (word e) keywords) in
      [SetCurrentSuggestions suggestions;
       SetSelectedOption (if decide (List.length suggestions <> 0%nat) then 0 else -1);
       SetCurrentWordData (Some (wordData e));
       SetShouldShowModal (bool_decide (List.length suggestions <> 0%nat))].

Definition handleEnterKey (s : State) : list Update * Output :=
  ([SetShouldSkipNextChange true],
   mkOutput true (Some (js_index (currentSuggestions s) (selectedOption s), currentWordData s)) false).

(** Reads [currentSuggestions] through its stale closure. *)
Definition handleUpKey (s : State) : list Update * Output :=
  let newSelectedOption := selectedOption s - 1 in
  let newSelectedOption :=
    if decide (newSelectedOption < 0) then Z.of_nat (List.length (navSuggestions s)) - 1
    else newSelectedOption in
  ([SetSelectedOption newSelectedOption], prevent).

Definition handleDownKey (s : State) : list Update * Output :=
  let newSelectedOption := selectedOption s + 1 in
  let newSelectedOption :=
    if decide (newSelectedOption > Z.of_nat (List.length (navSuggestions s)) - 1) then 0
    else newSelectedOption in
  ([SetSelectedOption newSelectedOption], prevent).

Definition handleEscapeKey (s : State) : list Update * Output :=
  ([SetShouldShowModal false], prevent).

Definition handleCtrlEnterKey (s : State) : list Update * Output :=
  ([SetShouldShowModal (bool_decide (List.length (navSuggestions s) <> 0%nat))], prevent).

Definition handleOptionClick (index : Z) (s : State) : list Update * Output :=
  ([SetShouldSkipNextChange true],
   mkOutput false (Some (js_index (currentSuggestions s) index, currentWordData s)) true).

(** Two handlers called one after the other on the same event. *)
Definition seq_handlers (a b : list Update * Output) : list Update * Output :=
  (a.1 ++ b.1,
   mkOutput (prevented a.2 || prevented b.2)
     (match accepted b.2 with Some x => Some x | None => accepted a.2 end)
     (focused a.2 || focused b.2)).

Definition when_key (b : bool) (h : list Update * Output) : list Update * Output :=
  if b then h else ([], no_output).

Definition key_is (event : KeyboardEvent) (name : string) : bool :=
  bool_decide (key event = js name).

Definition handleKeyDownEvent (event : KeyboardEvent) (s : State) : list Update * Output :=
  if shouldShowModal s then
    seq_handlers (when_key (key_is event "Enter") (handleEnterKey s))
      (seq_handlers (when_key (key_is event "ArrowUp") (handleUpKey s))
        (seq_handlers (when_key (key_is event "ArrowDown") (handleDownKey s))
          (when_key (key_is event "Escape") (handleEscapeKey s))))
  else if ctrlKey event && key_is event "Enter" then handleCtrlEnterKey s
  else ([], no_output).

(** The events the component reacts to. *)
Inductive Event :=
  | Tick (code : JsString) (caretIndex : Z) (keywords : list JsString)
  | KeyDown (event : KeyboardEvent)
  | OptionClick (index : Z).

Definition handle (ev : Event) (s : State) : list Update * Output :=
  match ev with
  | Tick code caretIndex keywords => (tick code caretIndex keywords s, no_output)
  | KeyDown event => handleKeyDownEvent event s
  | OptionClick index => handleOptionClick index s
  end.

Definition step (s : State) (ev : Event) : State * Output :=
  let '(us, out) := handle ev s in (commit s us, out).

Fixpoint run (s : State) (evs : list Event) : State * list Output :=
  match evs with
  | [] => (s, [])
  | ev :: evs' =>
      let '(s1, o) := step s ev in
      let '(s2, os) := run s1 evs' in (s2, o :: os)
  end.

Inductive reachable : State -> Prop :=
  | reachable_initial : reachable initial
  | reachable_step s ev : reachable s -> reachable (step s ev).1.

(** ** The popup as rendered *)

(** An [<li>] of [assemblyOption]: its text and whether it has the
    selected class. *)
Record OptionView := mkOptionView { option_text : JsString; option_selected : bool }.

Definition assemblyOption (s : State) (value : JsString) (index : Z) : OptionView :=
  mkOptionView value (bool_decide (selectedOption s = index)).

(** [getOptions()]: one [<li>] per current suggestion. *)
Definition getOptions (s : State) : list OptionView :=
  imap (fun index suggestion => assemblyOption s suggestion (Z.of_nat index)) (currentSuggestions s).

(** The modal [<div hidden={!shouldShowModal}>] and its list (its
    position, computed from the caret and the text area's rectangle, is
    styling). *)
Record ModalView := mkModalView { modal_hidden : bool; modal_options : list OptionView }.

Definition render_modal (s : State) : ModalView := mkModalView (negb (shouldShowModal s)) (getOptions s).

(** ** Lemmas *)

Create Rewrite HintDb autocomplete_rw.

Section Fields.
Context (s : State).

Lemma render_currentSuggestions : currentSuggestions (render s) = currentSuggestions s.
Proof. unfold render. by case_decide. Qed.
Lemma render_currentWordData : currentWordData (render s) = currentWordData s.
Proof. unfold render. by case_decide. Qed.
Lemma render_shouldShowModal : shouldShowModal (render s) = shouldShowModal s.
Proof. unfold render. by case_decide. Qed.
Lemma render_selectedOption : selectedOption (render s) = selectedOption s.
Proof. unfold render. by case_decide. Qed.
Lemma render_shouldSkipNextChange : shouldSkipNextChange (render s) = shouldSkipNextChange s.
Proof. unfold render. by case_decide. Qed.
Lemma render_navDep : navDep (render s) = selectedOption s.
Proof. unfold render. by case_decide. Qed.
End Fields.

#[export] Hint Rewrite render_currentSuggestions render_currentWordData render_shouldShowModal
  render_selectedOption render_shouldSkipNextChange render_navDep : autocomplete_rw.

(** The effect on [currentWordData] only ever clears the suggestions. *)
Lemma wordDataEffect_cases (b a : State) :
  wordDataEffect b a = a \/
  (currentWordData a = None /\
   wordDataEffect b a = render (apply_update a (SetCurrentSuggestions []))).
Proof.
  unfold wordDataEffect. destruct (currentWordData b), (currentWordData a); auto.
Qed.

(** Reading the state back after a commit. *)
Ltac commit_simpl :=
  repeat match goal with
  | |- context [wordDataEffect ?b ?a] =>
      let E := fresh "E" in
      destruct (wordDataEffect_cases b a) as [E|[? E]]; rewrite E; clear E
  end; cbn [fold_left apply_update] in *; autorewrite with autocomplete_rw in *; simpl in *.

Lemma step_unfold (s : State) (ev : Event) :
  step s ev = (commit s (handle ev s).1, (handle ev s).2).
Proof. unfold step. by destruct (handle ev s). Qed.

Lemma reachable_run (s : State) (evs : list Event) : reachable s -> reachable (run s evs).1.
Proof.
  revert s. induction evs as [|ev evs IH]; intros s Hs; simpl; [done|].
  destruct (step s ev) as [s1 o] eqn:E. destruct (run s1 evs) as [s2 os] eqn:E2. simpl.
  replace s2 with (run s1 evs).1 by (by rewrite E2). apply IH.
  replace s1 with (step s ev).1 by (by rewrite E). by constructor.
Qed.

(** Dispatch of [handleKeyDownEvent] on the four keys. *)

Lemma key_is_true (name : string) (ctrl : bool) :
  key_is (mkKeyboardEvent (js name) ctrl) name = true.
Proof. by apply bool_decide_eq_true_2. Qed.

Lemma key_is_false (name name' : string) (ctrl : bool) :
  js name <> js name' -> key_is (mkKeyboardEvent (js name) ctrl) name' = false.
Proof. intros H. by apply bool_decide_eq_false_2. Qed.

Lemma seq_handlers_nil_r (h : list Update * Output) : seq_handlers h ([], no_output) = h.
Proof. destruct h as [us [p a f]]. unfold seq_handlers. simpl. by rewrite app_nil_r, !orb_false_r. Qed.

Lemma seq_handlers_nil_l (h : list Update * Output) : seq_handlers ([], no_output) h = h.
Proof. destruct h as [us [p a f]]. unfold seq_handlers. simpl. by destruct a. Qed.

Ltac dispatch_key :=
  unfold when_key;
  repeat first [ rewrite key_is_true | rewrite key_is_false by discriminate ];
  rewrite ?seq_handlers_nil_r, ?seq_handlers_nil_l.

Lemma keydown_enter_shown (s : State) (ctrl : bool) :
  shouldShowModal s = true ->
  handleKeyDownEvent (mkKeyboardEvent (js "Enter") ctrl) s = handleEnterKey s.
Proof. intros H. unfold handleKeyDownEvent. rewrite H. by dispatch_key. Qed.

Lemma keydown_up_shown (s : State) :
  shouldShowModal s = true ->
  handleKeyDownEvent (mkKeyboardEvent (js "ArrowUp") false) s = handleUpKey s.
Proof. intros H. unfold handleKeyDownEvent. rewrite H. by dispatch_key. Qed.

Lemma keydown_down_shown (s : State) :
  shouldShowModal s = true ->
  handleKeyDownEvent (mkKeyboardEvent (js "ArrowDown") false) s = handleDownKey s.
Proof. intros H. unfold handleKeyDownEvent. rewrite H. by dispatch_key. Qed.

Lemma keydown_escape_shown (s : State) :
  shouldShowModal s = true ->
  handleKeyDownEvent (mkKeyboardEvent (js "Escape") false) s = handleEscapeKey s.
Proof. intros H. unfold handleKeyDownEvent. rewrite H. by dispatch_key. Qed.

Lemma keydown_ctrl_enter_hidden (s : State) :
  shouldShowModal s = false ->
  handleKeyDownEvent (mkKeyboardEvent (js "Enter") true) s = handleCtrlEnterKey s.
Proof. intros H. unfold handleKeyDownEvent. rewrite H, key_is_true. done. Qed.

(** ** Theorems *)

(** The three branches of the debounced callback, through the commit. *)
Lemma tick_skip (s : State) (code : JsString) (caret : Z) (kws : list JsString) :
  shouldSkipNextChange s = true ->
  let s' := (step s (Tick code caret kws)).1 in
  shouldSkipNextChange s' = false /\ currentSuggestions s' = [] /\ shouldShowModal s' = false /\
  currentWordData s' = None /\ selectedOption s' = selectedOption s.
Proof.
  intros Hskip. cbn zeta. rewrite step_unfold. simpl. unfold commit, tick. rewrite Hskip.
  commit_simpl; by repeat split.
Qed.

Lemma tick_short (s : State) (code : JsString) (caret : Z) (kws : list JsString) :
  shouldSkipNextChange s = false -> js_length (word (getWordBackwards code caret)) <= 1 ->
  let s' := (step s (Tick code caret kws)).1 in
  shouldSkipNextChange s' = false /\ currentSuggestions s' = [] /\ shouldShowModal s' = false /\
  currentWordData s' = currentWordData s /\ selectedOption s' = selectedOption s.
Proof.
  intros Hskip Hle. cbn zeta. rewrite step_unfold. simpl. unfold commit, tick. rewrite Hskip.
  rewrite decide_True by done. commit_simpl; by repeat split.
Qed.

Lemma tick_ranked (s : State) (code : JsString) (caret : Z) (kws : list JsString) :
  shouldSkipNextChange s = false -> 1 < js_length (word (getWordBackwards code caret)) ->
  let s' := (step s (Tick code caret kws)).1 in
  let e := getWordBackwards code caret in
  let sugg := map SuggestionWithAccuracy.word (findSimilarWords (word e) kws) in
  shouldSkipNextChange s' = false /\
  currentSuggestions s' = sugg /\ shouldShowModal s' = bool_decide (sugg <> []) /\
  currentWordData s' = Some (wordData e) /\
  selectedOption s' = (if decide (sugg = []) then -1 else 0).
Proof.
  intros Hskip Hgt. cbn zeta. rewrite step_unfold. simpl. unfold commit, tick. rewrite Hskip.
  rewrite decide_False by lia. set (sugg := map SuggestionWithAccuracy.word _).
  commit_simpl; try congruence; repeat split; try done; destruct sugg; simpl; done.
Qed.

(** C6: the outcome of the debounced callback on each of its branches.
    With the skip flag set it clears the flag, the suggestions and the
    word data and hides the popup; for a word of at most one code unit
    it clears the suggestions and hides the popup but keeps the selected
    index and the word data; otherwise it stores the ranked words, selects
    the first one (or [-1] for none), stores the span and shows the popup
    exactly when there is a suggestion. *)
Theorem tick_outcome (s : State) (code : JsString) (caret : Z) (kws : list JsString) :
  let s' := (step s (Tick code caret kws)).1 in
  let e := getWordBackwards code caret in
  let sugg := map SuggestionWithAccuracy.word (findSimilarWords (word e) kws) in
  shouldSkipNextChange s' = false /\
  (shouldSkipNextChange s = true ->
     currentSuggestions s' = [] /\ shouldShowModal s' = false /\ currentWordData s' = None /\
     selectedOption s' = selectedOption s) /\
  (shouldSkipNextChange s = false -> js_length (word e) <= 1 ->
     currentSuggestions s' = [] /\ shouldShowModal s' = false /\
     currentWordData s' = currentWordData s /\ selectedOption s' = selectedOption s) /\
  (shouldSkipNextChange s = false -> 1 < js_length (word e) ->
     currentSuggestions s' = sugg /\ shouldShowModal s' = bool_decide (sugg <> []) /\
     currentWordData s' = Some (wordData e) /\
     selectedOption s' = (if decide (sugg = []) then -1 else 0)).
Proof.
  cbn zeta. destruct (shouldSkipNextChange s) eqn:Hskip.
  - destruct (tick_skip s code caret kws Hskip) as (? & ? & ? & ? & ?).
    repeat split; intros; by try discriminate.
  - destruct (decide (js_length (word (getWordBackwards code caret)) <= 1)) as [Hle|Hgt].
    + destruct (tick_short s code caret kws Hskip Hle) as (? & ? & ? & ? & ?).
      repeat split; intros; try done; lia.
    + destruct (tick_ranked s code caret kws Hskip ltac:(lia)) as (? & ? & ? & ? & ?).
      repeat split; intros; try done; lia.
Qed.


Definition enter (ctrl : bool) : Event := KeyDown (mkKeyboardEvent (js "Enter") ctrl).
Definition arrow_down : Event := KeyDown (mkKeyboardEvent (js "ArrowDown") false).
Definition arrow_up : Event := KeyDown (mkKeyboardEvent (js "ArrowUp") false).

(** C7: pressing Enter while the popup is shown prevents the default
    action and accepts the highlighted entry with the stored span; the
    next debounced tick then computes nothing: it clears the suggestions
    and the span, hides the popup and resets the skip flag, so the
    suppression lasts exactly one tick. *)
Theorem enter_then_tick_suppressed (s : State) (ctrl : bool) (code : JsString) (caret : Z)
    (kws : list JsString) :
  shouldShowModal s = true ->
  let r := step s (enter ctrl) in
  prevented r.2 = true /\
  accepted r.2 = Some (js_index (currentSuggestions s) (selectedOption s), currentWordData s) /\
  shouldSkipNextChange r.1 = true /\
  let s2 := (step r.1 (Tick code caret kws)).1 in
  currentSuggestions s2 = [] /\ shouldShowModal s2 = false /\
  currentWordData s2 = None /\ shouldSkipNextChange s2 = false.
Proof.
  intros Hshow r.
  assert (Hr : r = (commit s [SetShouldSkipNextChange true],
                    mkOutput true (Some (js_index (currentSuggestions s) (selectedOption s),
                                         currentWordData s)) false)).
  { unfold r. rewrite step_unfold. unfold enter. cbn [fst snd handle].
    by rewrite keydown_enter_shown. }
  rewrite Hr. cbn [fst snd prevented accepted].
  set (s1 := commit s [SetShouldSkipNextChange true]).
  assert (Hs1 : shouldSkipNextChange s1 = true) by (unfold s1, commit; commit_simpl; done).
  destruct (tick_skip s1 code caret kws Hs1) as (? & ? & ? & ? & _). cbn zeta. repeat split; auto.
Qed.

Example enter_then_tick_suppressed_witness :
  shouldShowModal (run initial [Tick (js "ap") 2 [js "apple"]]).1 = true /\
  shouldShowModal (step (step (run initial [Tick (js "ap") 2 [js "apple"]]).1 (enter false)).1
                     (Tick (js "apple  ") 6 [js "apple"])).1 = false.
Proof.
  split; [reflexivity|].
  pose proof (enter_then_tick_suppressed (run initial [Tick (js "ap") 2 [js "apple"]]).1 false
                (js "apple  ") 6 [js "apple"] eq_refl) as H.
  destruct (step _ (enter false)) as [s1 o]. destruct H as (_ & _ & _ & _ & H & _). exact H.
Defined.


(** The memoised handlers are up to date. *)
Definition fresh (s : State) : Prop := navSuggestions s = currentSuggestions s.

Lemma step_down_shown (s : State) :
  shouldShowModal s = true ->
  (step s arrow_down).1 = commit s (handleDownKey s).1.
Proof. intros H. rewrite step_unfold. unfold arrow_down. simpl. by rewrite keydown_down_shown. Qed.

Lemma step_up_shown (s : State) :
  shouldShowModal s = true ->
  (step s arrow_up).1 = commit s (handleUpKey s).1.
Proof. intros H. rewrite step_unfold. unfold arrow_up. simpl. by rewrite keydown_up_shown. Qed.

(** A navigation commit changes only the selection and the memo, and
    keeps the memo up to date. *)
Lemma commit_select (s : State) (i : Z) :
  fresh s ->
  let s' := commit s [SetSelectedOption i] in
  selectedOption s' = i /\ currentSuggestions s' = currentSuggestions s /\
  shouldShowModal s' = shouldShowModal s /\ fresh s'.
Proof.
  unfold fresh, commit, wordDataEffect, render. simpl. intros H.
  destruct (currentWordData s); case_decide; simpl; auto.
Qed.

(** C8: while the popup is shown and the memoised handlers are up to
    date, ArrowDown and ArrowUp move the selection cyclically:
    [(i + 1) mod n] and [(i - 1 + n) mod n] for [n] suggestions, and the
    handlers stay up to date. *)
Theorem navigation_cyclic (s : State) :
  shouldShowModal s = true -> fresh s ->
  0 <= selectedOption s < Z.of_nat (List.length (currentSuggestions s)) ->
  let n := Z.of_nat (List.length (currentSuggestions s)) in
  let down := (step s arrow_down).1 in
  let up := (step s arrow_up).1 in
  selectedOption down = (selectedOption s + 1) mod n /\ fresh down /\
  shouldShowModal down = true /\
  selectedOption up = (selectedOption s - 1 + n) mod n /\ fresh up /\
  shouldShowModal up = true.
Proof.
  intros Hshow Hfresh Hrange. cbn zeta.
  rewrite step_down_shown, step_up_shown by done.
  unfold handleDownKey, handleUpKey. cbn [fst].
  destruct (commit_select s (if decide (selectedOption s + 1 >
              Z.of_nat (List.length (navSuggestions s)) - 1) then 0 else selectedOption s + 1) Hfresh)
    as (Hd1 & _ & Hd3 & Hd4).
  destruct (commit_select s (if decide (selectedOption s - 1 < 0)
              then Z.of_nat (List.length (navSuggestions s)) - 1 else selectedOption s - 1) Hfresh)
    as (Hu1 & _ & Hu3 & Hu4).
  rewrite Hd1, Hu1, Hd3, Hu3. unfold fresh in Hfresh.
  rewrite Hfresh in Hd4, Hu4 |- *.
  remember (Z.of_nat (List.length (currentSuggestions s))) as n eqn:Hn.
  repeat split; try done.
  - destruct (decide (selectedOption s + 1 > n - 1)).
    + replace (selectedOption s + 1) with n by lia. symmetry. apply Z_mod_same_full.
    + symmetry. apply Z.mod_small. lia.
  - destruct (decide (selectedOption s - 1 < 0)).
    + replace (selectedOption s - 1 + n) with (n - 1) by lia. symmetry. apply Z.mod_small. lia.
    + replace (selectedOption s - 1 + n) with (selectedOption s - 1 + 1 * n) by lia.
      rewrite Z.mod_add by lia. symmetry. apply Z.mod_small. lia.
Qed.

Example navigation_cyclic_witness :
  let s := (run initial [Tick (js "app") 3 [js "apple"; js "apple1"; js "apple2"]]).1 in
  shouldShowModal s = true /\ fresh s /\
  0 <= selectedOption s < Z.of_nat (List.length (currentSuggestions s)) /\
  selectedOption (step s arrow_up).1 = 2.
Proof.
  cbn zeta.
  assert (H3 : 0 <= selectedOption (run initial [Tick (js "app") 3 [js "apple"; js "apple1"; js "apple2"]]).1
    < Z.of_nat (List.length (currentSuggestions
        (run initial [Tick (js "app") 3 [js "apple"; js "apple1"; js "apple2"]]).1)))
    by (vm_compute; split; congruence).
  assert (H1 : shouldShowModal (run initial [Tick (js "app") 3 [js "apple"; js "apple1"; js "apple2"]]).1
    = true) by (vm_compute; reflexivity).
  assert (H2 : fresh (run initial [Tick (js "app") 3 [js "apple"; js "apple1"; js "apple2"]]).1)
    by (vm_compute; reflexivity).
  split; [exact H1|]. split; [exact H2|]. split; [exact H3|].
  destruct (navigation_cyclic _ H1 H2 H3) as (_ & _ & _ & H & _).
  rewrite H. vm_compute. reflexivity.
Defined.


(** ** The invariant of reachable states *)

Definition inv (s : State) : Prop :=
  -1 <= selectedOption s /\ navDep s = selectedOption s /\
  (currentSuggestions s <> [] -> currentWordData s <> None).

(** The updates a key handler or a click may emit. *)
Definition key_update_ok (u : Update) : Prop :=
  match u with
  | SetSelectedOption i => -1 <= i
  | SetCurrentSuggestions _ | SetCurrentWordData _ => False
  | _ => True
  end.

Definition handler_ok (h : list Update * Output) : Prop := Forall key_update_ok h.1.

Lemma seq_handlers_ok (a b : list Update * Output) :
  handler_ok a -> handler_ok b -> handler_ok (seq_handlers a b).
Proof. intros Ha Hb. by apply Forall_app. Qed.

Lemma when_key_ok (b : bool) (h : list Update * Output) : handler_ok h -> handler_ok (when_key b h).
Proof. destruct b; [done|constructor]. Qed.

Lemma handleKeyDownEvent_ok (event : KeyboardEvent) (s : State) :
  -1 <= selectedOption s -> handler_ok (handleKeyDownEvent event s).
Proof.
  intros Hsel. unfold handleKeyDownEvent.
  destruct (shouldShowModal s); [|destruct (_ && _)];
    repeat apply seq_handlers_ok; try apply when_key_ok; try constructor;
    try constructor; simpl; try done; case_decide; lia.
Qed.

Lemma fold_key_updates (us : list Update) (s : State) :
  Forall key_update_ok us -> -1 <= selectedOption s ->
  let f := fold_left apply_update us s in
  -1 <= selectedOption f /\ currentSuggestions f = currentSuggestions s /\
  currentWordData f = currentWordData s.
Proof.
  revert s. induction us as [|u us IH]; intros s Hok Hsel; simpl; [done|].
  inversion Hok as [|? ? Hu Hus]; subst.
  destruct (IH (apply_update s u) Hus) as (H1 & H2 & H3);
    [destruct u; simpl in *; done|].
  split; [exact H1|]. rewrite H2, H3. destruct u; simpl in *; done.
Qed.

Lemma commit_navDep (s : State) (us : list Update) :
  navDep (commit s us) = selectedOption (commit s us).
Proof.
  unfold commit. destruct (wordDataEffect_cases s (render (fold_left apply_update us s)))
    as [E|[_ E]]; rewrite E; autorewrite with autocomplete_rw; simpl; done.
Qed.

Lemma commit_key_updates (s : State) (us : list Update) :
  Forall key_update_ok us -> -1 <= selectedOption s ->
  let s' := commit s us in
  -1 <= selectedOption s' /\ currentSuggestions s' = currentSuggestions s /\
  currentWordData s' = currentWordData s.
Proof.
  intros Hok Hsel. destruct (fold_key_updates us s Hok Hsel) as (H1 & H2 & H3).
  unfold commit, wordDataEffect. autorewrite with autocomplete_rw. rewrite H3.
  destruct (currentWordData s); autorewrite with autocomplete_rw; simpl; auto.
Qed.

Lemma step_inv (s : State) (ev : Event) : inv s -> inv (step s ev).1.
Proof.
  intros (Hsel & Hdep & Hsw). rewrite step_unfold. cbn [fst].
  destruct ev as [code caret kws|event|index].
  - split; [|split; [apply commit_navDep|]].
    + destruct (shouldSkipNextChange s) eqn:Hskip;
        [destruct (tick_skip s code caret kws Hskip) as (_&_&_&_&Hs); rewrite step_unfold in Hs; cbn [fst] in Hs; by rewrite Hs|].
      destruct (decide (js_length (word (getWordBackwards code caret)) <= 1)) as [Hle|Hgt];
        [destruct (tick_short s code caret kws Hskip Hle) as (_&_&_&_&Hs); rewrite step_unfold in Hs; cbn [fst] in Hs; by rewrite Hs|].
      destruct (tick_ranked s code caret kws Hskip ltac:(lia)) as (_&_&_&_&Hs).
      rewrite step_unfold in Hs. cbn [fst] in Hs. rewrite Hs. case_decide; lia.
    + destruct (shouldSkipNextChange s) eqn:Hskip;
        [destruct (tick_skip s code caret kws Hskip) as (_&Hs&_); rewrite step_unfold in Hs; cbn [fst] in Hs; by rewrite Hs|].
      destruct (decide (js_length (word (getWordBackwards code caret)) <= 1)) as [Hle|Hgt];
        [destruct (tick_short s code caret kws Hskip Hle) as (_&Hs&_); rewrite step_unfold in Hs; cbn [fst] in Hs; by rewrite Hs|].
      destruct (tick_ranked s code caret kws Hskip ltac:(lia)) as (_&_&_&Hw&_).
      rewrite step_unfold in Hw. cbn [fst] in Hw. by rewrite Hw.
  - destruct (commit_key_updates s _ (handleKeyDownEvent_ok event s Hsel) Hsel) as (H1 & H2 & H3).
    cbn [handle]. split; [done|split; [apply commit_navDep|]]. rewrite H2, H3. done.
  - assert (Hok : Forall key_update_ok (handleOptionClick index s).1) by repeat constructor.
    destruct (commit_key_updates s _ Hok Hsel) as (H1 & H2 & H3).
    cbn [handle]. split; [done|split; [apply commit_navDep|]]. rewrite H2, H3. done.
Qed.

(** C9: every reachable state has a selected index of at least [-1],
    memoised handlers built for the current index, and a stored word
    span whenever it holds suggestions. *)
Theorem reachable_inv (s : State) : reachable s -> inv s.
Proof.
  induction 1 as [|s ev _ IH]; [|by apply step_inv].
  unfold inv, initial. simpl. split; [lia|split; [done|congruence]].
Qed.

Example reachable_inv_witness :
  let s := (run initial [Tick (js "ap") 2 [js "apple"]; arrow_up]).1 in
  reachable s /\ -1 <= selectedOption s.
Proof.
  cbn zeta. assert (H : reachable (run initial [Tick (js "ap") 2 [js "apple"]; arrow_up]).1)
    by (apply reachable_run, reachable_initial).
  split; [exact H|]. apply (reachable_inv _ H).
Defined.


(** ** Reachable states that break the specification's popup invariant *)



End Autocomplete.
