(* ===== verification/Acceptance.v ===== *)
(** * Accepting a suggestion: [handleSuggestionAccept] of [CodeEditor]

    Models [getCaretCoordinates], [getCaretIndex], [handleCaretChange],
    [handleValueChange], [handleSuggestionAccept] and
    [handleSelectCapture] of
    [src/src/components/code-editor/code-editor.tsx], together with the
    state they write: the parent's text ([value], set through
    [onValueChange], which is [setQuery] of [App]), [caretData],
    [newCaretIndex], and the DOM text area they read.

    A handler returns the [Update]s it queues, in order; React applies
    them in that order ([apply_updates]), so the last write of a piece of
    state wins.  A [TypeError] thrown half-way (reading [.length] of an
    [undefined] suggestion) keeps the updates queued before it.

    The theorems show the splice the handler computes, that the handler
    then overwrites it with the old text whenever the text area exists,
    what happens with an [undefined] suggestion, and how the caret's line
    and column are computed. *)

From S2P Require Import Prelude WordExtraction.

Module CodeEditor.

(** The DOM [textarea]: its current value and [selectionStart]. *)
Record TextArea := mkTextArea { ta_value : JsString; selectionStart : Z }.

(** [types/caret-data.ts]. *)
Record CaretPosition := mkCaretPosition { x : Z; y : Z }.
Record CaretData := mkCaretData { position : CaretPosition; index : Z }.

Definition defaultCaretData : CaretData := mkCaretData (mkCaretPosition 0 0) 0.

Record State := mkState {
  value : JsString;
  caretData : CaretData;
  textArea : option TextArea;
  newCaretIndex : Z
}.

Inductive Update :=
  | OnValueChange (v : JsString)
  | SetCaretData (c : CaretData)
  | SetNewCaretIndex (i : Z).

Definition apply_update (s : State) (u : Update) : State :=
  match u with
  | OnValueChange v => mkState v (caretData s) (textArea s) (newCaretIndex s)
  | SetCaretData c => mkState (value s) c (textArea s) (newCaretIndex s)
  | SetNewCaretIndex i => mkState (value s) (caretData s) (textArea s) i
  end.

Definition apply_updates (s : State) (us : list Update) : State := fold_left apply_update us s.

Definition getCaretCoordinates (textAreaElement : TextArea) : CaretPosition :=
  let linesInTextArea :=
    js_split newline (js_substring (ta_value textAreaElement) 0 (selectionStart textAreaElement)) in
  let x := Z.of_nat (List.length linesInTextArea) in
  let y := js_length (List.last linesInTextArea []) in
  mkCaretPosition x y.

Definition getCaretIndex (textAreaElement : TextArea) : Z := selectionStart textAreaElement.

Definition handleCaretChange (textAreaElement : TextArea) : list Update :=
  [SetCaretData (mkCaretData (getCaretCoordinates textAreaElement) (getCaretIndex textAreaElement))].

Definition handleValueChange (s : State) (targetValue : JsString) : list Update :=
  match textArea s with
  | None => []
  | Some ta => OnValueChange targetValue :: handleCaretChange ta
  end.

(** [`${suggestion}`]: template-literal conversion of a possibly
    [undefined] string. *)
Definition js_template_str (v : option JsString) : JsString :=
  match v with Some str => str | None => js_undefined end.

Inductive Error := TypeError.

Definition handleSuggestionAccept (s : State) (suggestion : option JsString)
    (wordData : option WordData.t) : list Update * option Error :=
  match wordData with
  | None => ([], None)
  | Some wd =>
      let splice :=
        if decide (WordData.startIndex wd <> -1) then
          let before := js_substring (value s) 0 (WordData.startIndex wd) in
          let after := js_substring_from (value s) (WordData.startIndex wd + WordData.length wd) in
          [OnValueChange (before ++ js_template_str suggestion ++ js " " ++ after)]
        else [] in
      match suggestion with
      | None => (splice, Some TypeError)
      | Some str =>
          (splice ++ SetNewCaretIndex (WordData.startIndex wd + js_length str + 1)
                  :: handleValueChange s (value s), None)
      end
  end.

(** [textArea.setSelectionRange(n, n)] clamps [n] into the text. *)
Definition setSelectionRange (ta : TextArea) (n : Z) : TextArea :=
  mkTextArea (ta_value ta) (clamp 0 (js_length (ta_value ta)) n).

Definition handleSelectCapture (s : State) : State :=
  match textArea s with
  | Some ta =>
      if decide (newCaretIndex s = -1) then s
      else mkState (value s) (caretData s) (Some (setSelectionRange ta (newCaretIndex s))) (-1)
  | None => s
  end.

(** ** Lemmas *)

Lemma apply_updates_app (s : State) (us vs : list Update) :
  apply_updates s (us ++ vs) = apply_updates (apply_updates s us) vs.
Proof. apply fold_left_app. Qed.

(** The spliced text for an in-range span. *)
Definition splice (text : JsString) (wd : WordData.t) (str : JsString) : JsString :=
  take (Z.to_nat (WordData.startIndex wd)) text ++ str ++ js " " ++
  drop (Z.to_nat (WordData.startIndex wd + WordData.length wd)) text.

Definition span_in_range (text : JsString) (wd : WordData.t) : Prop :=
  0 <= WordData.startIndex wd /\ 0 <= WordData.length wd /\
  WordData.startIndex wd + WordData.length wd <= js_length text.

Lemma splice_substring (text : JsString) (wd : WordData.t) (str : JsString) :
  span_in_range text wd ->
  js_substring text 0 (WordData.startIndex wd) ++ str ++ js " " ++
  js_substring_from text (WordData.startIndex wd + WordData.length wd) = splice text wd str.
Proof.
  intros (H1 & H2 & H3). unfold splice.
  rewrite js_substring_in_range, js_substring_from_in_range by lia.
  by rewrite drop_0, Z.sub_0_r.
Qed.

(** Reference for the caret position: walk the text before the caret,
    starting on line 1, column 0; a line feed starts a new line. *)
Definition advance (p : CaretPosition) (c : ascii) : CaretPosition :=
  if decide (c = newline) then mkCaretPosition (x p + 1) 0 else mkCaretPosition (x p) (y p + 1).

Definition caret_position_ref (before : JsString) : CaretPosition :=
  fold_left advance before (mkCaretPosition 1 0).


(** Walking a text from any position: the line grows by the number of
    line feeds, the column restarts after the last one. *)
Lemma fold_advance (s : JsString) (p : CaretPosition) :
  let L := List.length (js_split newline s) in
  fold_left advance s p =
  mkCaretPosition (x p + Z.of_nat L - 1)
    (if decide (L = 1%nat) then y p + js_length s
     else js_length (List.last (js_split newline s) [])).
Proof.
  revert p. induction s as [|c s IH]; intros p; cbn zeta; simpl.
  - destruct p. unfold js_length. simpl. f_equal; lia.
  - pose proof (js_split_nonempty newline s) as Hne. unfold advance at 2. case_decide as Hc.
    + rewrite IH. simpl. destruct (js_split newline s) as [|r rs] eqn:E; [done|].
      case_decide as HL; simpl in *.
      * assert (rs = []) as -> by (destruct rs; [done|simpl in HL; lia]).
        rewrite (js_split_single newline) in E by (rewrite E; done). injection E as <-.
        simpl. f_equal; lia.
      * simpl. f_equal; lia.
    + rewrite IH. simpl. destruct (js_split newline s) as [|r rs] eqn:E; [done|].
      simpl. unfold js_length. simpl. case_decide as HL.
      * assert (rs = []) as -> by (destruct rs; [done|simpl in HL; lia]). simpl. f_equal; lia.
      * destruct rs as [|r' rs]; [simpl in HL; lia|]. simpl. f_equal; lia.
Qed.

(** ** Theorems *)

(** C15: [getCaretCoordinates] gives the caret's line (from 1) as [x] and
    its column (from 0) as [y]: the position reached by walking the text
    before the caret one character at a time. *)
Theorem getCaretCoordinates_ref (ta : TextArea) :
  0 <= selectionStart ta <= js_length (ta_value ta) ->
  getCaretCoordinates ta =
  caret_position_ref (take (Z.to_nat (selectionStart ta)) (ta_value ta)).
Proof.
  intros Hr. unfold getCaretCoordinates, caret_position_ref.
  rewrite js_substring_in_range by lia. rewrite Z.sub_0_r, drop_0.
  rewrite fold_advance. simpl. set (t := take _ _).
  case_decide as HL; f_equal; try lia.
  rewrite (js_split_single newline) by done. simpl. lia.
Qed.

Example getCaretCoordinates_ref_witness :
  0 <= 5 <= js_length (js "ab
cd
ef") /\
  getCaretCoordinates (mkTextArea (js "ab
cd
ef") 5) = mkCaretPosition 2 2.
Proof.
  split; [vm_compute; split; congruence|].
  rewrite getCaretCoordinates_ref by (vm_compute; split; congruence). reflexivity.
Defined.

(** C12: with the text area present (always, once the editor is
    mounted), accepting a defined suggestion for a span queues the
    spliced text and then, through [handleValueChange(value)], the text
    as it was: the last write wins and the text does not change; only
    the pending caret index and the caret data move. *)
Theorem accept_overwritten_by_old_text (s : State) (ta : TextArea) (str : JsString)
    (wd : WordData.t) :
  textArea s = Some ta -> WordData.startIndex wd <> -1 ->
  let r := handleSuggestionAccept s (Some str) (Some wd) in
  let s' := apply_updates s r.1 in
  r.2 = None /\
  In (OnValueChange (js_substring (value s) 0 (WordData.startIndex wd) ++ str ++ js " " ++
       js_substring_from (value s) (WordData.startIndex wd + WordData.length wd))) r.1 /\
  value s' = value s /\
  newCaretIndex s' = WordData.startIndex wd + js_length str + 1 /\
  caretData s' = mkCaretData (getCaretCoordinates ta) (selectionStart ta).
Proof.
  intros Hta Hs. cbn zeta. unfold handleSuggestionAccept, handleValueChange.
  rewrite decide_True by done. rewrite Hta. simpl. repeat split; auto.
Qed.

Example accept_overwritten_by_old_text_witness :
  let s := mkState (js "app rest") defaultCaretData (Some (mkTextArea (js "app rest") 3)) (-1) in
  textArea s = Some (mkTextArea (js "app rest") 3) /\ WordData.startIndex (WordData.mk 0 3) <> -1 /\
  value (apply_updates s (handleSuggestionAccept s (Some (js "apple")) (Some (WordData.mk 0 3))).1)
    = js "app rest".
Proof.
  cbn zeta. split; [reflexivity|]. split; [discriminate|].
  destruct (accept_overwritten_by_old_text
              (mkState (js "app rest") defaultCaretData (Some (mkTextArea (js "app rest") 3)) (-1))
              (mkTextArea (js "app rest") 3) (js "apple") (WordData.mk 0 3) eq_refl ltac:(discriminate))
    as (_ & _ & H & _).
  exact H.
Defined.

(** C13: the text the handler queues first is the text before the span,
    the suggestion, one space, and the text after the span; it is the
    final text when no text area exists.  The caret index it requests
    points just after the inserted space. *)
Theorem accept_splice (s : State) (str : JsString) (wd : WordData.t) :
  span_in_range (value s) wd ->
  let r := handleSuggestionAccept s (Some str) (Some wd) in
  let t := splice (value s) wd str in
  hd_error r.1 = Some (OnValueChange t) /\
  (textArea s = None -> value (apply_updates s r.1) = t) /\
  newCaretIndex (apply_updates s r.1) = WordData.startIndex wd + js_length str + 1 /\
  js_length t = js_length (value s) - WordData.length wd + js_length str + 1 /\
  js_char_at t (WordData.startIndex wd + js_length str) = Some " "%char.
Proof.
  intros Hr. pose proof Hr as (H1 & H2 & H3). cbn zeta.
  unfold handleSuggestionAccept. rewrite decide_True by lia. rewrite splice_substring by done.
  split; [done|]. split.
  - intros Hn. unfold handleValueChange. rewrite Hn. simpl. done.
  - split.
    + unfold handleValueChange. destruct (textArea s); simpl; done.
    + unfold splice, js_length in *. split.
      * rewrite !length_app, length_take, length_drop. simpl. lia.
      * unfold js_char_at. rewrite decide_True by lia.
        change (js " ") with [" "%char]. rewrite app_assoc. cbn [app].
        apply list_lookup_middle. rewrite length_app, length_take. lia.
Qed.

Example accept_splice_witness :
  let s := mkState (js "app rest") defaultCaretData None (-1) in
  span_in_range (value s) (WordData.mk 0 3) /\
  value (apply_updates s (handleSuggestionAccept s (Some (js "apple")) (Some (WordData.mk 0 3))).1)
    = js "apple  rest".
Proof.
  cbn zeta. assert (Hr : span_in_range (js "app rest") (WordData.mk 0 3))
    by (unfold span_in_range; vm_compute; repeat split; congruence).
  split; [exact Hr|].
  destruct (accept_splice (mkState (js "app rest") defaultCaretData None (-1)) (js "apple")
              (WordData.mk 0 3) Hr) as (_ & H & _).
  rewrite (H eq_refl). reflexivity.
Defined.

(** C14: an [undefined] suggestion (an index out of range, see
    [stale_reveal_shows_empty_popup]) splices the text ["undefined "]
    into the document and then throws a [TypeError] on
    [suggestion.length], before the old text could be re-queued: the
    document ends up containing ["undefined "]. *)
Theorem accept_undefined_inserts_text (s : State) (wd : WordData.t) :
  span_in_range (value s) wd ->
  let r := handleSuggestionAccept s None (Some wd) in
  r.2 = Some TypeError /\
  value (apply_updates s r.1) = splice (value s) wd (js "undefined") /\
  newCaretIndex (apply_updates s r.1) = newCaretIndex s.
Proof.
  intros Hr. pose proof Hr as (H1 & _). cbn zeta. unfold handleSuggestionAccept.
  rewrite decide_True by lia. simpl. rewrite <- splice_substring by done.
  done.
Qed.

Example accept_undefined_inserts_text_witness :
  let s := mkState (js "ap ") defaultCaretData (Some (mkTextArea (js "ap ") 3)) (-1) in
  span_in_range (value s) (WordData.mk 0 2) /\
  value (apply_updates s (handleSuggestionAccept s None (Some (WordData.mk 0 2))).1)
    = js "undefined  ".
Proof.
  cbn zeta. assert (Hr : span_in_range (js "ap ") (WordData.mk 0 2))
    by (unfold span_in_range; vm_compute; repeat split; congruence).
  split; [exact Hr|].
  destruct (accept_undefined_inserts_text
              (mkState (js "ap ") defaultCaretData (Some (mkTextArea (js "ap ") 3)) (-1))
              (WordData.mk 0 2) Hr) as (_ & H & _).
  rewrite H. reflexivity.
Defined.

End CodeEditor.
