(* ===== verification/Encoding.v ===== *)
(** * Re-padding a base64 string: [decode] of [useEncoding]

    Models the padding loop of [decode] in
    [src/src/hooks/encoding/encoding.ts] and the length check of
    [base64.toByteArray] that it feeds.  The arithmetic of the code is on
    JavaScript numbers: [length / 4], [Math.floor], the difference and
    the product by 4 are exact on doubles for every string length below
    2^50 (division and multiplication by 4 only shift the exponent, and
    the difference of a number and its floor is a multiple of 1/4), so
    rationals [Q] compute the same values.

    The loop [for (i = 0; i < missingSignsCount; i += 1)] runs at most 4
    times because [missingSignsCount < 4]; the model runs it with 4
    units of fuel and [padding_loop_exits] shows the fuel is never the
    reason it stops.  The theorems show how many [=] the code appends and
    for which lengths the result passes the decoder's length check. *)

From S2P Require Import Prelude.
From Stdlib Require Import QArith Qround.

Definition equals_sign : ascii := "="%char.

(** [missingSignsCount = (length - lengthRound) * 4] with
    [length = validValue.length / 4] and [lengthRound = Math.floor(length)]. *)
Definition missingSignsCount (validValue : JsString) : Q :=
  let length := inject_Z (js_length validValue) / 4 in
  let lengthRound := inject_Z (Qfloor length) in
  (length - lengthRound) * 4.

(** [for (let i = 0; i < missingSignsCount; i += 1) validValue += '=';]
    with [fuel] iterations at most. *)
Fixpoint padding_loop (fuel : nat) (missing : Q) (i : Z) (validValue : JsString) : JsString :=
  match fuel with
  | O => validValue
  | S fuel' =>
      if Qlt_le_dec (inject_Z i) missing
      then padding_loop fuel' missing (i + 1) (validValue ++ [equals_sign])
      else validValue
  end.

(** The padding step of [decode]. *)
Definition decode_padding (value : JsString) : JsString :=
  let validValue := value in
  if decide ((js_length validValue mod 4 <> 0)%Z)
  then padding_loop 4 (missingSignsCount validValue) 0 validValue
  else validValue.

(** [base64.toByteArray] (base64-js, [getLens]) throws
    ["Invalid string. Length must be a multiple of 4"] unless the length
    is a multiple of 4. *)
Definition toByteArray_accepts (b64 : JsString) : bool := bool_decide ((js_length b64 mod 4 = 0)%Z).

(** ** Lemmas *)

Lemma missingSignsCount_eq (v : JsString) :
  missingSignsCount v == inject_Z (js_length v mod 4)%Z.
Proof.
  unfold missingSignsCount.
  assert (Hf : Qfloor (inject_Z (js_length v) / 4) = (js_length v / 4)%Z).
  { symmetry. apply (Zdiv_Qdiv (js_length v) 4). }
  rewrite Hf. pose proof (Z.div_mod (js_length v) 4 ltac:(lia)) as Hdm.
  rewrite Hdm at 1. rewrite inject_Z_plus, inject_Z_mult. field.
Qed.

(** The loop appends one sign per iteration while [i < missing]. *)
Lemma padding_loop_count (fuel : nat) (m i : Z) (v : JsString) :
  (0 <= i)%Z -> (Z.to_nat (m - i) <= fuel)%nat ->
  padding_loop fuel (inject_Z m) i v = v ++ replicate (Z.to_nat (m - i)) equals_sign.
Proof.
  revert i v. induction fuel as [|fuel IH]; intros i v Hi Hf; simpl.
  - replace (Z.to_nat (m - i)) with 0%nat by lia. by rewrite app_nil_r.
  - destruct (Qlt_le_dec (inject_Z i) (inject_Z m)) as [Hlt|Hle].
    + rewrite <- Zlt_Qlt in Hlt. rewrite IH by lia. rewrite <- app_assoc.
      f_equal. replace (Z.to_nat (m - i)) with (S (Z.to_nat (m - (i + 1)))) by lia.
      simpl. by rewrite replicate_cons_app.
    + rewrite <- Zle_Qle in Hle. replace (Z.to_nat (m - i)) with 0%nat by lia.
      by rewrite app_nil_r.
Qed.

Lemma padding_loop_Qeq (fuel : nat) (m m' : Q) (i : Z) (v : JsString) :
  m == m' -> padding_loop fuel m i v = padding_loop fuel m' i v.
Proof.
  intros Hm. revert i v. induction fuel as [|fuel IH]; intros i v; simpl; [done|].
  destruct (Qlt_le_dec (inject_Z i) m) as [H1|H1], (Qlt_le_dec (inject_Z i) m') as [H2|H2];
    rewrite ?IH; try done; exfalso; rewrite Hm in H1; by apply (Qlt_not_le _ _ H1) || apply (Qlt_not_le _ _ H2).
Qed.

(** With 3 iterations or more the loop has appended [length mod 4] signs. *)
Lemma padding_loop_enough (v : JsString) (fuel : nat) :
  (3 <= fuel)%nat ->
  padding_loop fuel (missingSignsCount v) 0 v =
  v ++ replicate (Z.to_nat (js_length v mod 4)) equals_sign.
Proof.
  intros Hn. pose proof (Z.mod_pos_bound (js_length v) 4 ltac:(lia)) as Hb.
  rewrite (padding_loop_Qeq _ _ _ _ _ (missingSignsCount_eq v)).
  rewrite padding_loop_count by lia. by rewrite Z.sub_0_r.
Qed.

Lemma decode_padding_eq (v : JsString) :
  decode_padding v = v ++ replicate (Z.to_nat (js_length v mod 4)) equals_sign.
Proof.
  unfold decode_padding. case_decide as Hm; [apply padding_loop_enough; lia|].
  replace (js_length v mod 4)%Z with 0%Z by lia. by rewrite app_nil_r.
Qed.

(** ** Theorems *)

(** The padding loop appends [length mod 4] signs [=], and it stops
    by its own condition within 3 iterations: with any bound of at least
    3 iterations it returns the same string. *)
Theorem decode_padding_appends_mod (v : JsString) (fuel : nat) :
  (3 <= fuel)%nat ->
  decode_padding v = v ++ replicate (Z.to_nat (js_length v mod 4)) equals_sign /\
  (js_length v mod 4 <> 0 ->
   padding_loop fuel (missingSignsCount v) 0 v = decode_padding v)%Z.
Proof.
  intros Hfuel. rewrite decode_padding_eq. split; [done|].
  intros _. by apply padding_loop_enough.
Qed.

Example decode_padding_appends_mod_witness :
  (3 <= 4)%nat /\ decode_padding (js "YWI") = js "YWI===".
Proof.
  split; [lia|]. destruct (decode_padding_appends_mod (js "YWI") 4) as [H _]; [lia|].
  rewrite H. reflexivity.
Defined.

(** The re-padded string passes the decoder's length check exactly
    when the input length is 0 or 2 modulo 4.  A base64 text whose single
    [=] was stripped (length 3 modulo 4) gets three signs instead of one
    and is rejected; the correct count is [(4 - length mod 4) mod 4]. *)
Theorem decode_padding_accepted_iff (v : JsString) :
  toByteArray_accepts (decode_padding v) = true <->
  (js_length v mod 4 = 0 \/ js_length v mod 4 = 2)%Z.
Proof.
  rewrite decode_padding_eq.
  unfold toByteArray_accepts. rewrite bool_decide_eq_true, js_length_app.
  unfold js_length at 2. rewrite length_replicate, Z2Nat.id by (apply Z.mod_pos_bound; lia).
  pose proof (Z.mod_pos_bound (js_length v) 4 ltac:(lia)) as Hb.
  split; intros Hm.
  - rewrite Zplus_mod, Zmod_mod in Hm.
    destruct (Z.eq_dec (js_length v mod 4) 0) as [|Hn0]; [left; done|].
    destruct (Z.eq_dec (js_length v mod 4) 1) as [Hn1|Hn1]; [rewrite Hn1 in Hm; discriminate|].
    destruct (Z.eq_dec (js_length v mod 4) 2) as [|Hn2]; [right; done|].
    assert (H3 : (js_length v mod 4 = 3)%Z) by lia. rewrite H3 in Hm. discriminate.
  - rewrite Zplus_mod, Zmod_mod. destruct Hm as [-> | ->]; reflexivity.
Qed.
