(* ===== verification/Debounce.v ===== *)
(** * The debounced effect: [useDebouncedEffect]

    Models [src/src/hooks/debounce/debounced-effect.ts] with its
    configuration and data types ([types/debounced-effect-config.ts],
    [types/effect-data.ts], [types/effect-callback.ts]).  The hook keeps
    two refs: [effectDataRef] ([firstRender] and the
    [destructorCallback] returned by the last run of the callback) and
    [timerRef] (the pending [setTimeout]).  The state below holds them,
    the pending timer's deadline, the callback it will run and the
    destructor it captured when it was armed, and the clock.

    Events: an effect run (React re-ran the effect because a dependency
    changed: the previous cleanup clears the timer, then the body arms a
    new one), the passing of time (a due timer fires: it calls the
    captured destructor, then the callback, and stores what the callback
    returned), and unmounting (the last cleanup clears the timer).

    The callbacks and destructors are opaque values: [call c] is what
    invoking callback [c] returns ([undefined] or a destructor).  The
    theorems show that a burst of effect runs closer together than the
    delay runs only the last callback once, that a firing always calls the
    destructor of the previous firing, and that unmounting calls none. *)

From S2P Require Import Prelude.

Section Debounce.

Context {Callback Destructor : Type} (call : Callback -> option Destructor).

(** [DebouncedEffectConfig] without [deps] (which only decide when React
    re-runs the effect, i.e. when an [EffectRun] event happens). *)
Record DebouncedEffectConfig := mkConfig { delay : Z; ignoreInitialCall : bool }.

Definition DEFAULT_EFFECT_CONFIG : DebouncedEffectConfig := mkConfig 100 false.

(** A pending [setTimeout]. *)
Record Timer := mkTimer { deadline : Z; timerCallback : Callback; captured : option Destructor }.

Record HookState := mkHookState {
  firstRender : bool;
  destructorCallback : option Destructor;
  timerRef : option Timer;
  now : Z
}.

(** [DEFAULT_EFFECT_DATA], no timer, at time [t]. *)
Definition initial_hook (t : Z) : HookState := mkHookState true None None t.

Inductive Action :=
  | CallDestructor (d : Destructor)
  | CallCallback (c : Callback).

Inductive HookEvent :=
  | EffectRun (callback : Callback)
  | Advance (dt : Z)
  | Unmount.

(** [() => clearTimeout(timerRef.current)]. *)
Definition cleanup (s : HookState) : HookState :=
  mkHookState (firstRender s) (destructorCallback s) None (now s).

(** The effect body with the callback of the render that ran it. *)
Definition effect_body (cfg : DebouncedEffectConfig) (callback : Callback) (s : HookState)
    : HookState :=
  let destructor := destructorCallback s in
  if firstRender s then
    if ignoreInitialCall cfg then mkHookState false destructor (timerRef s) (now s)
    else mkHookState false destructor
           (Some (mkTimer (now s + delay cfg) callback destructor)) (now s)
  else mkHookState (firstRender s) destructor
         (Some (mkTimer (now s + delay cfg) callback destructor)) (now s).

(** The timer's function: [if (isFunction(destructorCallback))
    destructorCallback(); updateEffectData({ destructorCallback:
    callback() });]. *)
Definition fire (t : Timer) (s : HookState) : HookState * list Action :=
  let before := match captured t with Some d => [CallDestructor d] | None => [] end in
  (mkHookState (firstRender s) (call (timerCallback t)) None (now s),
   before ++ [CallCallback (timerCallback t)]).

Definition hook_step (cfg : DebouncedEffectConfig) (s : HookState) (ev : HookEvent)
    : HookState * list Action :=
  match ev with
  | EffectRun callback => (effect_body cfg callback (cleanup s), [])
  | Advance dt =>
      let s' := mkHookState (firstRender s) (destructorCallback s) (timerRef s) (now s + dt) in
      match timerRef s with
      | Some t => if decide (deadline t <= now s + dt) then fire t s' else (s', [])
      | None => (s', [])
      end
  | Unmount => (cleanup s, [])
  end.

Fixpoint hook_run (cfg : DebouncedEffectConfig) (s : HookState) (evs : list HookEvent)
    : HookState * list Action :=
  match evs with
  | [] => (s, [])
  | ev :: evs' =>
      let '(s1, a1) := hook_step cfg s ev in
      let '(s2, a2) := hook_run cfg s1 evs' in (s2, a1 ++ a2)
  end.

End Debounce.

Arguments Timer : clear implicits.
Arguments HookState : clear implicits.
Arguments Action : clear implicits.
Arguments HookEvent : clear implicits.

(** ** Lemmas and theorems *)

Section DebounceFacts.

Context {Callback Destructor : Type} (call : Callback -> option Destructor).
Context (cfg : DebouncedEffectConfig).

Local Abbreviation step := (hook_step call cfg).
Local Abbreviation run := (hook_run call cfg).

Definition destructor_actions (d : option Destructor) : list (Action Callback Destructor) :=
  match d with Some d => [CallDestructor d] | None => [] end.

Lemma hook_run_app (s : HookState Callback Destructor) (evs evs' : list (HookEvent Callback)) :
  run s (evs ++ evs') =
  let '(s1, a1) := run s evs in let '(s2, a2) := run s1 evs' in (s2, a1 ++ a2).
Proof.
  revert s. induction evs as [|ev evs IH]; intros s; simpl.
  - by destruct (run s evs').
  - destruct (step s ev) as [s1 a1]. rewrite IH.
    destruct (run s1 evs) as [s2 a2]. destruct (run s2 evs') as [s3 a3].
    by rewrite app_assoc.
Qed.

(** An effect run followed by a pause shorter than the delay fires
    nothing and leaves a timer armed with the run's callback. *)
Lemma run_then_short_pause (s : HookState Callback Destructor) (c : Callback) (dt : Z) :
  0 <= dt < delay cfg -> (firstRender s = false \/ ignoreInitialCall cfg = false) ->
  run s [EffectRun c; Advance dt] =
  (mkHookState false (destructorCallback s)
     (Some (mkTimer (now s + delay cfg) c (destructorCallback s))) (now s + dt), []).
Proof.
  intros Hdt Hf. simpl. unfold effect_body, cleanup. simpl.
  destruct (firstRender s) eqn:E; [destruct (ignoreInitialCall cfg); [by destruct Hf|]|];
    simpl; rewrite decide_False by lia; done.
Qed.

Definition burst (runs : list (Callback * Z)) (last : Callback) : list (HookEvent Callback) :=
  flat_map (fun '(c, dt) => [EffectRun c; Advance dt]) runs ++ [EffectRun last; Advance (delay cfg)].

Lemma burst_prefix (runs : list (Callback * Z)) (s : HookState Callback Destructor) :
  Forall (fun '(_, dt) => 0 <= dt < delay cfg) runs ->
  (firstRender s = false \/ ignoreInitialCall cfg = false) ->
  let r := run s (flat_map (fun '(c, dt) => [EffectRun c; Advance dt]) runs) in
  r.2 = [] /\ destructorCallback r.1 = destructorCallback s /\
  (firstRender r.1 = false \/ ignoreInitialCall cfg = false).
Proof.
  revert s. induction runs as [|[c dt] runs IH]; intros s Hall Hf; [simpl; auto|].
  inversion Hall as [|? ? Hdt Hrest]; subst.
  change (flat_map _ ((c, dt) :: runs)) with
    ([EffectRun c; Advance dt] ++ flat_map (fun '(c, dt) => [EffectRun c; Advance dt]) runs).
  rewrite hook_run_app, run_then_short_pause by done.
  match goal with |- context [run ?s1 (flat_map _ runs)] =>
    destruct (IH s1 Hrest (or_introl eq_refl)) as (Ha & Hd & Hf');
    destruct (run s1 (flat_map _ runs)) as [s3 a3] end.
  simpl in *. subst. auto.
Qed.

(** An effect run followed by the full delay fires the run's callback,
    after the destructor the state holds. *)
Lemma run_then_full_delay (s : HookState Callback Destructor) (c : Callback) :
  0 < delay cfg -> (firstRender s = false \/ ignoreInitialCall cfg = false) ->
  run s [EffectRun c; Advance (delay cfg)] =
  (mkHookState false (call c) None (now s + delay cfg),
   destructor_actions (destructorCallback s) ++ [CallCallback c]).
Proof.
  intros Hd Hf. simpl. unfold effect_body, cleanup. simpl.
  destruct (firstRender s) eqn:E; [destruct (ignoreInitialCall cfg); [by destruct Hf|]|];
    simpl; rewrite decide_True by lia; unfold fire; simpl;
    rewrite !app_nil_r; by destruct (destructorCallback s).
Qed.



Inductive hook_reachable : HookState Callback Destructor -> Prop :=
  | hook_reachable_initial t : hook_reachable (initial_hook t)
  | hook_reachable_step s ev : hook_reachable s -> hook_reachable (step s ev).1.

Lemma hook_reachable_run (s : HookState Callback Destructor) (evs : list (HookEvent Callback)) :
  hook_reachable s -> hook_reachable (run s evs).1.
Proof.
  revert s. induction evs as [|ev evs IH]; intros s Hs; simpl; [done|].
  destruct (step s ev) as [s1 a1] eqn:E. destruct (run s1 evs) as [s2 a2] eqn:E2. simpl.
  replace s2 with (run s1 evs).1 by (by rewrite E2). apply IH.
  replace s1 with (step s ev).1 by (by rewrite E). by constructor.
Qed.

(** The destructor a pending timer captured is the one currently stored. *)
Definition captured_current (s : HookState Callback Destructor) : Prop :=
  forall t, timerRef s = Some t -> captured t = destructorCallback s.

Lemma captured_current_step (s : HookState Callback Destructor) (ev : HookEvent Callback) :
  captured_current s -> captured_current (step s ev).1.
Proof.
  unfold captured_current. intros H t. destruct ev as [c|dt|]; simpl.
  - unfold effect_body, cleanup. simpl.
    destruct (firstRender s), (ignoreInitialCall cfg); simpl; intros Ht;
      try discriminate; by injection Ht as <-.
  - destruct (timerRef s) as [t0|] eqn:E; [|simpl; congruence].
    case_decide; simpl; [discriminate|]. intros [= <-]. by apply H.
  - discriminate.
Qed.

(** in every reachable state, a due timer that fires calls exactly
    the destructor returned by the previous firing (the one stored in
    [effectDataRef]), then its own callback, and stores the callback's
    result: cleanup and computation alternate. *)
Theorem firing_calls_previous_destructor (s : HookState Callback Destructor) (dt : Z)
    (t : Timer Callback Destructor) :
  hook_reachable s -> timerRef s = Some t -> deadline t <= now s + dt ->
  step s (Advance dt) =
  (mkHookState (firstRender s) (call (timerCallback t)) None (now s + dt),
   destructor_actions (destructorCallback s) ++ [CallCallback (timerCallback t)]).
Proof.
  intros Hr Ht Hd.
  assert (Hc : captured_current s).
  { clear Ht Hd. induction Hr as [t0|s0 ev _ IH]; [intros t1 Ht1; discriminate|by apply captured_current_step]. }
  simpl. rewrite Ht, decide_True by done. unfold fire. simpl.
  rewrite (Hc t Ht). done.
Qed.

Lemma advance_idle (dts : list Z) (s : HookState Callback Destructor) :
  timerRef s = None ->
  let r := run s (map Advance dts) in
  r.2 = [] /\ timerRef r.1 = None /\ destructorCallback r.1 = destructorCallback s.
Proof.
  revert s. induction dts as [|dt dts IH]; intros s Hn; cbn zeta; simpl; [auto|].
  rewrite Hn. destruct (IH (mkHookState (firstRender s) (destructorCallback s) None
                              (now s + dt))) as (H1 & H2 & H3); [done|].
  destruct (run _ (map Advance dts)) as [s2 a2]. simpl in *. auto.
Qed.

(** unmounting clears the pending timer and calls nothing; the
    destructor returned by the last firing is never called, however much
    time passes afterwards. *)
Theorem unmount_drops_destructor (s : HookState Callback Destructor) (dts : list Z) :
  let r := run s (@Unmount Callback :: map Advance dts) in
  r.2 = [] /\ timerRef r.1 = None /\ destructorCallback r.1 = destructorCallback s.
Proof.
  cbn zeta. change (@Unmount Callback :: map Advance dts) with ([@Unmount Callback] ++ map Advance dts).
  rewrite hook_run_app. simpl.
  destruct (advance_idle dts (cleanup s)) as (H1 & H2 & H3); [done|].
  destruct (run (cleanup s) (map Advance dts)) as [s2 a2]. simpl in *. auto.
Qed.

End DebounceFacts.

(** Witness: callbacks and destructors as numbers, callback [n] returning
    destructor [n]. *)
Example firing_calls_previous_destructor_witness :
  let cfg := DEFAULT_EFFECT_CONFIG in
  let s := (hook_run (fun n : nat => Some n) cfg (initial_hook 0)
              [EffectRun 1%nat; Advance 100; EffectRun 2%nat]).1 in
  hook_reachable (fun n : nat => Some n) cfg s /\
  (hook_step (fun n : nat => Some n) cfg s (Advance 100)).2 = [CallDestructor 1%nat; CallCallback 2%nat].
Proof.
  cbn zeta.
  assert (Hr : hook_reachable (fun n : nat => Some n) DEFAULT_EFFECT_CONFIG
     (hook_run (fun n : nat => Some n) DEFAULT_EFFECT_CONFIG (initial_hook 0)
        [EffectRun 1%nat; Advance 100; EffectRun 2%nat]).1).
  { apply hook_reachable_run, hook_reachable_initial. }
  split; [exact Hr|].
  rewrite (firing_calls_previous_destructor _ _ _ 100 (mkTimer 200 2%nat (Some 1%nat)) Hr);
    [reflexivity|reflexivity|vm_compute; congruence].
Defined.

