(* ===== verification/Popup.v ===== *)
(** * The suggestion popup as a component: [Autocomplete] with its timer

    [Selection] models the state and handlers of [Autocomplete]
    ([src/src/components/autocomplete/autocomplete.component.tsx]) with
    the debounced callback as an event [Tick] that can come at any time;
    [Debounce] models [useDebouncedEffect]
    ([src/src/hooks/debounce/debounced-effect.ts]) with opaque
    callbacks.  This file composes them the way the component does:

    - the callback passed to [useDebouncedEffect] is an arrow function
      written inline in the component's body, a new function at every
      render; [callback] is an element of the dependency list of the
      hook's [useEffect], so the effect re-runs after every render of
      [Autocomplete] (its cleanup clears the timer, its body arms a new
      one 100 ms later, [DEFAULT_EFFECT_CONFIG.delay]);
    - the callback closes over the props ([code], [caretData.index],
      [keywords]) and the state of its render ([Snapshot]);
    - React renders the component when its parent renders ([Render])
      and when a batch of state updates stores a value that differs from
      the committed one by [Object.is] ([rerenders]): an array or object
      literal ([setCurrentSuggestions([])], [setCurrentWordData(wordData)])
      is always a new value;
    - the timer's firing runs [Selection]'s [tick] on the snapshot and
      commits its updates to the current state.

    The theorems show that every reachable state has a tick pending
    within 100 ms, that each tick re-arms the next one (the popup
    recomputes its suggestions every 100 ms for ever, with no input), and
    that the recomputation undoes the popup's own key handling: Escape
    hides the popup for 100 ms only, and an ArrowDown selection returns to
    the first entry 100 ms later.  [getModalStyles] places the popup 20
    pixels per line below the text area's top, as the component test
    expects.  Unmounting runs the cleanups (the timer is cleared, the
    [keydown] listener removed) and is final: nothing runs after it. *)

From Stdlib Require Import QArith.
From S2P Require Import Prelude WordExtraction Similarity Selection Acceptance Debounce.

Module Popup.

#[export] Instance WordData_eq_dec : EqDecision WordData.t.
Proof. solve_decision. Defined.
#[export] Instance AutocompleteState_eq_dec : EqDecision Autocomplete.State.
Proof. solve_decision. Defined.

(** The props the debounced callback reads: [code], [caretData.index]
    and [keywords] ([textAreaElement] and [onSuggestionAccept] are only
    used by the handlers' outputs). *)
Record Props := mkProps { code : JsString; caretIndex : Z; keywords : list JsString }.

(** The closure of the inline callback: the props and the state of the
    render that created it. *)
Record Snapshot := mkSnapshot { snap_props : Props; snap_state : Autocomplete.State }.

Record State := mkState {
  props : Props;
  popup : Autocomplete.State;
  hook : HookState Snapshot unit
}.

(** The callback returns [undefined]: no destructor. *)
Definition callback_result (_ : Snapshot) : option unit := None.

(** [{ deps: [caretData, keywords, code] }] merged into
    [DEFAULT_EFFECT_CONFIG]. *)
Definition AUTOCOMPLETE_EFFECT_CONFIG : DebouncedEffectConfig := DEFAULT_EFFECT_CONFIG.

(** The debounced effect after a render, with this render's callback. *)
Definition effect (s : State) : State :=
  mkState (props s) (popup s)
    (hook_step callback_result AUTOCOMPLETE_EFFECT_CONFIG (hook s)
       (EffectRun (mkSnapshot (props s) (popup s)))).1.

(** An update that always stores a new object. *)
Definition new_object (u : Autocomplete.Update) : bool :=
  match u with
  | Autocomplete.SetCurrentSuggestions _ => true
  | Autocomplete.SetCurrentWordData (Some _) => true
  | _ => false
  end.

(** Whether a batch of updates makes React render the component. *)
Definition rerenders (a : Autocomplete.State) (us : list Autocomplete.Update) : bool :=
  existsb new_object us || bool_decide (fold_left Autocomplete.apply_update us a <> a).

(** A batch of updates: when it renders, the commit of [Selection]
    (with the memo and the effect on [currentWordData]), then the
    debounced effect; otherwise nothing changes. *)
Definition update (s : State) (us : list Autocomplete.Update) : State :=
  if rerenders (popup s) us
  then effect (mkState (props s) (Autocomplete.commit (popup s) us) (hook s))
  else s.

(** The body of the inline callback, on its closure. *)
Definition callback (snap : Snapshot) : list Autocomplete.Update :=
  let p := snap_props snap in
  Autocomplete.tick (code p) (caretIndex p) (keywords p) (snap_state snap).

Definition run_actions (acts : list (Action Snapshot unit)) (s : State) : State :=
  fold_left (fun s a => match a with
                        | CallCallback snap => update s (callback snap)
                        | CallDestructor _ => s
                        end) acts s.

Inductive Event :=
  | Render (p : Props)                          (* the parent renders with props [p] *)
  | KeyDown (e : Autocomplete.KeyboardEvent)    (* a [keydown] on [document] *)
  | OptionClick (index : Z)
  | Elapse (dt : Z).

Definition step (s : State) (ev : Event) : State * Autocomplete.Output :=
  match ev with
  | Render p => (effect (mkState p (Autocomplete.render (popup s)) (hook s)), Autocomplete.no_output)
  | KeyDown e => let '(us, out) := Autocomplete.handleKeyDownEvent e (popup s) in (update s us, out)
  | OptionClick i => let '(us, out) := Autocomplete.handleOptionClick i (popup s) in (update s us, out)
  | Elapse dt =>
      let '(h, acts) := hook_step callback_result AUTOCOMPLETE_EFFECT_CONFIG (hook s) (Advance dt) in
      (run_actions acts (mkState (props s) (popup s) h), Autocomplete.no_output)
  end.

Definition run (s : State) (evs : list Event) : State := fold_left (fun s ev => (step s ev).1) evs s.

(** The first render at time [t]: the initial state and the first run
    of the effect. *)
Definition mount (p : Props) (t : Z) : State := effect (mkState p Autocomplete.initial (initial_hook t)).

(** Time does not go backwards. *)
Definition event_ok (ev : Event) : Prop := match ev with Elapse dt => 0 <= dt | _ => True end.

Inductive reachable : State -> Prop :=
  | reachable_mount p t : reachable (mount p t)
  | reachable_step s ev : reachable s -> event_ok ev -> reachable (step s ev).1.

(** A tick is pending within the delay, with the closure of the current
    render, and no destructor is stored. *)
Definition pending_tick (s : State) : Prop :=
  destructorCallback (hook s) = None /\
  exists d, timerRef (hook s) = Some (mkTimer d (mkSnapshot (props s) (popup s)) None) /\
            now (hook s) < d <= now (hook s) + 100.

(** ** Where the popup is drawn *)

(** The part of [getBoundingClientRect()] the component reads. *)
Record DOMRect := mkDOMRect { rect_top : Q; rect_left : Q }.

(** [textAreaElement?.getBoundingClientRect().top ?? 0] and [.left]. *)
Definition getTextAreaTop (textAreaElement : option DOMRect) : Q :=
  match textAreaElement with Some r => rect_top r | None => 0 end.
Definition getTextAreaLeft (textAreaElement : option DOMRect) : Q :=
  match textAreaElement with Some r => rect_left r | None => 0 end.

(** A CSS [calc(<px>px + <extra>px)]. *)
Record CssCalc := mkCssCalc { calc_px : Q; calc_extra : Z }.
Record ModalStyles := mkModalStyles { style_top : CssCalc; style_left : CssCalc }.

(** [getModalStyles()]: [x] (the caret's line, from 1) times 20 below
    the text area's top, [y] (its column) times 7.2 right of its left
    edge; numbers are exact rationals (the doubles of JavaScript round
    [y * 7.2] to the nearest representable value). *)
Definition getModalStyles (textAreaElement : option DOMRect) (caretData : CodeEditor.CaretData) : ModalStyles :=
  let p := CodeEditor.position caretData in
  mkModalStyles
    (mkCssCalc (getTextAreaTop textAreaElement + inject_Z (CodeEditor.x p) * 20) 10)
    (mkCssCalc (getTextAreaLeft textAreaElement + inject_Z (CodeEditor.y p) * (36 # 5)) 60).

(** ** Unmounting *)

(** [Autocomplete] after it unmounted: the cleanups of its effects ran
    (the debounced effect's [clearTimeout], the keydown effect's
    [removeEventListener]); what is left is its last state and the hook's
    refs, and only time passes. *)
Record Unmounted := mkUnmounted { dead_state : Autocomplete.State; dead_hook : HookState Snapshot unit }.

Definition unmount (s : State) : Unmounted :=
  mkUnmounted (popup s) (hook_step callback_result AUTOCOMPLETE_EFFECT_CONFIG (hook s) Unmount).1.

(** An event after unmounting: a key press reaches no listener, there is
    no option to click and no render; the clock advances. *)
Definition unmounted_step (u : Unmounted) (ev : Event) : Unmounted * list (Action Snapshot unit) :=
  match ev with
  | Elapse dt =>
      let '(h, acts) := hook_step callback_result AUTOCOMPLETE_EFFECT_CONFIG (dead_hook u) (Advance dt) in
      (mkUnmounted (dead_state u) h, acts)
  | _ => (u, [])
  end.

Fixpoint unmounted_run (u : Unmounted) (evs : list Event) : Unmounted * list (Action Snapshot unit) :=
  match evs with
  | [] => (u, [])
  | ev :: evs' =>
      let '(u1, a1) := unmounted_step u ev in
      let '(u2, a2) := unmounted_run u1 evs' in (u2, a1 ++ a2)
  end.

(** ** Lemmas *)

(** The debounced effect always arms a timer for the full delay, with
    the closure of the render, whatever the hook held. *)
Lemma effect_hook (s : State) :
  hook (effect s) =
  mkHookState false (destructorCallback (hook s))
    (Some (mkTimer (now (hook s) + 100) (mkSnapshot (props s) (popup s)) (destructorCallback (hook s))))
    (now (hook s)).
Proof. unfold effect, hook_step, effect_body, cleanup. simpl. by destruct (firstRender (hook s)). Qed.

Lemma effect_pending (s : State) : destructorCallback (hook s) = None -> pending_tick (effect s).
Proof.
  intros Hd. unfold pending_tick. rewrite effect_hook, Hd. simpl.
  split; [done|]. eexists. split; [reflexivity|lia].
Qed.

(** The callback's first update stores a new array: a tick always
    renders. *)
Lemma callback_rerenders (a : Autocomplete.State) (snap : Snapshot) : rerenders a (callback snap) = true.
Proof. done. Qed.

Lemma update_pending (s : State) (us : list Autocomplete.Update) :
  pending_tick s -> pending_tick (update s us).
Proof.
  intros [Hd Ht]. unfold update. destruct (rerenders _ _); [|by split].
  by apply effect_pending.
Qed.

(** A batch that renders. *)
Lemma update_rerendered (s : State) (us : list Autocomplete.Update) :
  rerenders (popup s) us = true ->
  update s us = effect (mkState (props s) (Autocomplete.commit (popup s) us) (hook s)).
Proof. unfold update. by intros ->. Qed.

(** A firing timer: its callback runs on its closure and its updates
    are committed to the current state. *)
Lemma elapse_fire (s : State) (dt : Z) (tm : Timer Snapshot unit) :
  timerRef (hook s) = Some tm -> deadline tm <= now (hook s) + dt ->
  (step s (Elapse dt)).1 =
  update (mkState (props s) (popup s) (mkHookState (firstRender (hook s)) None None (now (hook s) + dt)))
    (callback (timerCallback tm)).
Proof.
  intros Htm Hd. simpl. unfold hook_step. rewrite Htm, decide_True by done.
  unfold fire. simpl. by destruct (captured tm).
Qed.

Lemma elapse_wait (s : State) (dt : Z) (tm : Timer Snapshot unit) :
  timerRef (hook s) = Some tm -> now (hook s) + dt < deadline tm ->
  (step s (Elapse dt)).1 =
  mkState (props s) (popup s)
    (mkHookState (firstRender (hook s)) (destructorCallback (hook s)) (Some tm) (now (hook s) + dt)).
Proof. intros Htm Hd. simpl. unfold hook_step. rewrite Htm, decide_False by lia. done. Qed.

(** After a render, 100 quiet milliseconds run the render's callback and
    commit its updates: the popup is [Selection]'s tick on that state. *)
Lemma quiet_after_effect (s : State) :
  let s' := (step (effect s) (Elapse 100)).1 in
  props s' = props s /\
  popup s' = (Autocomplete.step (popup s) (Autocomplete.Tick (code (props s)) (caretIndex (props s))
                                              (keywords (props s)))).1.
Proof.
  cbn zeta. rewrite (elapse_fire _ 100 (mkTimer (now (hook s) + 100) (mkSnapshot (props s) (popup s))
                                          (destructorCallback (hook s))))
    by (rewrite effect_hook; simpl; try done; lia).
  rewrite update_rerendered by apply callback_rerenders. simpl. done.
Qed.

Lemma update_props (s : State) (us : list Autocomplete.Update) : props (update s us) = props s.
Proof. unfold update. by destruct (rerenders _ _). Qed.

Lemma run_actions_props (acts : list (Action Snapshot unit)) (s : State) :
  props (run_actions acts s) = props s.
Proof.
  unfold run_actions. revert s.
  induction acts as [|[d|snap] acts IH]; intros t; simpl; [done|by rewrite IH|].
  by rewrite IH, update_props.
Qed.

(** The same, as the render that follows: a new effect on the ticked
    state. *)
Lemma quiet_after_effect_eq (s : State) :
  exists h, (step (effect s) (Elapse 100)).1 =
    effect (mkState (props s)
              (Autocomplete.step (popup s) (Autocomplete.Tick (code (props s)) (caretIndex (props s))
                                               (keywords (props s)))).1 h).
Proof.
  rewrite (elapse_fire _ 100 (mkTimer (now (hook s) + 100) (mkSnapshot (props s) (popup s))
                                 (destructorCallback (hook s))))
    by (rewrite effect_hook; simpl; try done; lia).
  rewrite update_rerendered by apply callback_rerenders. eexists. reflexivity.
Qed.

Lemma step_elapse_props (s : State) (dt : Z) : props (step s (Elapse dt)).1 = props s.
Proof.
  cbn [step]. destruct (hook_step callback_result AUTOCOMPLETE_EFFECT_CONFIG (hook s) (Advance dt)).
  cbn [fst]. by rewrite run_actions_props.
Qed.

Lemma step_pending (s : State) (ev : Event) : pending_tick s -> event_ok ev -> pending_tick (step s ev).1.
Proof.
  intros Hp Hev. pose proof Hp as [Hd (d & Ht & Hr)]. destruct ev as [p|e|i|dt]; simpl.
  - by apply effect_pending.
  - destruct (Autocomplete.handleKeyDownEvent e (popup s)). by apply update_pending.
  - destruct (Autocomplete.handleOptionClick i (popup s)). by apply update_pending.
  - simpl in Hev. destruct (decide (d <= now (hook s) + dt)).
    + change (pending_tick (step s (Elapse dt)).1). rewrite (elapse_fire s dt _ Ht) by done.
      rewrite update_rerendered by apply callback_rerenders. by apply effect_pending.
    + change (pending_tick (step s (Elapse dt)).1). rewrite (elapse_wait s dt _ Ht) by (simpl; lia).
      split; [done|]. exists d. simpl. split; [done|lia].
Qed.

Lemma reachable_pending (s : State) : reachable s -> pending_tick s.
Proof. induction 1; [by apply effect_pending|by apply step_pending]. Qed.

Lemma popup_reachable_run (s : State) (evs : list Event) :
  reachable s -> Forall event_ok evs -> reachable (run s evs).
Proof.
  revert s. induction evs as [|ev evs IH]; intros s Hs Hok; [done|].
  inversion Hok; subst. apply IH; [by constructor|done].
Qed.

Lemma run_quiet_S (s : State) (k : nat) :
  run s (replicate (S k) (Elapse 100)) = (step (run s (replicate k (Elapse 100))) (Elapse 100)).1.
Proof. unfold run. by rewrite replicate_S_end, fold_left_app. Qed.

(** A pending tick fires within the delay, with the current closure. *)
Lemma pending_fires (s : State) :
  pending_tick s ->
  (hook_step callback_result AUTOCOMPLETE_EFFECT_CONFIG (hook s) (Advance 100)).2 =
  [CallCallback (mkSnapshot (props s) (popup s))].
Proof.
  intros [_ (d & Ht & Hr)]. unfold hook_step. rewrite Ht, decide_True by (simpl; lia). done.
Qed.

(** A batch that changes a field renders. *)
Lemma rerenders_changed (a : Autocomplete.State) (us : list Autocomplete.Update) :
  fold_left Autocomplete.apply_update us a <> a -> rerenders a us = true.
Proof. intros H. unfold rerenders. apply orb_true_intro. right. by apply bool_decide_eq_true_2. Qed.

(** Committing one scalar update: the field is set, the skip flag and
    the suggestions are kept. *)
Ltac commit_scalar :=
  unfold Autocomplete.commit, Autocomplete.wordDataEffect, Autocomplete.render; simpl;
  match goal with |- context [Autocomplete.currentWordData ?a] => destruct (Autocomplete.currentWordData a) end;
  repeat case_decide; simpl; auto.

Lemma commit_modal (a : Autocomplete.State) (b : bool) :
  let a' := Autocomplete.commit a [Autocomplete.SetShouldShowModal b] in
  Autocomplete.shouldShowModal a' = b /\ Autocomplete.shouldSkipNextChange a' = Autocomplete.shouldSkipNextChange a.
Proof. commit_scalar. Qed.

Lemma commit_selected (a : Autocomplete.State) (i : Z) :
  let a' := Autocomplete.commit a [Autocomplete.SetSelectedOption i] in
  Autocomplete.selectedOption a' = i /\ Autocomplete.shouldSkipNextChange a' = Autocomplete.shouldSkipNextChange a.
Proof. commit_scalar. Qed.

(** The suggestions the tick computes for the props. *)
Definition suggestions_for (p : Props) : list JsString :=
  map SuggestionWithAccuracy.word
    (findSimilarWords (word (getWordBackwards (code p) (caretIndex p))) (keywords p)).

(** A render followed by 100 quiet milliseconds recomputes the popup
    from the props: for a word of two code units or more and no pending
    skip, the ranked suggestions, the first one selected, the popup shown
    when there is one. *)
Lemma quiet_recomputes (s : State) :
  Autocomplete.shouldSkipNextChange (popup s) = false ->
  1 < js_length (word (getWordBackwards (code (props s)) (caretIndex (props s)))) ->
  let a := popup (step (effect s) (Elapse 100)).1 in
  Autocomplete.currentSuggestions a = suggestions_for (props s) /\
  Autocomplete.shouldShowModal a = bool_decide (suggestions_for (props s) <> []) /\
  Autocomplete.selectedOption a = (if decide (suggestions_for (props s) = []) then -1 else 0).
Proof.
  intros Hskip Hlen. cbn zeta. rewrite (proj2 (quiet_after_effect s)).
  destruct (Autocomplete.tick_ranked (popup s) _ _ (keywords (props s)) Hskip Hlen)
    as (_ & H1 & H2 & _ & H3).
  unfold suggestions_for. by rewrite H1, H2, H3.
Qed.

Definition escape : Event := KeyDown (Autocomplete.mkKeyboardEvent (js "Escape") false).
Definition arrow_down : Event := KeyDown (Autocomplete.mkKeyboardEvent (js "ArrowDown") false).

Lemma popup_step_escape_shown (s : State) :
  Autocomplete.shouldShowModal (popup s) = true ->
  (step s escape).1 =
  effect (mkState (props s) (Autocomplete.commit (popup s) [Autocomplete.SetShouldShowModal false]) (hook s)).
Proof.
  intros Hshow. unfold escape. cbn [step]. rewrite Autocomplete.keydown_escape_shown by done.
  cbn. apply update_rerendered, rerenders_changed. intros E.
  apply (f_equal Autocomplete.shouldShowModal) in E. simpl in E. congruence.
Qed.

Lemma popup_step_down_shown (s : State) :
  Autocomplete.shouldShowModal (popup s) = true -> Autocomplete.selectedOption (popup s) = 0 ->
  (2 <= List.length (Autocomplete.navSuggestions (popup s)))%nat ->
  (step s arrow_down).1 =
  effect (mkState (props s) (Autocomplete.commit (popup s) [Autocomplete.SetSelectedOption 1]) (hook s)).
Proof.
  intros Hshow Hsel Hlen. unfold arrow_down. cbn [step].
  rewrite Autocomplete.keydown_down_shown by done. unfold Autocomplete.handleDownKey.
  rewrite Hsel, decide_False by lia. cbn. apply update_rerendered, rerenders_changed. intros E.
  apply (f_equal Autocomplete.selectedOption) in E. simpl in E. congruence.
Qed.

Definition enter : Event := KeyDown (Autocomplete.mkKeyboardEvent (js "Enter") false).

(** Enter on a shown popup sets the skip flag, renders (the flag
    changed) and re-arms the tick; it accepts the highlighted entry. *)
Lemma popup_step_enter (s : State) :
  Autocomplete.shouldShowModal (popup s) = true ->
  Autocomplete.shouldSkipNextChange (popup s) = false ->
  step s enter =
  (effect (mkState (props s) (Autocomplete.commit (popup s) [Autocomplete.SetShouldSkipNextChange true])
             (hook s)),
   Autocomplete.mkOutput true
     (Some (js_index (Autocomplete.currentSuggestions (popup s)) (Autocomplete.selectedOption (popup s)),
            Autocomplete.currentWordData (popup s))) false).
Proof.
  intros Hshow Hskip. unfold enter. cbn [step]. rewrite Autocomplete.keydown_enter_shown by done.
  cbn. rewrite update_rerendered; [done|]. apply rerenders_changed. intros E.
  apply (f_equal Autocomplete.shouldSkipNextChange) in E. simpl in E. congruence.
Qed.

(** A render of the component with the props it has: the memo is up to
    date after a commit, so only the effect re-runs. *)
Lemma render_committed (s : State) (us : list Autocomplete.Update) (a : Autocomplete.State) :
  popup s = Autocomplete.commit a us ->
  (step s (Render (props s))).1 = effect (mkState (props s) (popup s) (hook s)).
Proof.
  intros Hp. cbn [step fst]. f_equal. f_equal. rewrite Hp. unfold Autocomplete.render.
  rewrite decide_True; [done|]. apply Autocomplete.commit_navDep.
Qed.

(** The popup's top, for the caret data [handleCaretChange] stores: 20
    pixels per line up to and including the caret's line, counted from
    the text area's top, then 10 more. *)
Lemma getModalStyles_top (r : DOMRect) (ta : CodeEditor.TextArea) (i : Z) :
  calc_px (style_top (getModalStyles (Some r)
                        (CodeEditor.mkCaretData (CodeEditor.getCaretCoordinates ta) i))) ==
  rect_top r + inject_Z (20 * (1 + Z.of_nat (js_count newline
                                    (js_substring (CodeEditor.ta_value ta) 0 (CodeEditor.selectionStart ta))))) /\
  calc_extra (style_top (getModalStyles (Some r)
                           (CodeEditor.mkCaretData (CodeEditor.getCaretCoordinates ta) i))) = 10.
Proof.
  split; [|done]. cbn. rewrite js_split_length, Nat2Z.inj_succ.
  rewrite inject_Z_mult, inject_Z_plus. unfold Z.succ. rewrite inject_Z_plus. ring.
Qed.

(** The position the component test expects: caret data [{x: 3, y: 0}]
    and a text area at [top: 100, left: 200] give
    [calc(160px + 10px)] and [calc(200px + 60px)]. *)
Example getModalStyles_test :
  let st := getModalStyles (Some (mkDOMRect 100 200))
              (CodeEditor.mkCaretData (CodeEditor.mkCaretPosition 3 0) 3) in
  calc_px (style_top st) == 160 /\ calc_extra (style_top st) = 10 /\
  calc_px (style_left st) == 200 /\ calc_extra (style_left st) = 60.
Proof. vm_compute. repeat split; reflexivity. Qed.

(** Teardown is final: once [Autocomplete] unmounted, whatever happens
    next, no callback runs, no state changes and no timer is armed (the
    specification's teardown contract, 5 and 7). *)
Theorem unmount_is_final (s : State) (evs : list Event) :
  let r := unmounted_run (unmount s) evs in
  r.2 = [] /\ dead_state r.1 = popup s /\ timerRef (dead_hook r.1) = None.
Proof.
  cbn zeta. assert (Ht : timerRef (dead_hook (unmount s)) = None) by done.
  change (popup s) with (dead_state (unmount s)). revert Ht. generalize (unmount s) as u. clear s.
  induction evs as [|ev evs IH]; intros u Ht; [done|]. cbn [unmounted_run].
  destruct ev as [p|e|i|dt]; cbn [unmounted_step];
    [destruct (IH u Ht) as (H1 & H2 & H3); destruct (unmounted_run u evs); cbn in *; auto..|].
  unfold hook_step. rewrite Ht. cbn.
  destruct (IH (mkUnmounted (dead_state u) (mkHookState (firstRender (dead_hook u))
              (destructorCallback (dead_hook u)) None (now (dead_hook u) + dt)))) as (H1 & H2 & H3); [done|].
  destruct (unmounted_run _ evs) as [u2 a2]. cbn in *. auto.
Qed.

(** *** An empty vocabulary *)

(** Nothing is drawn: the modal is hidden and no suggestion is stored
    or memoised. *)
Definition idle (a : Autocomplete.State) : Prop :=
  Autocomplete.shouldShowModal a = false /\ Autocomplete.currentSuggestions a = [] /\
  Autocomplete.navSuggestions a = [].

(** A setter call that cannot make anything drawn. *)
Definition quiet_update (u : Autocomplete.Update) : Prop :=
  match u with
  | Autocomplete.SetCurrentSuggestions l => l = []
  | Autocomplete.SetShouldShowModal b => b = false
  | _ => True
  end.

(** The vocabulary is empty, in the props and in the closure of the
    armed timer, and nothing is drawn. *)
Definition no_vocabulary (s : State) : Prop :=
  keywords (props s) = [] /\ idle (popup s) /\
  forall tm, timerRef (hook s) = Some tm -> keywords (snap_props (timerCallback tm)) = [].

(** The parent renders with the empty vocabulary. *)
Definition render_ok (ev : Event) : Prop := match ev with Render p => keywords p = [] | _ => True end.

Lemma render_idle (a : Autocomplete.State) : idle a -> idle (Autocomplete.render a).
Proof. destruct a. intros (? & ? & ?). unfold Autocomplete.render. case_decide; simpl in *; by subst. Qed.

Lemma commit_idle (a : Autocomplete.State) (us : list Autocomplete.Update) :
  idle a -> Forall quiet_update us -> idle (Autocomplete.commit a us).
Proof.
  pose proof render_idle as Hr. intros Ha Hus. unfold Autocomplete.commit, Autocomplete.wordDataEffect.
  assert (Hf : idle (fold_left Autocomplete.apply_update us a)).
  { revert a Ha. induction Hus as [|[] us Hu _ IH]; intros [] (? & ? & ?); simpl in *;
      [|apply IH; unfold idle; simpl; subst; auto..]; by split. }
  destruct (Hr _ Hf) as (? & ? & ?).
  repeat case_match; apply Hr; try apply Hf; unfold idle; simpl; auto.
Qed.

Lemma findSimilarWords_nil (w : JsString) : findSimilarWords w [] = [].
Proof. reflexivity. Qed.

Lemma callback_quiet (snap : Snapshot) :
  keywords (snap_props snap) = [] -> Forall quiet_update (callback snap).
Proof.
  intros Hk. unfold callback, Autocomplete.tick. rewrite Hk, findSimilarWords_nil.
  repeat (case_match || case_decide); repeat constructor.
  all: apply bool_decide_eq_false_2; simpl; auto.
Qed.

Lemma update_no_vocabulary (s : State) (us : list Autocomplete.Update) :
  no_vocabulary s -> Forall quiet_update us -> no_vocabulary (update s us).
Proof.
  intros (Hk & Hi & Ht) Hus. unfold update. case_match; [|by split].
  split; [done|]. split; [by apply commit_idle|].
  intros tm. rewrite effect_hook. intros [= <-]. done.
Qed.

(** While nothing is drawn, a key press only sets quiet fields: only
    Ctrl+Enter acts, and it shows the modal only for memoised
    suggestions; a click only sets the skip flag. *)
Lemma keydown_quiet (a : Autocomplete.State) (e : Autocomplete.KeyboardEvent) :
  idle a -> Forall quiet_update (Autocomplete.handleKeyDownEvent e a).1.
Proof.
  intros (Hm & _ & Hn). unfold Autocomplete.handleKeyDownEvent, Autocomplete.handleCtrlEnterKey.
  rewrite Hm, Hn. case_match; repeat constructor.
Qed.

Lemma click_quiet (a : Autocomplete.State) (i : Z) : Forall quiet_update (Autocomplete.handleOptionClick i a).1.
Proof. repeat constructor. Qed.

(** Only the armed timer's closure runs. *)
Lemma run_actions_no_vocabulary (acts : list (Action Snapshot unit)) (s : State) :
  Forall (fun a => match a with CallCallback c => keywords (snap_props c) = [] | _ => True end) acts ->
  no_vocabulary s -> no_vocabulary (run_actions acts s).
Proof.
  unfold run_actions. intros Hacts. revert s.
  induction Hacts as [|[d|c] acts Ha _ IH]; intros s Hs; simpl; [done|by apply IH|].
  by apply IH, update_no_vocabulary, callback_quiet.
Qed.

Lemma step_no_vocabulary (s : State) (ev : Event) :
  no_vocabulary s -> render_ok ev -> no_vocabulary (step s ev).1.
Proof.
  intros Hs Hev. pose proof Hs as (Hk & Hi & Ht). destruct ev as [p|e|i|dt]; simpl in Hev |- *.
  - split; [done|]. split; [by apply render_idle|]. intros tm. rewrite effect_hook. by intros [= <-].
  - pose proof (keydown_quiet _ e Hi) as Hq.
    destruct (Autocomplete.handleKeyDownEvent e (popup s)). by apply update_no_vocabulary.
  - apply update_no_vocabulary; [done|apply (click_quiet (popup s) i)].
  - destruct (timerRef (hook s)) as [tm|] eqn:Htm; [case_decide|].
    + apply run_actions_no_vocabulary; [|split; [done|split; [done|by intros ? [=]]]].
      apply Forall_app. split; [by destruct (captured tm); repeat constructor|]. constructor; [|done].
      by apply Ht.
    + split; [done|split; [done|]]. intros ? [= <-]. by apply Ht.
    + split; [done|split; [done|]]. by intros ? [=].
Qed.

Lemma run_no_vocabulary (s : State) (evs : list Event) :
  no_vocabulary s -> Forall render_ok evs -> no_vocabulary (run s evs).
Proof.
  intros Hs Hevs. revert s Hs. unfold run.
  induction Hevs as [|ev evs Hev _ IH]; intros s Hs; [done|]. by apply IH, step_no_vocabulary.
Qed.

Lemma mount_no_vocabulary (p : Props) (t : Z) : keywords p = [] -> no_vocabulary (mount p t).
Proof. intros Hp. split; [done|split; [by split|]]. intros tm. unfold mount. rewrite effect_hook. by intros [= <-]. Qed.

(** ** Theorems *)

(** C38: Escape does not dismiss the popup for good.  While the popup
    shows suggestions for the word at the caret, Escape hides it; the
    state change renders the component, the render re-arms the debounced
    tick with a new callback, and 100 ms later, with no input, the tick
    recomputes the same suggestions and shows the popup again with the
    first entry selected.  The specification's Dismiss keeps the popup
    hidden until Ctrl+Enter reveals it. *)
Theorem escape_dismissal_undone (s : State) :
  Autocomplete.shouldShowModal (popup s) = true ->
  Autocomplete.shouldSkipNextChange (popup s) = false ->
  1 < js_length (word (getWordBackwards (code (props s)) (caretIndex (props s)))) ->
  suggestions_for (props s) <> [] ->
  let s1 := (step s escape).1 in
  let s2 := (step s1 (Elapse 100)).1 in
  Autocomplete.shouldShowModal (popup s1) = false /\
  Autocomplete.shouldShowModal (popup s2) = true /\
  Autocomplete.currentSuggestions (popup s2) = suggestions_for (props s) /\
  Autocomplete.selectedOption (popup s2) = 0.
Proof.
  intros Hshow Hskip Hlen Hne. cbn zeta. rewrite popup_step_escape_shown by done.
  destruct (commit_modal (popup s) false) as [H1 H2].
  destruct (quiet_recomputes (mkState (props s) (Autocomplete.commit (popup s)
              [Autocomplete.SetShouldShowModal false]) (hook s))) as (K1 & K2 & K3);
    [cbn [popup]; congruence|done|].
  cbn [props] in K1, K2, K3. rewrite decide_False in K3 by done.
  split; [done|]. split; [|done]. rewrite K2. by apply bool_decide_eq_true_2.
Qed.

(** ArrowDown's move is undone the same way: from the first entry of a
    popup with two entries or more, ArrowDown selects the second one;
    100 ms later the tick selects the first one again. *)
Theorem arrow_down_selection_undone (s : State) :
  Autocomplete.shouldShowModal (popup s) = true ->
  Autocomplete.shouldSkipNextChange (popup s) = false ->
  Autocomplete.selectedOption (popup s) = 0 ->
  (2 <= List.length (Autocomplete.navSuggestions (popup s)))%nat ->
  1 < js_length (word (getWordBackwards (code (props s)) (caretIndex (props s)))) ->
  suggestions_for (props s) <> [] ->
  let s1 := (step s arrow_down).1 in
  let s2 := (step s1 (Elapse 100)).1 in
  Autocomplete.selectedOption (popup s1) = 1 /\
  Autocomplete.selectedOption (popup s2) = 0 /\ Autocomplete.shouldShowModal (popup s2) = true.
Proof.
  intros Hshow Hskip Hsel Hn Hlen Hne. cbn zeta. rewrite popup_step_down_shown by done.
  destruct (commit_selected (popup s) 1) as [H1 H2].
  destruct (quiet_recomputes (mkState (props s) (Autocomplete.commit (popup s)
              [Autocomplete.SetSelectedOption 1]) (hook s))) as (_ & K2 & K3);
    [cbn [popup]; congruence|done|].
  cbn [props] in K2, K3. rewrite decide_False in K3 by done.
  split; [done|]. split; [done|]. rewrite K2. by apply bool_decide_eq_true_2.
Qed.

(** C39: the popup never settles.  In every reachable state, with no
    input at all, each period of 100 ms runs the debounced callback on
    the current props and state: each tick stores a new array, the
    render it causes re-arms the timer with a new callback, and so on
    for ever.  The specification schedules a computation only when the
    text, the caret or the vocabulary changes. *)
Theorem popup_ticks_forever (s : State) (k : nat) :
  reachable s ->
  let sk := run s (replicate k (Elapse 100)) in
  props sk = props s /\ pending_tick sk /\
  (hook_step callback_result AUTOCOMPLETE_EFFECT_CONFIG (hook sk) (Advance 100)).2 =
    [CallCallback (mkSnapshot (props s) (popup sk))].
Proof.
  intros Hr. cbn zeta.
  assert (Hp : props (run s (replicate k (Elapse 100))) = props s).
  { induction k as [|k IH]; [done|]. by rewrite run_quiet_S, step_elapse_props. }
  assert (Hpend : pending_tick (run s (replicate k (Elapse 100)))).
  { apply reachable_pending, popup_reachable_run; [done|]. apply Forall_replicate. simpl. lia. }
  split; [done|]. split; [done|]. rewrite pending_fires by done. by rewrite Hp.
Qed.

(** The witnesses type "app" with the keywords "apple", "apple1" and
    "apple2" and wait for the first tick. *)
Example escape_dismissal_undone_witness :
  let s := run (mount (mkProps (js "app") 3 [js "apple"; js "apple1"; js "apple2"]) 0) [Elapse 100] in
  Autocomplete.shouldShowModal (popup s) = true /\
  Autocomplete.shouldShowModal (popup (step s escape).1) = false /\
  Autocomplete.shouldShowModal (popup (step (step s escape).1 (Elapse 100)).1) = true.
Proof.
  cbn zeta.
  destruct (escape_dismissal_undone
              (run (mount (mkProps (js "app") 3 [js "apple"; js "apple1"; js "apple2"]) 0) [Elapse 100]))
    as (H1 & H2 & _); [vm_compute; reflexivity|vm_compute; reflexivity|vm_compute; reflexivity|vm_compute; discriminate|].
  split; [vm_compute; reflexivity|]. split; [exact H1|exact H2].
Defined.

Example popup_ticks_forever_witness :
  let s := mount (mkProps (js "app") 3 [js "apple"]) 0 in
  reachable s /\
  (hook_step callback_result AUTOCOMPLETE_EFFECT_CONFIG (hook (run s (replicate 3 (Elapse 100))))
     (Advance 100)).2 =
  [CallCallback (mkSnapshot (mkProps (js "app") 3 [js "apple"]) (popup (run s (replicate 3 (Elapse 100)))))].
Proof.
  cbn zeta. assert (Hr : reachable (mount (mkProps (js "app") 3 [js "apple"]) 0)) by constructor.
  split; [exact Hr|]. apply (popup_ticks_forever _ 3 Hr).
Defined.

Example arrow_down_selection_undone_witness :
  let s := run (mount (mkProps (js "app") 3 [js "apple"; js "apple1"; js "apple2"]) 0) [Elapse 100] in
  Autocomplete.selectedOption (popup (step s arrow_down).1) = 1 /\
  Autocomplete.selectedOption (popup (step (step s arrow_down).1 (Elapse 100)).1) = 0.
Proof.
  cbn zeta.
  destruct (arrow_down_selection_undone
              (run (mount (mkProps (js "app") 3 [js "apple"; js "apple1"; js "apple2"]) 0) [Elapse 100]))
    as (H1 & H2 & _);
    [vm_compute; reflexivity|vm_compute; reflexivity|vm_compute; reflexivity|vm_compute; lia
    |vm_compute; reflexivity|vm_compute; discriminate|].
  split; [exact H1|exact H2].
Defined.

(** An empty vocabulary never shows the popup: from the mount with an
    empty [keywords] prop, whatever keys, clicks and time pass, and
    whatever the parent renders with the empty vocabulary, the modal
    is hidden and lists no option (the specification's edge cases, 7:
    the empty vocabulary ranks nothing, and navigation keys while
    nothing is shown change nothing visible). *)
Theorem empty_vocabulary_never_shows (p : Props) (t : Z) (evs : list Event) :
  keywords p = [] -> Forall render_ok evs ->
  Autocomplete.render_modal (popup (run (mount p t) evs)) = Autocomplete.mkModalView true [].
Proof.
  intros Hp Hevs. destruct (run_no_vocabulary _ _ (mount_no_vocabulary p t Hp) Hevs) as (_ & (Hm & Hc & _) & _).
  unfold Autocomplete.render_modal, Autocomplete.getOptions. by rewrite Hm, Hc.
Qed.

Example empty_vocabulary_never_shows_witness :
  Autocomplete.render_modal
    (popup (run (mount (mkProps (js "MATCH (n) RET") 13 []) 0)
              [Elapse 100; KeyDown (Autocomplete.mkKeyboardEvent (js "Enter") true);
               Render (mkProps (js "MATCH (n) RETU") 14 []); escape; Elapse 100])) =
  Autocomplete.mkModalView true [].
Proof. apply empty_vocabulary_never_shows; [reflexivity|repeat constructor]. Defined.

End Popup.
