(* ===== verification/ParseTree.v ===== *)
(** * The parse-tree converter: [useParseTreeConverter]

    Models [src/src/hooks/parse-tree-converter/parse-tree-converter.ts]:
    [loadDataFromParseTree] turns the parse tree the grammar worker
    returns into the node and edge lists of the [vis-network] graph that
    [ParseTreeView] draws, with an explicit stack of pending child lists;
    the effect on [parseTree] stores the result.

    The [while] loop over the stack is not structural: the model runs it
    with fuel and returns [None] when the fuel runs out.  The measure
    [pending] (tree nodes still to visit plus frames on the stack)
    decreases at every iteration, so [forest_size ts + 2] units suffice
    ([loadDataFromParseTree_total]), and more fuel changes nothing.

    The theorems show that the graph is a faithful forest: node ids are
    positions, every edge goes from a rule node to a node one level
    deeper created after it, every non-root node has exactly one parent,
    and the node and edge counts are those of the tree (top-level
    terminals are dropped).  The effect's two [setIsConverting] calls
    are batched, so the spinner state is never observed as converting. *)

From S2P Require Import Prelude.

Module ParseTreeConverter.

(** [TreeNode] of [@syntaxica/lib]: [isTreeTerminalNode] and
    [isTreeRuleNode] tell the two shapes apart. *)
Inductive TreeNode :=
| TreeTerminalNode (text : JsString)
| TreeRuleNode (name : JsString) (children : list TreeNode).

Definition ParseTree := list TreeNode.

Definition isTreeTerminalNode (t : TreeNode) : bool :=
  match t with TreeTerminalNode _ => true | _ => false end.

Definition isTreeRuleNode (t : TreeNode) : bool :=
  match t with TreeRuleNode _ _ => true | _ => false end.

Definition TERMINAL_NODE_COLOR : JsString := js "#2270ff".
Definition NON_TERMINAL_NODE_COLOR : JsString := js "#00b69d".

(** [Node] and [Edge] of [vis-network], with the fields the code sets. *)
Record Node := mkNode { id : nat; label : JsString; level : nat; color : JsString }.
Record Edge := mkEdge { from : nat; to : nat }.

(** An element of [stack]: [{ treeNodes, level, parent }]. *)
Record Frame := mkFrame { treeNodes : list TreeNode; frame_level : nat; parent : option Node }.

(** The arrays the loop mutates: [nodes], [edges] and [stack], the
    stack with its top (the end of the JavaScript array) first. *)
Record Acc := mkAcc { acc_nodes : list Node; acc_edges : list Edge; stack : list Frame }.

(** The body of [treeNodes.forEach((treeNode) => ...)]. *)
Definition visit (level : nat) (parent : option Node) (a : Acc) (treeNode : TreeNode) : Acc :=
  let id := List.length (acc_nodes a) in
  match treeNode, parent with
  | TreeTerminalNode _, None => a
  | _, _ =>
      let '(nodes, stack) :=
        match treeNode with
        | TreeTerminalNode text =>
            let label := js "(terminal)" ++ newline :: text in
            (acc_nodes a ++ [mkNode id label level TERMINAL_NODE_COLOR], stack a)
        | TreeRuleNode name children =>
            let label := js "(non-terminal)" ++ newline :: name in
            let node := mkNode id label level NON_TERMINAL_NODE_COLOR in
            (acc_nodes a ++ [node], mkFrame children (S level) (Some node) :: stack a)
        end in
      let edges :=
        match parent with
        | Some (mkNode parent_id _ _ _) => acc_edges a ++ [mkEdge parent_id id]
        | None => acc_edges a
        end in
      mkAcc nodes edges stack
  end.

(** One iteration of [while (stack.length > 0)]: pop the top frame and
    visit its tree nodes in order. *)
Definition loop_body (fr : Frame) (a : Acc) : Acc :=
  fold_left (visit (frame_level fr) (parent fr)) (treeNodes fr) a.

Fixpoint load_loop (fuel : nat) (a : Acc) : option (list Node * list Edge) :=
  match fuel with
  | O => None
  | S fuel' =>
      match stack a with
      | [] => Some (acc_nodes a, acc_edges a)
      | fr :: rest => load_loop fuel' (loop_body fr (mkAcc (acc_nodes a) (acc_edges a) rest))
      end
  end.

(** The number of tree nodes of a tree and of a forest. *)
Fixpoint tree_size (t : TreeNode) : nat :=
  match t with
  | TreeTerminalNode _ => 1
  | TreeRuleNode _ cs => S (list_sum (map tree_size cs))
  end.

Definition forest_size (ts : list TreeNode) : nat := list_sum (map tree_size ts).

(** [loadDataFromParseTree([], [], targetTreeNodes)], with enough fuel
    for every iteration of the loop. *)
Definition loadDataFromParseTree (targetTreeNodes : list TreeNode) : option (list Node * list Edge) :=
  load_loop (S (S (forest_size targetTreeNodes)))
    (mkAcc [] [] [mkFrame targetTreeNodes 0 None]).

(** [ConvertResult] and the state of the hook. *)
Record ConvertResult := mkConvertResult { nodes : list Node; edges : list Edge }.
Record State := mkState { isConverting : bool; convertResult : ConvertResult }.

Definition initial : State := mkState false (mkConvertResult [] []).

Inductive Update :=
| SetIsConverting (b : bool)
| SetConvertResult (r : ConvertResult).

Definition apply_update (s : State) (u : Update) : State :=
  match u with
  | SetIsConverting b => mkState b (convertResult s)
  | SetConvertResult r => mkState (isConverting s) r
  end.

(** The effect on [[parseTree]]: the updates it makes, in order. *)
Definition convert_effect (parseTree : ParseTree) : list Update :=
  if decide (List.length parseTree = 0%nat) then [SetConvertResult (mkConvertResult [] [])]
  else
    SetIsConverting true ::
    match loadDataFromParseTree parseTree with
    | Some (nodes, edges) => [SetConvertResult (mkConvertResult nodes edges)]
    | None => []
    end ++ [SetIsConverting false].

(** React applies the batch at the next render. *)
Definition commit (s : State) (parseTree : ParseTree) : State :=
  fold_left apply_update (convert_effect parseTree) s.

(** ** Reference counts on the tree *)

(** Induction on trees with the hypothesis for every child. *)
Definition TreeNode_ind' (P : TreeNode -> Prop)
    (Ht : forall text, P (TreeTerminalNode text))
    (Hr : forall name cs, Forall P cs -> P (TreeRuleNode name cs)) : forall t, P t :=
  fix IH t :=
    match t with
    | TreeTerminalNode text => Ht text
    | TreeRuleNode name cs =>
        Hr name cs ((fix go (cs : list TreeNode) : Forall P cs :=
                       match cs with
                       | [] => List.Forall_nil P
                       | c :: cs' => @List.Forall_cons _ P c cs' (IH c) (go cs')
                       end) cs)
    end.

(** The nodes the converter draws for a tree, given whether its list has
    a parent (top-level terminals are skipped), and the edges. *)
Fixpoint tree_nodes (has_parent : bool) (t : TreeNode) : nat :=
  match t with
  | TreeTerminalNode _ => if has_parent then 1 else 0
  | TreeRuleNode _ cs => S (list_sum (map (tree_nodes true) cs))
  end.

Fixpoint tree_edges (has_parent : bool) (t : TreeNode) : nat :=
  match t with
  | TreeTerminalNode _ => if has_parent then 1 else 0
  | TreeRuleNode _ cs => (if has_parent then 1 else 0) + list_sum (map (tree_edges true) cs)
  end.

(** The rest of the loop still to run: tree nodes plus frames. *)
Definition pending (a : Acc) : nat :=
  list_sum (map (fun fr => S (forest_size (treeNodes fr))) (stack a)).

(** ** Termination *)

Lemma visit_pending (l : nat) (p : option Node) (a : Acc) (t : TreeNode) :
  (pending (visit l p a t) <= pending a + tree_size t)%nat.
Proof. destruct t, p as [[]|]; unfold pending, forest_size; simpl; lia. Qed.

Lemma fold_visit_pending (l : nat) (p : option Node) (ts : list TreeNode) (a : Acc) :
  (pending (fold_left (visit l p) ts a) <= pending a + forest_size ts)%nat.
Proof.
  revert a. induction ts as [|t ts IH]; intros a; simpl; [unfold forest_size; simpl; lia|].
  specialize (IH (visit l p a t)). pose proof (visit_pending l p a t).
  unfold forest_size in *. simpl. lia.
Qed.

Lemma load_loop_enough (fuel : nat) (a : Acc) :
  (pending a < fuel)%nat -> exists r, load_loop fuel a = Some r.
Proof.
  revert a. induction fuel as [|fuel IH]; intros a Hf; [lia|]. simpl.
  destruct (stack a) as [|fr rest] eqn:Hs; [eauto|]. apply IH.
  pose proof (fold_visit_pending (frame_level fr) (parent fr) (treeNodes fr)
                (mkAcc (acc_nodes a) (acc_edges a) rest)) as H.
  unfold pending in *. rewrite Hs in Hf. simpl in *. unfold loop_body. lia.
Qed.

Lemma load_loop_more (fuel fuel' : nat) (a : Acc) (r : list Node * list Edge) :
  load_loop fuel a = Some r -> (fuel <= fuel')%nat -> load_loop fuel' a = Some r.
Proof.
  revert fuel' a. induction fuel as [|fuel IH]; intros fuel' a Hr Hle; [done|].
  destruct fuel' as [|fuel']; [lia|]. simpl in *.
  destruct (stack a); [done|]. apply IH; [done|lia].
Qed.

(** ** Counting invariant of the loop, for any weight of the pending work *)

Section Counting.
Context (cnt : list Node -> list Edge -> nat) (w : bool -> TreeNode -> nat).

Definition frame_weight (fr : Frame) : nat :=
  list_sum (map (w (bool_decide (is_Some (parent fr)))) (treeNodes fr)).

Definition total (a : Acc) : nat :=
  cnt (acc_nodes a) (acc_edges a) + list_sum (map frame_weight (stack a)).

Hypothesis visit_total : forall l p a t,
  total (visit l p a t) = (total a + w (bool_decide (is_Some p)) t)%nat.

Lemma fold_visit_total (fr : Frame) (ns : list Node) (es : list Edge) (rest : list Frame) :
  total (loop_body fr (mkAcc ns es rest)) = total (mkAcc ns es (fr :: rest)).
Proof.
  unfold loop_body.
  assert (H : forall ts a, total (fold_left (visit (frame_level fr) (parent fr)) ts a) =
     (total a + list_sum (map (w (bool_decide (is_Some (parent fr)))) ts))%nat).
  { induction ts as [|t ts IH]; intros a; simpl; [lia|]. rewrite IH, visit_total. lia. }
  rewrite H. unfold total, frame_weight. simpl. lia.
Qed.

Lemma load_loop_total (fuel : nat) (a : Acc) (ns : list Node) (es : list Edge) :
  load_loop fuel a = Some (ns, es) -> cnt ns es = total a.
Proof.
  revert a. induction fuel as [|fuel IH]; intros a Hl; [done|]. simpl in Hl.
  destruct (stack a) as [|fr rest] eqn:Hs.
  - injection Hl as <- <-. unfold total. rewrite Hs. simpl. lia.
  - rewrite (IH _ Hl), fold_visit_total. destruct a; simpl in *. by subst.
Qed.

End Counting.

(** ** The graph is a forest *)

Definition edge_to (p : option Node) (i : nat) : list Edge :=
  match p with Some pn => [mkEdge (id pn) i] | None => [] end.

Definition node_of (t : TreeNode) (i l : nat) : Node :=
  match t with
  | TreeTerminalNode text => mkNode i (js "(terminal)" ++ newline :: text) l TERMINAL_NODE_COLOR
  | TreeRuleNode name _ => mkNode i (js "(non-terminal)" ++ newline :: name) l NON_TERMINAL_NODE_COLOR
  end.

Definition frames_of (t : TreeNode) (n : Node) : list Frame :=
  match t with TreeRuleNode _ cs => [mkFrame cs (S (level n)) (Some n)] | _ => [] end.

(** A visit that does not return early adds one node, the edge from the
    parent, and for a rule node the frame of its children. *)
Lemma visit_eq (l : nat) (p : option Node) (a : Acc) (t : TreeNode) :
  isTreeTerminalNode t = false \/ is_Some p ->
  let n := node_of t (List.length (acc_nodes a)) l in
  visit l p a t =
  mkAcc (acc_nodes a ++ [n]) (acc_edges a ++ edge_to p (List.length (acc_nodes a)))
    (frames_of t n ++ stack a).
Proof.
  destruct t, p as [[]|]; intros [H|H]; simpl; rewrite ?app_nil_r; try reflexivity;
    try discriminate; by destruct H.
Qed.

(** What a frame on the stack knows of its parent. *)
Definition frame_ok (ns : list Node) (l : nat) (p : option Node) : Prop :=
  match p with
  | Some pn => ns !! id pn = Some pn /\ color pn = NON_TERMINAL_NODE_COLOR /\ l = S (level pn)
  | None => l = 0%nat
  end.

(** Node ids are positions; every edge goes from a rule node to a node
    one level deeper created after it; no node has two parents, and a
    node has a parent exactly when it is not at level 0. *)
Definition graph_ok (ns : list Node) (es : list Edge) : Prop :=
  (forall i n, ns !! i = Some n -> id n = i) /\
  (forall e, e ∈ es -> exists pn cn, ns !! from e = Some pn /\ ns !! to e = Some cn /\
     (from e < to e)%nat /\ color pn = NON_TERMINAL_NODE_COLOR /\ level cn = S (level pn)) /\
  NoDup (map to es) /\
  (forall i n, ns !! i = Some n -> (i ∈ map to es <-> level n <> 0%nat)).

Definition acc_ok (a : Acc) : Prop :=
  graph_ok (acc_nodes a) (acc_edges a) /\
  Forall (fun fr => frame_ok (acc_nodes a) (frame_level fr) (parent fr)) (stack a).

Lemma frame_ok_app (ns ns' : list Node) (l : nat) (p : option Node) :
  frame_ok ns l p -> frame_ok (ns ++ ns') l p.
Proof. destruct p; simpl; [|done]. intros (H & ?). split; [by apply lookup_app_l_Some|done]. Qed.

Lemma graph_ok_edges_lt (ns : list Node) (es : list Edge) :
  graph_ok ns es -> forall i, i ∈ map to es -> (i < List.length ns)%nat.
Proof.
  intros (_ & Hed & _) i (e & -> & He)%list_elem_of_fmap.
  destruct (Hed e He) as (? & ? & _ & Hc & _). by eapply lookup_lt_Some.
Qed.

Lemma graph_ok_push (ns : list Node) (es : list Edge) (l : nat) (p : option Node) lab col :
  graph_ok ns es -> frame_ok ns l p ->
  graph_ok (ns ++ [mkNode (List.length ns) lab l col]) (es ++ edge_to p (List.length ns)).
Proof.
  intros Hg Hp. pose proof (graph_ok_edges_lt ns es Hg) as Hlt.
  destruct Hg as (Hid & Hed & Hnd & Hin). split; [|split; [|split]].
  - intros i n [Hl | (Hge & Hl%list_lookup_singleton_Some)]%lookup_app_Some; [by apply Hid|].
    destruct Hl as [Hi <-]. simpl. lia.
  - intros e [He | He]%elem_of_app.
    + destruct (Hed e He) as (pn & cn & H1 & H2 & ?). exists pn, cn.
      split; [by apply lookup_app_l_Some|]. split; [by apply lookup_app_l_Some|done].
    + destruct p as [pn|]; [|set_solver]. apply list_elem_of_singleton in He as ->.
      destruct Hp as (Hl & Hc & ->). exists pn, (mkNode (List.length ns) lab (S (level pn)) col).
      simpl. split; [by apply lookup_app_l_Some|]. split; [by apply list_lookup_middle|].
      split; [by eapply lookup_lt_Some|done].
  - rewrite map_app. apply NoDup_app. split; [done|]. split.
    + intros i Hi1 Hi2. apply Hlt in Hi1. destruct p; simpl in Hi2; set_solver by lia.
    + destruct p; simpl; [apply NoDup_singleton|constructor].
  - intros i n Hl. rewrite map_app, elem_of_app.
    apply lookup_app_Some in Hl as [Hl | (Hge & [Hi <-]%list_lookup_singleton_Some)].
    + pose proof (lookup_lt_Some _ _ _ Hl). rewrite <- (Hin i n Hl).
      destruct p; simpl; set_solver by lia.
    + assert (i = List.length ns) as -> by lia. simpl.
      assert (List.length ns ∉ map to es) by (intros ?%Hlt; lia).
      destruct p as [pn|]; simpl in Hp |- *; [destruct Hp as (_ & _ & ->)|subst l]; set_solver.
Qed.

Lemma visit_ok (l : nat) (p : option Node) (a : Acc) (t : TreeNode) :
  acc_ok a -> frame_ok (acc_nodes a) l p ->
  acc_ok (visit l p a t) /\ frame_ok (acc_nodes (visit l p a t)) l p.
Proof.
  intros [Hg Hfs] Hp. destruct (decide (isTreeTerminalNode t = false \/ is_Some p)) as [Hc|Hc].
  2:{ destruct t; [|exfalso; apply Hc; by left]. destruct p; [exfalso; apply Hc; right; eauto|].
       simpl. by split; [split|]. }
  rewrite visit_eq by done. cbn zeta. simpl. split; [split|by apply frame_ok_app].
  - destruct t; apply graph_ok_push; done.
  - apply Forall_app. split.
    + destruct t; simpl; [done|]. constructor; [|done]. simpl.
      split; [by apply list_lookup_middle|done].
    + eapply Forall_impl; [done|]. intros fr. apply frame_ok_app.
Qed.

Lemma fold_visit_ok (l : nat) (p : option Node) (ts : list TreeNode) (a : Acc) :
  acc_ok a -> frame_ok (acc_nodes a) l p -> acc_ok (fold_left (visit l p) ts a).
Proof.
  revert a. induction ts as [|t ts IH]; intros a Ha Hp; simpl; [done|].
  destruct (visit_ok l p a t Ha Hp). by apply IH.
Qed.

Lemma load_loop_ok (fuel : nat) (a : Acc) (ns : list Node) (es : list Edge) :
  acc_ok a -> load_loop fuel a = Some (ns, es) -> graph_ok ns es.
Proof.
  revert a. induction fuel as [|fuel IH]; intros a Ha Hl; [done|]. simpl in Hl.
  destruct (stack a) as [|fr rest] eqn:Hs; [by injection Hl as <- <-; apply Ha|].
  eapply IH; [|exact Hl]. destruct Ha as [Hg Hfs]. rewrite Hs in Hfs.
  apply Forall_cons in Hfs as [Hfr Hrest]. by apply fold_visit_ok.
Qed.

(** ** Counting the nodes and edges *)

Lemma visit_total_nodes (l : nat) (p : option Node) (a : Acc) (t : TreeNode) :
  total (fun ns _ => List.length ns) tree_nodes (visit l p a t) =
  (total (fun ns _ => List.length ns) tree_nodes a + tree_nodes (bool_decide (is_Some p)) t)%nat.
Proof.
  destruct t, p as [[]|]; unfold total, frame_weight; simpl;
    rewrite ?length_app; simpl; try case_bool_decide; try done; lia.
Qed.

Lemma visit_total_edges (l : nat) (p : option Node) (a : Acc) (t : TreeNode) :
  total (fun _ es => List.length es) tree_edges (visit l p a t) =
  (total (fun _ es => List.length es) tree_edges a + tree_edges (bool_decide (is_Some p)) t)%nat.
Proof.
  destruct t, p as [[]|]; unfold total, frame_weight; simpl;
    rewrite ?length_app; simpl; try case_bool_decide; try done; lia.
Qed.

Lemma tree_nodes_size (t : TreeNode) : tree_nodes true t = tree_size t.
Proof.
  induction t as [text|name cs IH] using TreeNode_ind'; [done|]. simpl. f_equal.
  induction IH as [|c cs Hc _ IHcs]; simpl; [done|]. by rewrite Hc, IHcs.
Qed.

Lemma tree_edges_size (t : TreeNode) : tree_edges true t = tree_size t.
Proof.
  induction t as [text|name cs IH] using TreeNode_ind'; [done|]. simpl. f_equal.
  induction IH as [|c cs Hc _ IHcs]; simpl; [done|]. by rewrite Hc, IHcs.
Qed.

Lemma tree_nodes_top (t : TreeNode) :
  (tree_nodes false t + (if isTreeTerminalNode t then 1 else 0) = tree_size t)%nat /\
  (tree_edges false t + (if isTreeRuleNode t then 1 else 0) = tree_nodes false t)%nat.
Proof.
  destruct t as [text|name cs]; simpl; [lia|].
  rewrite (List.map_ext (tree_nodes true) tree_size) by apply tree_nodes_size.
  rewrite (List.map_ext (tree_edges true) tree_size) by apply tree_edges_size. lia.
Qed.

(** Top-level terminals are dropped; every other tree node is drawn and,
    below the top level, linked to its parent. *)
Lemma forest_nodes_count (ts : list TreeNode) :
  (list_sum (map (tree_nodes false) ts) + List.length (List.filter isTreeTerminalNode ts) =
   forest_size ts)%nat /\
  (list_sum (map (tree_edges false) ts) + List.length (List.filter isTreeRuleNode ts) =
   list_sum (map (tree_nodes false) ts))%nat.
Proof.
  unfold forest_size. induction ts as [|t ts IH]; simpl; [lia|].
  destruct (tree_nodes_top t) as [H1 H2]. destruct t; simpl in *; lia.
Qed.

Lemma init_ok (ts : list TreeNode) : acc_ok (mkAcc [] [] [mkFrame ts 0 None]).
Proof.
  split; [|by repeat constructor]. split; [|split; [|split]].
  - intros [|k] x H; discriminate H.
  - set_solver.
  - constructor.
  - intros [|k] x H; discriminate H.
Qed.

(** The committed state of the effect: the graph, and the converting
    flag as the batch leaves it. *)
Lemma commit_eq (s : State) (ts : ParseTree) :
  exists ns es, loadDataFromParseTree ts = Some (ns, es) /\
  commit s ts = mkState (if decide (ts = []) then isConverting s else false) (mkConvertResult ns es).
Proof.
  destruct ts as [|t ts]; [by exists [], []|].
  pose proof (load_loop_enough (S (S (forest_size (t :: ts)))) (mkAcc [] [] [mkFrame (t :: ts) 0 None]))
    as [[ns es] Hr]; [unfold pending; simpl; lia|].
  exists ns, es. split; [done|]. unfold commit, convert_effect, loadDataFromParseTree.
  by rewrite Hr.
Qed.

(** ** Theorems *)

(** C19: the loop over the stack terminates: with [forest_size ts + 2]
    iterations it has emptied the stack, so [loadDataFromParseTree]
    returns a graph, and any larger bound returns the same graph. *)
Theorem loadDataFromParseTree_total (ts : list TreeNode) :
  exists r, loadDataFromParseTree ts = Some r /\
  forall fuel, (forest_size ts + 2 <= fuel)%nat ->
    load_loop fuel (mkAcc [] [] [mkFrame ts 0 None]) = Some r.
Proof.
  destruct (load_loop_enough (S (S (forest_size ts))) (mkAcc [] [] [mkFrame ts 0 None])) as [r Hr].
  { unfold pending. simpl. lia. }
  exists r. split; [done|]. intros fuel Hf. eapply load_loop_more; [exact Hr|lia].
Qed.

(** C20: the converted graph is a forest drawn from the tree: node ids
    are positions in [nodes]; every edge goes from a non-terminal node
    to a node one level deeper that was created after it; no node has
    two incoming edges; and a node has its incoming edge exactly when
    it is not at level 0. *)
Theorem loadDataFromParseTree_forest (ts : list TreeNode) (ns : list Node) (es : list Edge) :
  loadDataFromParseTree ts = Some (ns, es) ->
  (forall i n, ns !! i = Some n -> id n = i) /\
  (forall e, e ∈ es -> exists pn cn, ns !! from e = Some pn /\ ns !! to e = Some cn /\
     (from e < to e)%nat /\ color pn = NON_TERMINAL_NODE_COLOR /\ level cn = S (level pn)) /\
  NoDup (map to es) /\
  (forall i n, ns !! i = Some n -> (i ∈ map to es <-> level n <> 0%nat)).
Proof. intros H. eapply load_loop_ok; [apply init_ok|exact H]. Qed.

Example loadDataFromParseTree_forest_witness :
  exists ns es,
    loadDataFromParseTree
    [TreeRuleNode (js "query")
       [TreeTerminalNode (js "MATCH");
        TreeRuleNode (js "pattern") [TreeTerminalNode (js "("); TreeTerminalNode (js ")")]];
     TreeTerminalNode (js "EOF")] = Some (ns, es) /\
    map (fun e => (from e, to e)) es = [(0, 1); (0, 2); (2, 3); (2, 4)]%nat /\
    NoDup (map to es).
Proof.
  eexists _, _. match goal with |- ?L = Some ?P /\ _ =>
    assert (Hl : L = Some P) by (vm_compute; reflexivity) end.
  split; [exact Hl|]. split; [reflexivity|].
  exact (proj1 (proj2 (proj2 (loadDataFromParseTree_forest _ _ _ Hl)))).
Defined.

(** every tree node is drawn except the top-level terminals, and
    every drawn node has an edge except the top-level rule nodes. *)
Theorem loadDataFromParseTree_counts (ts : list TreeNode) (ns : list Node) (es : list Edge) :
  loadDataFromParseTree ts = Some (ns, es) ->
  (List.length ns + List.length (List.filter isTreeTerminalNode ts) = forest_size ts)%nat /\
  (List.length es + List.length (List.filter isTreeRuleNode ts) = List.length ns)%nat.
Proof.
  intros H. pose proof (load_loop_total _ _ visit_total_nodes _ _ _ _ H) as Hn.
  pose proof (load_loop_total _ _ visit_total_edges _ _ _ _ H) as He.
  unfold total, frame_weight in Hn, He. simpl in Hn, He.
  destruct (forest_nodes_count ts). lia.
Qed.

Example loadDataFromParseTree_counts_witness :
  exists ns es,
    loadDataFromParseTree
    [TreeRuleNode (js "query")
       [TreeTerminalNode (js "MATCH");
        TreeRuleNode (js "pattern") [TreeTerminalNode (js "("); TreeTerminalNode (js ")")]];
     TreeTerminalNode (js "EOF")] = Some (ns, es) /\
    List.length ns = 5%nat /\ List.length es = 4%nat.
Proof.
  eexists _, _. match goal with |- ?L = Some ?P /\ _ =>
    assert (Hl : L = Some P) by (vm_compute; reflexivity) end.
  split; [exact Hl|]. destruct (loadDataFromParseTree_counts _ _ _ Hl) as [H1 H2].
  vm_compute in H1, H2 |- *. split; lia.
Defined.

(** React batches the effect's [setIsConverting(true)] and
    [setIsConverting(false)], so after any sequence of parse trees the
    hook is never in the converting state, and it holds the graph of
    the last tree: the spinner of [ParseTreeView] never shows for the
    conversion. *)
Theorem converter_commit (tss : list ParseTree) (ts : ParseTree) :
  let s := fold_left commit (tss ++ [ts]) initial in
  isConverting s = false /\
  loadDataFromParseTree ts = Some (nodes (convertResult s), edges (convertResult s)).
Proof.
  cbn zeta. rewrite fold_left_app. simpl.
  assert (Hf : isConverting (fold_left commit tss initial) = false).
  { assert (Hg : forall s0, isConverting s0 = false -> isConverting (fold_left commit tss s0) = false).
    { induction tss as [|t tss IH]; intros s0 Hs0; simpl; [done|].
      apply IH. destruct (commit_eq s0 t) as (? & ? & _ & ->). simpl. by case_decide. }
    by apply Hg. }
  destruct (commit_eq (fold_left commit tss initial) ts) as (ns & es & Hl & ->). simpl.
  split; [by case_decide|done].
Qed.

End ParseTreeConverter.
