(* ===== verification/ParseTreeView.v ===== *)
(** * [ParseTreeView]: the [vis-network] graph of the parse tree

    Models [src/src/components/parse-tree/parse-tree-view.tsx] together
    with the hook it calls, [useParseTreeConverter] (file [ParseTree]).
    The component keeps the live [Network] in [networkRef]; an effect on
    [[isParsing, convertResult]] destroys the previous network and builds
    a new one (fitted to the container) from [convertResult].

    React compares dependencies by identity, so the model keeps the
    identity of the [parseTree] prop (given by the parent with each
    render) and of the [convertResult] object (a fresh one at every
    [setConvertResult]).  A render of the parent commits the component;
    the converter's effect and the view's effect run in the order the
    hooks are called, the converter's updates are applied after both,
    and a changed state renders the component again with the same props.

    The theorems show that after every render exactly one network is
    alive and it draws the graph of the current parse tree, that
    unmounting destroys it, and that a parse round of [useParsing]
    (which reruns every 800 ms, [Parsing.idle_reparse_forever]) rebuilds
    the network three times. *)

From S2P Require Import Prelude ParseTree.

Module ParseTreeView.

Import ParseTreeConverter.

(** The props [CodeEditor] passes: [isParsing] and
    [parseResult?.parseTree ?? []], with the identity of that array. *)
Record Props := mkProps { isParsing : bool; parseTree : ParseTree; tree_id : nat }.

(** A [new Network(container, { nodes, edges }, options)]: what it draws
    and whether [destroy()] was called. *)
Record Network := mkNetwork { net_data : ConvertResult; net_alive : bool }.

Record State := mkState {
  conv : ParseTreeConverter.State;   (* [useParseTreeConverter] *)
  result_id : nat;                   (* identity of [convertResult] *)
  next_id : nat;                     (* the next fresh object identity *)
  tree_dep : option nat;             (* [[parseTree]] at the converter effect's last run *)
  net_dep : option (bool * nat);     (* [[isParsing, convertResult]] at the view effect's last run *)
  networkRef : option nat;           (* [networkRef.current]: an index of [networks] *)
  networks : list Network            (* every network built, in order *)
}.

Definition initial : State := mkState ParseTreeConverter.initial 0 1 None None None [].

(** [networkRef.current?.destroy()]. *)
Definition destroy (ref : option nat) (ns : list Network) : list Network :=
  match ref with
  | Some i => alter (fun n => mkNetwork (net_data n) false) i ns
  | None => ns
  end.

(** The cleanup the effect returns: destroy, then [networkRef.current = null]. *)
Definition view_cleanup (s : State) : State :=
  mkState (conv s) (result_id s) (next_id s) (tree_dep s) (net_dep s) None
    (destroy (networkRef s) (networks s)).

(** The effect's body.  [containerRef.current] is the [<div>] the
    component always renders, so it is set when effects run: the early
    return is not taken. *)
Definition view_effect (s : State) : State :=
  let ns := destroy (networkRef s) (networks s) in
  mkState (conv s) (result_id s) (next_id s) (tree_dep s) (net_dep s)
    (Some (List.length ns)) (ns ++ [mkNetwork (convertResult (conv s)) true]).

Definition is_result_update (u : Update) : bool :=
  match u with SetConvertResult _ => true | SetIsConverting _ => false end.

(** The view's effect, when its dependencies [d] changed: the cleanup
    of its previous run, then its body. *)
(** One commit with props [p]: the converter's effect runs when the
    [parseTree] identity changed, the view's effect (cleanup, then body)
    when [isParsing] or the [convertResult] identity changed; then the
    converter's batched updates are applied, a [setConvertResult]
    storing a fresh object. *)
Definition run_view_effect (d : bool * nat) (s : State) : State :=
  if bool_decide (net_dep s = Some d) then s
  else view_effect (if net_dep s is Some _ then view_cleanup s else s).

Definition commit (p : Props) (s : State) : State :=
  let us := if bool_decide (tree_dep s = Some (tree_id p)) then [] else convert_effect (parseTree p) in
  let d := (isParsing p, result_id s) in
  let s1 := run_view_effect d s in
  let c' := fold_left apply_update us (conv s1) in
  if existsb is_result_update us
  then mkState c' (next_id s1) (S (next_id s1)) (Some (tree_id p)) (Some d) (networkRef s1) (networks s1)
  else mkState c' (result_id s1) (next_id s1) (Some (tree_id p)) (Some d) (networkRef s1) (networks s1).

(** The component's state changed, so React renders it again. *)
Definition changed (s s' : State) : bool :=
  bool_decide (result_id s <> result_id s') || bool_decide (isConverting (conv s) <> isConverting (conv s')).

Fixpoint settle (fuel : nat) (p : Props) (s : State) : State :=
  match fuel with
  | O => s
  | S fuel' => let s' := commit p s in if changed s s' then settle fuel' p s' else s'
  end.

(** A render of the parent: two commits at most are needed
    ([render_settles]); the bound leaves one more. *)
Definition RENDER_FUEL : nat := 3.

Definition render (s : State) (p : Props) : State := settle RENDER_FUEL p s.

Definition run (s : State) (ps : list Props) : State := fold_left render ps s.

(** Unmounting runs the cleanup of the view's effect. *)
Definition unmount (s : State) : State := view_cleanup s.

(** [display] of the spinner: [isParsing || isConverting]; the
    container is shown exactly when the spinner is not. *)
Definition spinner_shown (p : Props) (s : State) : bool := isParsing p || isConverting (conv s).

(** ** Invariants *)

(** Only the network [r] points to may be alive. *)
Definition alive_only (r : option nat) (ns : list Network) : Prop :=
  forall j n, ns !! j = Some n -> net_alive n = true -> r = Some j.

(** [networkRef] points to a live network drawing [convertResult]. *)
Definition showing (s : State) : Prop :=
  exists i, networkRef s = Some i /\ networks s !! i = Some (mkNetwork (convertResult (conv s)) true).

Definition ready (s : State) : Prop :=
  alive_only (networkRef s) (networks s) /\ isConverting (conv s) = false /\ (result_id s < next_id s)%nat.

(** The converter holds the graph of [tr] and is not converting. *)
Definition graph_of (tr : ParseTree) (c : ParseTreeConverter.State) : Prop :=
  isConverting c = false /\
  loadDataFromParseTree tr = Some (nodes (convertResult c), edges (convertResult c)).

(** The state a render with props [p] leaves. *)
Definition settled (p : Props) (s : State) : Prop :=
  ready s /\ tree_dep s = Some (tree_id p) /\ net_dep s = Some (isParsing p, result_id s) /\
  graph_of (parseTree p) (conv s) /\ showing s.

(** The [parseTree] identities of a sequence of renders name one tree each. *)
Definition ids_ok (ps : list Props) : Prop :=
  forall p q, p ∈ ps -> q ∈ ps -> tree_id p = tree_id q -> parseTree p = parseTree q.

(** ** Lemmas *)

Lemma length_destroy r ns : List.length (destroy r ns) = List.length ns.
Proof. destruct r; [apply length_alter|done]. Qed.

(** A network alive after [destroy r] was alive before and is not [r]'s. *)
Lemma destroy_alive r ns j n :
  destroy r ns !! j = Some n -> net_alive n = true -> ns !! j = Some n /\ r <> Some j.
Proof.
  destruct r as [i|]; [|done]. unfold destroy. rewrite list_lookup_alter.
  case_decide as Hij; [subst; by destruct (ns !! j); intros; simplify_eq/=|].
  intros Hj _. split; [done|congruence].
Qed.

Lemma destroy_dead r r' ns : alive_only r' ns -> (r = r' \/ r' = None) -> alive_only None (destroy r ns).
Proof.
  intros Ha Hr j n Hj Hn. apply destroy_alive in Hj as [Hj Hne]; [|done].
  specialize (Ha j n Hj Hn). naive_solver.
Qed.

(** The body of the view's effect, after the cleanup or on the first run. *)
Lemma view_effect_spec s :
  alive_only None (networks s) \/ alive_only (networkRef s) (networks s) ->
  let s' := view_effect s in
  alive_only (networkRef s') (networks s') /\ showing s' /\
  List.length (networks s') = S (List.length (networks s)) /\
  conv s' = conv s /\ result_id s' = result_id s /\ next_id s' = next_id s /\
  tree_dep s' = tree_dep s /\ net_dep s' = net_dep s.
Proof.
  intros Ha. cbn zeta.
  assert (Hd : alive_only None (destroy (networkRef s) (networks s))).
  { destruct Ha as [Ha|Ha]; eapply destroy_dead; eauto. }
  cbn [view_effect networkRef networks conv result_id next_id tree_dep net_dep].
  rewrite length_app, length_destroy. cbn. split_and!; try (done || lia).
  - intros j m Hj Hm. apply lookup_app_Some in Hj as [Hj|[Hlen Hj]].
    + by specialize (Hd j m Hj Hm).
    + rewrite length_destroy in Hlen. apply list_lookup_singleton_Some in Hj as [Hj <-].
      rewrite length_destroy in Hj. f_equal. lia.
  - exists (List.length (networks s)). cbn. rewrite length_destroy, lookup_app_r, length_destroy, Nat.sub_diag by (rewrite ?length_destroy; lia). done.
Qed.

Lemma run_view_effect_spec d s :
  alive_only (networkRef s) (networks s) -> (net_dep s = Some d -> showing s) ->
  let s1 := run_view_effect d s in
  alive_only (networkRef s1) (networks s1) /\ showing s1 /\
  conv s1 = conv s /\ result_id s1 = result_id s /\ next_id s1 = next_id s /\
  List.length (networks s1) = (List.length (networks s) + if bool_decide (net_dep s = Some d) then 0 else 1)%nat.
Proof.
  intros Ha Hs. cbn zeta. unfold run_view_effect. case_bool_decide as Hd.
  - split_and!; auto; lia.
  - destruct (net_dep s) eqn:Hn.
    + destruct (view_effect_spec (view_cleanup s)) as (? & ? & Hl & ? & ? & ? & _);
        [left; by eapply destroy_dead; eauto|].
      split_and!; auto. rewrite Hl. cbn. rewrite length_destroy. lia.
    + destruct (view_effect_spec s) as (? & ? & Hl & ? & ? & ? & _); [by right|].
      split_and!; auto. lia.
Qed.

Lemma convert_effect_result tr : existsb is_result_update (convert_effect tr) = true.
Proof.
  destruct (commit_eq ParseTreeConverter.initial tr) as (ns & es & Hl & _).
  unfold convert_effect. case_decide; [done|]. by rewrite Hl.
Qed.

(** A commit whose [parseTree] is the one the converter last saw. *)
Lemma commit_same p s :
  ready s -> tree_dep s = Some (tree_id p) -> (net_dep s = Some (isParsing p, result_id s) -> showing s) ->
  graph_of (parseTree p) (conv s) ->
  changed s (commit p s) = false /\ settled p (commit p s) /\
  List.length (networks (commit p s)) =
    (List.length (networks s) + if bool_decide (net_dep s = Some (isParsing p, result_id s)) then 0 else 1)%nat.
Proof.
  intros (Ha & Hc & Hlt) Ht Hs Hg.
  destruct (run_view_effect_spec (isParsing p, result_id s) s Ha Hs)
    as (Ha1 & (i & Hi & Hn) & Hc1 & Hr1 & Hx1 & Hl1).
  unfold commit. rewrite bool_decide_true by done. cbn [existsb fold_left].
  unfold changed, settled, ready, showing; cbn. rewrite Hc1, Hr1, Hx1 in *.
  rewrite !bool_decide_false by naive_solver. split_and!; eauto.
Qed.

(** A commit with a new [parseTree]: the converter stores the graph in
    a fresh [convertResult], so the component renders again. *)
Lemma commit_new p s :
  ready s -> tree_dep s <> Some (tree_id p) -> (net_dep s = Some (isParsing p, result_id s) -> showing s) ->
  let s' := commit p s in
  changed s s' = true /\ ready s' /\ tree_dep s' = Some (tree_id p) /\ graph_of (parseTree p) (conv s') /\
  net_dep s' = Some (isParsing p, result_id s) /\ result_id s' <> result_id s /\
  List.length (networks s') =
    (List.length (networks s) + if bool_decide (net_dep s = Some (isParsing p, result_id s)) then 0 else 1)%nat.
Proof.
  intros (Ha & Hc & Hlt) Ht Hs. cbn zeta.
  destruct (run_view_effect_spec (isParsing p, result_id s) s Ha Hs) as (Ha1 & _ & Hc1 & Hr1 & Hx1 & Hl1).
  destruct (commit_eq (conv s) (parseTree p)) as (ns & es & Hld & Hce).
  unfold commit. rewrite bool_decide_false by done. rewrite convert_effect_result.
  change (fold_left apply_update (convert_effect (parseTree p)) (conv (run_view_effect (isParsing p, result_id s) s)))
    with (ParseTreeConverter.commit (conv (run_view_effect (isParsing p, result_id s) s)) (parseTree p)).
  rewrite Hc1, Hce. unfold changed, ready, graph_of; cbn. rewrite Hx1, Hc.
  assert (Hif : (if decide (parseTree p = []) then false else false) = false) by (by case_decide).
  rewrite Hif, bool_decide_true by lia. split_and!; try (done || lia).
Qed.

(** A render settles within two commits, in a state that draws the
    graph of its tree; it builds one network when [isParsing] or
    [convertResult] changed and one more when the tree is new. *)
Lemma render_settles p s :
  ready s -> (net_dep s = Some (isParsing p, result_id s) -> showing s) ->
  (tree_dep s = Some (tree_id p) -> graph_of (parseTree p) (conv s)) ->
  settled p (render s p) /\
  List.length (networks (render s p)) =
    (List.length (networks s) + (if bool_decide (net_dep s = Some (isParsing p, result_id s)) then 0 else 1)
     + (if bool_decide (tree_dep s = Some (tree_id p)) then 0 else 1))%nat.
Proof.
  intros Hr Hs Hg. unfold render, RENDER_FUEL. cbn [settle].
  destruct (decide (tree_dep s = Some (tree_id p))) as [Ht|Ht].
  - rewrite (bool_decide_true (tree_dep s = _)) by done.
    destruct (commit_same p s Hr Ht Hs (Hg Ht)) as (-> & Hset & Hl). split; [done|lia].
  - rewrite (bool_decide_false (tree_dep s = _)) by done.
    destruct (commit_new p s Hr Ht Hs) as (-> & Hr' & Ht' & Hg' & Hn' & Hne & Hl).
    destruct (commit_same p (commit p s) Hr' Ht') as (-> & Hset & Hl'); [|done|].
    + rewrite Hn'. intros [=]. congruence.
    + split; [done|]. rewrite Hl', Hl, Hn'.
      rewrite (bool_decide_false (Some (isParsing p, result_id s) = _)); [lia|]. intros [=]. congruence.
Qed.

Lemma ready_initial : ready initial.
Proof. split_and!; [intros ? ? Hj; inversion Hj|done|cbn; lia]. Qed.

Lemma settled_ready p s : settled p s -> ready s.
Proof. by intros []. Qed.

Lemma ids_ok_app_l ps qs : ids_ok (ps ++ qs) -> ids_ok ps.
Proof. intros Hok p q Hp Hq. apply Hok; set_solver. Qed.

(** After every render of a sequence whose identities are consistent,
    the component is settled for the last props. *)
Lemma run_settled ps p : ids_ok (ps ++ [p]) -> settled p (run initial (ps ++ [p])).
Proof.
  revert p. induction ps as [|q ps IH] using rev_ind; intros p Hok.
  - refine (proj1 (render_settles p initial ready_initial _ _)); done.
  - unfold run. rewrite (fold_left_app render (ps ++ [q]) [p]). cbn [fold_left].
    change (fold_left render (ps ++ [q]) initial) with (run initial (ps ++ [q])).
    pose proof (IH q (ids_ok_app_l (ps ++ [q]) [p] Hok)) as (Hr & Ht & Hn & Hg & Hs).
    refine (proj1 (render_settles p _ Hr _ _)); [done|].
    intros Htp. rewrite Ht in Htp. injection Htp as Htp.
    rewrite <-(Hok q p); [done|set_solver|set_solver|done].
Qed.

(** ** Theorems *)

(** C37: after every render of a sequence in which each [parseTree]
    identity names one tree, exactly one [Network] is alive, it is the
    one [networkRef] holds, and it draws the graph
    [loadDataFromParseTree] makes of the current tree; the spinner
    shows exactly while parsing; unmounting leaves no network alive. *)
Theorem view_draws_current_tree (ps : list Props) (p : Props) :
  ids_ok (ps ++ [p]) ->
  let s := run initial (ps ++ [p]) in
  (exists i, networkRef s = Some i /\ networks s !! i = Some (mkNetwork (convertResult (conv s)) true) /\
     forall j n, networks s !! j = Some n -> net_alive n = true -> j = i) /\
  loadDataFromParseTree (parseTree p) = Some (nodes (convertResult (conv s)), edges (convertResult (conv s))) /\
  spinner_shown p s = isParsing p /\
  forall j n, networks (unmount s) !! j = Some n -> net_alive n = false.
Proof.
  intros Hok. cbn zeta.
  destruct (run_settled ps p Hok) as ((Ha & Hc & _) & _ & _ & (_ & Hg) & i & Hi & Hn).
  split_and!; [exists i; split_and!; [done|done|] | done | by unfold spinner_shown; rewrite Hc, orb_false_r |].
  - intros j n Hj Hl. specialize (Ha j n Hj Hl). congruence.
  - intros j n Hj. apply not_true_is_false. intros Hl.
    by specialize (destroy_dead _ _ _ Ha (or_introl eq_refl) j n Hj Hl).
Qed.

Lemma view_draws_current_tree_witness :
  let tr := [TreeRuleNode (js "query") [TreeTerminalNode (js "MATCH")]] in
  let ps := [mkProps true [] 0; mkProps false tr 1; mkProps true tr 1] in
  ids_ok (ps ++ [mkProps false tr 2]) /\
  spinner_shown (mkProps false tr 2) (run initial (ps ++ [mkProps false tr 2])) = false.
Proof.
  cbv zeta. assert (Hok : ids_ok ([mkProps true [] 0; mkProps false [TreeRuleNode (js "query") [TreeTerminalNode (js "MATCH")]] 1;
                                   mkProps true [TreeRuleNode (js "query") [TreeTerminalNode (js "MATCH")]] 1] ++
                                  [mkProps false [TreeRuleNode (js "query") [TreeTerminalNode (js "MATCH")]] 2])).
  { intros p q Hp Hq. repeat (rewrite elem_of_cons in Hp, Hq || rewrite elem_of_app in Hp, Hq).
    rewrite elem_of_nil in Hp, Hq. rewrite ?list_elem_of_singleton in Hp, Hq.
    intros Hid. naive_solver. }
  split; [done|]. apply (view_draws_current_tree _ _ Hok).
Defined.

(** One parse round of [useParsing] on an unchanged text (the
    debounced callback sets [isParsing], then the answer stores a new
    [parseResult] object and clears it) rebuilds the network three
    times although the tree is the same: once for [isParsing], once for
    the new [parseTree] array, once for the new [convertResult].  Each
    rebuild destroys the network and fits a new one, resetting the
    user's zoom and position. *)
Theorem parse_round_rebuilds_network (ps : list Props) (p : Props) (t : nat) :
  ids_ok (ps ++ [p]) -> isParsing p = false -> t <> tree_id p ->
  let s := run initial (ps ++ [p]) in
  let s' := run s [mkProps true (parseTree p) (tree_id p); mkProps false (parseTree p) t] in
  List.length (networks s') = (List.length (networks s) + 3)%nat /\
  settled (mkProps false (parseTree p) t) s'.
Proof.
  intros Hok Hp Ht. cbn zeta.
  destruct (run_settled ps p Hok) as (Hr & Htd & Hn & Hg & Hs).
  set (s := run initial (ps ++ [p])) in *.
  set (p1 := mkProps true (parseTree p) (tree_id p)).
  destruct (render_settles p1 s Hr) as ((Hr1 & Htd1 & Hn1 & Hg1 & Hs1) & Hl1); [intros; done|done|].
  destruct (render_settles (mkProps false (parseTree p) t) (render s p1) Hr1) as (Hset & Hl2);
    [intros; done|rewrite Htd1; intros [= ?]; subst p1; cbn in *; congruence|].
  unfold run. cbn [fold_left]. split; [|done].
  rewrite Hl2, Hl1, Hn1, Hn, Htd1, Htd. subst p1. cbn [isParsing tree_id]. rewrite Hp.
  repeat case_bool_decide; simplify_eq; lia.
Qed.

Lemma parse_round_rebuilds_network_witness :
  let p := mkProps false [TreeRuleNode (js "query") [TreeTerminalNode (js "MATCH")]] 1 in
  ids_ok ([] ++ [p]) /\ isParsing p = false /\ 2%nat <> tree_id p /\
  List.length (networks (run (run initial ([] ++ [p]))
                 [mkProps true (parseTree p) (tree_id p); mkProps false (parseTree p) 2])) = 5%nat.
Proof.
  intros p. assert (Hok : ids_ok ([] ++ [p])).
  { intros q q' Hq Hq' _. rewrite elem_of_app, elem_of_nil, list_elem_of_singleton in Hq, Hq'. naive_solver. }
  split_and!; [done|done|cbn; lia|].
  destruct (parse_round_rebuilds_network [] p 2 Hok eq_refl) as [Hl _]; [cbn; lia|].
  rewrite Hl. reflexivity.
Defined.

End ParseTreeView.
