(* ===== verification/Parsing.v ===== *)
(** * The grammar worker protocol: [useParsing]

    Models [src/src/hooks/parsing/parsing.ts] composed with the
    debounced effect of [Debounce] and with React's rendering:

    - an effect on [[workerInfo]] terminates the current worker (in its
      cleanup and again in its body), creates [new Worker(...)], posts
      [grammar/initialize] and installs [handleInitResponse];
    - a debounced effect (800 ms) posts [grammar/parse] with the text of
      the render that armed it and installs [handleParseResponse], which
      spreads the [parsingData] of that same render;
    - the worker answers its messages in order, each answer going to the
      [onmessage] handler installed when it arrives.

    React: the state updates of one event are batched; the component
    re-renders when a state changed ([setParsingData] always stores a
    new object; a boolean setter changes nothing when it stores the
    current value), and every render re-runs the debounced effect because
    its dependency list contains the inline callback.  The effect on
    [[workerInfo]] runs only when [workerInfo] changed; both run at mount.

    The worker script is the same for every [WorkerInfo]
    ([new Worker('sparql.worker.js')]); its answers are given by the
    section's [init_spec] (the answer to [grammar/initialize]) and
    [parse_fn] (the answer to [grammar/parse] for a text).  Answers are
    kept untyped ([Reply]) as they are in JavaScript, so that storing an
    answer in the wrong field would be visible. *)

From S2P Require Import Prelude Debounce.

Module Parsing.

Section Parsing.

Context {WorkerInfo Spec ParseResult : Type}.
Context `{EqDecision WorkerInfo}.
Context (init_spec : Spec) (parse_fn : JsString -> ParseResult).

(** A message event's [data]. *)
Inductive Reply :=
| ReplyInit (spec : Spec)
| ReplyParse (result : ParseResult).

(** [ParsingData]: [{ specification?, parseResult? }]. *)
Record ParsingData := mkParsingData { specification : option Reply; parseResult : option Reply }.

Inductive Request :=
| InitRequest
| ParseRequest (text : JsString).

(** The handler installed as [onmessage]: [handleInitResponse], or the
    [handleParseResponse] of a render, with that render's [parsingData]. *)
Inductive Handler :=
| HandleInit
| HandleParse (captured : ParsingData).

(** A web worker: alive until [terminate()], its unanswered messages in
    order, and its [onmessage]. *)
Record Worker := mkWorker { worker_id : nat; alive : bool; inbox : list Request; onmessage : option Handler }.

(** The closure of the debounced callback: what it reads of its render. *)
Record Snapshot := mkSnapshot { snap_text : JsString; snap_isInitializing : bool;
                                snap_parsingData : ParsingData }.

Record State := mkState {
  text : JsString;
  workerInfo : option WorkerInfo;
  grammarWorkerRef : option Worker;
  next_worker : nat;
  parsingData : ParsingData;
  isParsing : bool;
  isInitializing : bool;
  debounce : HookState Snapshot unit;
  posted : list (nat * Request)
}.

Definition snapshot (s : State) : Snapshot := mkSnapshot (text s) (isInitializing s) (parsingData s).

Definition set_worker (s : State) (w : option Worker) : State :=
  mkState (text s) (workerInfo s) w (next_worker s) (parsingData s) (isParsing s)
    (isInitializing s) (debounce s) (posted s).

Definition set_debounce (s : State) (h : HookState Snapshot unit) : State :=
  mkState (text s) (workerInfo s) (grammarWorkerRef s) (next_worker s) (parsingData s)
    (isParsing s) (isInitializing s) h (posted s).

(** [{ deps: [text, isInitializing, grammarWorkerRef.current], delay: 800 }]
    merged into [DEFAULT_EFFECT_CONFIG]; the callback returns nothing. *)
Definition PARSING_EFFECT_CONFIG : DebouncedEffectConfig := mkConfig 800 false.

Definition debounce_step (h : HookState Snapshot unit) (ev : HookEvent Snapshot)
    : HookState Snapshot unit * list (Action Snapshot unit) :=
  hook_step (fun _ => None) PARSING_EFFECT_CONFIG h ev.

(** [worker.postMessage(m)]: a terminated worker drops it. *)
Definition postMessage (w : Worker) (m : Request) : Worker :=
  mkWorker (worker_id w) (alive w) (if alive w then inbox w ++ [m] else inbox w) (onmessage w).

Definition terminate (w : Worker) : Worker := mkWorker (worker_id w) false [] (onmessage w).

Definition set_onmessage (w : Worker) (h : Handler) : Worker :=
  mkWorker (worker_id w) (alive w) (inbox w) (Some h).

(** The state setters of the hook. *)
Inductive Update :=
| SetParsingData (d : ParsingData)
| SetIsParsing (b : bool)
| SetIsInitializing (b : bool).

Definition apply_update (s : State) (u : Update) : State :=
  match u with
  | SetParsingData d =>
      mkState (text s) (workerInfo s) (grammarWorkerRef s) (next_worker s) d
        (isParsing s) (isInitializing s) (debounce s) (posted s)
  | SetIsParsing b =>
      mkState (text s) (workerInfo s) (grammarWorkerRef s) (next_worker s) (parsingData s)
        b (isInitializing s) (debounce s) (posted s)
  | SetIsInitializing b =>
      mkState (text s) (workerInfo s) (grammarWorkerRef s) (next_worker s) (parsingData s)
        (isParsing s) b (debounce s) (posted s)
  end.

(** Whether a batch makes React render again: a new [parsingData]
    object, or a boolean that differs from the committed one. *)
Definition changes (s : State) (us : list Update) : bool :=
  let s' := fold_left apply_update us s in
  existsb (fun u => match u with SetParsingData _ => true | _ => false end) us ||
  negb (Bool.eqb (isParsing s') (isParsing s)) ||
  negb (Bool.eqb (isInitializing s') (isInitializing s)).

(** [handleInitResponse] and [handleParseResponse]. *)
Definition handleInitResponse (data : Reply) : list Update :=
  [SetParsingData (mkParsingData (Some data) None); SetIsInitializing false; SetIsParsing true].

Definition handleParseResponse (captured : ParsingData) (data : Reply) : list Update :=
  [SetParsingData (mkParsingData (specification captured) (Some data)); SetIsParsing false].

Definition handle (h : Handler) (data : Reply) : list Update :=
  match h with
  | HandleInit => handleInitResponse data
  | HandleParse captured => handleParseResponse captured data
  end.

(** The worker script's answer to a message. *)
Definition worker_reply (m : Request) : Reply :=
  match m with
  | InitRequest => ReplyInit init_spec
  | ParseRequest t => ReplyParse (parse_fn t)
  end.

(** The effect on [[workerInfo]]: the cleanup of its previous run (which
    terminated the worker when that run created one), then its body.
    Returns the state and the updates it made. *)
Definition workerInfo_effect (prev : option WorkerInfo) (s : State) : State * list Update :=
  let s := match prev, grammarWorkerRef s with
           | Some _, Some w => set_worker s (Some (terminate w))
           | _, _ => s
           end in
  match workerInfo s with
  | None => (s, [])
  | Some _ =>
      let s := match grammarWorkerRef s with
               | Some w => set_worker s (Some (terminate w))
               | None => s
               end in
      let w := mkWorker (next_worker s) true [] None in
      let w := set_onmessage (postMessage w InitRequest) HandleInit in
      (mkState (text s) (workerInfo s) (Some w) (S (next_worker s)) (parsingData s)
         (isParsing s) (isInitializing s) (debounce s) (posted s ++ [(worker_id w, InitRequest)]),
       [SetIsInitializing true])
  end.

(** A render: the effects of its commit.  The debounced effect always
    re-runs, with the callback of this render. *)
Definition render (wi_changed : bool) (prev : option WorkerInfo) (s : State) : State * list Update :=
  let '(s1, us) := if wi_changed then workerInfo_effect prev s else (s, []) in
  (set_debounce s1 (debounce_step (debounce s1) (EffectRun (snapshot s))).1, us).

(** The updates of an event, then the renders they cause: the updates
    made by the effects cause one more render, whose effects make none. *)
Definition settle (wi_changed : bool) (prev : option WorkerInfo) (s : State) : State :=
  let '(s1, us) := render wi_changed prev s in
  let s2 := fold_left apply_update us s1 in
  if changes s1 us then (render false prev s2).1 else s2.

Definition commit (s : State) (us : list Update) : State :=
  if changes s us then settle false (workerInfo s) (fold_left apply_update us s)
  else fold_left apply_update us s.

(** The debounced callback, run when its timer fires. *)
Definition run_callback (snap : Snapshot) (s : State) : State * list Update :=
  match grammarWorkerRef s with
  | None => (s, [])
  | Some w =>
      if snap_isInitializing snap then (s, [])
      else
        let m := ParseRequest (snap_text snap) in
        let w' := set_onmessage (postMessage w m) (HandleParse (snap_parsingData snap)) in
        (mkState (text s) (workerInfo s) (Some w') (next_worker s) (parsingData s)
           (isParsing s) (isInitializing s) (debounce s) (posted s ++ [(worker_id w, m)]),
         [SetIsParsing true])
  end.

(** The actions of a firing timer, in order. *)
Definition run_actions (acts : list (Action Snapshot unit)) (s : State) : State :=
  fold_left (fun s a => match a with
                        | CallCallback snap => let '(s', us) := run_callback snap s in commit s' us
                        | CallDestructor _ => s
                        end) acts s.

Inductive Event :=
| SetText (t : JsString)
| SetWorkerInfo (wi : option WorkerInfo)
| Rerender
| Respond
| Elapse (dt : Z).

Definition step (s : State) (ev : Event) : State :=
  match ev with
  | SetText t =>
      settle false (workerInfo s)
        (mkState t (workerInfo s) (grammarWorkerRef s) (next_worker s) (parsingData s)
           (isParsing s) (isInitializing s) (debounce s) (posted s))
  | SetWorkerInfo wi =>
      settle (bool_decide (wi <> workerInfo s)) (workerInfo s)
        (mkState (text s) wi (grammarWorkerRef s) (next_worker s) (parsingData s)
           (isParsing s) (isInitializing s) (debounce s) (posted s))
  | Rerender => settle false (workerInfo s) s
  | Respond =>
      match grammarWorkerRef s with
      | Some w =>
          match alive w, inbox w, onmessage w with
          | true, m :: rest, Some h =>
              let s' := set_worker s (Some (mkWorker (worker_id w) true rest (Some h))) in
              commit s' (handle h (worker_reply m))
          | true, _ :: rest, None => set_worker s (Some (mkWorker (worker_id w) true rest None))
          | _, _, _ => s
          end
      | None => s
      end
  | Elapse dt =>
      let '(h, acts) := debounce_step (debounce s) (Advance dt) in
      run_actions acts (set_debounce s h)
  end.

Definition run (s : State) (evs : list Event) : State := fold_left step evs s.

(** The first render: both effects run, no cleanup before them. *)
Definition mount (t : JsString) (wi : option WorkerInfo) (clock : Z) : State :=
  settle true None
    (mkState t wi None 0 (mkParsingData None None) false false (initial_hook clock) []).

Inductive reachable : State -> Prop :=
| reachable_mount t wi clock : reachable (mount t wi clock)
| reachable_step s ev : reachable s -> reachable (step s ev).

(** ** The protocol invariant *)

(** An answer of the right kind in a field, or none. *)
Definition reply_kind_ok (init : bool) (r : option Reply) : bool :=
  match r with
  | None => true
  | Some (ReplyInit _) => init
  | Some (ReplyParse _) => negb init
  end.

Definition data_ok (d : ParsingData) : bool :=
  reply_kind_ok true (specification d) && reply_kind_ok false (parseResult d).

(** The live worker: an unanswered [grammar/initialize] is its only
    message, with [handleInitResponse] installed and [isInitializing]
    set; otherwise its messages are parse requests with a
    [handleParseResponse] installed. *)
Definition worker_ok (s : State) : Prop :=
  match grammarWorkerRef s with
  | Some w => alive w = true ->
      (InitRequest ∈ inbox w ->
         inbox w = [InitRequest] /\ onmessage w = Some HandleInit /\ isInitializing s = true) /\
      (inbox w <> [] -> InitRequest ∉ inbox w ->
         exists d, onmessage w = Some (HandleParse d) /\ data_ok d = true)
  | None => True
  end.

(** The pending timer runs the callback of the latest render. *)
Definition timer_ok (s : State) : Prop :=
  forall tm, timerRef (debounce s) = Some tm -> timerCallback tm = snapshot s.

Definition inv (s : State) : Prop := data_ok (parsingData s) = true /\ worker_ok s /\ timer_ok s.

Lemma debounce_effect_run (h : HookState Snapshot unit) (c : Snapshot) :
  timerRef (debounce_step h (EffectRun c)).1 =
    Some (mkTimer (now h + 800) c (destructorCallback h)) /\
  now (debounce_step h (EffectRun c)).1 = now h.
Proof. unfold debounce_step, hook_step, effect_body, cleanup. simpl. by destruct (firstRender h). Qed.

Lemma fold_apply_fields (us : list Update) (s : State) :
  let s' := fold_left apply_update us s in
  text s' = text s /\ workerInfo s' = workerInfo s /\ grammarWorkerRef s' = grammarWorkerRef s /\
  debounce s' = debounce s /\ posted s' = posted s.
Proof.
  revert s. induction us as [|u us IH]; intros s; [done|]. cbn zeta in *. simpl.
  destruct (IH (apply_update s u)) as (-> & -> & -> & -> & ->). by destruct u.
Qed.

(** What the effects of a render leave: the rendered state's fields,
    a timer armed with its callback, and the worker. *)
Lemma render_spec (b : bool) (prev : option WorkerInfo) (s : State) :
  let '(s1, us) := render b prev s in
  text s1 = text s /\ workerInfo s1 = workerInfo s /\ parsingData s1 = parsingData s /\
  isParsing s1 = isParsing s /\ isInitializing s1 = isInitializing s /\
  timerRef (debounce s1) = Some (mkTimer (now (debounce s) + 800) (snapshot s) (destructorCallback (debounce s))) /\
  now (debounce s1) = now (debounce s) /\
  ((b = false \/ workerInfo s = None) /\ us = [] /\
     (grammarWorkerRef s1 = grammarWorkerRef s \/
      exists w, grammarWorkerRef s1 = Some w /\ alive w = false) \/
   exists wi, b = true /\ workerInfo s = Some wi /\ us = [SetIsInitializing true] /\
     exists w, grammarWorkerRef s1 = Some w /\ alive w = true /\ inbox w = [InitRequest] /\
       onmessage w = Some HandleInit).
Proof.
  unfold render. destruct b; [|simpl; pose proof (debounce_effect_run (debounce s) (snapshot s)); naive_solver].
  unfold workerInfo_effect.
  set (s0 := match prev, grammarWorkerRef s with
             | Some _, Some w => set_worker s (Some (terminate w)) | _, _ => s end).
  assert (Hs : text s0 = text s /\ workerInfo s0 = workerInfo s /\ parsingData s0 = parsingData s /\
    isParsing s0 = isParsing s /\ isInitializing s0 = isInitializing s /\ debounce s0 = debounce s /\
    (grammarWorkerRef s0 = grammarWorkerRef s \/ exists w, grammarWorkerRef s0 = Some w /\ alive w = false)).
  { unfold s0. destruct prev as [p|]; [|repeat split; by left].
    destruct (grammarWorkerRef s) as [w|] eqn:Hr; simpl; repeat split; [right; by eexists|by left]. }
  clearbody s0. destruct Hs as (H1 & H2 & H3 & H4 & H5 & H6 & Hw).
  pose proof (debounce_effect_run (debounce s) (snapshot s)) as [Ht Hn].
  rewrite H2. destruct (workerInfo s) as [wi|] eqn:Hwi; cbn -[debounce_step].
  - destruct (grammarWorkerRef s0); cbn -[debounce_step]; rewrite H6, Ht, Hn; (repeat split; try done);
      right; exists wi; (split; [done|]); (split; [done|]); (split; [done|]); by eexists.
  - rewrite H6, Ht, Hn. (repeat split; try done). left. naive_solver.
Qed.

Lemma changes_init (s : State) : changes s [SetIsInitializing true] = negb (isInitializing s).
Proof. unfold changes. simpl. rewrite eqb_reflx. by destruct (isInitializing s). Qed.

Lemma worker_ok_same (s s' : State) :
  grammarWorkerRef s' = grammarWorkerRef s -> isInitializing s' = isInitializing s ->
  worker_ok s -> worker_ok s'.
Proof. unfold worker_ok. intros -> ->. done. Qed.

Lemma worker_ok_dead (s : State) (w : Worker) :
  grammarWorkerRef s = Some w -> alive w = false -> worker_ok s.
Proof. unfold worker_ok. intros -> ->. done. Qed.

(** A render of a state that keeps its worker keeps the invariant. *)
Lemma render_false_inv (prev : option WorkerInfo) (s : State) :
  data_ok (parsingData s) = true -> worker_ok s ->
  let s' := (render false prev s).1 in
  inv s' /\ text s' = text s /\ workerInfo s' = workerInfo s /\ parsingData s' = parsingData s /\
  isParsing s' = isParsing s /\ isInitializing s' = isInitializing s /\
  grammarWorkerRef s' = grammarWorkerRef s.
Proof.
  intros Hd Hw. pose proof (render_spec false prev s) as Hr.
  destruct (render false prev s) as [s1 us] eqn:E. simpl.
  destruct Hr as (Ht & Hwi & Hpd & Hp & Hi & Htm & _ & [(_ & -> & Hwk) | (? & ? & _)]); [|done].
  assert (Hs : snapshot s1 = snapshot s) by (unfold snapshot; congruence).
  assert (Hg : grammarWorkerRef s1 = grammarWorkerRef s) by (injection E; intros; subst; done).
  split; [split; [congruence|split]|done].
  - by apply (worker_ok_same s).
  - intros tm Htm'. rewrite Htm in Htm'. injection Htm' as <-. done.
Qed.

(** [settle] keeps the rendered state's text, data and [isParsing],
    sets [isInitializing] when it created a worker, and establishes the
    invariant. *)
Lemma settle_inv (b : bool) (prev : option WorkerInfo) (s : State) :
  data_ok (parsingData s) = true -> worker_ok s ->
  let s' := settle b prev s in
  inv s' /\ text s' = text s /\ workerInfo s' = workerInfo s /\ parsingData s' = parsingData s /\
  isParsing s' = isParsing s /\
  ((isInitializing s' = isInitializing s /\
    (grammarWorkerRef s' = grammarWorkerRef s \/ exists w, grammarWorkerRef s' = Some w /\ alive w = false)) \/
   (b = true /\ isInitializing s' = true /\ exists w, grammarWorkerRef s' = Some w /\ alive w = true /\
     inbox w = [InitRequest] /\ onmessage w = Some HandleInit)).
Proof.
  intros Hd Hw. unfold settle. pose proof (render_spec b prev s) as Hr.
  destruct (render b prev s) as [s1 us] eqn:E.
  destruct Hr as (Ht & Hwi & Hpd & Hp & Hi & Htm & _ & [(_ & -> & Hwk) | (wi & -> & _ & -> & w & Hg & Ha & Hin & Ho)]).
  - simpl. unfold changes. simpl. rewrite !eqb_reflx. simpl.
    assert (Hs : snapshot s1 = snapshot s) by (unfold snapshot; congruence).
    split; [split; [congruence|split]|].
    + destruct Hwk as [Hg | (w & Hg & Ha)]; [by apply (worker_ok_same s)|by apply (worker_ok_dead s1 w)].
    + intros tm Htm'. rewrite Htm in Htm'. injection Htm' as <-. done.
    + repeat split; try congruence. left. split; [congruence|done].
  - set (s2 := fold_left apply_update [SetIsInitializing true] s1).
    assert (Hw2 : worker_ok s2).
    { unfold worker_ok, s2. simpl. rewrite Hg, Hin, Ho. intros _. split; [done|]. set_solver. }
    assert (Hd2 : data_ok (parsingData s2) = true) by (unfold s2; simpl; congruence).
    cbn zeta. rewrite changes_init. fold s2. destruct (isInitializing s1) eqn:Hi1; cbn [negb].
    + assert (Hs : snapshot s2 = snapshot s) by (unfold snapshot, s2; simpl; congruence).
      split; [split; [done|split; [done|]]|].
      * intros tm Htm'. unfold s2 in Htm'. simpl in Htm'. rewrite Htm in Htm'. injection Htm' as <-. done.
      * unfold s2; simpl. repeat split; try congruence. right. split; [done|]. split; [done|]. by exists w.
    + destruct (render_false_inv prev s2 Hd2 Hw2) as (Hinv & Ht2 & Hwi2 & Hd2' & Hp2 & Hi2 & Hg2).
      assert (E2 : text s2 = text s1 /\ workerInfo s2 = workerInfo s1 /\ parsingData s2 = parsingData s1 /\
        isParsing s2 = isParsing s1 /\ isInitializing s2 = true /\ grammarWorkerRef s2 = grammarWorkerRef s1)
        by done.
      destruct E2 as (? & ? & ? & ? & ? & ?). split; [done|]. repeat split; try congruence.
      right. split; [done|]. split; [done|]. exists w. rewrite Hg2. done.
Qed.

Lemma nochange_fields (s : State) (us : list Update) :
  changes s us = false ->
  let s' := fold_left apply_update us s in
  parsingData s' = parsingData s /\ isParsing s' = isParsing s /\ isInitializing s' = isInitializing s.
Proof.
  unfold changes. intros H. apply orb_false_iff in H as [H Hi]. apply orb_false_iff in H as [Hs Hp].
  apply negb_false_iff, eqb_prop in Hp, Hi. split; [|done].
  clear Hp Hi. revert s Hs. induction us as [|[] us IH]; intros s Hs; simpl in *; [done|discriminate| |];
    rewrite IH; done.
Qed.

Lemma commit_inv (s : State) (us : list Update) :
  let s1 := fold_left apply_update us s in
  data_ok (parsingData s1) = true -> worker_ok s1 -> timer_ok s ->
  let s' := commit s us in
  inv s' /\ text s' = text s /\ parsingData s' = parsingData s1 /\ isParsing s' = isParsing s1 /\
  isInitializing s' = isInitializing s1 /\
  (grammarWorkerRef s' = grammarWorkerRef s \/ exists w, grammarWorkerRef s' = Some w /\ alive w = false).
Proof.
  intros s1 Hd Hw Ht. unfold commit. fold s1.
  destruct (fold_apply_fields us s) as (Htx & Hwi & Hg & Hdb & _). fold s1 in Htx, Hwi, Hg, Hdb.
  destruct (changes s us) eqn:Hc.
  - destruct (settle_inv false (workerInfo s) s1 Hd Hw) as (Hinv & ? & ? & ? & ? & [[? Hg'] | (? & _)]);
      [|done]. split; [done|]. repeat split; try congruence. all: destruct Hg' as [Hg'|]; [left; congruence|by right].
  - destruct (nochange_fields s us Hc) as (Hd' & Hp & Hi). fold s1 in Hd', Hp, Hi.
    split; [split; [done|split; [done|]]|repeat split; auto].
    intros tm Htm. rewrite Hdb in Htm. rewrite (Ht tm Htm). unfold snapshot. congruence.
Qed.

(** An answer from the live worker goes to the handler of its kind. *)
Lemma respond_inv (s : State) (w : Worker) (m : Request) (rest : list Request) (h : Handler) :
  inv s -> grammarWorkerRef s = Some w -> alive w = true -> inbox w = m :: rest -> onmessage w = Some h ->
  let s' := set_worker s (Some (mkWorker (worker_id w) true rest (Some h))) in
  let s1 := fold_left apply_update (handle h (worker_reply m)) s' in
  data_ok (parsingData s1) = true /\ worker_ok s1 /\ timer_ok s'.
Proof.
  intros (Hd & Hw & Ht) Hg Ha Hin Ho. unfold worker_ok in Hw. rewrite Hg in Hw.
  destruct (Hw Ha) as [Hinit Hparse]. rewrite Hin in Hinit, Hparse.
  split; [|split]; [| |intros tm Htm; apply (Ht tm Htm)].
  - destruct m as [|t].
    + destruct (Hinit ltac:(set_solver)) as (_ & Hh & _). rewrite Ho in Hh. injection Hh as ->. done.
    + destruct (Hparse ltac:(done) ltac:(set_solver)) as (d & Hh & Hdd). rewrite Ho in Hh. injection Hh as ->.
      simpl. unfold data_ok in *. apply andb_true_iff in Hdd as [H1 _]. apply andb_true_iff. split; [exact H1|done].
  - unfold worker_ok. destruct m as [|t].
    + destruct (Hinit ltac:(set_solver)) as (Hr & Hh & _). rewrite Ho in Hh. injection Hh as ->.
      injection Hr as ->. simpl. intros _. split; [set_solver|done].
    + destruct (Hparse ltac:(done) ltac:(set_solver)) as (d & Hh & Hdd). rewrite Ho in Hh. injection Hh as ->.
      simpl. intros _. split; [intros Hi; exfalso|intros _ _; by exists d].
      destruct (Hinit ltac:(set_solver)) as (Hr & _). discriminate.
Qed.

Lemma debounce_advance (h : HookState Snapshot unit) (dt : Z) :
  let '(h', acts) := debounce_step h (Advance dt) in
  now h' = now h + dt /\
  ((acts = [] /\ timerRef h' = timerRef h /\
    forall tm, timerRef h = Some tm -> now h + dt < deadline tm) \/
   exists tm, timerRef h = Some tm /\ deadline tm <= now h + dt /\ timerRef h' = None /\
     acts = (match captured tm with Some d => [CallDestructor d] | None => [] end) ++
            [CallCallback (timerCallback tm)]).
Proof.
  unfold debounce_step, hook_step. destruct (timerRef h) as [tm|] eqn:E; simpl.
  - case_decide; simpl; (split; [done|]); [right; by exists tm|]. left. split; [done|].
    split; [done|]. intros ? [= <-]. lia.
  - split; [done|]. left. split; [done|]. split; [done|]. intros ? [=].
Qed.

Lemma run_actions_callback (before : list (Action Snapshot unit)) (c : Snapshot) (s : State) :
  Forall (fun a => exists d, a = CallDestructor d) before ->
  run_actions (before ++ [CallCallback c]) s = let '(s', us) := run_callback c s in commit s' us.
Proof.
  intros Hb. unfold run_actions. rewrite fold_left_app. simpl. f_equal.
  induction Hb as [|? ? (d & ->) _ IH]; [done|]. simpl. done.
Qed.

(** The debounced callback, fired with the callback of the latest
    render, posts a parse request only to a worker that has answered
    [grammar/initialize]. *)
Lemma callback_inv (s : State) :
  inv s -> timerRef (debounce s) = None ->
  let '(s', us) := run_callback (snapshot s) s in
  data_ok (parsingData (fold_left apply_update us s')) = true /\
  worker_ok (fold_left apply_update us s') /\ timer_ok s'.
Proof.
  intros (Hd & Hw & _) Hn. unfold run_callback.
  destruct (grammarWorkerRef s) as [w|] eqn:Hg; [|simpl; split; [done|split; [done|intros ? ?; congruence]]].
  simpl. destruct (isInitializing s) eqn:Hi; simpl.
  - split; [done|]. split; [done|intros ? ?; congruence].
  - split; [done|]. split; [|intros ? ?; simpl in *; congruence]. unfold worker_ok in *. rewrite Hg in Hw. simpl.
    intros Ha. destruct (Hw Ha) as [Hinit _]. rewrite Ha. simpl.
    assert (InitRequest ∉ inbox w) by (intros Hin; destruct (Hinit Hin) as (_ & _ & ?); congruence).
    split; [set_solver|]. intros _ _. by exists (parsingData s).
Qed.

Lemma parsing_step_inv (s : State) (ev : Event) : inv s -> inv (step s ev).
Proof.
  intros Hinv. pose proof Hinv as (Hd & Hw & Ht). destruct ev as [t|wi| | |dt]; cbn [step].
  - apply settle_inv; [done|by apply (worker_ok_same s)].
  - apply settle_inv; [done|by apply (worker_ok_same s)].
  - by apply settle_inv.
  - destruct (grammarWorkerRef s) as [w|] eqn:Hg; [|done].
    destruct (alive w) eqn:Ha, (inbox w) as [|m rest] eqn:Hin, (onmessage w) as [h|] eqn:Ho; try done.
    + destruct (respond_inv s w m rest h Hinv Hg Ha Hin Ho) as (Hd1 & Hw1 & Ht1). by apply commit_inv.
    + exfalso. unfold worker_ok in Hw. rewrite Hg in Hw. destruct (Hw Ha) as [Hinit Hparse].
      rewrite Hin in Hinit, Hparse. destruct m.
      * destruct (Hinit ltac:(set_solver)) as (_ & Hh & _). congruence.
      * destruct (Hparse ltac:(done) ltac:(set_solver)) as (? & Hh & _). congruence.
  - pose proof (debounce_advance (debounce s) dt) as Hadv.
    destruct (debounce_step (debounce s) (Advance dt)) as [h acts]. destruct Hadv as (Hnow & Hcase).
    destruct Hcase as [(-> & Htm & _) | (tm & Htm & _ & Hnone & ->)].
    + unfold run_actions. cbn [fold_left]. split; [exact Hd|split; [exact Hw|]].
      intros tm Htm'. simpl in Htm'. rewrite Htm in Htm'. by apply Ht.
    + rewrite run_actions_callback by (destruct (captured tm); repeat constructor; eauto).
      rewrite (Ht tm Htm). set (s1 := set_debounce s h).
      assert (Hinv1 : inv s1) by (split; [done|split; [done|]]; intros ? Htm'; simpl in Htm'; congruence).
      change (snapshot s) with (snapshot s1).
      pose proof (callback_inv s1 Hinv1 Hnone) as Hcb. destruct (run_callback (snapshot s1) s1) as [s2 us].
      destruct Hcb as (Hd2 & Hw2 & Ht2). by apply commit_inv.
Qed.

Lemma mount_inv (t : JsString) (wi : option WorkerInfo) (clock : Z) : inv (mount t wi clock).
Proof. apply settle_inv; done. Qed.

(** ** The idle loop *)

(** Nothing pending but the timer the last render armed: the live worker
    has answered everything, nothing is initializing or parsing. *)
Definition idle (s : State) : Prop :=
  exists w tm, grammarWorkerRef s = Some w /\ alive w = true /\ inbox w = [] /\
    isInitializing s = false /\ isParsing s = false /\
    timerRef (debounce s) = Some tm /\ deadline tm = now (debounce s) + 800.

Lemma changes_nil (s : State) : changes s [] = false.
Proof. unfold changes. simpl. by rewrite !eqb_reflx. Qed.

Lemma settle_false_eq (prev : option WorkerInfo) (s : State) :
  settle false prev s = set_debounce s (debounce_step (debounce s) (EffectRun (snapshot s))).1.
Proof. unfold settle, render. cbn -[debounce_step changes]. by rewrite changes_nil. Qed.

Lemma step_elapse_fire (s : State) (tm : Timer Snapshot unit) (dt : Z) :
  timerRef (debounce s) = Some tm -> deadline tm <= now (debounce s) + dt ->
  step s (Elapse dt) =
  let h := mkHookState (firstRender (debounce s)) None None (now (debounce s) + dt) in
  let '(s', us) := run_callback (timerCallback tm) (set_debounce s h) in commit s' us.
Proof.
  intros Htm Hd. cbn [step]. unfold debounce_step, hook_step. rewrite Htm, decide_True by done.
  unfold fire. cbn [fst snd captured timerRef firstRender destructorCallback now].
  apply run_actions_callback. destruct (captured tm); repeat constructor; eauto.
Qed.

Lemma idle_round (s : State) :
  inv s -> idle s ->
  let s1 := step s (Elapse 800) in
  let s2 := step s1 Respond in
  isParsing s1 = true /\ idle s2 /\ text s2 = text s /\ workerInfo s2 = workerInfo s /\
  isParsing s2 = false /\
  (exists w, grammarWorkerRef s = Some w /\
     posted s2 = posted s ++ [(worker_id w, ParseRequest (text s))] /\
     (exists w2, grammarWorkerRef s2 = Some w2 /\ worker_id w2 = worker_id w)) /\
  parsingData s2 = mkParsingData (specification (parsingData s)) (Some (ReplyParse (parse_fn (text s)))).
Proof.
  intros Hinv (w & tm & Hg & Ha & Hin & Hi & Hp & Htm & Hdl).
  pose proof Hinv as (Hd & Hw & Ht). pose proof (Ht tm Htm) as Hc.
  cbn zeta. rewrite (step_elapse_fire s tm 800 Htm) by lia. rewrite Hc.
  destruct s as [t wi ref nw d ip ii h ps]; simpl in *; subst.
  destruct w as [wid wal winbox won]; simpl in *; subst.
  destruct h as [fr dc tmr n0]; simpl in *; subst. clear Hinv Hw Ht Hc.
  unfold run_callback, set_debounce, commit. simpl. rewrite settle_false_eq.
  destruct fr; simpl; unfold idle; simpl; split; try done; (split; [do 2 eexists; repeat split|]);
    try done; repeat split; try done;
    (eexists; split; [reflexivity|]; split; [reflexivity|]; eexists; split; reflexivity).
Qed.

Lemma reachable_inv_parsing (s : State) : reachable s -> inv s.
Proof. induction 1; [apply mount_inv|by apply parsing_step_inv]. Qed.

Lemma parsing_reachable_run (s : State) (evs : list Event) : reachable s -> reachable (run s evs).
Proof. revert s. induction evs as [|ev evs IH]; intros s Hs; simpl; [done|]. apply IH. by constructor. Qed.

Lemma run_app (s : State) (evs evs' : list Event) : run s (evs ++ evs') = run (run s evs) evs'.
Proof. apply fold_left_app. Qed.

(** ** Theorems *)

(** C21: the worker protocol is kept in every reachable state: the
    stored specification is always an answer to [grammar/initialize]
    and the stored parse result an answer to [grammar/parse]; while the
    live worker has not answered [grammar/initialize] that message is
    its only one, [handleInitResponse] is installed and [isInitializing]
    is set; every parse request goes to a worker that has answered it,
    with a [handleParseResponse] installed. *)
Theorem reachable_protocol (s : State) :
  reachable s ->
  reply_kind_ok true (specification (parsingData s)) = true /\
  reply_kind_ok false (parseResult (parsingData s)) = true /\
  forall w, grammarWorkerRef s = Some w -> alive w = true ->
    (InitRequest ∈ inbox w ->
       inbox w = [InitRequest] /\ onmessage w = Some HandleInit /\ isInitializing s = true) /\
    (inbox w <> [] -> InitRequest ∉ inbox w -> exists d, onmessage w = Some (HandleParse d)).
Proof.
  intros Hr. destruct (reachable_inv_parsing s Hr) as (Hd & Hw & _).
  apply andb_true_iff in Hd as [Hs Hp]. split; [done|split; [done|]].
  intros w Hg Ha. unfold worker_ok in Hw. rewrite Hg in Hw. destruct (Hw Ha) as [H1 H2].
  split; [done|]. intros Hne Hni. destruct (H2 Hne Hni) as (d & ? & _). by exists d.
Qed.

(** C22: the idle editor re-parses forever.  Every render re-runs the
    debounced effect (its dependencies contain the inline callback), and
    both the firing ([setIsParsing(true)]) and the answer (a new
    [parsingData] object) cause a render; so from an idle state, with no
    user input, every 800 ms the same text is posted to the worker
    again, [isParsing] is raised (the errors list shows "Parsing..."),
    and the answer brings the hook back to an idle state. *)
Theorem idle_reparse_forever (s : State) (w : Worker) (n : nat) :
  reachable s -> idle s -> grammarWorkerRef s = Some w ->
  let round := [Elapse 800; Respond] in
  let s' := run s (List.concat (replicate n round)) in
  posted s' = posted s ++ replicate n (worker_id w, ParseRequest (text s)) /\
  idle s' /\ text s' = text s /\
  (forall k, (k < n)%nat -> isParsing (step (run s (List.concat (replicate k round))) (Elapse 800)) = true) /\
  (n <> 0%nat -> parseResult (parsingData s') = Some (ReplyParse (parse_fn (text s)))).
Proof.
  intros Hr Hidle Hg. cbn zeta. apply reachable_inv_parsing in Hr. revert s w Hr Hidle Hg.
  induction n as [|n IH]; intros s w Hr Hidle Hg; cbn [replicate List.concat].
  - cbn [run fold_left]. rewrite app_nil_r. repeat split; try done; intros; lia.
  - destruct (idle_round s Hr Hidle) as (Hp1 & Hidle2 & Ht2 & _ & _ & (w' & Hg' & Hps & w2 & Hg2 & Hid) & Hd2).
    rewrite Hg in Hg'. injection Hg' as <-.
    assert (Hr2 : inv (step (step s (Elapse 800)) Respond)) by (by apply parsing_step_inv, parsing_step_inv).
    destruct (IH _ w2 Hr2 Hidle2 Hg2) as (Hpost & Hidle' & Ht' & Hpar & Hres).
    rewrite run_app. change (run s [Elapse 800; Respond]) with (step (step s (Elapse 800)) Respond).
    split; [|split; [done|split; [congruence|split]]].
    + rewrite Hpost, Hps, Ht2, Hid, <- app_assoc. done.
    + intros [|k] Hk; [done|]. cbn [replicate List.concat]. rewrite run_app.
      change (run s [Elapse 800; Respond]) with (step (step s (Elapse 800)) Respond).
      apply Hpar. lia.
    + intros _. destruct n as [|n]; [cbn [replicate List.concat run fold_left]; by rewrite Hd2|].
      rewrite Hres by done. by rewrite Ht2.
Qed.

End Parsing.

(** The witnesses run a grammar worker whose specification is [tt] and
    whose parse result is the length of the text. *)
Example reachable_protocol_witness :
  reachable tt (fun t : JsString => List.length t) (mount (js "ab") (Some tt) 0) /\
  isInitializing (mount (Spec := unit) (ParseResult := nat) (js "ab") (Some tt) 0) = true.
Proof.
  assert (Hr : reachable tt (fun t : JsString => List.length t) (mount (js "ab") (Some tt) 0))
    by constructor.
  split; [done|].
  destruct (reachable_protocol tt (fun t : JsString => List.length t) _ Hr) as (_ & _ & H).
  destruct (H (mkWorker 0 true [InitRequest] (Some HandleInit))) as [H1 _]; [reflexivity|reflexivity|].
  apply H1. left.
Defined.

Example idle_reparse_forever_witness :
  let s := run tt (fun t : JsString => List.length t) (mount (js "ab") (Some tt) 0)
             [Respond; Elapse 800; Respond] in
  reachable tt (fun t : JsString => List.length t) s /\ idle s /\
  posted (run tt (fun t : JsString => List.length t) s (List.concat (replicate 2 [Elapse 800; Respond]))) =
  posted s ++ replicate 2 (0%nat, ParseRequest (js "ab")).
Proof.
  cbn zeta.
  remember (run tt (fun t : JsString => List.length t) (mount (js "ab") (Some tt) 0)
              [Respond; Elapse 800; Respond]) as s eqn:Hs.
  assert (Hr : reachable tt (fun t : JsString => List.length t) s)
    by (subst s; apply parsing_reachable_run; constructor).
  assert (Hi : idle s).
  { subst s. vm_compute. do 2 eexists. repeat split. }
  assert (Hg : grammarWorkerRef s =
    Some (mkWorker 0 true [] (Some (HandleParse (mkParsingData (Some (ReplyInit tt)) None)))))
    by (subst s; vm_compute; reflexivity).
  split; [done|]. split; [done|].
  destruct (idle_reparse_forever tt (fun t : JsString => List.length t) s _ 2 Hr Hi Hg) as (Hp & _).
  rewrite Hp. f_equal. subst s. vm_compute. reflexivity.
Defined.

End Parsing.
