(* ===== verification/Editor.v ===== *)
(** * The editor page: [CodeEditor]'s effects and its widgets

    Models what [src/src/components/code-editor/code-editor.tsx] does
    around the suggestion engine, with the widgets whose decisions it
    depends on:

    - [WorkerSelect] ([src/src/components/worker-select/worker-select.tsx]):
      the options it renders, the option React selects for its value
      and the worker its [onChange] passes;
    - [ViewSelect] ([src/src/components/view-select/view-select.tsx]):
      the two buttons, the second disabled while parsing;
    - [ErrorsList] ([src/src/components/errors-list/errors-list.tsx]):
      which status it shows;
    - the effects of [CodeEditor]: the text-area effect on
      [[currentView, handleCaretChange]] (stores the DOM text area and
      registers the caret listeners), the effect on
      [[handleValueChange, loadedCode]] (loads the shared code) and the
      effect on [[workers]] (selects the first worker), run after every
      render whose dependencies changed, until no state changes.

    [useCodeLoader]'s effect depends on [decode], a function rebuilt at
    every render, so it runs after every render and stores the URL's
    decoded [code] parameter ([urlCode], decoded once: the decoder is
    [Encoding]'s).  After an event the component re-renders and runs its
    effects until a round changes no state, within [RENDER_FUEL] rounds.

    Reading a field of [undefined] throws a [TypeError]; the functions
    that can throw return [option] ([None] for the exception).  The
    theorems show that [WorkerSelect] always passes the first worker,
    that a switch to the parse tree and back reloads the shared document
    over the user's edits, and that loading an example ([onExampleClick])
    keeps the caret of the old text, past the end of a shorter example.

    The user events also include a caret move caught by the text area's
    [click], [contextmenu] and [keypress] listeners, the autocomplete's
    [onSuggestionAccept] ([handleSuggestionAccept] of [Acceptance] on
    the component's state) and [onSelectCapture]
    ([handleSelectCapture]); accepting a suggestion leaves the text as it
    was and moves the caret to where the accepted word would have ended,
    inside the old text. *)

From S2P Require Import Prelude WordExtraction Acceptance.

Module Editor.

(** [WorkerInfo] of [@syntaxica/lib], with the fields the code reads. *)
Record WorkerVersion := mkWorkerVersion { version_name : JsString; url : JsString }.
Record WorkerInfo := mkWorkerInfo { name : JsString; versions : list WorkerVersion }.

#[export] Instance WorkerVersion_eq_dec : EqDecision WorkerVersion.
Proof. solve_decision. Defined.
#[export] Instance WorkerInfo_eq_dec : EqDecision WorkerInfo.
Proof. solve_decision. Defined.

(** ** [WorkerSelect] *)

(** An [<option>]: its [value] attribute and its text. *)
Record SelectOption := mkSelectOption { option_value : JsString; option_label : JsString }.

(** [worker.versions[0]]; reading a field of it throws when it is
    [undefined]. *)
Definition first_version (worker : WorkerInfo) : option WorkerVersion := head (versions worker).

(** [getOptions()]: the value is [worker.versions[0].name], the text is
    [value?.name ?? ''] for every option. *)
Definition getOptions (value : option WorkerInfo) (workers : list WorkerInfo) : option (list SelectOption) :=
  mapM (fun worker =>
          v ← first_version worker;
          Some (mkSelectOption (version_name v) (match value with Some w => name w | None => [] end)))
       workers.

(** [getInfoByUrl(url)]: [workers.find((worker) => worker.versions[0].url === url)]. *)
Fixpoint getInfoByUrl (workers : list WorkerInfo) (u : JsString) : option (option WorkerInfo) :=
  match workers with
  | [] => Some None
  | worker :: rest =>
      v ← first_version worker;
      if bool_decide (url v = u) then Some (Some worker) else getInfoByUrl rest u
  end.

(** The [onChange] of the [<select>] for the value of the chosen option:
    the worker passed to [onChange]. *)
Definition select_onChange (workers : list WorkerInfo) (selected : JsString) : option (option WorkerInfo) :=
  found ← getInfoByUrl workers selected;
  Some (match found with Some w => Some w | None => head workers end).

(** The [value] of the [<select>]: [value?.versions[0]?.url ?? '']. *)
Definition select_value (value : option WorkerInfo) : JsString :=
  match value with
  | Some w => match first_version w with Some v => url v | None => [] end
  | None => []
  end.

(** The option a controlled [<select value={v}>] marks as selected
    (React's [updateOptions] for a single select): the first option
    whose value is [v], else the first option (none is disabled). *)
Definition select_selectedIndex (v : JsString) (opts : list SelectOption) : option nat :=
  match list_find (fun o => option_value o = v) opts with
  | Some (i, _) => Some i
  | None => match opts with [] => None | _ :: _ => Some 0%nat end
  end.

(** [select.value] in the document: the value of the selected option. *)
Definition select_dom_value (v : JsString) (opts : list SelectOption) : JsString :=
  match select_selectedIndex v opts with
  | Some i => match opts !! i with Some o => option_value o | None => [] end
  | None => []
  end.

(** ** [ViewSelect] *)

(** [CodeEditorViewType] ([types/code-editor-view-type], not among the
    sources). *)
Inductive CodeEditorViewType := ViewEditor | ViewParseTree.

#[export] Instance CodeEditorViewType_eq_dec : EqDecision CodeEditorViewType.
Proof. solve_decision. Defined.

(** A click on a button: the view passed to [onViewSelectChange], or
    nothing when the button is [disabled]. *)
Definition viewSelect_click (isParseTreeViewDisabled : bool) (button : CodeEditorViewType)
    : option CodeEditorViewType :=
  match button with
  | ViewEditor => Some ViewEditor
  | ViewParseTree => if isParseTreeViewDisabled then None else Some ViewParseTree
  end.

(** ** [ErrorsList] *)

Inductive ErrorsStatus :=
| StatusInitializing
| StatusParsing
| StatusNoErrors
| StatusFoundErrors (count : Z).

Definition errorsList_status {E} (errors : list E) (isInitializing isParsing : bool) : ErrorsStatus :=
  if isInitializing then StatusInitializing
  else if isParsing then StatusParsing
  else if decide (List.length errors = 0%nat) then StatusNoErrors
  else StatusFoundErrors (Z.of_nat (List.length errors)).

(** ** The [CodeEditor] component *)

(** A DOM text area: its identity and its contents. *)
Record Element := mkElement { el_id : nat; el_area : CodeEditor.TextArea }.

#[export] Instance TextArea_eq_dec : EqDecision CodeEditor.TextArea.
Proof. solve_decision. Defined.
#[export] Instance Element_eq_dec : EqDecision Element.
Proof. solve_decision. Defined.

Record State := mkState {
  value : JsString;                     (* [value], the [query] of [App] *)
  caretData : CodeEditor.CaretData;
  textArea : option Element;            (* [useState<HTMLTextAreaElement>()] *)
  newCaretIndex : Z;
  currentView : CodeEditorViewType;
  currentWorker : option WorkerInfo;
  workers : list WorkerInfo;            (* [useWorkers] *)
  urlCode : option JsString;            (* the decoded [code] parameter of the page URL *)
  loadedCode : option JsString;         (* [useCodeLoader] *)
  isParsing : bool;                     (* [useParsing] *)
  isInitializing : bool;
  dom : option Element;                 (* [#code-textarea--input] in the document *)
  next_el : nat;
  listeners : list nat                  (* elements with the caret listeners *)
}.

#[export] Instance CaretPosition_eq_dec : EqDecision CodeEditor.CaretPosition.
Proof. solve_decision. Defined.
#[export] Instance CaretData_eq_dec : EqDecision CodeEditor.CaretData.
Proof. solve_decision. Defined.
#[export] Instance State_eq_dec : EqDecision State.
Proof. solve_decision. Defined.

Inductive Update :=
| CE (u : CodeEditor.Update)            (* [onValueChange], [setCaretData], [setNewCaretIndex] *)
| SetTextArea (e : Element)
| SetCurrentView (v : CodeEditorViewType)
| SetCurrentWorker (w : option WorkerInfo)
| SetWorkers (ws : list WorkerInfo)
| SetLoadedCode (c : JsString)
| SetParsingStatus (initializing parsing : bool).

Definition apply_update (s : State) (u : Update) : State :=
  let '(mkState v c ta n view w ws uc lc ip ii d ne ls) := s in
  match u with
  | CE (CodeEditor.OnValueChange v') => mkState v' c ta n view w ws uc lc ip ii d ne ls
  | CE (CodeEditor.SetCaretData c') => mkState v c' ta n view w ws uc lc ip ii d ne ls
  | CE (CodeEditor.SetNewCaretIndex n') => mkState v c ta n' view w ws uc lc ip ii d ne ls
  | SetTextArea e => mkState v c (Some e) n view w ws uc lc ip ii d ne ls
  | SetCurrentView view' => mkState v c ta n view' w ws uc lc ip ii d ne ls
  | SetCurrentWorker w' => mkState v c ta n view w' ws uc lc ip ii d ne ls
  | SetWorkers ws' => mkState v c ta n view w ws' uc lc ip ii d ne ls
  | SetLoadedCode lc' => mkState v c ta n view w ws uc (Some lc') ip ii d ne ls
  | SetParsingStatus ii' ip' => mkState v c ta n view w ws uc lc ip' ii' d ne ls
  end.

Definition apply_updates (s : State) (us : list Update) : State := fold_left apply_update us s.

(** The state [Acceptance] models, read from the component's state. *)
Definition to_ce (s : State) : CodeEditor.State :=
  CodeEditor.mkState (value s) (caretData s) (option_map el_area (textArea s)) (newCaretIndex s).

(** The document after a render: the [Editor] view shows a text area
    whose value is [value] (a new element when the view was switched
    back); setting a different value moves its caret to the end. *)
Definition sync_element (v : JsString) (e : Element) : Element :=
  if decide (CodeEditor.ta_value (el_area e) = v) then e
  else mkElement (el_id e) (CodeEditor.mkTextArea v (js_length v)).

Definition render_dom (s : State) : State :=
  let '(mkState v c ta n view w ws uc lc ip ii d ne ls) := s in
  match view with
  | ViewParseTree => mkState v c ta n view w ws uc lc ip ii None ne ls
  | ViewEditor =>
      match d with
      | Some e =>
          let e' := sync_element v e in
          let ta' := match ta with
                     | Some t => if decide (el_id t = el_id e) then Some e' else ta
                     | None => None
                     end in
          mkState v c ta' n view w ws uc lc ip ii (Some e') ne ls
      | None =>
          let e := mkElement ne (CodeEditor.mkTextArea v (js_length v)) in
          mkState v c ta n view w ws uc lc ip ii (Some e) (S ne) ls
      end
  end.

(** What the effects depend on: [currentView] ([handleCaretChange] never
    changes), the identity of [handleValueChange] (rebuilt when
    [textArea] changes), [loadedCode], [workers]. *)
Record Deps := mkDeps { dep_view : CodeEditorViewType; dep_textArea : option nat;
                        dep_loadedCode : option JsString; dep_workers : list WorkerInfo }.

Definition deps (s : State) : Deps :=
  mkDeps (currentView s) (option_map el_id (textArea s)) (loadedCode s) (workers s).

Definition dep_changed {A} `{EqDecision A} (prev : option Deps) (f : Deps -> A) (now : A) : bool :=
  match prev with None => true | Some p => bool_decide (f p <> now) end.

(** [useCodeLoader]'s effect on [[decode]], a function rebuilt at every
    render: it runs after every render. *)
Definition codeLoader_effect (s : State) : list Update :=
  match urlCode s with Some c => [SetLoadedCode c] | None => [] end.

(** The effect on [[currentView, handleCaretChange]]: the cleanup removes
    the listeners of the previous run; the body reads the element by id. *)
Definition textArea_effect (s : State) : State * list Update :=
  let '(mkState v c ta n view w ws uc lc ip ii d ne ls) := s in
  match d with
  | None => (mkState v c ta n view w ws uc lc ip ii d ne [], [])
  | Some e => (mkState v c ta n view w ws uc lc ip ii d ne [el_id e], [SetTextArea e])
  end.

(** The effect on [[handleValueChange, loadedCode]]. *)
Definition loadedCode_effect (s : State) : list Update :=
  match loadedCode s with
  | None => []
  | Some code => map CE (CodeEditor.handleValueChange (to_ce s) code)
  end.

(** The effect on [[workers]]. *)
Definition workers_effect (s : State) : list Update :=
  match workers s with [] => [] | w :: _ => [SetCurrentWorker (Some w)] end.

(** The effects of a commit, in the order they are declared. *)
Definition run_effects (prev : option Deps) (s : State) : State * list Update :=
  let d := deps s in
  let us0 := codeLoader_effect s in
  let '(s1, us1) :=
    if dep_changed prev dep_view (dep_view d) then textArea_effect s else (s, []) in
  let us2 :=
    if dep_changed prev dep_textArea (dep_textArea d) || dep_changed prev dep_loadedCode (dep_loadedCode d)
    then loadedCode_effect s else [] in
  let us3 := if dep_changed prev dep_workers (dep_workers d) then workers_effect s else [] in
  (s1, us0 ++ us1 ++ us2 ++ us3).

(** Render, run the effects, and render again while their updates
    change the state. *)
Fixpoint settle (fuel : nat) (prev : option Deps) (s : State) : State :=
  match fuel with
  | O => s
  | S fuel' =>
      let s := render_dom s in
      let '(s1, us) := run_effects prev s in
      let s2 := apply_updates s1 us in
      if decide (s2 = s1) then s2 else settle fuel' (Some (deps s)) s2
  end.

Definition RENDER_FUEL : nat := 5.

Inductive Event :=
| UserEdit (t : JsString) (sel : Z)
| ClickView (button : CodeEditorViewType)
| PickWorker (k : nat)
| WorkersFetched (ws : list WorkerInfo)
| ParsingStatus (initializing parsing : bool)
| ExampleClick (code : JsString)
| CaretMove (sel : Z)            (* a click, context menu or key press moving the caret *)
| SuggestionAccept (suggestion : option JsString) (wordData : option WordData.t)
| SelectCapture.

(** The DOM text area after the user typed in it. *)
Definition edit_dom (s : State) (t : JsString) (sel : Z) : State :=
  let '(mkState v c ta n view w ws uc lc ip ii d ne ls) := s in
  match d with
  | Some e =>
      let e' := mkElement (el_id e) (CodeEditor.mkTextArea t sel) in
      let ta' := match ta with
                 | Some x => if decide (el_id x = el_id e) then Some e' else ta
                 | None => None
                 end in
      mkState v c ta' n view w ws uc lc ip ii (Some e') ne ls
  | None => s
  end.

(** The DOM text area after the user moved its caret (the browser
    clamps the selection into the text). *)
Definition move_caret (s : State) (sel : Z) : State :=
  match dom s with
  | Some e =>
      let t := CodeEditor.ta_value (el_area e) in edit_dom s t (clamp 0 (js_length t) sel)
  | None => s
  end.

(** The listeners [clickCallback], [contextMenuCallback] and
    [keyPressCallback] of the text-area effect: [handleCaretChange] on
    the element they were registered on, when that is the element in the
    document. *)
Definition caret_listener (s : State) : list Update :=
  match dom s with
  | Some e => if bool_decide (el_id e ∈ listeners s) then map CE (CodeEditor.handleCaretChange (el_area e))
              else []
  | None => []
  end.

(** [handleSelectCapture]: [textArea.setSelectionRange(newCaretIndex,
    newCaretIndex)] on the stored element (the DOM element when it is
    the same one), then [setNewCaretIndex(-1)]. *)
Definition select_dom (s : State) : State :=
  let '(mkState v c ta n view w ws uc lc ip ii d ne ls) := s in
  match ta with
  | Some t =>
      if decide (n = -1) then s
      else
        let t' := mkElement (el_id t) (CodeEditor.setSelectionRange (el_area t) n) in
        let d' := match d with
                  | Some x => if decide (el_id x = el_id t) then Some t' else d
                  | None => None
                  end in
        mkState v c (Some t') n view w ws uc lc ip ii d' ne ls
  | None => s
  end.

Definition handleSelectCapture (s : State) : list Update :=
  match textArea s with
  | Some _ => if decide (newCaretIndex s = -1) then [] else [CE (CodeEditor.SetNewCaretIndex (-1))]
  | None => []
  end.

(** [onExampleClick={(example) => onValueChange(example.code)}]: the
    parent's [setQuery], not [handleValueChange]. *)
Definition onExampleClick (example_code : JsString) : list Update := [CE (CodeEditor.OnValueChange example_code)].

(** The updates a user event makes. *)
Definition event_updates (s : State) (ev : Event) : list Update :=
  match ev with
  | UserEdit t _ =>
      if bool_decide (dom s = None) then [] else map CE (CodeEditor.handleValueChange (to_ce s) t)
  | ClickView b =>
      match viewSelect_click (isInitializing s || isParsing s) b with
      | Some v => [SetCurrentView v]
      | None => []
      end
  | PickWorker k =>
      match getOptions (currentWorker s) (workers s) with
      | Some opts =>
          match opts !! k with
          | Some o => match select_onChange (workers s) (option_value o) with
                      | Some w => [SetCurrentWorker w]
                      | None => []
                      end
          | None => []
          end
      | None => []
      end
  | WorkersFetched ws => [SetWorkers ws]
  | ParsingStatus ii ip => [SetParsingStatus ii ip]
  | ExampleClick code => onExampleClick code
  | CaretMove _ => caret_listener s
  | SuggestionAccept sugg wd => map CE (CodeEditor.handleSuggestionAccept (to_ce s) sugg wd).1
  | SelectCapture => handleSelectCapture s
  end.

Definition step (s : State) (ev : Event) : State :=
  let s0 := match ev with
            | UserEdit t sel => edit_dom s t sel
            | CaretMove sel => move_caret s sel
            | SelectCapture => select_dom s
            | _ => s
            end in
  let s1 := apply_updates s0 (event_updates s0 ev) in
  if decide (s1 = s0) then s1 else settle RENDER_FUEL (Some (deps s)) s1.

Definition run (s : State) (evs : list Event) : State := fold_left step evs s.

(** The first render and its effects, for the initial text of [App] and
    the page URL's decoded [code] parameter. *)
Definition mount (initial : JsString) (code : option JsString) : State :=
  settle RENDER_FUEL None
    (mkState initial CodeEditor.defaultCaretData None (-1) ViewEditor None [] code None false false
       None 0 []).

(** [App] ([src/src/app.tsx]): the [query] state starts with one line
    of Cypher and is the [value] of [CodeEditor], whose
    [onValueChange] is [setQuery] (the [OnValueChange] updates). *)
Definition App_initial_query : JsString := js "MATCH (p:Person)-[:LIVES_IN]->(c:City)" ++ [newline].

Definition App (code : option JsString) : State := mount App_initial_query code.

(** The editor is showing the URL's [code] in the textarea element [e]:
    the state after the first render of [mount] and after any edit. *)
Definition editing (s : State) (code : JsString) (e : Element) : Prop :=
  currentView s = ViewEditor /\ dom s = Some e /\ textArea s = Some e /\
  CodeEditor.ta_value (el_area e) = value s /\ (el_id e < next_el s)%nat /\
  listeners s = [el_id e] /\ urlCode s = Some code /\ loadedCode s = Some code /\
  isParsing s = false /\ isInitializing s = false.

(** The editor view shows the text area [e] holding the text, and the
    loader's effect has run. *)
Definition shown (s : State) (e : Element) : Prop :=
  currentView s = ViewEditor /\ dom s = Some e /\ textArea s = Some e /\
  CodeEditor.ta_value (el_area e) = value s /\ loadedCode s = urlCode s.

(** ** Lemmas on the widgets *)

Lemma getOptions_spec (value : option WorkerInfo) (workers : list WorkerInfo) (opts : list SelectOption) :
  getOptions value workers = Some opts ->
  Forall2 (fun worker o => exists v, first_version worker = Some v /\
             o = mkSelectOption (version_name v) (match value with Some w => name w | None => [] end))
          workers opts.
Proof.
  revert opts. induction workers as [|w ws IH]; intros opts H; simpl in H.
  - injection H as <-. constructor.
  - destruct (first_version w) as [v|] eqn:Hv; [|done]. simpl in H.
    destruct (getOptions value ws) as [os|] eqn:Hos; [|done]. injection H as <-.
    constructor; [by exists v|]. by apply IH.
Qed.

(** [find] by url finds nothing when no url is the searched text. *)
Lemma getInfoByUrl_none (workers : list WorkerInfo) (u : JsString) :
  Forall (fun w => exists v, first_version w = Some v /\ url v <> u) workers ->
  getInfoByUrl workers u = Some None.
Proof.
  induction 1 as [|w ws (v & Hv & Hu) _ IH]; [done|]. simpl. rewrite Hv. simpl.
  by rewrite bool_decide_false.
Qed.

Lemma Forall2_first_versions {P : WorkerInfo -> SelectOption -> WorkerVersion -> Prop}
    (workers : list WorkerInfo) (opts : list SelectOption) :
  Forall2 (fun w o => exists v, first_version w = Some v /\ P w o v) workers opts ->
  Forall (fun w => exists v, first_version w = Some v) workers.
Proof. induction 1 as [|? ? ? ? (v & Hv & _) _ IH]; constructor; eauto. Qed.

(** ** Theorems on the widgets *)

(** No option of [getOptions] has the value [u] when [u] is no version
    name. *)
Lemma getOptions_no_value (value : option WorkerInfo) (workers : list WorkerInfo)
    (opts : list SelectOption) (u : JsString) :
  (forall w v, w ∈ workers -> first_version w = Some v -> u <> version_name v) ->
  getOptions value workers = Some opts -> Forall (fun o => option_value o <> u) opts.
Proof.
  intros Hu Hopts. pose proof (getOptions_spec value workers opts Hopts) as H2.
  apply Forall_lookup_2. intros k o Hk.
  destruct (Forall2_lookup_r _ _ _ _ _ H2 Hk) as (wk & Hwk & vk & Hvk & ->). cbn.
  intros E. apply (Hu wk vk); [by eapply list_elem_of_lookup_2|done|done].
Qed.

(** The [<select>] of [WorkerSelect] shows the first option whatever
    the current worker is: its [value] is the current worker's version
    url, the options' values are version names, so when no name equals
    that url React selects the first option, and [select.value] is the
    first worker's version name (the component test
    [should render the select element with given value] expects the
    url). *)
Theorem workerSelect_shows_first_option (value : option WorkerInfo) (workers : list WorkerInfo)
    (opts : list SelectOption) (o : SelectOption) :
  (forall w v, w ∈ workers -> first_version w = Some v -> select_value value <> version_name v) ->
  getOptions value workers = Some opts -> head opts = Some o ->
  select_selectedIndex (select_value value) opts = Some 0%nat /\
  select_dom_value (select_value value) opts = option_value o.
Proof.
  intros Hu Hopts Hh. pose proof (getOptions_no_value value workers opts _ Hu Hopts) as Hno.
  unfold select_dom_value, select_selectedIndex.
  assert (Hf : list_find (fun o => option_value o = select_value value) opts = None).
  { apply list_find_None. eapply Forall_impl; [exact Hno|]. done. }
  rewrite Hf. destruct opts as [|o' os]; [done|]. injection Hh as ->. done.
Qed.

(** The data of the component test: two workers whose only version is
    named [latest]. *)
Example workerSelect_shows_first_option_witness :
  let ws := [mkWorkerInfo (js "worker0") [mkWorkerVersion (js "latest") (js "https://test0.pl")];
             mkWorkerInfo (js "worker1") [mkWorkerVersion (js "latest") (js "https://test1.pl")]] in
  select_value (head ws) = js "https://test0.pl" /\
  exists opts, getOptions (head ws) ws = Some opts /\
    select_dom_value (select_value (head ws)) opts = js "latest".
Proof.
  intros ws. split; [reflexivity|]. eexists. split; [reflexivity|].
  refine (proj2 (workerSelect_shows_first_option (head ws) ws _ (mkSelectOption (js "latest") (js "worker0"))
                   _ eq_refl eq_refl)).
  intros w v Hw Hv. apply list_elem_of_In in Hw. destruct Hw as [<-|[<-|[]]];
    injection Hv as <-; vm_compute; discriminate.
Defined.

(** C23: the options of [WorkerSelect] carry the version {e name} as
    their value while [getInfoByUrl] compares it with the version {e url}:
    when no url equals a version name, choosing any option passes
    [workers[0]] to [onChange]; and every option shows the same text, the
    name of the current worker. *)
Theorem workerSelect_picks_first (value : option WorkerInfo) (workers : list WorkerInfo)
    (opts : list SelectOption) (k : nat) (o : SelectOption) :
  (forall w w' v v', w ∈ workers -> w' ∈ workers -> first_version w = Some v ->
     first_version w' = Some v' -> url v <> version_name v') ->
  getOptions value workers = Some opts -> opts !! k = Some o ->
  select_onChange workers (option_value o) = Some (head workers) /\
  Forall (fun o' => option_label o' = option_label o) opts.
Proof.
  intros Hnames Hopts Hk. pose proof (getOptions_spec value workers opts Hopts) as H2.
  destruct (Forall2_lookup_r _ _ _ _ _ H2 Hk) as (wk & Hwk & vk & Hvk & ->).
  split.
  - unfold select_onChange. rewrite getInfoByUrl_none; [done|].
    pose proof (Forall2_first_versions _ _ H2) as Hall. rewrite List.Forall_forall in Hall.
    apply List.Forall_forall. intros w Hw. destruct (Hall w Hw) as (v & Hv).
    exists v. split; [done|]. apply (Hnames w wk v vk); [by apply list_elem_of_In| |done|done].
    by eapply list_elem_of_lookup_2.
  - clear Hk Hnames Hopts Hwk. induction H2 as [|w o' ws os (v & _ & ->) _ IH]; [apply List.Forall_nil|].
    apply List.Forall_cons; [done|apply IH].
Qed.

Example workerSelect_picks_first_witness :
  select_onChange
    [mkWorkerInfo (js "A") [mkWorkerVersion (js "a1") (js "u1")];
     mkWorkerInfo (js "B") [mkWorkerVersion (js "b1") (js "u2")]] (js "b1") =
  Some (Some (mkWorkerInfo (js "A") [mkWorkerVersion (js "a1") (js "u1")])).
Proof.
  set (ws := [mkWorkerInfo (js "A") [mkWorkerVersion (js "a1") (js "u1")];
              mkWorkerInfo (js "B") [mkWorkerVersion (js "b1") (js "u2")]]).
  assert (Hn : forall w w' v v', w ∈ ws -> w' ∈ ws -> first_version w = Some v ->
     first_version w' = Some v' -> url v <> version_name v').
  { intros w w' v v' Hw Hw' Hv Hv'. unfold ws in Hw, Hw'.
    rewrite !elem_of_cons, elem_of_nil in Hw, Hw'.
    destruct Hw as [->|[->|[]]], Hw' as [->|[->|[]]]; injection Hv as <-; injection Hv' as <-;
      vm_compute; congruence. }
  destruct (workerSelect_picks_first None ws
              [mkSelectOption (js "a1") []; mkSelectOption (js "b1") []] 1
              (mkSelectOption (js "b1") []) Hn eq_refl eq_refl) as [H _].
  exact H.
Defined.

(** ** Lemmas on a change of view *)

Ltac side_tac := done || congruence || lia || (let H := fresh in intro H; inversion H; subst; lia).

Ltac decide_rw :=
  repeat (first [rewrite decide_True by side_tac
                |rewrite decide_False by side_tac
                |rewrite bool_decide_true by side_tac
                |rewrite bool_decide_false by side_tac]; cbn).

Ltac editor_simpl :=
  repeat (unfold run_effects, dep_changed, deps, codeLoader_effect, textArea_effect,
            loadedCode_effect, workers_effect, render_dom, apply_updates, sync_element; cbn;
          decide_rw).

(** Leaving the editor view unmounts the textarea: [dom] becomes [None]
    while [textArea] still holds the detached element; the text is kept. *)
Lemma leave_editor (s : State) (code : JsString) (e : Element) :
  editing s code e ->
  step s (ClickView ViewParseTree) =
  mkState (value s) (caretData s) (Some e) (newCaretIndex s) ViewParseTree (currentWorker s)
    (workers s) (Some code) (Some code) false false None (next_el s) [].
Proof.
  intros (Hv & Hd & Ht & _ & _ & Hl & Hu & Hlc & Hp & Hi).
  destruct s as [v c ta n view w ws uc lc ip ii d ne ls]; simpl in *; subst.
  unfold step. cbn. editor_simpl. reflexivity.
Qed.

(** Coming back to the editor view mounts a fresh element [ne]; the new
    element makes the [loadedCode] effect run again, which loads the URL's
    code into the editor whatever text was there. *)
Lemma return_editor (v code : JsString) c (e : Element) n w ws (ne : nat) :
  (el_id e < ne)%nat ->
  let s := mkState v c (Some e) n ViewParseTree w ws (Some code) (Some code) false false None ne [] in
  editing (step s (ClickView ViewEditor)) code
    (mkElement ne (CodeEditor.mkTextArea code (js_length code))).
Proof.
  intros Hlt. destruct e as [id a]. cbn in Hlt. cbn zeta. unfold step. cbn. editor_simpl.
  repeat (case_decide; simplify_eq; cbn; editor_simpl);
    try match goal with H : mkState _ _ _ _ _ _ _ _ _ _ _ _ _ _ = _ |- _ =>
          injection H; intros; subst end;
    unfold editing; cbn; repeat split; lia.
Qed.

(** The first render with a [code] parameter: the textarea [0] is
    mounted, the loader's code is loaded through [handleValueChange], and
    the editor shows it. *)
Lemma mount_loads (initial code : JsString) :
  editing (mount initial (Some code)) code (mkElement 0 (CodeEditor.mkTextArea code (js_length code))).
Proof.
  unfold mount, RENDER_FUEL. cbn. editor_simpl.
  repeat (case_decide; simplify_eq; cbn; editor_simpl);
    try match goal with H : mkState _ _ _ _ _ _ _ _ _ _ _ _ _ _ = _ |- _ =>
          injection H; intros; subst end;
    unfold editing; cbn; repeat split; lia.
Qed.

(** A click on an example ([onExampleClick] is
    [(example) => onValueChange(example.code)], the parent's [setQuery])
    sets the text; the render writes it into the same text area with
    the selection at its end, and no effect runs: [caretData] keeps the
    caret of the old text. *)
Lemma example_click_step (s : State) (e : Element) (ex : JsString) :
  shown s e -> ex <> value s ->
  let e' := mkElement (el_id e) (CodeEditor.mkTextArea ex (js_length ex)) in
  step s (ExampleClick ex) =
  mkState ex (caretData s) (Some e') (newCaretIndex s) ViewEditor (currentWorker s) (workers s)
    (urlCode s) (loadedCode s) (isParsing s) (isInitializing s) (Some e') (next_el s) (listeners s).
Proof.
  intros (Hv & Hd & Ht & Hval & Hl) Hne e'. destruct e as [id [tv sel]].
  destruct s as [v c ta n view w ws uc lc ip ii d ne ls]; simpl in *; subst.
  unfold step. cbn. editor_simpl.
  destruct uc; editor_simpl; repeat (case_decide; simplify_eq; cbn; editor_simpl); done.
Qed.

(** ** Theorems on a change of view *)

(** C24: switching the view to the parse tree and back to the editor
    throws the user's text away: from an editor showing the URL's [code]
    with any text the user typed, the first click keeps the text, and the
    second mounts a new textarea whose effects reload [code], so the
    editor shows [code] again in a new element. *)
Theorem view_switch_reloads_code (s : State) (code : JsString) (e : Element) :
  editing s code e ->
  let s1 := step s (ClickView ViewParseTree) in
  let s2 := step s1 (ClickView ViewEditor) in
  currentView s1 = ViewParseTree /\ value s1 = value s /\
  value s2 = code /\ exists e', editing s2 code e' /\ el_id e' <> el_id e.
Proof.
  intros Hed. cbn zeta. rewrite (leave_editor s code e Hed).
  pose proof Hed as (_ & _ & _ & _ & Hlt & _).
  pose proof (return_editor (value s) code (caretData s) e (newCaretIndex s) (currentWorker s)
                (workers s) (next_el s) Hlt) as Hr.
  cbn zeta in Hr. pose proof Hr as (_ & _ & _ & Hval & _).
  repeat split; [done|].
  eexists. split; [exact Hr|]. cbn. lia.
Qed.

Example view_switch_reloads_code_witness :
  let s := step (mount (js "MATCH") (Some (js "CODE"))) (UserEdit (js "CODEX") 5) in
  value s = js "CODEX" /\
  value (step (step s (ClickView ViewParseTree)) (ClickView ViewEditor)) = js "CODE".
Proof.
  cbn zeta. set (s := step (mount (js "MATCH") (Some (js "CODE"))) (UserEdit (js "CODEX") 5)).
  assert (He : editing s (js "CODE") (mkElement 0 (CodeEditor.mkTextArea (js "CODEX") 5))).
  { vm_compute. repeat split; lia. }
  split; [vm_compute; reflexivity|].
  exact (proj1 (proj2 (proj2 (view_switch_reloads_code s (js "CODE") _ He)))).
Defined.

(** ** Theorems on loading an example *)

(** C2: loading an example shorter than the caret's index leaves the
    caret past the end of the text.  From the editor view, a click on an
    example [ex] sets the text but not [caretData]; the word under the
    caret that [Autocomplete]'s debounced callback extracts from its
    props [code] and [caretData.index] ([getWordBackwards]) then reads
    every index [i >= code.length] as [undefined], which [+] turns into
    the text ["undefined"]: the word is the last word of [ex] followed by
    one ["undefined"] per missing code unit, while the span still counts
    one unit per iteration. *)
Theorem example_click_word_past_end (s : State) (e : Element) (ex : JsString) :
  shown s e -> ex <> value s -> js_length ex < CodeEditor.index (caretData s) ->
  let s' := step s (ExampleClick ex) in
  let caret := CodeEditor.index (caretData s') in
  let tw := trailing_word ex in
  let st := js_length ex - js_length tw in
  value s' = ex /\ caretData s' = caretData s /\
  getWordBackwards (value s') caret =
  mkWordExtraction (tw ++ mjoin (replicate (Z.to_nat (caret - js_length ex)) js_undefined))
    (WordData.mk st (caret - st)).
Proof.
  intros Hs Hne Hlt s' caret tw st. unfold s' in caret |- *. unfold caret.
  rewrite (example_click_step s e ex Hs Hne). cbn [value caretData]. split_and!; [done|done|].
  by apply getWordBackwards_past_end.
Qed.

Example example_click_word_past_end_witness :
  let s := step (mount (js "MATCH (n) RETURN n") None) (UserEdit (js "MATCH (n) RETURN n;") 19) in
  value s = js "MATCH (n) RETURN n;" /\ CodeEditor.index (caretData s) = 19 /\
  getWordBackwards (value (step s (ExampleClick (js "RETURN 1")))) 19 =
  mkWordExtraction (js "1" ++ mjoin (replicate 11 js_undefined)) (WordData.mk 7 12).
Proof.
  intros s. assert (He : shown s (mkElement 0 (CodeEditor.mkTextArea (js "MATCH (n) RETURN n;") 19))).
  { vm_compute. repeat split. }
  destruct (example_click_word_past_end s _ (js "RETURN 1") He) as (_ & Hc & Hw);
    [vm_compute; discriminate|vm_compute; reflexivity|].
  split_and!; [vm_compute; reflexivity|vm_compute; reflexivity|].
  rewrite Hc in Hw. replace (CodeEditor.index (caretData s)) with 19 in Hw by (vm_compute; reflexivity).
  rewrite Hw. vm_compute. reflexivity.
Defined.

(** ** Theorems on accepting a suggestion *)

(** A shown editor is stable: rendering it and running the effects whose
    dependencies did not change (the loader's effect stores the same
    code) changes nothing. *)
Lemma settle_shown (s : State) (e : Element) (fuel : nat) :
  shown s e -> settle (S fuel) (Some (deps s)) s = s.
Proof.
  intros (Hv & Hd & Ht & Hval & Hl). destruct e as [id [tv sel]].
  destruct s as [v c ta n view w ws uc lc ip ii d ne ls]; simpl in *; subst.
  cbn [settle render_dom]. unfold sync_element. cbn. rewrite !decide_True by done.
  destruct uc; editor_simpl; done.
Qed.

(** An event whose updates leave a shown editor with the same effect
    dependencies ends with those updates applied. *)
Lemma step_settled (s s0 s1 : State) (e : Element) :
  shown s1 e -> deps s1 = deps s ->
  (if decide (s1 = s0) then s1 else settle RENDER_FUEL (Some (deps s)) s1) = s1.
Proof. intros Hs Hd. case_decide; [done|]. rewrite <- Hd. exact (settle_shown s1 e 4 Hs). Qed.

Lemma accept_updates (s : State) (e : Element) (str : JsString) (wd : WordData.t) :
  shown s e -> 0 <= WordData.startIndex wd ->
  apply_updates s (event_updates s (SuggestionAccept (Some str) (Some wd))) =
  mkState (value s) (CodeEditor.mkCaretData (CodeEditor.getCaretCoordinates (el_area e))
                       (CodeEditor.getCaretIndex (el_area e)))
    (textArea s) (WordData.startIndex wd + js_length str + 1) (currentView s) (currentWorker s)
    (workers s) (urlCode s) (loadedCode s) (isParsing s) (isInitializing s) (dom s) (next_el s)
    (listeners s).
Proof.
  intros (Hv & Hd & Ht & Hval & Hl) Hst.
  destruct s as [v c ta n view w ws uc lc ip ii d ne ls]; simpl in *; subst.
  unfold event_updates, CodeEditor.handleSuggestionAccept.
  rewrite (decide_True (P := WordData.startIndex wd <> -1)) by lia. reflexivity.
Qed.

Lemma step_accept (s : State) (e : Element) (str : JsString) (wd : WordData.t) :
  shown s e -> 0 <= WordData.startIndex wd ->
  step s (SuggestionAccept (Some str) (Some wd)) =
  mkState (value s) (CodeEditor.mkCaretData (CodeEditor.getCaretCoordinates (el_area e))
                       (CodeEditor.getCaretIndex (el_area e)))
    (textArea s) (WordData.startIndex wd + js_length str + 1) (currentView s) (currentWorker s)
    (workers s) (urlCode s) (loadedCode s) (isParsing s) (isInitializing s) (dom s) (next_el s)
    (listeners s).
Proof.
  intros Hs Hst. change (step s (SuggestionAccept (Some str) (Some wd))) with
    (let s1 := apply_updates s (event_updates s (SuggestionAccept (Some str) (Some wd))) in
     if decide (s1 = s) then s1 else settle RENDER_FUEL (Some (deps s)) s1).
  cbn zeta. rewrite (accept_updates s e str wd Hs Hst).
  pose proof Hs as (Hv & Hd & Ht & Hval & Hl).
  eapply step_settled; [|by destruct s].
  destruct s; simpl in *; subst; repeat split; done.
Qed.

Lemma step_select_capture (s : State) (e : Element) :
  shown s e -> newCaretIndex s <> -1 ->
  step s SelectCapture =
  mkState (value s) (caretData s)
    (Some (mkElement (el_id e) (CodeEditor.setSelectionRange (el_area e) (newCaretIndex s)))) (-1)
    (currentView s) (currentWorker s) (workers s) (urlCode s) (loadedCode s) (isParsing s)
    (isInitializing s)
    (Some (mkElement (el_id e) (CodeEditor.setSelectionRange (el_area e) (newCaretIndex s))))
    (next_el s) (listeners s).
Proof.
  intros Hs Hn. pose proof Hs as (Hv & Hd & Ht & Hval & Hl).
  destruct s as [v c ta n view w ws uc lc ip ii d ne ls]; simpl in Hv, Hd, Ht, Hval, Hl, Hn |- *.
  subst view d ta lc.
  set (e' := mkElement (el_id e) (CodeEditor.setSelectionRange (el_area e) n)).
  set (X := mkState v c (Some e') n ViewEditor w ws uc uc ip ii (Some e') ne ls).
  assert (E0 : select_dom (mkState v c (Some e) n ViewEditor w ws uc uc ip ii (Some e) ne ls) = X).
  { unfold select_dom. rewrite decide_False by done. rewrite decide_True by done. reflexivity. }
  assert (E1 : apply_updates X (event_updates X SelectCapture) =
               mkState v c (Some e') (-1) ViewEditor w ws uc uc ip ii (Some e') ne ls).
  { unfold event_updates, handleSelectCapture. cbn [textArea newCaretIndex X].
    rewrite decide_False by done. reflexivity. }
  unfold step. cbv beta iota zeta. rewrite E0, E1.
  eapply step_settled; [|done]. unfold shown; cbn. repeat split; done.
Qed.

(** A click, context menu or key press on the text area of a shown
    editor, while its listeners are registered: the caret moves (clamped
    into the text) and [caretData] is the line, column and index of the
    new caret. *)
Lemma step_caret_move (s : State) (e : Element) (sel : Z) :
  shown s e -> el_id e ∈ listeners s ->
  let ta := CodeEditor.mkTextArea (value s) (clamp 0 (js_length (value s)) sel) in
  caretData (step s (CaretMove sel)) =
    CodeEditor.mkCaretData (CodeEditor.getCaretCoordinates ta) (CodeEditor.getCaretIndex ta) /\
  dom (step s (CaretMove sel)) = Some (mkElement (el_id e) ta) /\
  value (step s (CaretMove sel)) = value s.
Proof.
  intros Hs Hin ta. pose proof Hs as (Hv & Hd & Ht & Hval & Hl).
  destruct s as [v c ta0 n view w ws uc lc ip ii d ne ls]; simpl in Hv, Hd, Ht, Hval, Hl, Hin, ta |- *.
  subst view d ta0 lc.
  set (e' := mkElement (el_id e) ta).
  set (X := mkState v c (Some e') n ViewEditor w ws uc uc ip ii (Some e') ne ls).
  assert (E0 : move_caret (mkState v c (Some e) n ViewEditor w ws uc uc ip ii (Some e) ne ls) sel = X).
  { unfold move_caret, edit_dom. cbn [dom]. rewrite Hval. rewrite decide_True by done. reflexivity. }
  assert (E1 : apply_updates X (event_updates X (CaretMove sel)) =
               mkState v (CodeEditor.mkCaretData (CodeEditor.getCaretCoordinates ta)
                            (CodeEditor.getCaretIndex ta))
                 (Some e') n ViewEditor w ws uc uc ip ii (Some e') ne ls).
  { unfold event_updates, caret_listener. cbn [dom listeners X]. rewrite bool_decide_true by done.
    reflexivity. }
  assert (Hstep : step (mkState v c (Some e) n ViewEditor w ws uc uc ip ii (Some e) ne ls) (CaretMove sel) =
                  mkState v (CodeEditor.mkCaretData (CodeEditor.getCaretCoordinates ta)
                               (CodeEditor.getCaretIndex ta))
                    (Some e') n ViewEditor w ws uc uc ip ii (Some e') ne ls).
  { unfold step. cbv beta iota zeta. rewrite E0, E1.
    eapply step_settled; [|done]. unfold shown; cbn. repeat split; done. }
  rewrite Hstep. repeat split.
Qed.

(** Accepting a suggestion from the editor view, through the page: the
    handler's splice is overwritten by [handleValueChange(value)] (see
    [Acceptance]), so the text does not change, but [newCaretIndex] is
    set; the next [select] event then moves the caret of the text area
    to the index where the accepted word would have ended, inside the
    old text. *)
Theorem accept_moves_caret_in_old_text (s : State) (e : Element) (str : JsString) (wd : WordData.t) :
  shown s e -> 0 <= WordData.startIndex wd ->
  let k := WordData.startIndex wd + js_length str + 1 in
  let s2 := step (step s (SuggestionAccept (Some str) (Some wd))) SelectCapture in
  value s2 = value s /\ newCaretIndex s2 = -1 /\
  dom s2 = Some (mkElement (el_id e) (CodeEditor.mkTextArea (value s) (clamp 0 (js_length (value s)) k))).
Proof.
  intros Hs Hst k. cbn zeta. rewrite (step_accept s e str wd Hs Hst).
  pose proof Hs as (Hv & Hd & Ht & Hval & Hl).
  rewrite (step_select_capture _ e); cbn; [|by destruct s; simpl in *; subst; repeat split|
    pose proof (js_length_nonneg str); lia].
  repeat split. destruct e as [id [tv sel]]. cbn in *. by subst.
Qed.

(** Accepting "RETURN" for the word "RET" of [MATCH (n) RET LIMIT 10]
    leaves the text as it was and puts the caret at index 17, inside
    [LIMIT]. *)
Example accept_moves_caret_in_old_text_witness :
  let s := mount (js "MATCH (n) RET LIMIT 10") None in
  let s2 := step (step s (SuggestionAccept (Some (js "RETURN")) (Some (WordData.mk 10 3)))) SelectCapture in
  value s2 = js "MATCH (n) RET LIMIT 10" /\
  dom s2 = Some (mkElement 0 (CodeEditor.mkTextArea (js "MATCH (n) RET LIMIT 10") 17)).
Proof.
  intros s s2.
  assert (He : shown s (mkElement 0 (CodeEditor.mkTextArea (js "MATCH (n) RET LIMIT 10") 22))).
  { vm_compute. repeat split. }
  destruct (accept_moves_caret_in_old_text s _ (js "RETURN") (WordData.mk 10 3) He) as (Hv & _ & H);
    [vm_compute; discriminate|].
  unfold s2. split; [exact Hv|]. rewrite H. vm_compute. reflexivity.
Defined.

End Editor.
