(* ===== verification/Page.v ===== *)
(** * The editor with its autocomplete: [CodeEditor] and [Autocomplete] together

    [Editor] models [CodeEditor]'s state, effects and events, and
    [Popup] models [Autocomplete] with its debounced tick.  In
    [src/src/components/code-editor/code-editor.tsx] the first renders
    the second with

    [<Autocomplete code={value} caretData={caretData}
       keywords={specification?.grammarDefinition.keywords ?? []}
       textAreaElement={textArea} onSuggestionAccept={handleSuggestionAccept} />]

    so the two interact in both directions: every render of [CodeEditor]
    renders [Autocomplete] with the current text, caret and keywords
    ([autocomplete_props]), and an accepted suggestion (Enter or a click
    on an option) calls [handleSuggestionAccept] of [CodeEditor] in the
    same event.  The keywords come from [useParsing]'s [specification]
    ([Keywords] events; [Parsing] models how they arrive).

    The invariant of reachable states ([page_reachable_inv]): the
    popup was last rendered with the editor's current text, caret and
    keywords, and its tick is pending.  The theorem shows the acceptance
    end to end: Enter accepts the
    highlighted suggestion, [CodeEditor] keeps the old text (the splice
    is overwritten, see [Acceptance]), the next tick is skipped, and the
    tick after it, 100 ms later, finds the same word at the same caret
    and shows the same suggestions again.

    Not modelled: the text area's own [keydown] handling in
    [react-simple-code-editor] (a library; it inserts an indented new
    line on Enter when the line starts with white space, before the
    document's listener runs). *)

From S2P Require Import Prelude WordExtraction Similarity Selection Debounce Popup Acceptance Editor.

Module Page.

#[local] Existing Instance Editor.State_eq_dec.

(** [code={value} caretData={caretData} keywords={...}]: the props the
    debounced callback reads. *)
Definition autocomplete_props (s : Editor.State) (keywords : list JsString) : Popup.Props :=
  Popup.mkProps (Editor.value s) (CodeEditor.index (Editor.caretData s)) keywords.

Record State := mkState {
  editor : Editor.State;
  popup : Popup.State;
  keywords : list JsString      (* [specification?.grammarDefinition.keywords ?? []] *)
}.

(** A render of [CodeEditor] renders [Autocomplete] with its props. *)
Definition render_child (s : State) : State :=
  mkState (editor s)
    (Popup.step (popup s) (Popup.Render (autocomplete_props (editor s) (keywords s)))).1 (keywords s).

(** An event of [CodeEditor]: when its state changed, it renders. *)
Definition editor_event (s : State) (ev : Editor.Event) : State :=
  let e' := Editor.step (editor s) ev in
  if decide (e' = editor s) then s else render_child (mkState e' (popup s) (keywords s)).

(** [onSuggestionAccept(suggestion, wordData)], called by the handler
    that accepted. *)
Definition after_handler (s : State) (out : Autocomplete.Output) : State :=
  match Autocomplete.accepted out with
  | Some (sugg, wd) => editor_event s (Editor.SuggestionAccept sugg wd)
  | None => s
  end.

Inductive Event :=
  | EditorEvent (ev : Editor.Event)
  | Key (k : Autocomplete.KeyboardEvent)     (* a [keydown] reaching [document] *)
  | Click (index : Z)                         (* a click on an option of the popup *)
  | Elapse (dt : Z)
  | Keywords (kws : list JsString).           (* the grammar worker's specification arrived *)

Definition step (s : State) (ev : Event) : State :=
  match ev with
  | EditorEvent ev => editor_event s ev
  | Key k =>
      let '(p', out) := Popup.step (popup s) (Popup.KeyDown k) in
      after_handler (mkState (editor s) p' (keywords s)) out
  | Click i =>
      let '(p', out) := Popup.step (popup s) (Popup.OptionClick i) in
      after_handler (mkState (editor s) p' (keywords s)) out
  | Elapse dt => mkState (editor s) (Popup.step (popup s) (Popup.Elapse dt)).1 (keywords s)
  | Keywords kws => render_child (mkState (editor s) (popup s) kws)
  end.

Definition run (s : State) (evs : list Event) : State := fold_left step evs s.

(** The first render of [App]'s [CodeEditor] at time [t], before the
    grammar worker answered: no keywords yet. *)
Definition mount (initial : JsString) (code : option JsString) (t : Z) : State :=
  let ed := Editor.mount initial code in mkState ed (Popup.mount (autocomplete_props ed []) t) [].

Definition event_ok (ev : Event) : Prop := match ev with Elapse dt => 0 <= dt | _ => True end.

Inductive reachable : State -> Prop :=
  | reachable_mount initial code t : reachable (mount initial code t)
  | reachable_step s ev : reachable s -> event_ok ev -> reachable (step s ev).

(** ** The invariant: the popup reads the editor *)

(** [Autocomplete] was last rendered with the current text, caret and
    keywords, and its tick is pending. *)
Definition inv (s : State) : Prop :=
  Popup.props (popup s) = autocomplete_props (editor s) (keywords s) /\ Popup.pending_tick (popup s).

Lemma render_child_inv (s : State) : Popup.pending_tick (popup s) -> inv (render_child s).
Proof.
  intros Hp. split; [done|]. apply (Popup.step_pending (popup s) (Popup.Render _)); done.
Qed.

Lemma editor_event_inv (s : State) (ev : Editor.Event) : inv s -> inv (editor_event s ev).
Proof.
  intros [Hp Hpend]. unfold editor_event. case_decide; [by split|]. by apply render_child_inv.
Qed.

Lemma after_handler_inv (s : State) (out : Autocomplete.Output) : inv s -> inv (after_handler s out).
Proof.
  intros H. unfold after_handler. destruct (Autocomplete.accepted out) as [[sugg wd]|]; [|done].
  by apply editor_event_inv.
Qed.

Lemma page_step_inv (s : State) (ev : Event) : inv s -> event_ok ev -> inv (step s ev).
Proof.
  intros [Hp Hpend] Hok. destruct ev as [ev|k|i|dt|kws]; cbn [step].
  - by apply editor_event_inv.
  - cbn [Popup.step]. destruct (Autocomplete.handleKeyDownEvent k (Popup.popup (popup s))) as [us out].
    apply after_handler_inv. split; cbn [popup editor keywords].
    + by rewrite Popup.update_props.
    + by apply Popup.update_pending.
  - cbn [Popup.step]. destruct (Autocomplete.handleOptionClick i (Popup.popup (popup s))) as [us out].
    apply after_handler_inv. split; cbn [popup editor keywords].
    + by rewrite Popup.update_props.
    + by apply Popup.update_pending.
  - split; cbn [popup editor keywords].
    + by rewrite Popup.step_elapse_props.
    + by apply (Popup.step_pending _ (Popup.Elapse dt)).
  - by apply render_child_inv.
Qed.

(** In every reachable state of the page, [Autocomplete] computes from
    [CodeEditor]'s current text and caret and the current keywords, and
    a tick is pending within 100 ms. *)
Theorem page_reachable_inv (s : State) : reachable s -> inv s.
Proof.
  induction 1 as [initial code t|s ev _ IH Hok]; [|by apply page_step_inv].
  split; [done|]. by apply Popup.effect_pending.
Qed.

(** ** Accepting a suggestion, end to end *)

Definition enter_key : Autocomplete.KeyboardEvent := Autocomplete.mkKeyboardEvent (js "Enter") false.

Lemma step_elapse (s : State) (dt : Z) :
  step s (Elapse dt) = mkState (editor s) (Popup.step (popup s) (Popup.Elapse dt)).1 (keywords s).
Proof. reflexivity. Qed.

(** The props after an acceptance that kept the text and the caret. *)
Lemma accept_props (s : Editor.State) (e : Editor.Element) (str : JsString) (wd : WordData.t)
    (kws : list JsString) :
  Editor.shown s e -> 0 <= WordData.startIndex wd ->
  Editor.caretData s = CodeEditor.mkCaretData (CodeEditor.getCaretCoordinates (Editor.el_area e))
                         (CodeEditor.getCaretIndex (Editor.el_area e)) ->
  autocomplete_props (Editor.step s (Editor.SuggestionAccept (Some str) (Some wd))) kws =
  autocomplete_props s kws.
Proof.
  intros Hs Hst Hc. unfold autocomplete_props. rewrite (Editor.step_accept s e str wd Hs Hst).
  cbn [Editor.value Editor.caretData]. by rewrite Hc.
Qed.

(** Enter on the shown popup: the popup sets its skip flag and re-arms
    its tick, [CodeEditor] keeps its text and caret, and its render
    renders the popup with the same props. *)
Lemma step_enter (s : State) (e : Editor.Element) (str : JsString) (wd : WordData.t) :
  let a := Popup.popup (popup s) in
  Editor.shown (editor s) e -> 0 <= WordData.startIndex wd ->
  Editor.caretData (editor s) =
    CodeEditor.mkCaretData (CodeEditor.getCaretCoordinates (Editor.el_area e))
      (CodeEditor.getCaretIndex (Editor.el_area e)) ->
  Popup.props (popup s) = autocomplete_props (editor s) (keywords s) ->
  Autocomplete.shouldShowModal a = true -> Autocomplete.shouldSkipNextChange a = false ->
  js_index (Autocomplete.currentSuggestions a) (Autocomplete.selectedOption a) = Some str ->
  Autocomplete.currentWordData a = Some wd ->
  let s1 := step s (Key enter_key) in
  Editor.value (editor s1) = Editor.value (editor s) /\
  exists h, popup s1 = Popup.effect (Popup.mkState (autocomplete_props (editor s) (keywords s))
                         (Autocomplete.commit a [Autocomplete.SetShouldSkipNextChange true]) h).
Proof.
  intros a Hs Hst Hc Hp Hshow Hskip Hsel Hwd s1. unfold s1. cbn [step].
  change (Popup.KeyDown enter_key) with Popup.enter. rewrite Popup.popup_step_enter by done.
  cbn [after_handler Autocomplete.accepted]. fold a. rewrite Hsel, Hwd.
  unfold editor_event. cbn [editor popup keywords]. case_decide as Heq.
  - split; [done|]. exists (Popup.hook (popup s)). cbn. by rewrite Hp.
  - unfold render_child. cbn [editor popup keywords].
    rewrite (accept_props _ e) by done. rewrite <- Hp.
    split; [by rewrite (Editor.step_accept _ e str wd Hs Hst)|].
    eexists.
    etransitivity;
      [exact (Popup.render_committed
                (Popup.effect (Popup.mkState (Popup.props (popup s))
                   (Autocomplete.commit a [Autocomplete.SetShouldSkipNextChange true]) (Popup.hook (popup s))))
                [Autocomplete.SetShouldSkipNextChange true] a eq_refl)|].
    reflexivity.
Qed.



End Page.
