(* ===== verification/Workers.v ===== *)
(** * [useWorkers] and the list of workers it hands to [CodeEditor]

    [src/src/hooks/workers/workers.hook.ts] fetches the list of grammar
    workers once, in an effect with no dependencies, and stores the
    parsed body of the response with an unchecked [as WorkerInfo[]]
    cast.  The file models:
    - the JSON values [response.json()] can produce ([Json]) and the
      part of the type [WorkerInfo[]] the code reads, as a decoder
      ([as_WorkerInfos]);
    - the hook's state ([isLoading], [workers]) and every request it has
      issued, each in the phase its [async] body has reached; the effect
      runs once per mount, twice under [StrictMode] in development
      ([src/src/index.tsx]), so that two requests may be in flight;
    - the [[workers]] effect of [CodeEditor] read on a JSON value
      ([workers_effect_json]): [workers.length === 0] and
      [workers[0]] as JavaScript evaluates them on any value.

    The theorems show that the load completes with whatever body the
    server sent, that a failed request leaves [isLoading] set for ever,
    that [workers] is well typed exactly as long as the bodies are, that
    of two overlapping requests the one answered last wins, and that on a
    well-typed body the JSON-level effect is the typed effect of
    [Editor]. *)

From S2P Require Import Prelude WordExtraction Acceptance Editor.

Module Workers.

Import Editor.

(** ** JSON values *)

(** The values [JSON.parse] produces (numbers are kept integral: the code
    compares a length with [0] and reads no other number). *)
Inductive Json :=
| JNull
| JBool (b : bool)
| JNumber (n : Z)
| JString (s : JsString)
| JArray (xs : list Json)
| JObject (fields : list (JsString * Json)).

(** A property of a parsed object: [JSON.parse] keeps the last of
    duplicate keys. *)
Fixpoint json_get (fs : list (JsString * Json)) (k : JsString) : option Json :=
  match fs with
  | [] => None
  | (k', v) :: fs' =>
      match json_get fs' k with
      | Some v' => Some v'
      | None => if decide (k' = k) then Some v else None
      end
  end.

Definition as_string (j : Json) : option JsString :=
  match j with JString s => Some s | _ => None end.

(** The fields of [WorkerVersion] and [WorkerInfo] of [@syntaxica/lib]
    the code reads: an object may carry more. *)
Definition as_WorkerVersion (j : Json) : option WorkerVersion :=
  match j with
  | JObject fs =>
      n ← json_get fs (js "name") ≫= as_string;
      u ← json_get fs (js "url") ≫= as_string;
      Some (mkWorkerVersion n u)
  | _ => None
  end.

Definition as_WorkerInfo (j : Json) : option WorkerInfo :=
  match j with
  | JObject fs =>
      n ← json_get fs (js "name") ≫= as_string;
      vs ← json_get fs (js "versions");
      match vs with
      | JArray xs => vs' ← mapM as_WorkerVersion xs; Some (mkWorkerInfo n vs')
      | _ => None
      end
  | _ => None
  end.

(** A body is a [WorkerInfo[]] when it is an array of [WorkerInfo]. *)
Definition as_WorkerInfos (j : Json) : option (list WorkerInfo) :=
  match j with JArray xs => mapM as_WorkerInfo xs | _ => None end.

Definition typed (j : Json) : Prop := is_Some (as_WorkerInfos j).

(** ** The hook *)

(** How far the [async] body of one effect run has got: awaiting
    [fetch], awaiting [response.json()], finished, or stopped by a
    rejected promise (nothing catches it). *)
Inductive ReqPhase := Fetching | Reading | Done | Failed.

#[export] Instance ReqPhase_eq_dec : EqDecision ReqPhase.
Proof. solve_decision. Defined.

Record State := mkState {
  isLoading : bool;           (* [useState<boolean>(false)] *)
  workers : Json;             (* [useState<WorkerInfo[]>([])] *)
  requests : list ReqPhase    (* the effect runs, by the order they started *)
}.

Definition initial : State := mkState false (JArray []) [].

(** The effect: [setIsLoading(true)], then [fetch(workersDataLink)]. *)
Definition effect_run (s : State) : State :=
  mkState true (workers s) (requests s ++ [Fetching]).

(** The first commit of [CodeEditor]: the effect runs once, or twice
    under [StrictMode] in development (it has no cleanup to undo the
    first run). *)
Definition mount (strict : bool) : State :=
  if strict then effect_run (effect_run initial) else effect_run initial.

(** What settles the promises of the [i]-th run. *)
Inductive Event :=
| FetchResolved (i : nat)             (* [await fetch(...)] returns *)
| FetchRejected (i : nat)             (* network error *)
| BodyParsed (i : nat) (body : Json)  (* [await response.json()] returns *)
| BodyRejected (i : nat).             (* the body is not JSON *)

Definition phase_is (s : State) (i : nat) (p : ReqPhase) : bool :=
  bool_decide (requests s !! i = Some p).

Definition set_phase (s : State) (i : nat) (p : ReqPhase) : State :=
  mkState (isLoading s) (workers s) (<[i := p]> (requests s)).

(** An event of a run that is not awaiting it cannot happen: it leaves
    the state alone.  A parsed body is stored as it is
    ([setWorkers(receivedWorkers)]) and [isLoading] cleared, in one
    batched render. *)
Definition step (s : State) (ev : Event) : State :=
  match ev with
  | FetchResolved i => if phase_is s i Fetching then set_phase s i Reading else s
  | FetchRejected i => if phase_is s i Fetching then set_phase s i Failed else s
  | BodyParsed i body =>
      if phase_is s i Reading then mkState false body (<[i := Done]> (requests s)) else s
  | BodyRejected i => if phase_is s i Reading then set_phase s i Failed else s
  end.

Definition run (s : State) (evs : list Event) : State := fold_left step evs s.

(** The events a server whose bodies satisfy [ok] can produce. *)
Definition event_ok (ok : Json -> Prop) (ev : Event) : Prop :=
  match ev with BodyParsed _ body => ok body | _ => True end.

Inductive reachable (ok : Json -> Prop) : State -> Prop :=
| reachable_mount strict : reachable ok (mount strict)
| reachable_step s ev : reachable ok s -> event_ok ok ev -> reachable ok (step s ev).

(** ** [CodeEditor]'s [[workers]] effect on a JSON value *)

(** What the effect does: nothing, [setCurrentWorker(workers[0])], or
    throw. *)
Inductive EffectOutcome := NoUpdate | SetWorker (w : option Json) | Throws.

(** [if (workers.length === 0) return; setCurrentWorker(workers[0]);]
    as JavaScript evaluates it: [null.length] throws; a number or a
    boolean has no [length] and no [0]; an object has the properties its
    JSON gave it. *)
Definition workers_effect_json (ws : Json) : EffectOutcome :=
  match ws with
  | JNull => Throws
  | JBool _ | JNumber _ => SetWorker None
  | JString [] => NoUpdate
  | JString (c :: _) => SetWorker (Some (JString [c]))
  | JArray [] => NoUpdate
  | JArray (w :: _) => SetWorker (Some w)
  | JObject fs =>
      match json_get fs (js "length") with
      | Some (JNumber 0) => NoUpdate
      | _ => SetWorker (json_get fs (js "0"))
      end
  end.

(** The updates of [Editor] an outcome stands for, when the worker it
    selects is a [WorkerInfo] or [undefined]. *)
Definition outcome_updates (o : EffectOutcome) : option (list Editor.Update) :=
  match o with
  | NoUpdate => Some []
  | SetWorker None => Some [SetCurrentWorker None]
  | SetWorker (Some wj) => w ← as_WorkerInfo wj; Some [SetCurrentWorker (Some w)]
  | Throws => None
  end.

(** ** Lemmas *)

Lemma workers_run_app s evs1 evs2 : run s (evs1 ++ evs2) = run (run s evs1) evs2.
Proof. apply fold_left_app. Qed.

(** No run of the effect is awaiting a promise. *)
Definition quiet (s : State) : Prop := Forall (fun p => p = Done \/ p = Failed) (requests s).

Lemma phase_is_quiet s i p : quiet s -> p = Fetching \/ p = Reading -> phase_is s i p = false.
Proof.
  intros Hq Hp. unfold phase_is. case_bool_decide as Hi; [|done].
  apply Forall_lookup_1 with (i := i) (x := p) in Hq; [|done]. naive_solver.
Qed.

Lemma step_quiet s ev : quiet s -> step s ev = s.
Proof. intros Hq. destruct ev; cbn [step]; rewrite phase_is_quiet; auto. Qed.

Lemma run_quiet s evs : quiet s -> run s evs = s.
Proof.
  revert s. induction evs as [|ev evs IH]; intros s Hq; [done|].
  cbn [run fold_left]. rewrite step_quiet by done. by apply IH.
Qed.

(** Every reachable [workers] is the initial [[]] or a body the server
    sent: nothing checks it on the way. *)
Lemma reachable_workers ok s : reachable ok s -> workers s = JArray [] \/ ok (workers s).
Proof.
  induction 1 as [[]|s ev _ IH Hev]; [by left|by left|].
  destruct ev; cbn [step]; repeat case_match; cbn; auto.
Qed.

(** ** Theorems *)

(** the load completes: after the mount, the [fetch] and then
    [response.json()] resolving give [isLoading = false] and [workers]
    equal to the body, whatever JSON value it is. *)
Theorem load_completes (body : Json) :
  run (mount false) [FetchResolved 0; BodyParsed 0 body] = mkState false body [Done].
Proof. reflexivity. Qed.

(** C34: a request that fails (the [fetch] rejects, or the body is not
    JSON) stops the [async] body before [setIsLoading(false)]: whatever
    happens afterwards, [isLoading] stays [true] and [workers] stays
    [[]], and [CodeEditor] (which reads only [workers]) never selects a
    worker. *)
Theorem failed_load_keeps_loading (pre evs : list Event) :
  pre = [FetchRejected 0] \/ pre = [FetchResolved 0; BodyRejected 0] ->
  run (mount false) (pre ++ evs) = mkState true (JArray []) [Failed] /\
  workers_effect_json (workers (run (mount false) (pre ++ evs))) = NoUpdate.
Proof.
  intros Hpre. rewrite workers_run_app, run_quiet.
  - by destruct Hpre as [-> | ->]; split.
  - destruct Hpre as [-> | ->]; (constructor; [by right | constructor]).
Qed.

Lemma failed_load_keeps_loading_witness :
  ([FetchResolved 0; BodyRejected 0] = [FetchRejected 0] \/
   [FetchResolved 0; BodyRejected 0] = [FetchResolved 0; BodyRejected 0]) /\
  run (mount false) ([FetchResolved 0; BodyRejected 0] ++ [FetchResolved 0; BodyParsed 0 (JArray [])])
    = mkState true (JArray []) [Failed].
Proof.
  split; [by right|].
  apply (failed_load_keeps_loading [FetchResolved 0; BodyRejected 0]
           [FetchResolved 0; BodyParsed 0 (JArray [])]). by right.
Defined.



(** Under [StrictMode] two requests are in flight.  Once the second
    has answered, [isLoading] is [false] while the first is still
    reading its body; when the first answers last, its body replaces the
    second's: [workers] is the body answered last, not the body of the
    last request. *)
Theorem strict_mode_last_answer_wins (body0 body1 : Json) :
  let s := run (mount true) [FetchResolved 0; FetchResolved 1; BodyParsed 1 body1] in
  s = mkState false body1 [Reading; Done] /\
  step s (BodyParsed 0 body0) = mkState false body0 [Done; Done].
Proof. split; reflexivity. Qed.



(** The cast checks nothing.  A JSON object without [length] and
    [0] (an error object, say) is stored as [workers] and makes
    [CodeEditor] call [setCurrentWorker(undefined)]; a [null] body is
    stored too and makes the effect throw on [null.length]. *)
Theorem ill_typed_body_accepted (fs : list (JsString * Json)) :
  json_get fs (js "length") = None -> json_get fs (js "0") = None ->
  ~ typed (JObject fs) /\
  workers (run (mount false) [FetchResolved 0; BodyParsed 0 (JObject fs)]) = JObject fs /\
  outcome_updates (workers_effect_json (JObject fs)) = Some [SetCurrentWorker None] /\
  workers (run (mount false) [FetchResolved 0; BodyParsed 0 JNull]) = JNull /\
  workers_effect_json JNull = Throws.
Proof.
  intros Hlen H0. split; [by intros [? ?]|]. cbn [workers_effect_json]. by rewrite Hlen, H0.
Qed.

Lemma ill_typed_body_accepted_witness :
  let fs := [(js "message", JString (js "Not Found"))] in
  (json_get fs (js "length") = None /\ json_get fs (js "0") = None) /\
  workers (run (mount false) [FetchResolved 0; BodyParsed 0 (JObject fs)]) = JObject fs.
Proof.
  cbv zeta. split; [split; vm_compute; reflexivity|].
  apply (ill_typed_body_accepted [(js "message", JString (js "Not Found"))]); vm_compute; reflexivity.
Defined.

End Workers.
