(* ===== verification/Highlights.v ===== *)
(** * [useHighlights]: the highlighted table of the code editor

    [src/src/hooks/highlights/highlights.tsx].  The hook turns the
    grammar's syntax objects into a Prism grammar (an effect on the
    specification) and returns [highlightCallback], which runs Prism's
    [highlight] on the text, splits every token span that covers several
    lines into one span per line ([NODE_REGEX] and [splitMultilineNode]),
    renames the token class, and builds one table row per line with its
    line number and an error mark ([assemblyLine], [hasLineAnyError]).

    Prism itself ([highlight] of [prismjs]) is a library: it is a
    variable of the section, and the theorems that need something of it
    say so in a hypothesis.  The regular expression
    [/(<span[^>]*>)((.|\n)*?)(<\/span>)/gi] is modelled by a matcher
    written out: case-insensitive tag names, the first [>] ends the
    opening tag, the shortest content without a carriage return (the
    one code unit [(.|\n)] does not match in this range) followed by a
    closing tag, and a global replacement scanning left to right. *)

From Stdlib Require Import ZArith Lia Ascii String.
From stdpp Require Import base list decidable option.
From S2P Require Import Prelude.

Open Scope Z_scope.

Module Highlights.

(** ** The regular expression [NODE_REGEX] *)

(** ['\r']. *)
Definition carriage_return : ascii := "013"%char.

(** Canonicalisation of the [i] flag: equality up to [toUpperCase]. *)
Definition ci_eq (a b : ascii) : bool := bool_decide (js_to_upper_char a = js_to_upper_char b).

(** [s] starts with [p] up to case: the rest of [s]. *)
Fixpoint ci_strip (p s : JsString) : option JsString :=
  match p, s with
  | [], _ => Some s
  | a :: p', b :: s' => if ci_eq a b then ci_strip p' s' else None
  | _ :: _, [] => None
  end.

Definition span_open : JsString := js "<span".
Definition span_close : JsString := js "</span>".

(** [[^>]*>]: everything up to and including the first [>]. *)
Fixpoint take_tag_rest (s : JsString) : option (JsString * JsString) :=
  match s with
  | [] => None
  | c :: s' =>
      if decide (c = ">"%char) then Some ([c], s')
      else '(t, r) ← take_tag_rest s'; Some (c :: t, r)
  end.

(** [((.|\n)*?)(<\/span>)]: the shortest content followed by a closing
    tag; the content cannot cross a carriage return.  Returns the
    content, the closing tag as written in the text, and the rest. *)
Fixpoint lazy_content (s : JsString) : option (JsString * JsString * JsString) :=
  match ci_strip span_close s with
  | Some r => Some ([], take (List.length span_close) s, r)
  | None =>
      match s with
      | [] => None
      | c :: s' =>
          if decide (c = carriage_return) then None
          else '(ct, cl, r) ← lazy_content s'; Some (c :: ct, cl, r)
      end
  end.

(** A match of [NODE_REGEX] at the start of [s]: the groups
    [openingTag], [content] and [closingTag], and the text after the
    match. *)
Definition match_at (s : JsString) : option (JsString * JsString * JsString * JsString) :=
  r1 ← ci_strip span_open s;
  '(t, r2) ← take_tag_rest r1;
  '(ct, cl, r3) ← lazy_content r2;
  Some (take (List.length span_open) s ++ t, ct, cl, r3).

(** [splitMultilineNode(match, openingTag, content, lastContentChar,
    closingTag)]: one span per line of the content. *)
Definition splitMultilineNode (openingTag content closingTag : JsString) : JsString :=
  js_join newline (map (fun lineContent => openingTag ++ lineContent ++ closingTag)
                       (js_split newline content)).

(** [.replace(NODE_REGEX, splitMultilineNode)]: every match, from left
    to right, replaced; [fuel] bounds the scan (the length of the text
    is enough, [replace_nodes_enough]). *)
Fixpoint replace_nodes_loop (fuel : nat) (s : JsString) : JsString :=
  match fuel, s with
  | O, _ => s
  | _, [] => []
  | S f, c :: s' =>
      match match_at s with
      | Some (o, ct, cl, r) => splitMultilineNode o ct cl ++ replace_nodes_loop f r
      | None => c :: replace_nodes_loop f s'
      end
  end.

Definition replace_nodes (s : JsString) : JsString := replace_nodes_loop (List.length s) s.

(** [s.replaceAll(pat, rep)] for a non-empty literal [pat]. *)
Fixpoint replace_all_loop (pat rep : JsString) (fuel : nat) (s : JsString) : JsString :=
  match fuel, s with
  | O, _ => s
  | _, [] => []
  | S f, c :: s' =>
      match strip_prefix pat s with
      | Some r => rep ++ replace_all_loop pat rep f r
      | None => c :: replace_all_loop pat rep f s'
      end
  end.

Definition replace_all (pat rep : JsString) (s : JsString) : JsString :=
  replace_all_loop pat rep (List.length s) s.

(** The literal [class=], a double quote, [token] of the [replaceAll]. *)
Definition class_token : JsString := js "class=" ++ ["034"%char] ++ js "token".

(** ** Rows of the table *)

(** [GrammarParsingError] of [@syntaxica/lib], with the fields the
    sources read. *)
Record GrammarParsingError := mkGrammarParsingError {
  lineIndex : Z; charPosition : Z; message : JsString }.

(** [hasLineAnyError(lineIndex)] over [parseResult?.errors ?? []]. *)
Definition hasLineAnyError (errors : option (list GrammarParsingError)) (i : Z) : bool :=
  existsb (fun error => bool_decide (lineIndex error = i)) (default [] errors).

(** A [<tr>] of [assemblyLine]: its key, whether it has the error
    class, the number cell and the parsed code cell. *)
Record Row := mkRow { row_key : Z; row_error : bool; row_number : Z; row_code : JsString }.

Definition assemblyLine (errors : option (list GrammarParsingError)) (line : JsString) (index : Z) : Row :=
  let hasError := hasLineAnyError errors (index + 1) in
  mkRow index hasError (index + 1) line.

(** Every opening tag [<span...>] that [NODE_REGEX] matches in [s]
    ends on the line it starts on. *)
Fixpoint tags_single_line (s : JsString) : bool :=
  match s with
  | [] => true
  | _ :: s' =>
      match match_at s with
      | Some (o, _, _, _) => bool_decide (newline ∉ o)
      | None => true
      end && tags_single_line s'
  end.

(** ** The grammar effect *)

(** A JavaScript object with string keys, in insertion order (the order
    in which Prism tries the tokens of a grammar). *)
Abbreviation JsObject V := (list (JsString * V)).


Section Grammar.

(** The patterns of the grammar: Prism compiles them, the hook only
    copies them. *)
Context {Pattern : Type}.

(** A syntax token of [@syntaxica/lib]: [pattern], [greedy], [lookbehind]. *)
Record SyntaxToken := mkSyntaxToken {
  st_pattern : Pattern; st_greedy : option bool; st_lookbehind : option bool }.

(** [syntaxObject.pattern]: an array of tokens or one token. *)
Inductive SyntaxPattern :=
| PatternArray (tokens : list SyntaxToken)
| PatternSingle (token : SyntaxToken).

Record SyntaxObject := mkSyntaxObject { syntaxType : JsString; pattern : SyntaxPattern }.

(** [specification.grammarDefinition.syntax]. *)
Record GrammarEventResultInit := mkGrammarEventResultInit { syntax : list SyntaxObject }.

(** Prism's [GrammarValue]: the object literals the hook builds. *)
Record GrammarToken := mkGrammarToken {
  g_pattern : Pattern; g_greedy : option bool; g_lookbehind : option bool }.

Inductive GrammarValue :=
| GrammarArray (tokens : list GrammarToken)
| GrammarSingle (token : GrammarToken).

Definition obj_get {V} (o : JsObject V) (k : JsString) : option V :=
  snd <$> List.find (fun kv => bool_decide (kv.1 = k)) o.

(** [o[k] = v]: an existing key keeps its place. *)
Fixpoint obj_set {V} (k : JsString) (v : V) (o : JsObject V) : JsObject V :=
  match o with
  | [] => [(k, v)]
  | (k', v') :: o' => if decide (k = k') then (k, v) :: o' else (k', v') :: obj_set k v o'
  end.

(** The CSS module's class names ([css.keyword], ...), generated by the
    build. *)
Variable css : JsString -> JsString.

Definition cssClassNames : JsObject JsString :=
  map (fun k => (js k, css (js k)))
    ["keyword"; "punctuation"; "comment"; "string"; "boolean"; "number";
     "custom1"; "custom2"; "custom3"; "custom4"]%string.

(** [cssClassNames[syntaxObject.syntaxType]] used as a property key:
    [undefined] becomes the key ["undefined"]. *)
Definition syntaxObjectIdentifier (so : SyntaxObject) : JsString :=
  default js_undefined (obj_get cssClassNames (syntaxType so)).

Definition copy_token (t : SyntaxToken) : GrammarToken :=
  mkGrammarToken (st_pattern t) (st_greedy t) (st_lookbehind t).

(** The [if (Array.isArray(syntaxObject.pattern))] of the [forEach] body. *)
Definition grammar_pattern (p : SyntaxPattern) : GrammarValue :=
  match p with
  | PatternArray ts => GrammarArray (map copy_token ts)
  | PatternSingle t => GrammarSingle (copy_token t)
  end.

(** The [forEach] over [grammarDefinition.syntax]. *)
Definition languageGrammar (sx : list SyntaxObject) : JsObject GrammarValue :=
  fold_left (fun g so => obj_set (syntaxObjectIdentifier so) (grammar_pattern (pattern so)) g) sx [].

(** The effect on [[specification, parseResult]]: [Some g] is
    [setGrammar(g)], [None] the early return. *)
Definition grammar_effect (specification : option GrammarEventResultInit)
    : option (JsObject GrammarValue) :=
  spec ← specification; Some (languageGrammar (syntax spec)).

(** [highlight(code, grammar || {}, 'lang')] of Prism. *)
Variable prism : JsObject GrammarValue -> JsString -> JsString.
(** [css.token]. *)
Variable css_token : JsString.

(** [highlightCallback(code)]: the rows of the table. *)
Definition highlightCallback (grammar : option (JsObject GrammarValue))
    (errors : option (list GrammarParsingError)) (code : JsString) : list Row :=
  let html := replace_all class_token (js "class=" ++ ["034"%char] ++ css_token)
                (replace_nodes (prism (default [] grammar) code)) in
  imap (fun index line => assemblyLine errors line (Z.of_nat index)) (js_split newline html).

End Grammar.

(** ** What the hook needs of Prism *)

(** Prism's [highlight] wraps tokens in [<span>]s and escapes the text,
    so it keeps the text's line breaks and writes every opening tag on
    one line.  [highlight_rows] is proved for any highlighter with these
    two laws. *)
Class Highlighter {Pattern} (prism : JsObject (@GrammarValue Pattern) -> JsString -> JsString) : Prop := {
  highlight_keeps_lines : forall g code, js_count newline (prism g code) = js_count newline code;
  highlight_tags_single_line : forall g code, tags_single_line (prism g code) = true
}.

(** Prism's [util.encode] on text: [&] and [<] escaped, a no-break
    space made a space. *)
Definition escape_html (code : JsString) : JsString :=
  List.flat_map (fun c => if decide (c = "&"%char) then js "&amp;"
                          else if decide (c = "<"%char) then js "&lt;"
                          else if decide (c = "160"%char) then [" "%char] else [c]) code.

(** The opening tag of a comment token, after [<span]. *)
Definition comment_open : JsString := js " " ++ class_token ++ js " comment" ++ ["034"%char].

(** A highlighter for a grammar with one token that covers the whole
    text. *)
Definition comment_prism {Pattern} (_ : JsObject (@GrammarValue Pattern)) (code : JsString) : JsString :=
  span_open ++ comment_open ++ [">"%char] ++ escape_html code ++ span_close.

(** ** Lemmas on the matcher *)

Lemma ci_strip_spec (p s r : JsString) :
  ci_strip p s = Some r -> s = take (List.length p) s ++ r /\ Forall2 (fun a b => ci_eq a b = true) p (take (List.length p) s).
Proof.
  revert s. induction p as [|a p IH]; intros [|b s] H; simpl in H; try done.
  - injection H as <-. done.
  - injection H as <-. done.
  - destruct (ci_eq a b) eqn:Hab; [|done]. destruct (IH s H) as [Hs Hf]. simpl.
    split; [by f_equal|]. by constructor.
Qed.

Lemma take_tag_rest_spec (s t r : JsString) : take_tag_rest s = Some (t, r) -> s = t ++ r.
Proof.
  revert t. induction s as [|c s IH]; intros t H; simpl in H; [done|].
  case_decide; [by injection H as <- <-|].
  destruct (take_tag_rest s) as [[t' r']|] eqn:E; [|done]. injection H as <- <-.
  simpl. f_equal. by apply IH.
Qed.

(** A closing tag written in any case holds no line break. *)
Lemma span_close_no_newline (cl : JsString) :
  Forall2 (fun a b => ci_eq a b = true) span_close cl -> newline ∉ cl.
Proof.
  intros H Hin. apply list_elem_of_lookup in Hin as [i Hi].
  destruct (Forall2_lookup_r _ _ _ _ _ H Hi) as (a & Ha & Hab).
  assert (Hall : Forall (fun a => ci_eq a newline = false) span_close) by repeat constructor.
  rewrite Forall_lookup in Hall. by rewrite (Hall i a Ha) in Hab.
Qed.

Lemma lazy_content_spec (s ct cl r : JsString) :
  lazy_content s = Some (ct, cl, r) -> s = ct ++ cl ++ r /\ newline ∉ cl.
Proof.
  revert ct. induction s as [|c s IH]; intros ct H.
  - done.
  - cbn [lazy_content] in H. destruct (ci_strip span_close (c :: s)) as [r'|] eqn:Hc.
    + injection H as <- <- <-. destruct (ci_strip_spec _ _ _ Hc) as [Hs Hf].
      split; [done|]. by apply span_close_no_newline.
    + case_decide; [done|]. destruct (lazy_content s) as [[[ct' cl'] r']|] eqn:E; [|done].
      injection H as <- <- <-. destruct (IH ct' eq_refl) as [-> Hn]. done.
Qed.

(** A match covers a non-empty prefix: the opening tag, the content and
    the closing tag, in that order. *)
Lemma match_at_spec (s o ct cl r : JsString) :
  match_at s = Some (o, ct, cl, r) -> s = o ++ ct ++ cl ++ r /\ o <> [] /\ newline ∉ cl.
Proof.
  unfold match_at. intros H.
  destruct (ci_strip span_open s) as [r1|] eqn:H1; [|done]. simpl in H.
  destruct (take_tag_rest r1) as [[t r2]|] eqn:H2; [|done]. simpl in H.
  destruct (lazy_content r2) as [[[ct' cl'] r3]|] eqn:H3; [|done]. simpl in H.
  injection H as <- <- <- <-.
  destruct (ci_strip_spec _ _ _ H1) as [Hs Hf]. apply take_tag_rest_spec in H2.
  destruct (lazy_content_spec _ _ _ _ H3) as [-> Hn]. subst r1.
  split; [|split; [|done]].
  - rewrite Hs at 1. by rewrite <- !app_assoc.
  - pose proof (Forall2_length _ _ _ Hf) as Hl. by destruct (take _ s).
Qed.

(** The fuel of the scan is enough: more fuel gives the same text. *)
Lemma replace_nodes_loop_stable (f1 f2 : nat) (s : JsString) :
  (List.length s <= f1)%nat -> (List.length s <= f2)%nat -> replace_nodes_loop f1 s = replace_nodes_loop f2 s.
Proof.
  revert f2 s. induction f1 as [|f1 IH]; intros [|f2] [|c s] H1 H2; simpl in *; try done; try lia.
  destruct (match_at (c :: s)) as [[[[o ct] cl] r]|] eqn:Hm.
  - destruct (match_at_spec _ _ _ _ _ Hm) as (Heq & Hne & _).
    assert (List.length r < S (List.length s))%nat.
    { apply (f_equal List.length) in Heq. rewrite !length_app in Heq. destruct o; [done|simpl in Heq; lia]. }
    f_equal. apply IH; lia.
  - f_equal. apply IH; lia.
Qed.

Lemma replace_nodes_enough (fuel : nat) (s : JsString) :
  (List.length s <= fuel)%nat -> replace_nodes_loop fuel s = replace_nodes s.
Proof. intros H. by apply replace_nodes_loop_stable. Qed.

Lemma tags_single_line_app (p q : JsString) : tags_single_line (p ++ q) = true -> tags_single_line q = true.
Proof. induction p as [|c p IH]; [done|]. simpl. rewrite andb_true_iff. intros [_ H]. by apply IH. Qed.

(** A line-by-line split of a span whose tags are on one line keeps the
    number of line breaks of the content. *)
Lemma splitMultilineNode_count (o ct cl : JsString) :
  newline ∉ o -> newline ∉ cl -> js_count newline (splitMultilineNode o ct cl) = js_count newline ct.
Proof.
  intros Ho Hcl. unfold splitMultilineNode.
  apply (inj S). rewrite <- !js_split_length, js_split_join.
  - by rewrite length_map.
  - pose proof (js_split_nonempty newline ct). by destruct (js_split newline ct).
  - apply Forall_map. eapply Forall_impl; [apply js_split_no_sep|]. intros l Hl. set_solver.
Qed.

Lemma replace_nodes_loop_count (fuel : nat) (s : JsString) :
  (List.length s <= fuel)%nat -> tags_single_line s = true ->
  js_count newline (replace_nodes_loop fuel s) = js_count newline s.
Proof.
  revert s. induction fuel as [|f IH]; intros [|c s'] Hlen Hs; try done.
  cbn [replace_nodes_loop]. destruct (match_at (c :: s')) as [[[[o ct] cl] r]|] eqn:Hm.
  - destruct (match_at_spec _ _ _ _ _ Hm) as (Heq & Hne & Hcl).
    assert (Ho : newline ∉ o).
    { simpl in Hs. rewrite Hm, andb_true_iff in Hs. destruct Hs as [Hs _]. by apply bool_decide_eq_true in Hs. }
    rewrite Heq, !js_count_app, splitMultilineNode_count by done.
    rewrite (js_count_not_in _ o), (js_count_not_in _ cl) by done.
    rewrite IH; [lia| |].
    + rewrite Heq in Hlen. rewrite !length_app in Hlen. destruct o; [done|simpl in Hlen; lia].
    + rewrite Heq in Hs. by apply tags_single_line_app in Hs; apply tags_single_line_app in Hs;
        apply tags_single_line_app in Hs.
  - change (c :: s') with ([c] ++ s'). rewrite (js_count_app _ [c] s').
    change (c :: replace_nodes_loop f s') with ([c] ++ replace_nodes_loop f s').
    rewrite js_count_app, IH; [done|simpl in Hlen; lia|]. by apply (tags_single_line_app [c]).
Qed.

Lemma replace_all_loop_count (pat rep : JsString) (fuel : nat) (s : JsString) :
  pat <> [] -> js_count newline pat = js_count newline rep -> (List.length s <= fuel)%nat ->
  js_count newline (replace_all_loop pat rep fuel s) = js_count newline s.
Proof.
  intros Hp Hc. revert s. induction fuel as [|f IH]; intros [|c s'] Hlen; try done.
  cbn [replace_all_loop]. destruct (strip_prefix pat (c :: s')) as [r|] eqn:Hs.
  - apply strip_prefix_spec in Hs. rewrite Hs, !js_count_app, Hc, IH; [done|].
    apply (f_equal List.length) in Hs. rewrite length_app in Hs. destruct pat; [done|simpl in *; lia].
  - change (c :: s') with ([c] ++ s'). rewrite (js_count_app _ [c] s').
    change (c :: replace_all_loop pat rep f s') with ([c] ++ replace_all_loop pat rep f s').
    rewrite js_count_app, IH; [done|simpl in Hlen; lia].
Qed.

Lemma obj_get_set {V} (o : JsObject V) (k k' : JsString) (v : V) :
  obj_get (obj_set k v o) k' = if decide (k' = k) then Some v else obj_get o k'.
Proof.
  unfold obj_get. induction o as [|[k0 v0] o IH]; simpl.
  - case_bool_decide; case_decide; simpl; congruence.
  - destruct (decide (k = k0)) as [<-|Hk]; simpl.
    + case_bool_decide; case_decide; simpl; congruence.
    + case_bool_decide; [case_decide; simpl; congruence|]. exact IH.
Qed.

Lemma languageGrammar_get {Pattern} (css : JsString -> JsString) (sx : list (@SyntaxObject Pattern))
    (g : JsObject GrammarValue) (k : JsString) :
  obj_get (fold_left (fun g so => obj_set (syntaxObjectIdentifier css so) (grammar_pattern (pattern so)) g) sx g) k =
  match last (map (fun so => grammar_pattern (pattern so))
                  (filter (fun so => syntaxObjectIdentifier css so = k) sx)) with
  | Some v => Some v
  | None => obj_get g k
  end.
Proof.
  revert g. induction sx as [|so sx IH] using rev_ind; intros g; [done|].
  rewrite fold_left_app. simpl. rewrite obj_get_set, filter_app, IH.
  destruct (decide (syntaxObjectIdentifier css so = k)) as [Hk|Hk].
  - rewrite filter_cons_True, filter_nil by done. rewrite decide_True by congruence.
    rewrite map_app. cbn [map]. by rewrite last_snoc.
  - rewrite filter_cons_False, filter_nil by done. rewrite app_nil_r, decide_False by congruence.
    done.
Qed.

(** Only ['<'] itself equals ['<'] up to case. *)
Lemma ci_eq_lt (c : ascii) : ci_eq "<"%char c = true -> c = "<"%char.
Proof. destruct c as [[] [] [] [] [] [] [] []]; vm_compute; intros H; congruence. Qed.

(** No match starts at a code unit other than ['<']. *)
Lemma match_at_not_lt (c : ascii) (s : JsString) : c <> "<"%char -> match_at (c :: s) = None.
Proof.
  intros Hc. unfold match_at. cbn [span_open js list_ascii_of_string ci_strip].
  destruct (ci_eq "<" c) eqn:E; [by apply ci_eq_lt in E|done].
Qed.

(** Without ['<'] the content cannot reach a closing tag across a
    carriage return. *)
Lemma lazy_content_cr (ct x : JsString) :
  carriage_return ∈ ct -> "<"%char ∉ ct -> lazy_content (ct ++ x) = None.
Proof.
  induction ct as [|c ct IH]; intros Hcr Hlt; [by apply elem_of_nil in Hcr|].
  cbn [lazy_content app]. rewrite elem_of_cons in Hcr, Hlt.
  assert (Hc : ci_strip span_close (c :: ct ++ x) = None).
  { cbn [span_close js list_ascii_of_string ci_strip].
    destruct (ci_eq "<" c) eqn:E; [|done]. apply ci_eq_lt in E. subst c. destruct Hlt. by left. }
  rewrite Hc. case_decide; [done|]. destruct Hcr as [Hcr|Hcr]; [congruence|].
  rewrite IH; [done|done|]. intros Hin. apply Hlt. by right.
Qed.

(** The scan over a text without ['<'] copies it. *)
Lemma replace_nodes_loop_no_lt (fuel : nat) (s : JsString) :
  "<"%char ∉ s -> replace_nodes_loop fuel s = s.
Proof.
  revert s. induction fuel as [|f IH]; intros [|c s] Hs; try done.
  rewrite elem_of_cons in Hs. cbn [replace_nodes_loop].
  rewrite match_at_not_lt by (intros ->; apply Hs; by left).
  rewrite IH; [done|]. intros Hin. apply Hs. by right.
Qed.

Lemma ci_strip_app (p r : JsString) : ci_strip p (p ++ r) = Some r.
Proof. induction p as [|a p IH]; [done|]. simpl. unfold ci_eq. by rewrite bool_decide_true. Qed.

Lemma take_tag_rest_app (t r : JsString) :
  ">"%char ∉ t -> take_tag_rest (t ++ ">"%char :: r) = Some (t ++ [">"%char], r).
Proof.
  induction t as [|c t IH]; intros Ht; simpl; [done|].
  rewrite elem_of_cons in Ht. rewrite decide_False by (intros ->; apply Ht; by left).
  rewrite IH; [done|]. intros Hin. apply Ht. by right.
Qed.

(** The scan copies a prefix without ['<']. *)
Lemma replace_nodes_loop_app_no_lt (fuel : nat) (x y : JsString) :
  "<"%char ∉ x -> (List.length x <= fuel)%nat ->
  replace_nodes_loop fuel (x ++ y) = x ++ replace_nodes_loop (fuel - List.length x) y.
Proof.
  revert fuel. induction x as [|c x IH]; intros fuel Hx Hlen; simpl; [by rewrite Nat.sub_0_r|].
  destruct fuel as [|f]; [simpl in Hlen; lia|]. rewrite elem_of_cons in Hx.
  cbn [replace_nodes_loop]. rewrite match_at_not_lt by (intros ->; apply Hx; by left).
  rewrite IH; [done| |simpl in Hlen; lia]. intros Hin. apply Hx. by right.
Qed.

Lemma replace_nodes_loop_span_close (fuel : nat) : replace_nodes_loop fuel span_close = span_close.
Proof.
  destruct fuel as [|f]; [done|]. change span_close with ("<"%char :: js "/span>").
  cbn [replace_nodes_loop]. replace (match_at _) with (@None (JsString * JsString * JsString * JsString))
    by (vm_compute; reflexivity).
  rewrite replace_nodes_loop_no_lt; [done|]. vm_compute. set_solver.
Qed.

(** The rows of the table for one text, from what Prism does with it. *)
Lemma highlight_rows_of {Pattern} (prism : JsObject (@GrammarValue Pattern) -> JsString -> JsString)
    (css_token : JsString) (grammar : option (JsObject GrammarValue))
    (errors : option (list GrammarParsingError)) (code : JsString) :
  js_count newline (prism (default [] grammar) code) = js_count newline code ->
  tags_single_line (prism (default [] grammar) code) = true ->
  newline ∉ css_token ->
  let rows := highlightCallback prism css_token grammar errors code in
  List.length rows = S (js_count newline code) /\
  forall i r, rows !! i = Some r ->
    row_number r = Z.of_nat i + 1 /\ row_error r = hasLineAnyError errors (Z.of_nat i + 1).
Proof.
  intros Hp Ht Hc rows. split.
  - unfold rows, highlightCallback, replace_all, replace_nodes. rewrite length_imap, js_split_length.
    rewrite replace_all_loop_count; [|done| |lia].
    + rewrite replace_nodes_loop_count; [by rewrite Hp|lia|done].
    + rewrite !js_count_app, (js_count_not_in _ css_token) by done. by vm_compute.
  - intros i r. unfold rows, highlightCallback. rewrite list_lookup_imap.
    destruct (_ !! i); simpl; [|done]. intros [= <-]. done.
Qed.


Lemma escape_html_count (code : JsString) : js_count newline (escape_html code) = js_count newline code.
Proof.
  induction code as [|c code IH]; [done|]. cbn [escape_html List.flat_map]. fold (escape_html code).
  rewrite js_count_app, IH. change (c :: code) with ([c] ++ code). rewrite js_count_app. f_equal.
  repeat case_decide; subst; done.
Qed.

Lemma escape_html_no_lt (code : JsString) : "<"%char ∉ escape_html code.
Proof.
  induction code as [|c code IH]; [set_solver|]. cbn [escape_html List.flat_map]. fold (escape_html code).
  rewrite elem_of_app. intros [H|H]; [|done]. repeat case_decide; subst; vm_compute in H; set_solver.
Qed.

Lemma tags_single_line_no_lt (x y : JsString) :
  "<"%char ∉ x -> tags_single_line (x ++ y) = tags_single_line y.
Proof.
  induction x as [|c x IH]; intros Hx; [done|]. rewrite elem_of_cons in Hx. cbn [app tags_single_line].
  rewrite match_at_not_lt by (intros ->; apply Hx; by left). apply IH. intros Hin. apply Hx. by right.
Qed.

Lemma match_at_open (t r : JsString) :
  ">"%char ∉ t ->
  match_at (span_open ++ t ++ ">"%char :: r) =
  (fun '(ct, cl, r') => (span_open ++ t ++ [">"%char], ct, cl, r')) <$> lazy_content r.
Proof.
  intros Ht. unfold match_at. rewrite ci_strip_app. simpl. rewrite take_tag_rest_app by done. simpl.
  destruct (lazy_content r) as [[[ct cl] r']|]; [|done]. done.
Qed.

#[export] Instance comment_prism_highlighter {Pattern} : Highlighter (@comment_prism Pattern).
Proof.
  split; intros g code; unfold comment_prism.
  - rewrite !js_count_app, escape_html_count. by vm_compute.
  - change (span_open ++ comment_open ++ [">"%char] ++ escape_html code ++ span_close)
      with ("<"%char :: js "span" ++ comment_open ++ ">"%char :: escape_html code ++ span_close).
    assert (Hm := match_at_open comment_open (escape_html code ++ span_close)).
    change (span_open ++ comment_open ++ ">"%char :: escape_html code ++ span_close)
      with ("<"%char :: js "span" ++ comment_open ++ ">"%char :: escape_html code ++ span_close) in Hm.
    cbn [tags_single_line]. rewrite Hm by (vm_compute; set_solver).
    apply andb_true_intro. split.
    + destruct (lazy_content _) as [[[ct cl] r']|]; [|done]. simpl. done.
    + replace (js "span" ++ comment_open ++ ">"%char :: escape_html code ++ span_close)
        with ((js "span" ++ comment_open ++ [">"%char]) ++ (escape_html code ++ span_close))
        by (by rewrite <- !app_assoc).
      rewrite tags_single_line_no_lt by (vm_compute; set_solver).
      rewrite tags_single_line_no_lt by apply escape_html_no_lt. done.
Qed.

(** ** Theorems on the highlighter *)

(** The Prism grammar the effect builds holds, under each key, the
    pattern of the {e last} syntax object whose [syntaxType] names that
    class: syntax objects of the same type overwrite each other, and
    every object of an unknown type lands under the key ["undefined"]. *)
Theorem languageGrammar_lookup {Pattern} (css : JsString -> JsString)
    (sx : list (@SyntaxObject Pattern)) (k : JsString) :
  obj_get (languageGrammar css sx) k =
  last (map (fun so => grammar_pattern (pattern so))
            (filter (fun so => syntaxObjectIdentifier css so = k) sx)).
Proof.
  unfold languageGrammar. rewrite languageGrammar_get. by destruct last.
Qed.

(** C26: for any highlighter that keeps the line breaks of the text and
    writes each opening tag on one line (the laws of [Highlighter], which
    Prism's [highlight] has), the table has exactly one row per line of
    the code, row [i] (from 0) shows the number [i + 1] and is marked as
    an error row exactly when the parser reported an error on line
    [i + 1]. *)
Theorem highlight_rows {Pattern} (prism : JsObject (@GrammarValue Pattern) -> JsString -> JsString)
    `{!Highlighter prism} (css_token : JsString) (grammar : option (JsObject GrammarValue))
    (errors : option (list GrammarParsingError)) (code : JsString) :
  newline ∉ css_token ->
  let rows := highlightCallback prism css_token grammar errors code in
  List.length rows = S (js_count newline code) /\
  forall i r, rows !! i = Some r ->
    row_number r = Z.of_nat i + 1 /\ row_error r = hasLineAnyError errors (Z.of_nat i + 1).
Proof.
  intros Hc. apply highlight_rows_of; [apply highlight_keeps_lines|apply highlight_tags_single_line|done].
Qed.

(** C27: a token span whose text holds a carriage return (a document
    with CRLF line ends) is not matched by [NODE_REGEX], since
    [(.|\n)] does not match ['\r']: the span is left whole, and after
    the split at line breaks only its first line carries the opening
    tag. *)
Theorem replace_nodes_keeps_cr_span (t ct : JsString) :
  ">"%char ∉ t -> "<"%char ∉ t -> "<"%char ∉ ct -> carriage_return ∈ ct ->
  let s := span_open ++ t ++ [">"%char] ++ ct ++ span_close in
  replace_nodes s = s.
Proof.
  intros Hgt Hlt Hct Hcr s. unfold replace_nodes.
  assert (Hm : match_at s = None).
  { unfold match_at, s. rewrite ci_strip_app. simpl. rewrite take_tag_rest_app by done. simpl.
    by rewrite lazy_content_cr. }
  assert (Hs : s = "<"%char :: (js "span" ++ t ++ [">"%char] ++ ct) ++ span_close)
    by (unfold s; simpl; by rewrite <- !app_assoc).
  rewrite Hs in Hm |- *.
  cbn [List.length replace_nodes_loop]. rewrite Hm.
  rewrite replace_nodes_loop_app_no_lt, replace_nodes_loop_span_close; [done| |].
  - rewrite !elem_of_app. intros [Hsp|[Ht|[Hg|Hc]]]; [by vm_compute in Hsp; set_solver|done|set_solver|done].
  - rewrite !length_app. lia.
Qed.

Example replace_nodes_keeps_cr_span_witness :
  let s := span_open ++ js " class=c" ++ [">"%char] ++ (js "a" ++ [carriage_return; newline] ++ js "b")
           ++ span_close in
  replace_nodes s = s.
Proof.
  apply replace_nodes_keeps_cr_span; apply (bool_decide_unpack _); vm_compute; reflexivity.
Defined.

Example highlight_rows_witness :
  let code := js "a" ++ [newline] ++ js "<b" ++ [newline] ++ js "c" in
  let errors := Some [mkGrammarParsingError 2 0 (js "mismatched input")] in
  let rows := highlightCallback (@comment_prism unit) (js "token_x") None errors code in
  List.length rows = 3%nat /\
  forall i r, rows !! i = Some r ->
    row_number r = Z.of_nat i + 1 /\ row_error r = hasLineAnyError errors (Z.of_nat i + 1).
Proof.
  intros code errors rows.
  destruct (highlight_rows (@comment_prism unit) (js "token_x") None errors code) as [Hl Hr];
    [apply (bool_decide_unpack _); vm_compute; reflexivity|].
  split; [exact Hl|exact Hr].
Defined.

End Highlights.
