(* ===== verification/HighlightText.v ===== *)
(** * What the highlighted table shows

    The rows of [highlightCallback] ([Highlights]) hold markup: Prism's
    [highlight] of the text, its token spans split per line, the token
    class renamed.  [assemblyLine] renders each row's markup with
    [parse(line)] of html-react-parser.  This file writes out Prism's
    [highlight] ([Token.stringify] of [util.encode] of the tokens; the
    tokenizer [_.tokenize] stays a parameter with the partition law of
    the class [PrismTokenizer]) and the text html-react-parser renders
    from a line ([html_text]), and proves what the table shows:
    - the text of row [i] is line [i] of the code (with a no-break space
      shown as a space, as Prism's [encode] writes it), for any grammar
      whose token names are plain class names, as long as the code does
      not contain the text [class_token];
    - where a plain stretch of the code contains [class_token], the
      [replaceAll] of [highlightCallback], meant for the class attribute,
      rewrites the code's text too.

    The proofs view markup as a list of units ([Unit]: a tag, one of the
    two entities Prism writes, a code unit), and follow each step of the
    pipeline on units. *)

From Stdlib Require Import ZArith Lia Ascii String.
From stdpp Require Import base list decidable option.
From S2P Require Import Prelude Highlights.

Open Scope Z_scope.

Module HighlightText.
Import Highlights.

Definition dquote : ascii := "034"%char.
Definition nbsp : ascii := "160"%char.

(** ** Prism's markup *)

(** [new Token(type, content, alias)] of prism-core; a content that is a
    string or a single token is the list of that one element. *)
Inductive PrismToken :=
| PStr (s : JsString)
| PTok (type : JsString) (alias : list JsString) (content : list PrismToken).

(** Induction on tokens, with the hypothesis for every element of a
    content. *)
Fixpoint PrismToken_nested_ind (P : PrismToken -> Prop) (Hs : forall s, P (PStr s))
    (Ht : forall ty al ct, Forall P ct -> P (PTok ty al ct)) (t : PrismToken) : P t :=
  match t with
  | PStr s => Hs s
  | PTok ty al ct =>
      Ht ty al ct ((fix go (l : list PrismToken) : Forall P l :=
                      match l with
                      | [] => Forall_nil_2 _
                      | x :: l' => Forall_cons_2 _ _ _ (PrismToken_nested_ind P Hs Ht x) (go l')
                      end) ct)
  end.

(** [_.util.encode]: the strings of the tokens escaped. *)
Fixpoint encode (t : PrismToken) : PrismToken :=
  match t with
  | PStr s => PStr (escape_html s)
  | PTok ty al ct => PTok ty al (map encode ct)
  end.

(** The opening tag's text after [<] and before [>]:
    [span class=], a double quote, [token type alias...] and a double
    quote (no [wrap] hook adds attributes). *)
Definition open_body (ty : JsString) (al : list JsString) : JsString :=
  js "span class=" ++ [dquote] ++ js_join " "%char (js "token" :: ty :: al) ++ [dquote].

(** [Token.stringify]. *)
Fixpoint stringify (t : PrismToken) : JsString :=
  match t with
  | PStr s => s
  | PTok ty al ct => "<"%char :: open_body ty al ++ ">"%char :: List.concat (map stringify ct) ++ span_close
  end.

(** [Prism.highlight(text, grammar, language)]: the tokens of
    [_.tokenize], encoded, then stringified. *)
Definition prism_highlight {Pattern} (tokenize : JsObject (@GrammarValue Pattern) -> JsString -> list PrismToken)
    (grammar : JsObject GrammarValue) (text : JsString) : JsString :=
  List.concat (map stringify (map encode (tokenize grammar text))).

(** The text a token covers, and the names it writes in class
    attributes. *)
Fixpoint flatten (t : PrismToken) : JsString :=
  match t with
  | PStr s => s
  | PTok _ _ ct => List.concat (map flatten ct)
  end.

Fixpoint token_names (t : PrismToken) : list JsString :=
  match t with
  | PStr _ => []
  | PTok ty al ct => ty :: al ++ List.concat (map token_names ct)
  end.

(** What the code relies on of [_.tokenize]: the tokens cover the text
    in order, and their types and aliases are keys of the grammar. *)
Class PrismTokenizer {Pattern} (tokenize : JsObject (@GrammarValue Pattern) -> JsString -> list PrismToken)
    : Prop := {
  tokenize_flatten g text : List.concat (map flatten (tokenize g text)) = text;
  tokenize_names g text : Forall (fun n => n ∈ map fst g) (List.concat (map token_names (tokenize g text)))
}.

(** ** What html-react-parser renders *)

(** The text of the React nodes [parse(line)] returns, on markup of tags
    and the entities [&amp;] and [&lt;] (what Prism writes): a tag, from
    [<] to the next [>], renders no text; an entity renders its
    character; every other code unit renders as it is. *)
Fixpoint html_text_st (in_tag : bool) (s : JsString) : JsString :=
  match s with
  | [] => []
  | c :: s' =>
      if in_tag then
        if decide (c = ">"%char) then html_text_st false s' else html_text_st true s'
      else if decide (c = "<"%char) then html_text_st true s'
      else if decide (c = "&"%char) then
        match s' with
        | "a"%char :: "m"%char :: "p"%char :: ";"%char :: r => "&"%char :: html_text_st false r
        | "l"%char :: "t"%char :: ";"%char :: r => "<"%char :: html_text_st false r
        | _ => "&"%char :: html_text_st false s'
        end
      else c :: html_text_st false s'
  end.

Definition html_text (s : JsString) : JsString := html_text_st false s.

(** The text a row shows. *)
Definition row_text (r : Row) : JsString := html_text (row_code r).

(** [util.encode] shows a no-break space as a space. *)
Definition nbsp_to_space (c : ascii) : ascii := if decide (c = nbsp) then " "%char else c.

(** [s] does not contain [p]. *)
Definition infix_free (p s : JsString) : Prop := forall a b, s <> a ++ p ++ b.

(** Two tokenizers with the laws: one for a grammar whose first pattern
    matches the whole text (a single token of that type), one for a
    grammar none of whose patterns matches. *)
Definition whole_tokenize {Pattern} (g : JsObject (@GrammarValue Pattern)) (text : JsString) : list PrismToken :=
  match g with (k, _) :: _ => [PTok k [] [PStr text]] | [] => [PStr text] end.

Definition plain_tokenize {Pattern} (g : JsObject (@GrammarValue Pattern)) (text : JsString) : list PrismToken :=
  [PStr text].

#[export] Instance whole_tokenize_laws {Pattern} : PrismTokenizer (@whole_tokenize Pattern).
Proof.
  split; intros [|[k v] g] text; cbn; rewrite ?app_nil_r; try done.
  constructor; [|done]. by left.
Qed.

#[export] Instance plain_tokenize_laws {Pattern} : PrismTokenizer (@plain_tokenize Pattern).
Proof. split; intros g text; cbn; rewrite ?app_nil_r; done. Qed.

(** ** Markup as units *)

Inductive Unit := UTag (t : JsString) | UAmp | ULt | UChar (c : ascii).

#[export] Instance Unit_eq_dec : EqDecision Unit.
Proof. solve_decision. Defined.

Definition unit_str (u : Unit) : JsString :=
  match u with
  | UTag t => "<"%char :: t ++ [">"%char]
  | UAmp => js "&amp;"
  | ULt => js "&lt;"
  | UChar c => [c]
  end.

Definition unit_text (u : Unit) : JsString :=
  match u with
  | UTag _ => []
  | UAmp => ["&"%char]
  | ULt => ["<"%char]
  | UChar c => [c]
  end.

(** A text without [<], [>], line break or carriage return: the body
    of a tag, a class name. *)
Definition plain (t : JsString) : Prop :=
  ">"%char ∉ t /\ "<"%char ∉ t /\ newline ∉ t /\ carriage_return ∉ t.

#[export] Instance plain_dec (t : JsString) : Decision (plain t).
Proof. unfold plain. apply _. Defined.

(** A tag is plain; a code unit is not [<] or [&]. *)
Definition unit_ok (u : Unit) : Prop :=
  match u with
  | UTag t => plain t
  | UChar c => c <> "<"%char /\ c <> "&"%char
  | _ => True
  end.

Definition markup (us : list Unit) : JsString := List.concat (map unit_str us).
Definition text (us : list Unit) : JsString := List.concat (map unit_text us).

(** The lines of a list of units, split at [UChar newline]. *)
Fixpoint split_units (us : list Unit) : list (list Unit) :=
  match us with
  | [] => [[]]
  | u :: us' =>
      let rest := split_units us' in
      if decide (u = UChar newline) then [] :: rest
      else match rest with r :: rs => (u :: r) :: rs | [] => [[u]] end
  end.

Fixpoint join_units (ls : list (list Unit)) : list Unit :=
  match ls with
  | [] => []
  | [l] => l
  | l :: ls' => l ++ UChar newline :: join_units ls'
  end.

(** The units of [util.encode] of a string: each code unit escaped. *)
Definition esc_unit (c : ascii) : Unit :=
  if decide (c = "&"%char) then UAmp
  else if decide (c = "<"%char) then ULt
  else if decide (c = nbsp) then UChar " "%char else UChar c.

Fixpoint token_units (t : PrismToken) : list Unit :=
  match t with
  | PStr s => map esc_unit s
  | PTok ty al ct => UTag (open_body ty al) :: List.concat (map token_units ct) ++ [UTag (js "/span")]
  end.

(** One line of a split span: the opening tag, the line, the closing
    tag. *)
Definition wrap_line (t t' : JsString) (l : list Unit) : list Unit := UTag t :: l ++ [UTag t'].

(** The units after the class renaming of [highlightCallback]. *)
Definition rename_unit (rep : JsString) (u : Unit) : Unit :=
  match u with UTag t => UTag (replace_all class_token rep t) | _ => u end.

(** ** The text of markup *)

Lemma html_in_tag (t m : JsString) : ">"%char ∉ t -> html_text_st true (t ++ ">"%char :: m) = html_text_st false m.
Proof.
  induction t as [|c t IH]; intros Ht; [done|]. rewrite elem_of_cons in Ht.
  cbn [app html_text_st]. rewrite decide_False by (intros ->; apply Ht; by left).
  apply IH. intros Hin. apply Ht. by right.
Qed.

(** Each unit renders its text. *)
Lemma html_unit (u : Unit) (m : JsString) :
  unit_ok u -> html_text_st false (unit_str u ++ m) = unit_text u ++ html_text_st false m.
Proof.
  destruct u as [t| | |c]; cbn [unit_ok unit_str unit_text]; intros Hu; try reflexivity.
  - cbn [app html_text_st]. rewrite decide_True by done. rewrite <- app_assoc. apply html_in_tag, Hu.
  - destruct Hu as [Hl Ha]. cbn [app html_text_st]. by rewrite !decide_False.
Qed.

Lemma html_markup (us : list Unit) (m : JsString) :
  Forall unit_ok us -> html_text_st false (markup us ++ m) = text us ++ html_text_st false m.
Proof.
  induction 1 as [|u us Hu _ IH]; [done|]. unfold markup, text. cbn [map List.concat].
  rewrite <- !app_assoc, html_unit by done. fold (markup us) (text us). by rewrite IH.
Qed.

Lemma html_text_markup (us : list Unit) : Forall unit_ok us -> html_text (markup us) = text us.
Proof. intros H. unfold html_text. rewrite <- (app_nil_r (markup us)), html_markup by done. apply app_nil_r. Qed.

Lemma markup_app (us vs : list Unit) : markup (us ++ vs) = markup us ++ markup vs.
Proof. unfold markup. by rewrite map_app, concat_app. Qed.

Lemma text_app (us vs : list Unit) : text (us ++ vs) = text us ++ text vs.
Proof. unfold text. by rewrite map_app, concat_app. Qed.

(** ** Lines of units *)

Lemma split_units_nonempty (us : list Unit) : split_units us <> [].
Proof. destruct us as [|u us]; cbn; [done|]. case_decide; [done|]. by destruct (split_units us). Qed.

Lemma Forall_split_units (P : Unit -> Prop) (us : list Unit) : Forall P us -> Forall (Forall P) (split_units us).
Proof.
  induction 1 as [|u us Hu Hus IH]; cbn; [by repeat constructor|].
  case_decide; [by constructor|]. destruct (split_units us) as [|l ls]; [by repeat constructor|].
  apply Forall_cons in IH as [Hl Hls]. by repeat constructor.
Qed.

Section Lines.
(** A rendering of units in which only [UChar newline] holds a line
    break, and renders as one. *)
Context (f : Unit -> JsString) (Hnl : f (UChar newline) = [newline]).

Lemma split_concat (us : list Unit) :
  Forall (fun u => u <> UChar newline -> newline ∉ f u) us ->
  js_split newline (List.concat (map f us)) = map (fun l => List.concat (map f l)) (split_units us).
Proof.
  induction 1 as [|u us Hu _ IH]; [done|]. cbn [map List.concat split_units].
  case_decide as Hun.
  - subst u. rewrite Hnl. cbn. rewrite decide_True by done. by rewrite IH.
  - rewrite js_split_app_no_sep by auto. rewrite IH.
    pose proof (split_units_nonempty us). by destruct (split_units us).
Qed.

Lemma join_concat (ls : list (list Unit)) :
  List.concat (map f (join_units ls)) = js_join newline (map (fun l => List.concat (map f l)) ls).
Proof.
  induction ls as [|l [|l' ls] IH]; [done|by cbn|].
  change (join_units (l :: l' :: ls)) with (l ++ UChar newline :: join_units (l' :: ls)).
  rewrite map_app, concat_app. cbn [map List.concat]. rewrite Hnl, IH. done.
Qed.

End Lines.

(** Only [UChar newline] holds a line break in the markup or the text
    of units that are [unit_ok]. *)
Lemma newline_unit_str (u : Unit) : unit_ok u -> u <> UChar newline -> newline ∉ unit_str u.
Proof.
  destruct u as [t| | |c]; unfold unit_ok, unit_str; intros Hu Hn.
  - destruct Hu as (Hg & _ & Htn & _). rewrite elem_of_cons, elem_of_app, list_elem_of_singleton.
    intros [H|[H|H]]; [discriminate|done|discriminate].
  - set_solver.
  - set_solver.
  - rewrite list_elem_of_singleton. intros Heq. apply Hn. by rewrite Heq.
Qed.

Lemma newline_unit_text (u : Unit) : u <> UChar newline -> newline ∉ unit_text u.
Proof. destruct u as [t| | |c]; cbn; intros Hn; [set_solver|set_solver|set_solver|]. set_solver. Qed.

Lemma split_markup (us : list Unit) :
  Forall unit_ok us -> js_split newline (markup us) = map markup (split_units us).
Proof.
  intros H. apply split_concat; [done|]. eapply Forall_impl; [exact H|]. apply newline_unit_str.
Qed.

Lemma split_text (us : list Unit) : js_split newline (text us) = map text (split_units us).
Proof. apply split_concat; [done|]. apply Forall_forall. intros u _. apply newline_unit_text. Qed.

(** The rows' texts are the lines of the units' text. *)
Lemma lines_markup (us : list Unit) :
  Forall unit_ok us -> map html_text (js_split newline (markup us)) = js_split newline (text us).
Proof.
  intros H. rewrite split_markup, split_text, map_map by done. apply map_ext_Forall.
  eapply Forall_impl; [by apply Forall_split_units|]. intros l Hl. by apply html_text_markup.
Qed.

(** ** Prism's markup as units *)

Lemma markup_cons (u : Unit) (us : list Unit) : markup (u :: us) = unit_str u ++ markup us.
Proof. done. Qed.

Lemma text_cons (u : Unit) (us : list Unit) : text (u :: us) = unit_text u ++ text us.
Proof. done. Qed.

Lemma markup_concat (uss : list (list Unit)) : markup (List.concat uss) = List.concat (map markup uss).
Proof. induction uss as [|us uss IH]; [done|]. cbn [List.concat map]. by rewrite markup_app, IH. Qed.

Lemma text_concat (uss : list (list Unit)) : text (List.concat uss) = List.concat (map text uss).
Proof. induction uss as [|us uss IH]; [done|]. cbn [List.concat map]. by rewrite text_app, IH. Qed.

Lemma markup_esc (s : JsString) : markup (map esc_unit s) = escape_html s.
Proof.
  induction s as [|c s IH]; [done|]. cbn [map escape_html List.flat_map]. fold (escape_html s).
  rewrite markup_cons, IH. f_equal. unfold esc_unit. repeat case_decide; subst; done.
Qed.

Lemma text_esc (s : JsString) : text (map esc_unit s) = map nbsp_to_space s.
Proof.
  induction s as [|c s IH]; [done|]. cbn [map]. rewrite text_cons, IH.
  change (nbsp_to_space c :: map nbsp_to_space s) with ([nbsp_to_space c] ++ map nbsp_to_space s). f_equal.
  unfold esc_unit, nbsp_to_space.
  repeat case_decide; subst; try done; vm_compute in *; congruence.
Qed.

Lemma ok_esc (s : JsString) : Forall unit_ok (map esc_unit s).
Proof.
  apply Forall_forall. intros u Hu. apply list_elem_of_fmap in Hu as (c & -> & _).
  unfold esc_unit. repeat case_decide; cbn; try done; split; congruence.
Qed.

Lemma elem_of_js_join (sep c : ascii) (ps : list JsString) :
  c ∈ js_join sep ps -> c = sep \/ exists p, p ∈ ps /\ c ∈ p.
Proof.
  induction ps as [|p [|p' ps] IH]; [set_solver|set_solver|].
  change (js_join sep (p :: p' :: ps)) with (p ++ sep :: js_join sep (p' :: ps)).
  rewrite elem_of_app, elem_of_cons. intros [H|[H|H]]; [right; exists p; set_solver|by left|].
  destruct (IH H) as [?|(q & Hq & Hc)]; [by left|]. right. exists q. split; [|done]. by right.
Qed.

(** The opening tag of a token whose names are plain is plain. *)
Lemma plain_open_body (ty : JsString) (al : list JsString) :
  Forall plain (ty :: al) -> plain (open_body ty al).
Proof.
  intros Hn. assert (Hall : forall c, c ∈ open_body ty al -> c ∈ js "span class=token" ++ [dquote; " "%char] \/
                                      exists p, p ∈ ty :: al /\ c ∈ p).
  { intros c. unfold open_body. rewrite !elem_of_app. intros [H|[H|[H|H]]]; [set_solver|set_solver| |set_solver].
    apply elem_of_js_join in H as [->|(p & Hp & Hc)]; [set_solver|].
    rewrite elem_of_cons in Hp. destruct Hp as [->|Hp]; [set_solver|eauto]. }
  rewrite Forall_forall in Hn.
  split_and!; intros Hin; destruct (Hall _ Hin) as [H|(p & Hp & Hc)];
    try (vm_compute in H; set_solver); destruct (Hn p Hp) as (? & ? & ? & ?); done.
Qed.

Lemma markup_token (t : PrismToken) : markup (token_units t) = stringify (encode t).
Proof.
  induction t as [s|ty al ct IH] using PrismToken_nested_ind; cbn [token_units encode stringify].
  - apply markup_esc.
  - change (UTag (open_body ty al) :: _) with ([UTag (open_body ty al)] ++ List.concat (map token_units ct)
      ++ [UTag (js "/span")]).
    rewrite !markup_app, markup_concat, map_map.
    erewrite map_ext_Forall; [|exact IH]. rewrite <- map_map, !markup_cons.
    change (markup []) with (@nil ascii). cbn [unit_str]. rewrite !app_nil_r.
    change (("<"%char :: open_body ty al ++ [">"%char]) ++ ?x) with ("<"%char :: (open_body ty al ++ [">"%char]) ++ x).
    rewrite <- app_assoc. reflexivity.
Qed.

Lemma text_token (t : PrismToken) : text (token_units t) = map nbsp_to_space (flatten t).
Proof.
  induction t as [s|ty al ct IH] using PrismToken_nested_ind; cbn [token_units flatten].
  - apply text_esc.
  - change (UTag (open_body ty al) :: _) with ([UTag (open_body ty al)] ++ List.concat (map token_units ct)
      ++ [UTag (js "/span")]).
    rewrite !text_app, text_concat, map_map, concat_map, map_map. cbn. rewrite app_nil_r.
    f_equal. apply map_ext_Forall in IH. by rewrite IH.
Qed.

Lemma ok_token (t : PrismToken) : Forall plain (token_names t) -> Forall unit_ok (token_units t).
Proof.
  induction t as [s|ty al ct IH] using PrismToken_nested_ind; cbn [token_units token_names]; intros Hn.
  - apply ok_esc.
  - apply Forall_cons in Hn as [Hty Hn]. apply Forall_app in Hn as [Hal Hct].
    constructor; [by apply plain_open_body; constructor|]. apply Forall_app. split.
    + apply Forall_concat, Forall_forall. intros us Hus. apply list_elem_of_fmap in Hus as (t & -> & Ht).
      rewrite Forall_forall in IH. apply IH; [done|]. rewrite Forall_concat, Forall_forall in Hct.
      apply Hct, list_elem_of_fmap. eauto.
    + constructor; [|done]. cbn. split_and!; vm_compute; set_solver.
Qed.

(** ** [NODE_REGEX] on units *)

(** Only [>] itself equals [>] up to case. *)
Lemma ci_eq_gt (c : ascii) : ci_eq ">"%char c = true -> c = ">"%char.
Proof. destruct c as [[] [] [] [] [] [] [] []]; vm_compute; intros H; congruence. Qed.

Ltac ci_cases := repeat match goal with
  | |- context [ci_eq ?a ?b] => destruct (ci_eq a b) eqn:?; cbn [ci_strip option_bind mbind]
  end.

(** [<span] followed by [[^>]*>] matches a whole tag, or nothing. *)
Lemma match_at_tag (t m o ct cl r : JsString) :
  ">"%char ∉ t -> match_at ("<"%char :: t ++ ">"%char :: m) = Some (o, ct, cl, r) ->
  o = "<"%char :: t ++ [">"%char] /\ lazy_content m = Some (ct, cl, r).
Proof.
  intros Ht. unfold match_at.
  destruct t as [|a [|b [|c [|d t2]]]]; cbn [app span_open js list_ascii_of_string ci_strip];
    ci_cases; try discriminate.
  rewrite take_tag_rest_app by set_solver. cbn [mbind option_bind].
  destruct (lazy_content m) as [[[ct' cl'] r']|]; [|discriminate]. intros [= <- <- <- <-]. done.
Qed.

(** A text without [<] or carriage return is content before any closing
    tag. *)
Lemma lazy_content_plain (x m : JsString) :
  "<"%char ∉ x -> carriage_return ∉ x ->
  lazy_content (x ++ m) = (fun '(ct, cl, r) => (x ++ ct, cl, r)) <$> lazy_content m.
Proof.
  induction x as [|c x IH]; intros Hl Hc; cbn [app]; [by destruct (lazy_content m) as [[[? ?] ?]|]|].
  rewrite elem_of_cons in Hl, Hc. cbn [lazy_content]. rewrite decide_False by auto.
  replace (ci_strip span_close (c :: x ++ m)) with (@None JsString).
  - rewrite IH by auto. by destruct (lazy_content m) as [[[? ?] ?]|].
  - cbn [span_close js list_ascii_of_string ci_strip]. destruct (ci_eq "<" c) eqn:E; [|done].
    apply ci_eq_lt in E. subst c. destruct Hl. by left.
Qed.

(** [<\/span>] matches a whole tag or nothing. *)
Lemma ci_strip_close_tag (t m r : JsString) :
  ">"%char ∉ t -> ci_strip span_close ("<"%char :: t ++ ">"%char :: m) = Some r -> r = m.
Proof.
  intros Ht. destruct t as [|a [|b [|c [|d [|e [|f t2]]]]]];
    cbn [app span_close js list_ascii_of_string ci_strip]; ci_cases; try discriminate.
  - by intros [= ->].
  - match goal with H : ci_eq ">" f = true |- _ => apply ci_eq_gt in H end. subst f. set_solver.
Qed.

(** The content of a match on markup is a run of whole units, up to a
    tag. *)
Lemma lazy_content_markup (us : list Unit) (ct cl r : JsString) :
  Forall unit_ok us -> lazy_content (markup us) = Some (ct, cl, r) ->
  exists us1 t us2, us = us1 ++ UTag t :: us2 /\ ct = markup us1 /\ cl = "<"%char :: t ++ [">"%char] /\
                    r = markup us2.
Proof.
  intros Hus. revert ct. induction Hus as [|u us Hu Hus IH]; intros ct H; [done|].
  rewrite markup_cons in H.
  assert (Hrest : forall x, "<"%char ∉ x -> carriage_return ∉ x -> unit_str u = x ->
    exists us1 t us2, u :: us = us1 ++ UTag t :: us2 /\ ct = markup us1 /\ cl = "<"%char :: t ++ [">"%char] /\
                      r = markup us2).
  { intros x Hl Hc <-. rewrite lazy_content_plain in H by done.
    destruct (lazy_content (markup us)) as [[[ct' cl'] r']|] eqn:E; [|done]. injection H as <- <- <-.
    destruct (IH ct' eq_refl) as (us1 & t & us2 & -> & -> & -> & ->).
    exists (u :: us1), t, us2. done. }
  destruct u as [t| | |c]; cbn [unit_ok] in Hu.
  - destruct Hu as (Hg & Hlt & _ & Hcr). cbn [unit_str app] in H. rewrite <- app_assoc in H.
    cbn [app lazy_content] in H.
    destruct (ci_strip span_close _) as [r'|] eqn:Hc.
    + injection H as <- <- <-. pose proof (ci_strip_close_tag _ _ _ Hg Hc) as ->.
      exists [], t, us. split_and!; [done|done| |done].
      destruct (ci_strip_spec _ _ _ Hc) as [Hs _].
      cbn [span_close js list_ascii_of_string List.length take app] in Hs |- *. injection Hs as Hs.
      replace (t ++ ">"%char :: markup us) with ((t ++ [">"%char]) ++ markup us) in Hs at 1
        by (by rewrite <- app_assoc).
      apply app_inv_tail in Hs. by rewrite <- Hs.
    + rewrite decide_False in H by done.
      replace (t ++ ">"%char :: markup us) with ((t ++ [">"%char]) ++ markup us) in H
        by (by rewrite <- app_assoc).
      rewrite (lazy_content_plain (t ++ [">"%char])) in H by set_solver.
      destruct (lazy_content (markup us)) as [[[ct' cl'] r']|] eqn:E; [|done]. injection H as <- <- <-.
      destruct (IH ct' eq_refl) as (us1 & t' & us2 & -> & -> & -> & ->).
      exists (UTag t :: us1), t', us2. split_and!; [done| |done|done]. rewrite markup_cons. reflexivity.
  - apply (Hrest (js "&amp;")); [set_solver|vm_compute; set_solver|done].
  - apply (Hrest (js "&lt;")); [set_solver|vm_compute; set_solver|done].
  - destruct (decide (c = carriage_return)) as [->|Hcr].
    + cbn [unit_str app lazy_content] in H. replace (ci_strip span_close _) with (@None JsString) in H
        by (vm_compute; reflexivity). rewrite decide_True in H by done. done.
    + apply (Hrest [c]); [set_solver|set_solver|done].
Qed.

Lemma replace_nodes_app_no_lt (x y : JsString) :
  "<"%char ∉ x -> replace_nodes (x ++ y) = x ++ replace_nodes y.
Proof.
  intros Hx. unfold replace_nodes at 1. rewrite replace_nodes_loop_app_no_lt by (done || (rewrite length_app; lia)).
  by rewrite length_app, Nat.add_sub_swap, Nat.sub_diag by lia.
Qed.

Lemma replace_nodes_cons (c : ascii) (s : JsString) :
  replace_nodes (c :: s) =
  match match_at (c :: s) with
  | Some (o, ct, cl, r) => splitMultilineNode o ct cl ++ replace_nodes r
  | None => c :: replace_nodes s
  end.
Proof.
  unfold replace_nodes at 1. cbn [List.length replace_nodes_loop].
  destruct (match_at (c :: s)) as [[[[o ct] cl] r]|] eqn:Hm.
  - destruct (match_at_spec _ _ _ _ _ Hm) as (Heq & Hne & _). rewrite replace_nodes_enough; [done|].
    apply (f_equal List.length) in Heq. rewrite !length_app in Heq. destruct o; [done|]. cbn in Heq. lia.
  - by rewrite replace_nodes_enough.
Qed.

Lemma Forall_join_units (P : Unit -> Prop) (ls : list (list Unit)) :
  P (UChar newline) -> Forall (Forall P) ls -> Forall P (join_units ls).
Proof.
  intros Hnl. induction 1 as [|l ls Hl Hls IH]; [constructor|].
  destruct ls as [|l' ls]; [done|]. cbn [join_units]. apply Forall_app. split; [done|by constructor].
Qed.

(** The split of a span on units: one span per line, same text. *)
Lemma splitMultilineNode_units (t t' : JsString) (us1 : list Unit) :
  Forall unit_ok us1 ->
  splitMultilineNode ("<"%char :: t ++ [">"%char]) (markup us1) ("<"%char :: t' ++ [">"%char]) =
  markup (join_units (map (wrap_line t t') (split_units us1))) /\
  text (join_units (map (wrap_line t t') (split_units us1))) = text us1.
Proof.
  intros Hus. unfold markup at 2, text at 1. rewrite !(join_concat _ eq_refl), !map_map. split.
  - unfold splitMultilineNode. rewrite split_markup, map_map by done. f_equal. apply map_ext. intros l.
    change (List.concat (map unit_str (wrap_line t t' l))) with (markup (UTag t :: l ++ [UTag t'])).
    rewrite markup_cons, markup_app. change (markup [UTag t']) with (("<"%char :: t' ++ [">"%char]) ++ []).
    rewrite app_nil_r. reflexivity.
  - rewrite <- (js_join_split newline (text us1)), split_text. f_equal. apply map_ext. intros l.
    unfold wrap_line. cbn [map List.concat unit_text app]. rewrite map_app, concat_app. cbn. by rewrite app_nil_r.
Qed.

(** [.replace(NODE_REGEX, splitMultilineNode)] on markup gives markup
    with the same text. *)
Lemma replace_nodes_markup (us : list Unit) :
  Forall unit_ok us ->
  exists us', replace_nodes (markup us) = markup us' /\ Forall unit_ok us' /\ text us' = text us.
Proof.
  remember (List.length us) as n eqn:Hn. revert us Hn. induction n as [n IH] using lt_wf_ind.
  intros [|u us] Hn Hus; [by exists []|]. apply Forall_cons in Hus as [Hu Hus].
  destruct (IH (List.length us) ltac:(cbn in Hn; lia) us eq_refl Hus) as (us' & Hr & Hok & Ht).
  assert (Hplain : "<"%char ∉ unit_str u -> exists us'', replace_nodes (markup (u :: us)) = markup us'' /\
            Forall unit_ok us'' /\ text us'' = text (u :: us)).
  { intros Hl. exists (u :: us'). rewrite !markup_cons, replace_nodes_app_no_lt, Hr by done.
    split_and!; [done|by constructor|by rewrite !text_cons, Ht]. }
  destruct u as [t| | |c]; [|apply Hplain; set_solver|apply Hplain; set_solver|].
  2: { apply Hplain. cbn. rewrite list_elem_of_singleton. intros <-. by destruct Hu. }
  pose proof Hu as (Hg & Hlt & _ & _). rewrite markup_cons. cbn [unit_str app].
  rewrite replace_nodes_cons.
  replace ((t ++ [">"%char]) ++ markup us) with (t ++ ">"%char :: markup us) by (by rewrite <- app_assoc).
  destruct (match_at _) as [[[[o ct] cl] r]|] eqn:Hm.
  - destruct (match_at_tag _ _ _ _ _ _ Hg Hm) as [-> Hlc].
    destruct (lazy_content_markup _ _ _ _ Hus Hlc) as (us1 & t' & us2 & -> & -> & -> & ->).
    apply Forall_app in Hus as [Hus1 Hus2]. apply Forall_cons in Hus2 as [Ht' Hus2].
    destruct (IH (List.length us2) ltac:(cbn [List.length] in Hn; rewrite length_app in Hn; cbn in Hn; lia) us2 eq_refl Hus2)
      as (us2' & Hr2 & Hok2 & Ht2).
    destruct (splitMultilineNode_units t t' us1 Hus1) as [Hs Hst].
    exists (join_units (map (wrap_line t t') (split_units us1)) ++ us2'). rewrite Hs, Hr2, markup_app.
    split_and!; [done| |].
    + apply Forall_app. split; [|done]. apply Forall_join_units; [done|].
      apply Forall_fmap, Forall_forall. intros l Hl. unfold wrap_line. constructor; [done|].
      apply Forall_app. split; [|by apply Forall_singleton].
      pose proof (Forall_split_units _ _ Hus1) as HF. rewrite Forall_forall in HF. by apply HF.
    + rewrite text_app, Hst, Ht2, text_cons, text_app, text_cons. done.
  - replace (t ++ ">"%char :: markup us) with ((t ++ [">"%char]) ++ markup us) by (by rewrite <- app_assoc).
    rewrite (replace_nodes_app_no_lt (t ++ [">"%char])) by set_solver.
    exists (UTag t :: us'). rewrite Hr, markup_cons. split_and!; [|by constructor|by rewrite !text_cons, Ht].
    reflexivity.
Qed.

(** ** The class renaming on units *)

Lemma replace_all_loop_stable (pat rep : JsString) (f1 f2 : nat) (s : JsString) :
  pat <> [] -> (List.length s <= f1)%nat -> (List.length s <= f2)%nat ->
  replace_all_loop pat rep f1 s = replace_all_loop pat rep f2 s.
Proof.
  intros Hp. revert f2 s. induction f1 as [|f1 IH]; intros [|f2] [|c s] H1 H2; cbn in *; try done; try lia.
  destruct (strip_prefix pat (c :: s)) as [r|] eqn:Hs.
  - apply strip_prefix_spec in Hs. apply (f_equal List.length) in Hs. rewrite length_app in Hs.
    destruct pat; [done|]. cbn in Hs. f_equal. apply IH; lia.
  - f_equal. apply IH; lia.
Qed.

Lemma replace_all_cons (pat rep : JsString) (c : ascii) (s : JsString) :
  pat <> [] ->
  replace_all pat rep (c :: s) =
  match strip_prefix pat (c :: s) with
  | Some r => rep ++ replace_all pat rep r
  | None => c :: replace_all pat rep s
  end.
Proof.
  intros Hp. unfold replace_all at 1. cbn [List.length replace_all_loop].
  destruct (strip_prefix pat (c :: s)) as [r|] eqn:Hs.
  - f_equal. apply strip_prefix_spec in Hs. apply (f_equal List.length) in Hs. rewrite length_app in Hs.
    apply replace_all_loop_stable; [done|destruct pat; [done|]; cbn in Hs; lia|done].
  - reflexivity.
Qed.

(** A prefix that does not hold [c] stops before it. *)
Lemma strip_prefix_stop (p x y : JsString) (c : ascii) :
  c ∉ p -> strip_prefix p (x ++ c :: y) = (fun r => r ++ c :: y) <$> strip_prefix p x.
Proof.
  revert x. induction p as [|a p IH]; intros x Hc; [done|]. rewrite elem_of_cons in Hc.
  destruct x as [|b x]; cbn [app strip_prefix].
  - rewrite decide_False; [done|]. intros ->. apply Hc. by left.
  - case_decide; [|done]. apply IH. intros Hin. apply Hc. by right.
Qed.

(** No occurrence of [pat] crosses a code unit it does not hold. *)
Lemma replace_all_stop (pat rep x y : JsString) (c : ascii) :
  pat <> [] -> c ∉ pat ->
  replace_all pat rep (x ++ c :: y) = replace_all pat rep x ++ c :: replace_all pat rep y.
Proof.
  intros Hp Hc. remember (List.length x) as n eqn:Hn. revert x Hn. induction n as [n IH] using lt_wf_ind.
  intros [|d x] Hn; cbn [app].
  - rewrite replace_all_cons by done. replace (strip_prefix pat (c :: y)) with (@None JsString); [done|].
    destruct pat as [|a pat]; [done|]. cbn. rewrite decide_False; [done|]. intros ->. apply Hc. by left.
  - rewrite !replace_all_cons by done. change (d :: x ++ c :: y) with ((d :: x) ++ c :: y).
    rewrite strip_prefix_stop by done. destruct (strip_prefix pat (d :: x)) as [r|] eqn:Hs; cbn [fmap option_fmap option_map].
    + apply strip_prefix_spec in Hs. rewrite (IH (List.length r)); [by rewrite app_assoc| |done].
      apply (f_equal List.length) in Hs. rewrite length_app in Hs. subst n. destruct pat; [done|]. rewrite Hs. cbn. lia.
    + rewrite (IH (List.length x)); [done|cbn in Hn; lia|done].
Qed.

(** A text that does not hold the first code unit of [pat] is copied. *)
Lemma replace_all_no_head (pat rep x y : JsString) (a : ascii) (p : JsString) :
  pat = a :: p -> a ∉ x -> replace_all pat rep (x ++ y) = x ++ replace_all pat rep y.
Proof.
  intros -> Hx. induction x as [|c x IH]; [done|]. rewrite elem_of_cons in Hx. cbn [app].
  rewrite replace_all_cons by done. cbn [strip_prefix]. rewrite decide_False by (intros ->; apply Hx; by left).
  rewrite IH; [done|]. intros Hin. apply Hx. by right.
Qed.

(** A prefix of the markup without [<] or [&] is a prefix of the text. *)
Lemma strip_prefix_markup (p : JsString) (us : list Unit) (r : JsString) :
  "<"%char ∉ p -> "&"%char ∉ p -> strip_prefix p (markup us) = Some r ->
  exists r', strip_prefix p (text us) = Some r'.
Proof.
  revert us r. induction p as [|a p IH]; intros us r Hl Ha H; [by eexists|].
  rewrite elem_of_cons in Hl, Ha. destruct us as [|u us]; [done|]. rewrite markup_cons in H.
  destruct u as [t| | |c]; cbn [unit_str js list_ascii_of_string app strip_prefix] in H.
  - case_decide; [subst; destruct Hl; by left|done].
  - case_decide; [subst; destruct Ha; by left|done].
  - case_decide; [subst; destruct Ha; by left|done].
  - case_decide as Hac; [|done]. subst a. rewrite text_cons. cbn. rewrite decide_True by done.
    apply (IH us r); [intros ?; apply Hl; by right|intros ?; apply Ha; by right|done].
Qed.

Lemma class_token_eq : class_token = "c"%char :: js "lass=" ++ [dquote] ++ js "token".
Proof. done. Qed.

Lemma class_token_chars : "<"%char ∉ class_token /\ ">"%char ∉ class_token /\ "&"%char ∉ class_token.
Proof. vm_compute. set_solver. Qed.

(** [.replaceAll] of [class_token] on markup whose text does not
    contain [class_token] renames inside the tags only. *)
Lemma replace_all_markup (rep : JsString) (us : list Unit) :
  Forall unit_ok us -> infix_free class_token (text us) ->
  replace_all class_token rep (markup us) = markup (map (rename_unit rep) us).
Proof.
  destruct class_token_chars as (Hcl & Hcg & Hca).
  induction 1 as [|u us Hu Hus IH]; intros Hinf; [done|].
  assert (Hinf' : infix_free class_token (text us)).
  { intros a b Heq. apply (Hinf (unit_text u ++ a) b). by rewrite text_cons, Heq, app_assoc. }
  rewrite markup_cons. cbn [map]. rewrite markup_cons.
  destruct u as [t| | |c]; cbn [rename_unit unit_str].
  - cbn [app]. rewrite replace_all_cons by (vm_compute; done).
    replace (strip_prefix class_token _) with (@None JsString) by done.
    rewrite <- !app_assoc. cbn [app]. rewrite replace_all_stop by (done || vm_compute; done). by rewrite IH.
  - rewrite (replace_all_no_head _ _ _ _ _ _ class_token_eq) by (vm_compute; set_solver). by rewrite IH.
  - rewrite (replace_all_no_head _ _ _ _ _ _ class_token_eq) by (vm_compute; set_solver). by rewrite IH.
  - cbn [app]. rewrite replace_all_cons by (vm_compute; done).
    destruct (strip_prefix class_token (c :: markup us)) as [r|] eqn:Hs.
    + exfalso. change (c :: markup us) with (markup (UChar c :: us)) in Hs. destruct (strip_prefix_markup _ _ _ Hcl Hca Hs) as [r' Hr'].
      apply strip_prefix_spec in Hr'. apply (Hinf [] r'). done.
    + by rewrite IH.
Qed.

Lemma elem_of_replace_all (pat rep s : JsString) (c : ascii) :
  pat <> [] -> c ∈ replace_all pat rep s -> c ∈ s \/ c ∈ rep.
Proof.
  intros Hp. remember (List.length s) as n eqn:Hn. revert s Hn. induction n as [n IH] using lt_wf_ind.
  intros [|d s] Hn; [cbn; set_solver|]. rewrite replace_all_cons by done.
  destruct (strip_prefix pat (d :: s)) as [r|] eqn:Hs.
  - apply strip_prefix_spec in Hs. rewrite elem_of_app. intros [H|H]; [by right|].
    assert (Hr : (List.length r < n)%nat).
    { subst n. rewrite Hs, length_app. destruct pat; [done|]. cbn. lia. }
    destruct (IH _ Hr r eq_refl H) as [H'|H']; [|by right]. left. rewrite Hs. set_solver.
  - rewrite elem_of_cons. intros [->|H]; [left; by left|].
    destruct (IH (List.length s) ltac:(subst n; cbn; lia) s eq_refl H) as [H'|H']; [left; by right|by right].
Qed.

Lemma ok_rename (rep : JsString) (us : list Unit) :
  plain rep -> Forall unit_ok us -> Forall unit_ok (map (rename_unit rep) us).
Proof.
  intros Hrep Hus. apply Forall_fmap. eapply Forall_impl; [exact Hus|]. intros [t| | |c] Hu; cbn; try done.
  destruct Hu as (H1 & H2 & H3 & H4). destruct Hrep as (R1 & R2 & R3 & R4).
  split_and!; intros Hin; apply elem_of_replace_all in Hin as [Hin|Hin]; done.
Qed.

Lemma text_rename (rep : JsString) (us : list Unit) : text (map (rename_unit rep) us) = text us.
Proof. unfold text. rewrite map_map. f_equal. apply map_ext. by intros [t| | |c]. Qed.

Lemma js_includes_infix_free (s p : JsString) : js_includes s p = false -> infix_free p s.
Proof.
  induction s as [|c s IH]; intros H a b Heq; cbn in H; apply orb_false_iff in H as [Hst Hrest].
  - by destruct a, p.
  - destruct a as [|c' a].
    + cbn in Heq. rewrite Heq, js_starts_with_app in Hst. done.
    + injection Heq as <- Heq. by apply (IH Hrest a b).
Qed.

Lemma map_nbsp_eq (x p : JsString) : " "%char ∉ p -> map nbsp_to_space x = p -> x = p.
Proof.
  revert p. induction x as [|c x IH]; intros [|d p] Hsp Hx; cbn in Hx; try done.
  injection Hx as Hc Hx. rewrite elem_of_cons in Hsp. unfold nbsp_to_space in Hc.
  case_decide; [subst d; destruct Hsp; by left|]. subst d. f_equal. apply IH; [|done].
  intros Hin. apply Hsp. by right.
Qed.

(** A text holds [p] after the spaces are written for no-break spaces
    only if it held it before, when [p] has no space. *)
Lemma infix_free_nbsp (p s : JsString) : " "%char ∉ p -> infix_free p s -> infix_free p (map nbsp_to_space s).
Proof.
  intros Hsp Hs a b Heq. apply map_eq_app in Heq as (a' & s' & -> & _ & Hs').
  apply map_eq_app in Hs' as (x & b' & -> & Hx & _).
  rewrite (map_nbsp_eq x p Hsp Hx) in Hs. by apply (Hs a' b').
Qed.

(** The row of line [i] holds line [i]. *)
Lemma rows_lines (errors : option (list GrammarParsingError)) (L : list JsString) :
  map row_text (imap (fun index line => assemblyLine errors line (Z.of_nat index)) L) = map html_text L.
Proof.
  cut (forall g : nat -> JsString -> Row, (forall i l, row_code (g i l) = l) ->
         map row_text (imap g L) = map html_text L); [intros H; by apply H|].
  induction L as [|l L IH]; intros g Hg; [done|]. cbn [imap map]. unfold row_text at 1. rewrite Hg.
  f_equal. apply IH. intros i l'. apply Hg.
Qed.

(** Prism's output as units. *)
Lemma prism_units {Pattern} (tokenize : JsObject (@GrammarValue Pattern) -> JsString -> list PrismToken)
    `{!PrismTokenizer tokenize} (g : JsObject GrammarValue) (code : JsString) :
  Forall plain (map fst g) ->
  let us := List.concat (map token_units (tokenize g code)) in
  prism_highlight tokenize g code = markup us /\ Forall unit_ok us /\ text us = map nbsp_to_space code.
Proof.
  intros Hg us. split_and!.
  - unfold prism_highlight, us. rewrite markup_concat, !map_map. f_equal. apply map_ext. intros tk. symmetry. apply markup_token.
  - apply Forall_concat, Forall_forall. intros vs Hvs. apply list_elem_of_fmap in Hvs as (tk & -> & Htk).
    apply ok_token. pose proof (tokenize_names g code) as Hn. rewrite Forall_concat, Forall_forall in Hn.
    apply Forall_forall. intros n Hin. rewrite Forall_forall in Hg. apply Hg.
    assert (Hk : Forall (fun n => n ∈ map fst g) (token_names tk)) by (apply Hn, list_elem_of_fmap; eauto).
    rewrite Forall_forall in Hk. by apply Hk.
  - unfold us. rewrite text_concat, map_map, (map_ext _ _ text_token), <- map_map, <- concat_map.
    by rewrite tokenize_flatten.
Qed.

(** [util.encode] leaves a text without [&], [<] and no-break space as
    it is. *)
Lemma escape_html_plain (s : JsString) :
  "&"%char ∉ s -> "<"%char ∉ s -> nbsp ∉ s -> escape_html s = s.
Proof.
  induction s as [|c s IH]; intros Ha Hl Hn; [done|]. rewrite elem_of_cons in Ha, Hl, Hn.
  cbn [escape_html List.flat_map]. fold (escape_html s).
  rewrite !decide_False by auto. cbn. rewrite IH; auto.
Qed.

Lemma markup_chars (s : JsString) : markup (map UChar s) = s.
Proof. induction s as [|c s IH]; [done|]. cbn [map]. rewrite markup_cons, IH. done. Qed.

Lemma text_chars (s : JsString) : text (map UChar s) = s.
Proof. induction s as [|c s IH]; [done|]. cbn [map]. rewrite text_cons, IH. done. Qed.

(** ** Theorems *)

(** C25: the highlighted table shows the code.  For any tokenizer that
    covers the text with tokens named by keys of the grammar, a grammar
    whose keys are plain class names, and a plain [css.token], the text
    html-react-parser renders for row [i] is line [i] of the code (a
    no-break space shown as a space), as long as the code does not
    contain [class_token]: the span split of [NODE_REGEX] and the class
    renaming only touch tags. *)
Theorem highlight_shows_code {Pattern} (tokenize : JsObject (@GrammarValue Pattern) -> JsString -> list PrismToken)
    `{!PrismTokenizer tokenize} (css_token : JsString) (grammar : option (JsObject GrammarValue))
    (errors : option (list GrammarParsingError)) (code : JsString) :
  Forall plain (map fst (default [] grammar)) -> plain css_token -> js_includes code class_token = false ->
  map row_text (highlightCallback (prism_highlight tokenize) css_token grammar errors code) =
  js_split newline (map nbsp_to_space code).
Proof.
  intros Hg Hcss Hinc. destruct (prism_units tokenize (default [] grammar) code Hg) as (Hm & Hok & Ht).
  destruct (replace_nodes_markup _ Hok) as (us' & Hr & Hok' & Ht').
  assert (Hrep : plain (js "class=" ++ ["034"%char] ++ css_token)).
  { destruct Hcss as (K1 & K2 & K3 & K4). split_and!; rewrite !elem_of_app; intros [H|[H|H]];
      try done; vm_compute in H; set_solver. }
  unfold highlightCallback. rewrite rows_lines, Hm, Hr, replace_all_markup, lines_markup, text_rename, Ht', Ht.
  - done.
  - by apply ok_rename.
  - done.
  - rewrite Ht', Ht. apply infix_free_nbsp; [vm_compute; set_solver|]. by apply js_includes_infix_free.
Qed.

(** C35: the class renaming rewrites the code's text.  When Prism leaves
    a code without [<], [&] and no-break spaces as one plain string
    (no token matched), the text the table shows is the code with every
    [class_token] (the text class, [=], a double quote, token) replaced
    by class, [=], a double quote and [css.token]: the
    [replaceAll] of [highlightCallback] runs over the text as well as
    over the tags. *)
Theorem highlight_rewrites_class_text {Pattern}
    (tokenize : JsObject (@GrammarValue Pattern) -> JsString -> list PrismToken)
    (css_token : JsString) (grammar : option (JsObject GrammarValue))
    (errors : option (list GrammarParsingError)) (code : JsString) :
  tokenize (default [] grammar) code = [PStr code] ->
  "<"%char ∉ code -> "&"%char ∉ code -> nbsp ∉ code -> plain css_token -> "&"%char ∉ css_token ->
  map row_text (highlightCallback (prism_highlight tokenize) css_token grammar errors code) =
  js_split newline (replace_all class_token (js "class=" ++ ["034"%char] ++ css_token) code).
Proof.
  intros Htok Hl Ha Hn Hcss Hca. unfold highlightCallback, prism_highlight. rewrite Htok. cbn [map encode stringify List.concat].
  rewrite app_nil_r, escape_html_plain by done. unfold replace_nodes.
  rewrite replace_nodes_loop_no_lt, rows_lines by done.
  set (R := replace_all _ _ code).
  assert (HR : Forall unit_ok (map UChar R)).
  { apply Forall_fmap, Forall_forall. intros c Hc. cbn.
    assert (Hnot : forall d, d ∈ js "class=" ++ ["034"%char] ++ css_token -> d <> "<"%char /\ d <> "&"%char).
    { intros d Hd. destruct Hcss as (_ & K2 & _). rewrite !elem_of_app in Hd.
      destruct Hd as [Hd|[Hd|Hd]]; split; intros ->; try done; vm_compute in Hd; set_solver. }
    destruct (elem_of_replace_all class_token _ code c ltac:(rewrite class_token_eq; discriminate) Hc) as [H|H]; [|by apply Hnot].
    split; intros ->; contradiction. }
  rewrite <- (markup_chars R) at 1. rewrite lines_markup by done. by rewrite text_chars.
Qed.

Example highlight_shows_code_witness :
  let grammar := Some [(js "cm", @GrammarSingle unit (mkGrammarToken tt None None))] in
  let code := js "a" ++ [newline] ++ js "<b & c" in
  map row_text (highlightCallback (prism_highlight whole_tokenize) (js "tk") grammar None code) =
  [js "a"; js "<b & c"].
Proof.
  intros grammar code.
  rewrite (highlight_shows_code whole_tokenize (js "tk") grammar None code);
    [vm_compute; reflexivity|apply (bool_decide_unpack _); vm_compute; reflexivity..|vm_compute; reflexivity].
Defined.

Example highlight_rewrites_class_text_witness :
  let code := js "a class=" ++ ["034"%char] ++ js "token b" in
  map row_text (highlightCallback (prism_highlight (@plain_tokenize unit)) (js "tk") None None code) =
  [js "a class=" ++ ["034"%char] ++ js "tk b"].
Proof.
  intros code.
  rewrite (highlight_rewrites_class_text (@plain_tokenize unit) (js "tk") None None code);
    [vm_compute; reflexivity|reflexivity|apply (bool_decide_unpack _); vm_compute; reflexivity..].
Defined.

End HighlightText.
