(* ===== verification/ErrorsList.v ===== *)
(** * [ErrorsList] and [ErrorsListItem]: the parser's errors under the editor

    Models [src/src/components/errors-list/errors-list.tsx] and
    [src/src/components/errors-list/errors-list-item.tsx]: the status
    line (initialising, parsing, no errors, or the count), and one list
    item per error whose text is [[line L:C] message], keyed by its
    index plus the day of the month.  Template literals print numbers in
    decimal ([Number.prototype.toString]), modelled for the integers the
    errors carry by [js_of_Z] with fuel the size of the number in bits.

    The theorems show that the view refines the status [Editor] uses,
    that an item's text gives back the error's line, column and message
    and that the item keys of one render are distinct, and that the list
    and the highlighted table of [useHighlights] agree: an error the list
    reports on line [L] marks row [L] of the table when the text has
    such a line, and no row otherwise. *)

From S2P Require Import Prelude WordExtraction Acceptance Editor Highlights.

Module ErrorsList.

Import Highlights.

(** ** Numbers in template literals *)

Definition digit_char (d : Z) : ascii := ascii_of_nat (48 + Z.to_nat d).

(** The decimal digits of [n >= 0], least significant first. *)
Fixpoint digits_rev (fuel : nat) (n : Z) : JsString :=
  match fuel with
  | O => []
  | S fuel' => digit_char (n mod 10) :: (if n <? 10 then [] else digits_rev fuel' (n / 10))
  end.

(** A number has at most as many decimal digits as bits. *)
Definition nat_to_js (n : Z) : JsString := rev (digits_rev (S (Z.to_nat (Z.log2 n))) n).

(** [`${z}`] for an integer [z]. *)
Definition js_of_Z (z : Z) : JsString :=
  if z <? 0 then "-"%char :: nat_to_js (- z) else nat_to_js z.

(** ** [ErrorsListItem] *)

(** [parserErrorToString]. *)
Definition parserErrorToString (targetError : GrammarParsingError) : JsString :=
  js "[line " ++ js_of_Z (lineIndex targetError) ++ js ":" ++ js_of_Z (charPosition targetError) ++
  js "] " ++ message targetError.

(** The [<li>]: its [data-testid] and its text. *)
Record ItemView := mkItemView { item_testid : JsString; item_text : JsString }.

Definition ErrorsListItem (error : GrammarParsingError) (errorIndex : Z) : ItemView :=
  mkItemView (js "ti-parsing-status-errors--errors-list-element-" ++ js_of_Z errorIndex)
    (parserErrorToString error).

(** ** [ErrorsList] *)

(** What the component returns: a status line, or the label and the
    keyed items. *)
Inductive ListView :=
| ViewInitializing
| ViewParsing
| ViewNoErrors
| ViewErrors (label : JsString) (items : list (JsString * ItemView)).

(** The key of the [index]-th item: [`code-error-${index + new Date().getUTCDate()}`]. *)
Definition item_key (utcDate : Z) (index : nat) : JsString :=
  js "code-error-" ++ js_of_Z (Z.of_nat index + utcDate).

(** [ErrorsList] on the day of the month [utcDate]
    ([new Date().getUTCDate()]). *)
Definition render (errors : list GrammarParsingError) (isInitializing isParsing : bool) (utcDate : Z) : ListView :=
  if isInitializing then ViewInitializing
  else if isParsing then ViewParsing
  else if decide (List.length errors = 0%nat) then ViewNoErrors
  else ViewErrors (js "Found '" ++ js_of_Z (Z.of_nat (List.length errors)) ++ js "' parser errors")
         (imap (fun index error => (item_key utcDate index, ErrorsListItem error (Z.of_nat index))) errors).

(** What [CodeEditor] renders:
    [<ErrorsList errors={parseResult?.errors ?? []}
       isParsing={isParsing ?? false} isInitializing={isInitializing} />]. *)
Definition codeEditor_errorsList (parseErrors : option (list GrammarParsingError)) (isParsing : option bool)
    (isInitializing : bool) (utcDate : Z) : ListView :=
  render (default [] parseErrors) isInitializing (default false isParsing) utcDate.

(** The status a view shows, as [Editor.errorsList_status] gives it. *)
Definition view_status (v : ListView) : Editor.ErrorsStatus :=
  match v with
  | ViewInitializing => Editor.StatusInitializing
  | ViewParsing => Editor.StatusParsing
  | ViewNoErrors => Editor.StatusNoErrors
  | ViewErrors _ items => Editor.StatusFoundErrors (Z.of_nat (List.length items))
  end.

(** ** Reading a printed error back *)

Definition digit_of (c : ascii) : option Z :=
  let n := Z.of_nat (nat_of_ascii c) in
  if (48 <=? n) && (n <=? 57) then Some (n - 48) else None.

Fixpoint read_digits (s : JsString) (acc : Z) : Z * JsString :=
  match s with
  | c :: s' => match digit_of c with Some d => read_digits s' (acc * 10 + d) | None => (acc, s) end
  | [] => (acc, [])
  end.

Definition read_int (s : JsString) : option (Z * JsString) :=
  match s with
  | c :: s' =>
      if decide (c = "-"%char) then
        match s' with
        | c' :: _ => if digit_of c' then let '(n, r) := read_digits s' 0 in Some (- n, r) else None
        | [] => None
        end
      else if digit_of c then Some (read_digits s 0) else None
  | [] => None
  end.

(** [[line L:C] message] read back. *)
Definition parse_error_text (t : JsString) : option (Z * Z * JsString) :=
  r1 ← strip_prefix (js "[line ") t;
  '(l, r2) ← read_int r1;
  r3 ← strip_prefix (js ":") r2;
  '(c, r4) ← read_int r3;
  r5 ← strip_prefix (js "] ") r4;
  Some (l, c, r5).

(** ** Lemmas on decimal numbers *)

Definition is_digit (c : ascii) : Prop := is_Some (digit_of c).

(** The first character of what follows a number is not a digit. *)
Definition stops (rest : JsString) : Prop := forall c r, rest = c :: r -> digit_of c = None.

Definition digit_step (a : Z) (c : ascii) : Z := a * 10 + default 0 (digit_of c).

Lemma digit_of_char d : 0 <= d < 10 -> digit_of (digit_char d) = Some d.
Proof.
  intros Hd. assert (d = 0 \/ d = 1 \/ d = 2 \/ d = 3 \/ d = 4 \/ d = 5 \/ d = 6 \/ d = 7 \/ d = 8 \/ d = 9)
    as Hc by lia. by repeat destruct Hc as [->|Hc]; [..|subst].
Qed.

Lemma digits_rev_digits fuel n : 0 <= n -> Forall is_digit (digits_rev fuel n).
Proof.
  revert n. induction fuel as [|fuel IH]; intros n Hn; [constructor|]. cbn [digits_rev].
  pose proof (Z.mod_pos_bound n 10 ltac:(lia)).
  constructor; [unfold is_digit; rewrite digit_of_char; [done|lia] |].
  destruct (n <? 10); [constructor|]. apply IH. apply Z.div_pos; lia.
Qed.

Lemma digits_rev_value fuel n :
  0 <= n < 10 ^ Z.of_nat fuel -> fold_left digit_step (rev (digits_rev fuel n)) 0 = n.
Proof.
  revert n. induction fuel as [|fuel IH]; intros n Hn; [cbn in *; lia|]. cbn [digits_rev rev].
  pose proof (Z.mod_pos_bound n 10 ltac:(lia)).
  rewrite fold_left_app. cbn [fold_left]. unfold digit_step at 1.
  rewrite digit_of_char by lia. cbn [default].
  destruct (Z.ltb_spec n 10).
  - cbn. rewrite Z.mod_small; lia.
  - rewrite IH; [unfold id; pose proof (Z.div_mod n 10 ltac:(lia)); lia|].
    rewrite Nat2Z.inj_succ, Z.pow_succ_r in Hn by lia.
    split; [apply Z.div_pos; lia|]. apply Z.div_lt_upper_bound; lia.
Qed.

Lemma nat_to_js_fuel n : 0 <= n -> n < 10 ^ Z.of_nat (S (Z.to_nat (Z.log2 n))).
Proof.
  intros Hn. destruct (Z.eq_dec n 0) as [->|Hne]; [cbn; lia|].
  pose proof (Z.log2_spec n) as [_ Hlt]; [lia|]. pose proof (Z.log2_nonneg n).
  rewrite Nat2Z.inj_succ, Z2Nat.id by lia. rewrite <-Z.add_1_r.
  eapply Z.lt_le_trans; [exact Hlt|]. rewrite Z.add_1_r.
  apply Z.pow_le_mono_l; lia.
Qed.

Lemma read_digits_app ds rest acc :
  Forall is_digit ds -> stops rest -> read_digits (ds ++ rest) acc = (fold_left digit_step ds acc, rest).
Proof.
  intros Hds Hr. revert acc. induction Hds as [|c ds [d Hc] _ IH]; intros acc.
  - destruct rest as [|c r]; [done|]. cbn. by rewrite (Hr c r eq_refl).
  - cbn [app read_digits fold_left]. rewrite Hc, IH. unfold digit_step. by rewrite Hc.
Qed.

(** [nat_to_js n] is a non-empty string of digits worth [n]. *)
Lemma nat_to_js_spec n :
  0 <= n -> exists c cs, nat_to_js n = c :: cs /\ Forall is_digit (c :: cs) /\
  fold_left digit_step (c :: cs) 0 = n.
Proof.
  intros Hn. unfold nat_to_js. cbn [digits_rev].
  destruct (rev _) as [|c cs] eqn:Hrev.
  - apply (f_equal (@List.length _)) in Hrev. rewrite length_rev in Hrev. cbn in Hrev. lia.
  - exists c, cs. split_and!; [done| |].
    + rewrite <-Hrev. apply Forall_rev. by apply (digits_rev_digits (S _)).
    + rewrite <-Hrev. change (digit_char (n mod 10) :: _) with (digits_rev (S (Z.to_nat (Z.log2 n))) n).
      apply digits_rev_value. split; [done|]. by apply nat_to_js_fuel.
Qed.

Lemma minus_not_digit : digit_of "-"%char = None.
Proof. reflexivity. Qed.

(** A number printed by a template literal and followed by a non-digit
    is read back. *)
Lemma read_int_js_of_Z z rest : stops rest -> read_int (js_of_Z z ++ rest) = Some (z, rest).
Proof.
  intros Hr. unfold js_of_Z. destruct (Z.ltb_spec z 0) as [Hz|Hz].
  - destruct (nat_to_js_spec (- z)) as (c & cs & Heq & Hd & Hv); [lia|].
    rewrite Heq. cbn [app read_int]. rewrite decide_True by done.
    pose proof Hd as Hd'; apply Forall_cons in Hd' as [[d Hc] _]. rewrite Hc.
    change (c :: cs ++ rest) with ((c :: cs) ++ rest). rewrite read_digits_app by done.
    rewrite Hv. f_equal. f_equal. lia.
  - destruct (nat_to_js_spec z) as (c & cs & Heq & Hd & Hv); [lia|].
    rewrite Heq. cbn [app read_int].
    pose proof Hd as Hd'; apply Forall_cons in Hd' as [[d Hc] _].
    rewrite decide_False by (intros ->; by rewrite minus_not_digit in Hc). rewrite Hc.
    change (c :: cs ++ rest) with ((c :: cs) ++ rest). rewrite read_digits_app by done.
    by rewrite Hv.
Qed.

Lemma js_of_Z_inj a b : js_of_Z a = js_of_Z b -> a = b.
Proof.
  intros Hab. pose proof (read_int_js_of_Z a [] ltac:(done)) as Ha.
  rewrite Hab, read_int_js_of_Z in Ha by done. congruence.
Qed.

(** The text of an item gives back the error. *)
Lemma parse_parserErrorToString e :
  parse_error_text (parserErrorToString e) = Some (lineIndex e, charPosition e, message e).
Proof.
  unfold parse_error_text, parserErrorToString.
  rewrite strip_prefix_app. cbn [mbind option_bind].
  rewrite read_int_js_of_Z by (intros ? ? [=<-]; reflexivity).
  cbn [mbind option_bind]. rewrite strip_prefix_app.
  cbn [mbind option_bind]. rewrite read_int_js_of_Z by (intros ? ? [=<-]; reflexivity).
  cbn [mbind option_bind]. by rewrite strip_prefix_app.
Qed.

(** The view shows the status [Editor] computes. *)
Lemma view_status_render errors isInitializing isParsing utcDate :
  view_status (render errors isInitializing isParsing utcDate) =
  Editor.errorsList_status errors isInitializing isParsing.
Proof.
  unfold render, Editor.errorsList_status.
  destruct isInitializing, isParsing; try done; case_decide; [done|]. cbn. by rewrite length_imap.
Qed.

Lemma render_items errors utcDate :
  errors <> [] ->
  render errors false false utcDate =
  ViewErrors (js "Found '" ++ js_of_Z (Z.of_nat (List.length errors)) ++ js "' parser errors")
    (imap (fun index error => (item_key utcDate index, ErrorsListItem error (Z.of_nat index))) errors).
Proof. intros Hne. unfold render. rewrite decide_False; [done|]. by intros ?%nil_length_inv. Qed.

(** ** Theorems *)

(** With errors to show, each item's text [[line L:C] message]
    reads back as the error's line, column and message, in the order of
    the errors, and the React keys [code-error-(index + day)] of the
    items are pairwise distinct whatever the day. *)
Theorem errors_list_items_roundtrip (errors : list GrammarParsingError) (utcDate : Z) :
  errors <> [] ->
  exists label items, render errors false false utcDate = ViewErrors label items /\
    (fun it => parse_error_text (item_text it.2)) <$> items =
      (fun e => Some (lineIndex e, charPosition e, message e)) <$> errors /\
    NoDup (fst <$> items).
Proof.
  intros Hne. rewrite render_items by done. eexists _, _. split; [done|]. split.
  - apply list_eq. intros i. rewrite !list_lookup_fmap, list_lookup_imap.
    destruct (errors !! i); [|done]. cbn -[parse_error_text parserErrorToString].
    by rewrite parse_parserErrorToString.
  - apply NoDup_alt. intros i j k. rewrite !list_lookup_fmap, !list_lookup_imap.
    destruct (errors !! i), (errors !! j); cbn; intros; simplify_eq.
    match goal with H : js_of_Z _ = js_of_Z _ |- _ => apply js_of_Z_inj in H end. lia.
Qed.

Lemma errors_list_items_roundtrip_witness :
  [mkGrammarParsingError 1 7 (js "mismatched input")] <> [] /\
  exists label items, render [mkGrammarParsingError 1 7 (js "mismatched input")] false false 9 = ViewErrors label items.
Proof.
  split; [done|].
  destruct (errors_list_items_roundtrip [mkGrammarParsingError 1 7 (js "mismatched input")] 9)
    as (label & items & Hr & _); [done|]. eauto.
Defined.

(** C40: [ErrorsList] and the highlighted table agree.  For any
    highlighter with the laws of [Highlighter], an error the list shows
    (its item reads back as its line [L]) marks the row numbered [L]
    when the text has a line [L], and when [L] is [0] or past the last
    line no row shows [L]: the error is listed but marks no line. *)
Theorem errors_list_marks_rows {Pattern} (prism : JsObject (@GrammarValue Pattern) -> JsString -> JsString)
    `{!Highlighter prism} (css_token : JsString) (grammar : option (JsObject GrammarValue))
    (errors : list GrammarParsingError) (code : JsString) (utcDate : Z) (e : GrammarParsingError) :
  newline ∉ css_token -> e ∈ errors ->
  let rows := highlightCallback prism css_token grammar (Some errors) code in
  (exists label items it, render errors false false utcDate = ViewErrors label items /\ it ∈ items /\
     parse_error_text (item_text it.2) = Some (lineIndex e, charPosition e, message e)) /\
  (1 <= lineIndex e <= Z.of_nat (List.length rows) ->
     exists r, rows !! Z.to_nat (lineIndex e - 1) = Some r /\ row_number r = lineIndex e /\ row_error r = true) /\
  (lineIndex e < 1 \/ Z.of_nat (List.length rows) < lineIndex e -> forall r, r ∈ rows -> row_number r <> lineIndex e).
Proof.
  intros Hc He rows.
  destruct (highlight_rows_of prism css_token grammar (Some errors) code) as [_ Hrows];
    [apply highlight_keeps_lines|apply highlight_tags_single_line|done|].
  fold rows in Hrows. split_and!.
  - apply list_elem_of_lookup_1 in He as [i Hi].
    rewrite render_items by (intros ->; by rewrite lookup_nil in Hi).
    do 3 eexists. split; [done|]. split.
    + apply list_elem_of_lookup_2 with i. rewrite list_lookup_imap, Hi. done.
    + apply parse_parserErrorToString.
  - intros Hl. destruct (lookup_lt_is_Some_2 rows (Z.to_nat (lineIndex e - 1))) as [r Hr]; [lia|].
    exists r. destruct (Hrows _ _ Hr) as [Hn Herr]. rewrite Z2Nat.id in Hn, Herr by lia.
    split_and!; [done|lia|]. rewrite Herr. apply existsb_exists.
    exists e. rewrite <-list_elem_of_In. split; [done|]. apply bool_decide_true. lia.
  - intros Hl r Hr. apply list_elem_of_lookup_1 in Hr as [i Hi].
    pose proof (lookup_lt_Some _ _ _ Hi). destruct (Hrows _ _ Hi) as [Hn _]. lia.
Qed.

Lemma errors_list_marks_rows_witness :
  let code := js "MATCH" ++ [newline] ++ js "RETURN x" in
  let e := mkGrammarParsingError 2 7 (js "mismatched input") in
  newline ∉ js "token_x" /\ e ∈ [e] /\
  exists r, highlightCallback (@comment_prism unit) (js "token_x") None (Some [e]) code !! 1%nat = Some r /\
            row_number r = 2 /\ row_error r = true.
Proof.
  intros code e. assert (Hc : newline ∉ js "token_x") by (apply (bool_decide_unpack _); vm_compute; reflexivity).
  assert (He : e ∈ [e]) by (by rewrite list_elem_of_singleton). split_and!; [done|done|].
  destruct (errors_list_marks_rows (@comment_prism unit) (js "token_x") None [e] code 1 e Hc He)
    as (_ & Hrow & _).
  apply Hrow. split; [cbn; lia|]. vm_compute. congruence.
Defined.

End ErrorsList.
