(* ===== verification/ShareButton.v ===== *)
(** * Sharing a document: [ShareButton], [Button] and the URL it builds

    [src/src/components/share-button/share-button.tsx] builds a link to
    the page whose [code] query parameter holds the encoded document:
    it removes the first [code=] parameter of [window.location.href]
    with [/([&?])code=[^&]*(&|$)/], appends [code=] with
    [encodeURIComponent(encode(code))], sends the URL to a shortener and
    copies the short link; [useCodeLoader]
    ([src/src/hooks/code-loader/code-loader.ts]) reads the parameter
    back with [URLSearchParams] and [decodeURIComponent].
    [src/src/components/button/button.component.tsx] draws the button's
    content: a spinner while loading, ["Copied!"] after a copy, both
    only when the [icon] prop is given; [Button] fills the props left
    [undefined] from [Button.defaultProps], and [testids] lists the
    [data-testid]s it renders.

    Module [Url] models the JavaScript built-ins the two files call, on
    code units below 256: [encodeURIComponent] (UTF-8 bytes as [%XX]),
    [decodeURIComponent], the [application/x-www-form-urlencoded] parser
    of [URLSearchParams] and [get], and [location.search].  Their
    decoders return [None] for a [URIError] and also for a UTF-8
    sequence that decodes above U+00FF or (in the lenient form parser)
    to the replacement character, which the model's strings cannot
    hold.  Module [ShareButton] models [handleClick] as the steps of an
    asynchronous function: the click, the shortener's answer, the
    clipboard's answer; either answer can be a rejection, after which
    the function stops. *)

From Stdlib Require Import ZArith Lia Ascii String.
From stdpp Require Import base list decidable option.
From S2P Require Import Prelude.

Open Scope Z_scope.

Module Url.

(** ** Percent-encoding *)

(** An upper-case hexadecimal digit. *)
Definition hex_char (n : nat) : ascii :=
  if (n <? 10)%nat then ascii_of_nat (48 + n) else ascii_of_nat (55 + n).

(** The value of a hexadecimal digit of either case. *)
Definition hex_value (c : ascii) : option nat :=
  let n := nat_of_ascii c in
  if (48 <=? n)%nat && (n <=? 57)%nat then Some (n - 48)%nat
  else if (65 <=? n)%nat && (n <=? 70)%nat then Some (n - 55)%nat
  else if (97 <=? n)%nat && (n <=? 102)%nat then Some (n - 87)%nat
  else None.

(** The characters [encodeURIComponent] keeps. *)
Definition uri_unreserved (c : ascii) : bool :=
  let n := nat_of_ascii c in
  ((48 <=? n)%nat && (n <=? 57)%nat) || ((65 <=? n)%nat && (n <=? 90)%nat) ||
  ((97 <=? n)%nat && (n <=? 122)%nat) || bool_decide (c ∈ js "-_.!~*'()").

(** The UTF-8 bytes of a code unit below 256. *)
Definition utf8_bytes (c : ascii) : list nat :=
  let n := nat_of_ascii c in
  if (n <? 128)%nat then [n] else [192 + n / 64; 128 + n mod 64]%nat.

Definition percent (b : nat) : JsString := ["%"%char; hex_char (b / 16); hex_char (b mod 16)].

Definition encodeURIComponent (s : JsString) : JsString :=
  List.flat_map (fun c => if uri_unreserved c then [c] else List.flat_map percent (utf8_bytes c)) s.

(** A decoded text: code units copied as written and bytes of [%XX]
    escapes. *)
Inductive PctToken := Raw (c : ascii) | Byte (b : nat).

(** The escapes of a text.  [strict]: a [%] without two hexadecimal
    digits is a [URIError] ([decodeURIComponent]); otherwise it is kept
    as written (the form parser). *)
Fixpoint pct_tokens (strict : bool) (s : JsString) : option (list PctToken) :=
  match s with
  | [] => Some []
  | c :: s' =>
      if decide (c = "%"%char) then
        match s' with
        | h1 :: h2 :: s'' =>
            match hex_value h1, hex_value h2 with
            | Some a, Some b => cons (Byte (16 * a + b)) <$> pct_tokens strict s''
            | _, _ => if strict then None else cons (Raw c) <$> pct_tokens strict s'
            end
        | _ => if strict then None else cons (Raw c) <$> pct_tokens strict s'
        end
      else cons (Raw c) <$> pct_tokens strict s'
  end.

(** UTF-8 decoding of the bytes: one byte below 0x80, or a lead byte
    0xC2 or 0xC3 and a continuation byte (the code points up to
    U+00FF). *)
Fixpoint utf8_decode (ts : list PctToken) : option JsString :=
  match ts with
  | [] => Some []
  | Raw c :: ts' => cons c <$> utf8_decode ts'
  | Byte b :: ts' =>
      if (b <? 128)%nat then cons (ascii_of_nat b) <$> utf8_decode ts'
      else if (194 <=? b)%nat && (b <=? 195)%nat then
        match ts' with
        | Byte b2 :: ts'' =>
            if (128 <=? b2)%nat && (b2 <=? 191)%nat
            then cons (ascii_of_nat ((b - 192) * 64 + (b2 - 128))) <$> utf8_decode ts''
            else None
        | _ => None
        end
      else None
  end.

Definition decodeURIComponent (s : JsString) : option JsString :=
  ts ← pct_tokens true s; utf8_decode ts.

(** ** [URLSearchParams] *)

(** The text before the first [sep] and the text after it. *)
Fixpoint split_first (sep : ascii) (s : JsString) : option (JsString * JsString) :=
  match s with
  | [] => None
  | c :: s' =>
      if decide (c = sep) then Some ([], s')
      else '(a, b) ← split_first sep s'; Some (c :: a, b)
  end.

Definition plus_to_space (c : ascii) : ascii := if decide (c = "+"%char) then " "%char else c.

(** Name and value of the form parser: [+] is a space, then
    percent-decoding. *)
Definition form_decode (s : JsString) : option JsString :=
  ts ← pct_tokens false (map plus_to_space s); utf8_decode ts.

Definition parse_piece (p : JsString) : option (JsString * JsString) :=
  let '(n, v) := default (p, []) (split_first "="%char p) in
  n' ← form_decode n; v' ← form_decode v; Some (n', v').

(** [new URLSearchParams(queryString)]: a leading [?] is dropped, empty
    pieces between [&]s are skipped. *)
Definition URLSearchParams (q : JsString) : option (list (JsString * JsString)) :=
  let q' := match q with c :: r => if decide (c = "?"%char) then r else q | [] => [] end in
  mapM parse_piece (filter (fun p => p <> []) (js_split "&"%char q')).

(** [params.get(name)]: the first value, or [null]. *)
Definition params_get (ps : list (JsString * JsString)) (name : JsString) : option JsString :=
  snd <$> List.find (fun p => bool_decide (p.1 = name)) ps.

(** [location.search] of a URL: the query before the fragment, with its
    [?], or the empty text for an absent or empty query. *)
Definition url_search (href : JsString) : JsString :=
  let noFragment := match split_first "#"%char href with Some (a, _) => a | None => href end in
  match split_first "?"%char noFragment with
  | Some (_, []) | None => []
  | Some (_, q) => "?"%char :: q
  end.

(** ** Lemmas on the codecs *)

Lemma hex_value_char (d : nat) : (d < 16)%nat -> hex_value (hex_char d) = Some d.
Proof.
  intros Hd. do 16 (destruct d as [|d]; [reflexivity|]). lia.
Qed.

(** One escape [%XX] reads back as its byte. *)
Lemma pct_tokens_percent (strict : bool) (b : nat) (rest : JsString) :
  (b < 256)%nat ->
  pct_tokens strict (percent b ++ rest) = cons (Byte b) <$> pct_tokens strict rest.
Proof.
  intros Hb. unfold percent. cbn [app pct_tokens]. rewrite decide_True by done.
  rewrite !hex_value_char by (first [apply Nat.mod_upper_bound; lia | apply Nat.Div0.div_lt_upper_bound; lia]).
  do 3 f_equal. pose proof (Nat.div_mod_eq b 16). lia.
Qed.

(** The tokens of an encoded character. *)
Definition enc_tokens (c : ascii) : list PctToken :=
  if uri_unreserved c then [Raw c] else map Byte (utf8_bytes c).

Lemma unreserved_not_pct (c : ascii) : uri_unreserved c = true -> c <> "%"%char /\ c <> "+"%char.
Proof. intros H. split; intros ->; vm_compute in H; discriminate. Qed.

Lemma utf8_bytes_lt (c : ascii) : Forall (fun b => b < 256)%nat (utf8_bytes c).
Proof.
  pose proof (nat_ascii_bounded c) as Hc. unfold utf8_bytes.
  destruct (nat_of_ascii c <? 128)%nat; [constructor; [lia|constructor]|].
  constructor; [|constructor; [|constructor]].
  - assert (nat_of_ascii c / 64 < 4)%nat by (apply Nat.Div0.div_lt_upper_bound; lia). lia.
  - pose proof (Nat.mod_upper_bound (nat_of_ascii c) 64). lia.
Qed.

Lemma pct_tokens_encode (strict : bool) (e : JsString) :
  pct_tokens strict (encodeURIComponent e) = Some (List.flat_map enc_tokens e).
Proof.
  induction e as [|c e IH]; [done|]. cbn [encodeURIComponent List.flat_map].
  unfold enc_tokens. destruct (uri_unreserved c) eqn:Hu.
  - destruct (unreserved_not_pct c Hu). cbn. rewrite decide_False by done.
    fold (encodeURIComponent e). by rewrite IH.
  - fold (encodeURIComponent e). pose proof (utf8_bytes_lt c) as Hlt.
    induction Hlt as [|b bs Hb _ IHb]; cbn [List.flat_map map app]; [by rewrite IH|].
    rewrite <- app_assoc, pct_tokens_percent by done. by rewrite IHb.
Qed.

Lemma utf8_decode_encode (e : JsString) (ts : list PctToken) :
  utf8_decode (List.flat_map enc_tokens e ++ ts) = app e <$> utf8_decode ts.
Proof.
  induction e as [|c e IH]; cbn [List.flat_map app]; [by destruct (utf8_decode ts)|].
  rewrite <- app_assoc. pose proof (nat_ascii_bounded c) as Hc.
  unfold enc_tokens at 1. destruct (uri_unreserved c).
  { cbn [app utf8_decode]. rewrite IH. by destruct (utf8_decode ts). }
  unfold utf8_bytes. destruct (nat_of_ascii c <? 128)%nat eqn:Hlt; cbn [map app utf8_decode].
  - rewrite Hlt, ascii_nat_embedding, IH. by destruct (utf8_decode ts).
  - apply Nat.ltb_ge in Hlt.
    assert (Hq : (nat_of_ascii c / 64 = 2 \/ nat_of_ascii c / 64 = 3)%nat).
    { pose proof (Nat.div_mod_eq (nat_of_ascii c) 64). pose proof (Nat.mod_upper_bound (nat_of_ascii c) 64).
      lia. }
    pose proof (Nat.mod_upper_bound (nat_of_ascii c) 64).
    replace ((192 + nat_of_ascii c / 64 <? 128))%nat with false by (symmetry; apply Nat.ltb_ge; lia).
    replace ((194 <=? 192 + nat_of_ascii c / 64) && (192 + nat_of_ascii c / 64 <=? 195))%nat with true
      by (symmetry; apply andb_true_iff; split; apply Nat.leb_le; lia).
    replace ((128 <=? 128 + nat_of_ascii c mod 64) && (128 + nat_of_ascii c mod 64 <=? 191))%nat with true
      by (symmetry; apply andb_true_iff; split; apply Nat.leb_le; lia).
    replace ((192 + nat_of_ascii c / 64 - 192) * 64 + (128 + nat_of_ascii c mod 64 - 128))%nat
      with (nat_of_ascii c) by (pose proof (Nat.div_mod_eq (nat_of_ascii c) 64); lia).
    rewrite ascii_nat_embedding, IH. by destruct (utf8_decode ts).
Qed.

Lemma hex_char_unreserved (d : nat) : (d < 16)%nat -> uri_unreserved (hex_char d) = true.
Proof. intros Hd. do 16 (destruct d as [|d]; [reflexivity|]). lia. Qed.

Lemma percent_chars (b : nat) (c : ascii) :
  (b < 256)%nat -> c ∈ percent b -> uri_unreserved c = true \/ c = "%"%char.
Proof.
  intros Hb. unfold percent. rewrite !elem_of_cons, elem_of_nil.
  assert (Hd : (b / 16 < 16)%nat) by (apply Nat.Div0.div_lt_upper_bound; lia).
  assert (Hm : (b mod 16 < 16)%nat) by (apply Nat.mod_upper_bound; lia).
  intros [->|[->|[->|[]]]]; [by right|left; by apply hex_char_unreserved..].
Qed.

(** [encodeURIComponent] writes only unreserved characters and [%]. *)
Lemma encode_chars (e : JsString) (c : ascii) :
  c ∈ encodeURIComponent e -> uri_unreserved c = true \/ c = "%"%char.
Proof.
  induction e as [|a e IH]; [set_solver|]. cbn [encodeURIComponent List.flat_map].
  fold (encodeURIComponent e). rewrite elem_of_app. intros [H|H]; [|by apply IH].
  destruct (uri_unreserved a) eqn:Hu; [apply list_elem_of_singleton in H; subst; by left|].
  pose proof (utf8_bytes_lt a) as Hlt. induction Hlt as [|b bs Hb _ IHb]; cbn [List.flat_map] in H;
    [set_solver|].
  rewrite elem_of_app in H. destruct H as [H|H]; [by apply (percent_chars b)|by apply IHb].
Qed.

Lemma encode_not_in (e : JsString) (c : ascii) :
  uri_unreserved c = false -> c <> "%"%char -> c ∉ encodeURIComponent e.
Proof. intros Hu Hp Hc. destruct (encode_chars e c Hc); congruence. Qed.

Lemma encode_no_plus (e : JsString) : "+"%char ∉ encodeURIComponent e.
Proof. by apply encode_not_in. Qed.

Lemma map_plus_to_space_id (s : JsString) : "+"%char ∉ s -> map plus_to_space s = s.
Proof.
  induction s as [|c s IH]; intros Hs; [done|]. rewrite elem_of_cons in Hs. simpl.
  unfold plus_to_space at 1. rewrite decide_False by (intros ->; apply Hs; by left).
  rewrite IH; [done|]. intros Hin. apply Hs. by right.
Qed.

Lemma utf8_decode_flat (e : JsString) : utf8_decode (List.flat_map enc_tokens e) = Some e.
Proof.
  rewrite <- (app_nil_r (List.flat_map enc_tokens e)), utf8_decode_encode. simpl. by rewrite app_nil_r.
Qed.

(** [URLSearchParams] decodes what [encodeURIComponent] encoded. *)
Lemma form_decode_encode (e : JsString) : form_decode (encodeURIComponent e) = Some e.
Proof.
  unfold form_decode. rewrite map_plus_to_space_id by apply encode_no_plus.
  rewrite pct_tokens_encode. apply utf8_decode_flat.
Qed.

(** [decodeURIComponent] copies a text without [%]. *)
Lemma decodeURIComponent_no_pct (s : JsString) :
  "%"%char ∉ s -> decodeURIComponent s = Some s.
Proof.
  unfold decodeURIComponent. intros Hs.
  assert (pct_tokens true s = Some (map Raw s)) as ->.
  { induction s as [|c s IH]; [done|]. rewrite elem_of_cons in Hs. cbn [pct_tokens].
    rewrite decide_False by (intros ->; apply Hs; by left). rewrite IH; [done|].
    intros Hin. apply Hs. by right. }
  simpl. induction s as [|c s IH]; [done|]. simpl. rewrite IH; [done|]. set_solver.
Qed.

End Url.

Module ShareButton.
Import Url.

(** ** The link *)

(** [[^&]*]: the text up to the first [&] or the end, and the rest. *)
Fixpoint span_not_amp (s : JsString) : JsString * JsString :=
  match s with
  | [] => ([], [])
  | c :: s' =>
      if decide (c = "&"%char) then ([], s) else let '(a, b) := span_not_amp s' in (c :: a, b)
  end.

(** [/([&?])code=[^&]*(&|$)/] at the start of [s]: the separator that
    ['$1'] puts back and the text after the match ([&|$]: the [&] is
    part of the match, at the end [$] matches). *)
Definition code_param_at (s : JsString) : option (ascii * JsString) :=
  match s with
  | c :: s' =>
      if decide (c = "&"%char \/ c = "?"%char) then
        r ← strip_prefix (js "code=") s';
        Some (c, match (span_not_amp r).2 with _ :: rest => rest | [] => [] end)
      else None
  | [] => None
  end.

(** [targetUrl.replace(/([&?])code=[^&]*(&|$)/, '$1')]: the first match
    only (no [g] flag). *)
Fixpoint remove_code_param (s : JsString) : JsString :=
  match s with
  | [] => []
  | c :: s' =>
      match code_param_at s with
      | Some (sep, rest) => sep :: rest
      | None => c :: remove_code_param s'
      end
  end.

(** The URL [handleClick] sends to the shortener, for the page's [href]
    and the parameter value [encodeURIComponent(encodedCodeStr)]. *)
Definition share_url (href codeParamValue : JsString) : JsString :=
  let targetUrl := if js_includes href (js "code=") then remove_code_param href else href in
  if js_includes targetUrl (js "?")
  then targetUrl ++ js "&code=" ++ codeParamValue
  else targetUrl ++ js "?code=" ++ codeParamValue.

(** The effect of [useCodeLoader] on the page [href]: [Some None] when
    there is no [code] parameter, [Some (Some t)] for the text [t] it
    passes to [decode], [None] when [decodeURIComponent] throws. *)
Definition codeLoader_param (href : JsString) : option (option JsString) :=
  ps ← URLSearchParams (url_search href);
  match params_get ps (js "code") with
  | None => Some None
  | Some encodedCode => Some <$> decodeURIComponent encodedCode
  end.

(** ** Pages and their query *)

(** A piece of a query: not empty, without the separators of a URL. *)
Definition piece_ok (p : JsString) : Prop :=
  p <> [] /\ "&"%char ∉ p /\ "?"%char ∉ p /\ "#"%char ∉ p.

(** The URL up to its query, without [&], [?] or [#]. *)
Definition base_ok (base : JsString) : Prop :=
  "&"%char ∉ base /\ "?"%char ∉ base /\ "#"%char ∉ base.

#[export] Instance piece_ok_dec (p : JsString) : Decision (piece_ok p).
Proof. unfold piece_ok. apply _. Defined.
#[export] Instance base_ok_dec (base : JsString) : Decision (base_ok base).
Proof. unfold base_ok. apply _. Defined.

(** The page [base?p1&...&pn] (just [base] without pieces). *)
Definition page_url (base : JsString) (pieces : list JsString) : JsString :=
  match pieces with [] => base | _ => base ++ "?"%char :: js_join "&"%char pieces end.

(** The [code] piece of the page, if it has one. *)
Definition old_piece (old : option JsString) : list JsString :=
  match old with Some v => [js "code=" ++ v] | None => [] end.

(** The non-empty pieces between the [&]s. *)
Definition pieces (q : JsString) : list JsString := filter (fun p => p <> []) (js_split "&"%char q).

(** ** The button *)

(** The icon elements [Button] draws: [ShareIcon] (the only icon of the
    repository, [src/src/icons/share-icon]), the spinner and the copy
    mark, and any other element a caller passes as [icon], known by
    the [data-testid] it renders. *)
Inductive Icon := ShareIcon | SpinnerIcon | CopySuccessIcon | IconElement (testId : JsString).

(** [ButtonIconPlacement] (the [enums] file is not among the sources):
    [Left], [Right], and any other value a caller casts to it, as the
    tests do with [-1]. *)
Inductive ButtonIconPlacement := PlacementLeft | PlacementRight | PlacementOther.

(** What [Button] draws: an icon before the label, the label, an icon
    after it. *)
Record Content := mkContent {
  icon_left : option Icon; content_label : JsString; icon_right : option Icon }.

(** [drawLabelWithIcon(targetLabel, targetIcon)]: the test is on the
    [icon] prop, not on [targetIcon]; a placement other than [Left] and
    [Right] takes the [default] branch. *)
Definition drawLabelWithIcon (icon : option Icon) (iconPlacement : ButtonIconPlacement)
    (targetLabel : JsString) (targetIcon : option Icon) : Content :=
  match icon with
  | None => mkContent None targetLabel None
  | Some _ =>
      match iconPlacement with
      | PlacementLeft => mkContent targetIcon targetLabel None
      | PlacementRight => mkContent None targetLabel targetIcon
      | PlacementOther => mkContent None targetLabel None
      end
  end.

(** [drawButtonContent()]. *)
Definition drawButtonContent (label : JsString) (icon : option Icon) (iconPlacement : ButtonIconPlacement)
    (isLoading isCopied : bool) : Content :=
  if isLoading then drawLabelWithIcon icon iconPlacement [] (Some SpinnerIcon)
  else if isCopied then drawLabelWithIcon icon iconPlacement (js "Copied!") (Some CopySuccessIcon)
  else drawLabelWithIcon icon iconPlacement label icon.

(** [ButtonProps]; [None] is a prop left [undefined].  [onClick] is the
    event the caller handles and is not part of what is drawn. *)
Record ButtonProps := mkButtonProps {
  bp_label : JsString;
  bp_icon : option Icon;
  bp_iconPlacement : option ButtonIconPlacement;
  bp_isLoading : option bool;
  bp_isCopied : option bool;
  bp_testId : option JsString }.

(** What [Button] renders: the [data-testid] of the [<button>] and its
    content. *)
Record Rendered := mkRendered { r_testId : JsString; r_content : Content }.

(** [Button] with [Button.defaultProps]: React puts the default in
    place of every prop that is [undefined]. *)
Definition Button (p : ButtonProps) : Rendered :=
  mkRendered (default (js "ti-button") (bp_testId p))
    (drawButtonContent (bp_label p) (bp_icon p) (default PlacementLeft (bp_iconPlacement p))
       (default false (bp_isLoading p)) (default false (bp_isCopied p))).

(** The [data-testid] an icon element renders: [ShareIcon]'s default
    [testId] is [defaultIconSharedProps.testId]; the spinner and the
    copy mark get theirs from [drawButtonContent]. *)
Definition icon_testId (i : Icon) : JsString :=
  match i with
  | ShareIcon => js "ti-icon"
  | SpinnerIcon => js "ti-button-spinner-icon"
  | CopySuccessIcon => js "ti-button-copy-success-icon"
  | IconElement t => t
  end.

(** The [data-testid]s of the rendered button in document order: the
    button, the content wrapper, the left icon wrapper and its icon, the
    label wrapper, the right icon wrapper and its icon. *)
Definition testids (r : Rendered) : list JsString :=
  let t := r_testId r in
  let c := r_content r in
  [t; t ++ js "--btn-content"] ++
  match icon_left c with Some i => [t ++ js "--btn-icon-left"; icon_testId i] | None => [] end ++
  [t ++ js "--btn-label"] ++
  match icon_right c with Some i => [t ++ js "--btn-icon-right"; icon_testId i] | None => [] end.

(** ** [handleClick] *)

(** A suspended call of [handleClick]: waiting for the shortener's
    answer to [targetUrl], or for the clipboard to take the short URL. *)
Inductive Pending :=
| AwaitShorten (targetUrl : JsString)
| AwaitClipboard (shortUrl : JsString).

Record State := mkState {
  isLoading : bool;
  isCopied : bool;
  pending : list Pending;        (* the suspended calls, in the order of the clicks *)
  requests : list JsString;      (* the URLs sent to the shortener *)
  clipboard : option JsString;
  timers : list Z;               (* deadlines of [setTimeout(() => setIsCopied(false), 1000)] *)
  now : Z
}.

Inductive Update := SetIsLoading (b : bool) | SetIsCopied (b : bool).

Definition apply_update (s : State) (u : Update) : State :=
  let '(mkState l c p r cb ts t) := s in
  match u with
  | SetIsLoading b => mkState b c p r cb ts t
  | SetIsCopied b => mkState l b p r cb ts t
  end.

(** The updates of one task, batched; the effect on [[isCopied]] runs
    after the render when [isCopied] changed and arms a timer it never
    clears. *)
Definition commit (s : State) (us : list Update) : State :=
  let s' := fold_left apply_update us s in
  if bool_decide (isCopied s' = isCopied s) then s'
  else let '(mkState l c p r cb ts t) := s' in mkState l c p r cb (ts ++ [t + 1000]) t.

Definition set_pending (s : State) (p : list Pending) : State :=
  let '(mkState l c _ r cb ts t) := s in mkState l c p r cb ts t.

Section Click.

(** [encode] of [useEncoding]: gzip and base64 are libraries. *)
Variable encode : JsString -> JsString.

Inductive Event :=
| Click (href code : JsString)             (* a click, on the page [href], for the text [code] *)
| Shortened (k : nat) (answer : option JsString)  (* the shortener answers the [k]-th call, or rejects *)
| Copied (k : nat) (ok : bool)             (* the clipboard takes the text, or rejects *)
| Timeout.                                 (* the earliest timer fires *)

(** The click runs [handleClick] up to its first [await]: [setIsLoading(true)]
    and the request. *)
Definition click (s : State) (href code : JsString) : State :=
  let targetUrl := share_url href (encodeURIComponent (encode code)) in
  let s1 := commit s [SetIsLoading true] in
  let '(mkState l c p r cb ts t) := s1 in
  mkState l c (p ++ [AwaitShorten targetUrl]) (r ++ [targetUrl]) cb ts t.

Definition step (s : State) (ev : Event) : State :=
  match ev with
  | Click href code => click s href code
  | Shortened k answer =>
      match pending s !! k with
      | Some (AwaitShorten _) =>
          match answer with
          | Some shortUrl => set_pending s (<[k := AwaitClipboard shortUrl]> (pending s))
          | None => set_pending s (delete k (pending s))     (* the call rejects: it stops here *)
          end
      | _ => s
      end
  | Copied k ok =>
      match pending s !! k with
      | Some (AwaitClipboard shortUrl) =>
          let s1 := set_pending s (delete k (pending s)) in
          if ok then
            let '(mkState l c p r _ ts t) := s1 in
            commit (mkState l c p r (Some shortUrl) ts t) [SetIsLoading false; SetIsCopied true]
          else s1
      | _ => s
      end
  | Timeout =>
      match timers s with
      | [] => s
      | d :: ts =>
          let '(mkState l c p r cb _ t) := s in
          commit (mkState l c p r cb ts (Z.max t d)) [SetIsCopied false]
      end
  end.

Definition run (s : State) (evs : list Event) : State := fold_left step evs s.

End Click.

(** The props [ShareButton] passes to [Button]. *)
Definition shareButton_props (s : State) : ButtonProps :=
  mkButtonProps (js "Share") (Some ShareIcon) None (Some (isLoading s)) (Some (isCopied s))
    (Some (js "ti-share-button")).

(** The content of the button [ShareButton] renders. *)
Definition shareButton_content (s : State) : Content := r_content (Button (shareButton_props s)).

(** The first render: the effect on [[isCopied]] arms its first timer. *)
Definition mount : State := mkState false false [] [] None [1000] 0.

(** ** Lemmas on the link *)

Lemma remove_code_param_plain (x y : JsString) :
  "&"%char ∉ x -> "?"%char ∉ x -> remove_code_param (x ++ y) = x ++ remove_code_param y.
Proof.
  induction x as [|c x IH]; intros Ha Hq; [done|]. rewrite elem_of_cons in Ha, Hq. simpl.
  rewrite decide_False by (intros [->| ->]; [apply Ha|apply Hq]; by left).
  rewrite IH; [done|..]; intros Hin; [apply Ha|apply Hq]; by right.
Qed.

Lemma parse_piece_code_eq (k : JsString) :
  parse_piece (js "code=" ++ k) = (fun v => (js "code", v)) <$> form_decode k.
Proof.
  unfold parse_piece. replace (split_first "=" (js "code=" ++ k)) with (Some (js "code", k)) by done.
  cbn -[form_decode]. replace (form_decode (js "code")) with (Some (js "code")) by done.
  cbn -[form_decode]. by destruct (form_decode k).
Qed.

Lemma parse_piece_code (k : JsString) (kv : JsString * JsString) :
  parse_piece (js "code=" ++ k) = Some kv -> kv.1 = js "code".
Proof. rewrite parse_piece_code_eq. destruct (form_decode k); simpl; [by intros [= <-]|done]. Qed.

(** A piece whose name is not [code] does not start a match, whether
    the next [&] or the end follows it. *)
Lemma strip_code_piece (p r : JsString) (kv : JsString * JsString) :
  parse_piece p = Some kv -> kv.1 <> js "code" -> r = [] \/ head r = Some "&"%char ->
  strip_prefix (js "code=") (p ++ r) = None.
Proof.
  intros Hp Hn Hr. destruct (strip_prefix (js "code=") (p ++ r)) as [x|] eqn:Hs; [|done].
  exfalso. apply strip_prefix_spec in Hs. apply app_eq_app in Hs as [k [[Hk Hrk]|[Hk Hrk]]].
  - subst p. by apply parse_piece_code in Hp.
  - destruct k as [|a k].
    + rewrite app_nil_r in Hk. rewrite <- Hk, <- (app_nil_r (js "code=")) in Hp.
      by apply parse_piece_code in Hp.
    + destruct Hr as [Hr|Hr]; subst r; [discriminate|]. simpl in Hr. injection Hr as ->.
      assert (Hin : "&"%char ∈ js "code=") by (rewrite Hk; set_solver). vm_compute in Hin. set_solver.
Qed.

Lemma remove_code_param_skip (sep : ascii) (p r : JsString) (kv : JsString * JsString) :
  sep = "&"%char \/ sep = "?"%char -> piece_ok p -> parse_piece p = Some kv -> kv.1 <> js "code" ->
  r = [] \/ head r = Some "&"%char ->
  remove_code_param (sep :: p ++ r) = sep :: p ++ remove_code_param r.
Proof.
  intros Hsep (_ & Ha & Hq & _) Hp Hn Hr. cbn [remove_code_param code_param_at].
  rewrite decide_True by done. rewrite (strip_code_piece p r kv) by done. simpl.
  by rewrite remove_code_param_plain.
Qed.

(** The pieces [A] of a query, each with a name other than [code]. *)
Definition pieces_named_ok (A : list JsString) : Prop :=
  Forall (fun p => piece_ok p /\ exists kv, parse_piece p = Some kv /\ kv.1 <> js "code") A.

Lemma remove_code_param_join (sep : ascii) (A : list JsString) (R : JsString) :
  sep = "&"%char \/ sep = "?"%char -> A <> [] -> pieces_named_ok A -> R = [] \/ head R = Some "&"%char ->
  remove_code_param (sep :: js_join "&"%char A ++ R) = sep :: js_join "&"%char A ++ remove_code_param R.
Proof.
  revert sep. induction A as [|a A IH]; intros sep Hsep HA Hok HR; [done|].
  inversion Hok as [|? ? (Hp & kv & Hkv & Hn) HA']; subst.
  destruct A as [|a' A].
  - by apply (remove_code_param_skip sep a R kv).
  - change (js_join "&"%char (a :: a' :: A)) with (a ++ "&"%char :: js_join "&"%char (a' :: A)).
    rewrite <- !app_assoc. cbn [app].
    rewrite (remove_code_param_skip sep a _ kv) by (done || by right).
    rewrite (IH "&"%char); [done|by left|done|done|done].
Qed.

Lemma span_not_amp_app (v r : JsString) :
  "&"%char ∉ v -> r = [] \/ head r = Some "&"%char -> span_not_amp (v ++ r) = (v, r).
Proof.
  intros Hv Hr. induction v as [|c v IH]; simpl.
  - destruct Hr as [->|Hr]; [done|]. destruct r as [|a r]; [done|]. injection Hr as ->.
    simpl. by try rewrite decide_True.
  - rewrite elem_of_cons in Hv. rewrite decide_False by (intros ->; apply Hv; by left).
    rewrite IH; [done|]. intros Hin. apply Hv. by right.
Qed.

(** The match removes [code=v] and the [&] after it. *)
Lemma remove_code_param_hit (sep : ascii) (v r : JsString) :
  sep = "&"%char \/ sep = "?"%char -> "&"%char ∉ v -> r = [] \/ head r = Some "&"%char ->
  remove_code_param (sep :: js "code=" ++ v ++ r) = sep :: tail r.
Proof.
  intros Hsep Hv Hr. cbn [remove_code_param code_param_at]. rewrite decide_True by done.
  rewrite strip_prefix_app. simpl. rewrite span_not_amp_app by done. by destruct r.
Qed.

Lemma filter_nonempty_id (ps : list JsString) : Forall piece_ok ps -> filter (fun p => p <> []) ps = ps.
Proof.
  induction 1 as [|p ps (Hp & _) _ IH]; [done|]. rewrite filter_cons_True by done. by rewrite IH.
Qed.

Lemma pieces_join (ps : list JsString) : Forall piece_ok ps -> pieces (js_join "&"%char ps) = ps.
Proof.
  intros Hps. destruct ps as [|p ps]; [done|]. unfold pieces. rewrite js_split_join.
  - by apply filter_nonempty_id.
  - done.
  - eapply Forall_impl; [exact Hps|]. by intros q (_ & ? & _).
Qed.

Lemma pieces_app (x y : JsString) : pieces (x ++ "&"%char :: y) = pieces x ++ pieces y.
Proof. unfold pieces. by rewrite js_split_app_sep, filter_app. Qed.

Lemma join_not_in (c sep : ascii) (ps : list JsString) :
  c <> sep -> Forall (fun p => c ∉ p) ps -> c ∉ js_join sep ps.
Proof.
  intros Hc. induction 1 as [|p ps Hp _ IH]; [set_solver|].
  destruct ps as [|p' ps]; [done|]. change (js_join sep (p :: p' :: ps)) with (p ++ sep :: js_join sep (p' :: ps)).
  rewrite elem_of_app, elem_of_cons. intros [H|[H|H]]; [done|congruence|done].
Qed.

Lemma js_join_app (A C : list JsString) :
  A <> [] -> C <> [] -> js_join "&"%char (A ++ C) = js_join "&"%char A ++ "&"%char :: js_join "&"%char C.
Proof.
  induction A as [|a A IH]; intros HA HC; [done|]. destruct A as [|a' A].
  - simpl. by destruct C.
  - change ((a :: a' :: A) ++ C) with (a :: (a' :: A) ++ C).
    change (js_join "&"%char (a :: (a' :: A) ++ C)) with (a ++ "&"%char :: js_join "&"%char ((a' :: A) ++ C)).
    rewrite IH by done. simpl. by rewrite <- app_assoc.
Qed.

Lemma pieces_named_ok_pieces (A : list JsString) : pieces_named_ok A -> Forall piece_ok A.
Proof. intros H. eapply Forall_impl; [exact H|]. by intros p [? _]. Qed.

Lemma pieces_named_ok_no (c : ascii) (A : list JsString) :
  c = "#"%char \/ c = "&"%char -> pieces_named_ok A -> Forall (fun p => c ∉ p) A.
Proof.
  intros Hc H. eapply Forall_impl; [exact H|]. intros p [(_ & Ha & _ & Hh) _].
  by destruct Hc as [->| ->].
Qed.

(** The text after the [code] piece, from its [&] on. *)
Definition rest_after (B : list JsString) : JsString :=
  match B with [] => [] | _ => "&"%char :: js_join "&"%char B end.

Lemma rest_after_spec (B : list JsString) :
  pieces_named_ok B ->
  (rest_after B = [] \/ head (rest_after B) = Some "&"%char) /\
  pieces (tail (rest_after B)) = B /\ "#"%char ∉ tail (rest_after B).
Proof.
  intros HB. destruct B as [|b B]; [split; [by left|split; [done|set_solver]]|].
  split; [by right|]. cbn [rest_after tail]. split.
  - by apply pieces_join, pieces_named_ok_pieces.
  - apply join_not_in; [done|]. apply pieces_named_ok_no; [by left|done].
Qed.

(** Removing the [code] piece of a page leaves the other pieces. *)
Lemma remove_code_param_page (base v : JsString) (A B : list JsString) :
  base_ok base -> pieces_named_ok A -> pieces_named_ok B -> piece_ok (js "code=" ++ v) ->
  exists Y, remove_code_param (page_url base (A ++ [js "code=" ++ v] ++ B)) = base ++ "?"%char :: Y /\
    pieces Y = A ++ B /\ "#"%char ∉ Y.
Proof.
  intros (Hba & Hbq & Hbh) HA HB (_ & Hva & _ & Hvh).
  assert (Hv : "&"%char ∉ v) by (intros Hin; apply Hva; set_solver).
  destruct (rest_after_spec B HB) as (HR & HRp & HRh).
  assert (HJ : js_join "&"%char ([js "code=" ++ v] ++ B) = js "code=" ++ v ++ rest_after B)
    by (destruct B; simpl; [by rewrite !app_nil_r|done]).
  assert (Hne : A ++ [js "code=" ++ v] ++ B <> []) by (destruct A; discriminate).
  unfold page_url. destruct (A ++ [js "code=" ++ v] ++ B) as [|x xs] eqn:E; [done|]. rewrite <- E.
  rewrite remove_code_param_plain by done. destruct A as [|a A].
  - exists (tail (rest_after B)). rewrite app_nil_l, HJ, remove_code_param_hit by (done || by right).
    split; [done|]. by split.
  - exists (js_join "&"%char (a :: A) ++ "&"%char :: tail (rest_after B)).
    rewrite js_join_app, HJ by (done || by destruct B).
    rewrite (remove_code_param_join "?"%char), (remove_code_param_hit "&"%char)
      by first [done | by left | by right].
    split; [done|]. split.
    + rewrite pieces_app, pieces_join, HRp; [done|]. by apply pieces_named_ok_pieces.
    + rewrite elem_of_app, elem_of_cons. intros [H|[H|H]]; [|done|done].
      revert H. apply join_not_in; [done|]. apply pieces_named_ok_no; [by left|done].
Qed.

(** A page without a [code] piece has nothing to remove. *)
Lemma remove_code_param_page_none (base : JsString) (A : list JsString) :
  base_ok base -> pieces_named_ok A -> remove_code_param (page_url base A) = page_url base A.
Proof.
  intros (Hba & Hbq & _) HA. unfold page_url. destruct A as [|a A].
  - rewrite <- (app_nil_r base) at 1. rewrite remove_code_param_plain by done. by rewrite app_nil_r.
  - rewrite remove_code_param_plain by done. f_equal.
    transitivity (remove_code_param ("?"%char :: js_join "&"%char (a :: A) ++ [])); [by rewrite app_nil_r|].
    rewrite remove_code_param_join; [by rewrite app_nil_r|by right|done|done|by left].
Qed.

(** Without [code=] in the URL the regular expression has no match. *)
Lemma remove_code_param_no_code (s : JsString) :
  js_includes s (js "code=") = false -> remove_code_param s = s.
Proof.
  induction s as [|c s IH]; intros H; [done|]. cbn [js_includes] in H.
  apply orb_false_iff in H as [_ H]. cbn [remove_code_param code_param_at].
  destruct (decide (c = "&"%char \/ c = "?"%char)).
  - destruct (strip_prefix (js "code=") s) eqn:Hs.
    + apply strip_prefix_starts_with in Hs. by rewrite (js_includes_starts s) in Hs.
    + simpl. by rewrite IH.
  - by rewrite IH.
Qed.

(** The [if (targetUrl.includes('code='))] only saves work: the link is
    built from the URL with its first [code=] parameter removed. *)
Lemma share_url_eq (href cv : JsString) :
  share_url href cv =
  let targetUrl := remove_code_param href in
  if js_includes targetUrl (js "?") then targetUrl ++ js "&code=" ++ cv else targetUrl ++ js "?code=" ++ cv.
Proof.
  unfold share_url. destruct (js_includes href (js "code=")) eqn:E; [done|].
  by rewrite remove_code_param_no_code.
Qed.

Lemma split_first_none (c : ascii) (s : JsString) : c ∉ s -> split_first c s = None.
Proof.
  induction s as [|a s IH]; intros Hs; [done|]. rewrite elem_of_cons in Hs. simpl.
  rewrite decide_False by (intros ->; apply Hs; by left). rewrite IH; [done|]. intros Hin; apply Hs; by right.
Qed.

Lemma split_first_app (c : ascii) (x y : JsString) : c ∉ x -> split_first c (x ++ c :: y) = Some (x, y).
Proof.
  induction x as [|a x IH]; intros Hx; simpl; [by rewrite decide_True|]. rewrite elem_of_cons in Hx.
  rewrite decide_False by (intros ->; apply Hx; by left). rewrite IH; [done|]. intros Hin; apply Hx; by right.
Qed.

(** The query of [base?Z] as [URLSearchParams] sees it. *)
Lemma URLSearchParams_page (base Z : JsString) :
  base_ok base -> "#"%char ∉ Z -> Z <> [] ->
  URLSearchParams (url_search (base ++ "?"%char :: Z)) = mapM parse_piece (pieces Z).
Proof.
  intros (_ & Hq & Hh) HZ Hne. unfold url_search.
  rewrite (split_first_none "#"%char) by (rewrite elem_of_app, elem_of_cons; intros [H|[H|H]]; done).
  rewrite split_first_app by done. destruct Z as [|z Z]; [done|]. unfold URLSearchParams.
  by rewrite decide_True.
Qed.

Lemma params_get_last (ps : list (JsString * JsString)) (name v : JsString) :
  Forall (fun kv => kv.1 <> name) ps -> params_get (ps ++ [(name, v)]) name = Some v.
Proof.
  unfold params_get. induction 1 as [|kv ps Hkv _ IH]; simpl; [by rewrite bool_decide_true|].
  by rewrite bool_decide_false.
Qed.

Lemma pieces_named_ok_of (L : list JsString) (ps : list (JsString * JsString)) :
  Forall piece_ok L -> mapM parse_piece L = Some ps -> Forall (fun kv => kv.1 <> js "code") ps ->
  pieces_named_ok L.
Proof.
  intros HL Hm Hn. apply mapM_Some in Hm. revert ps Hm Hn.
  induction HL as [|p L Hp _ IH]; intros ps Hm Hn; [constructor|].
  inversion Hm as [|? kv ? ps' Hkv Hm']; subst. inversion Hn; subst.
  constructor; [split; [done|by exists kv]|]. by apply (IH ps').
Qed.

(** The old page, whatever its [code] piece, becomes [base?Z] with the
    other pieces and the new one. *)
Lemma share_url_page (base : JsString) (A B : list JsString) (old : option JsString) (cv : JsString) :
  base_ok base -> pieces_named_ok (A ++ B) -> Forall piece_ok (old_piece old) ->
  "&"%char ∉ cv -> "#"%char ∉ cv ->
  exists Z, share_url (page_url base (A ++ old_piece old ++ B)) cv = base ++ "?"%char :: Z /\
    pieces Z = (A ++ B) ++ [js "code=" ++ cv] /\ "#"%char ∉ Z.
Proof.
  intros Hb HAB Hold Ha Hh. rewrite share_url_eq. apply Forall_app in HAB as [HA HB].
  assert (Hc : pieces (js "code=" ++ cv) = [js "code=" ++ cv]).
  { unfold pieces. rewrite js_split_without_sep by (rewrite elem_of_app; intros [H|H]; [vm_compute in H; set_solver|done]).
    by rewrite filter_cons_True. }
  assert (Hch : "#"%char ∉ js "code=" ++ cv) by (rewrite elem_of_app; intros [H|H]; [vm_compute in H; set_solver|done]).
  assert (HY : exists Y, remove_code_param (page_url base (A ++ old_piece old ++ B)) = base ++ "?"%char :: Y /\
                 pieces Y = A ++ B /\ "#"%char ∉ Y \/
               (A ++ B = [] /\ remove_code_param (page_url base (A ++ old_piece old ++ B)) = base)).
  { destruct old as [v|]; simpl.
    - inversion Hold as [|? ? Hv _]; subst.
      destruct (remove_code_param_page base v A B Hb HA HB Hv) as (Y & ? & ? & ?). exists Y. by left.
    - rewrite remove_code_param_page_none by (done || by apply Forall_app).
      destruct (A ++ B) as [|p L] eqn:E; [exists []; right; done|].
      exists (js_join "&"%char (p :: L)). left. split; [done|]. split.
      + apply pieces_join. rewrite <- E. apply pieces_named_ok_pieces. by apply Forall_app.
      + apply join_not_in; [done|]. rewrite <- E. apply pieces_named_ok_no; [by left|by apply Forall_app]. }
  change (js "?") with ["?"%char]. destruct HY as (Y & [(-> & HYp & HYh)|(HAB & ->)]).
  - cbn zeta. rewrite js_includes_single, bool_decide_true by set_solver.
    exists (Y ++ "&"%char :: js "code=" ++ cv). rewrite <- app_assoc. split; [done|].
    rewrite pieces_app, HYp, Hc. split; [done|]. set_solver.
  - destruct Hb as (Hba & Hbq & Hbh). cbn zeta. rewrite js_includes_single, bool_decide_false by done.
    exists (js "code=" ++ cv). split; [done|]. rewrite HAB, Hc. by split.
Qed.



(** ** Lemmas on [handleClick] *)

(** A click raises [isLoading] (no change of [isCopied], so no timer)
    and suspends the call on the request. *)
Lemma click_eq (encode : JsString -> JsString) (s : State) (href code : JsString) :
  click encode s href code =
  let targetUrl := share_url href (encodeURIComponent (encode code)) in
  mkState true (isCopied s) (pending s ++ [AwaitShorten targetUrl]) (requests s ++ [targetUrl])
    (clipboard s) (timers s) (now s).
Proof. destruct s. unfold click, commit. simpl. by rewrite bool_decide_true. Qed.

(** With no suspended call, only a click can clear the spinner. *)
Lemma step_no_pending (encode : JsString -> JsString) (s : State) (ev : Event) :
  pending s = [] -> isLoading s = true -> (forall h c, ev <> Click h c) ->
  pending (step encode s ev) = [] /\ isLoading (step encode s ev) = true.
Proof.
  intros Hp Hl Hev. destruct s as [l c p r cb ts t]; simpl in *; subst.
  destruct ev as [h c'|k a|k ok|]; [by destruct (Hev h c')|done|done|].
  destruct ts as [|d ts]; [done|]. simpl. unfold commit. simpl. by case_bool_decide.
Qed.

Lemma run_no_pending (encode : JsString -> JsString) (s : State) (evs : list Event) :
  pending s = [] -> isLoading s = true -> Forall (fun ev => forall h c, ev <> Click h c) evs ->
  pending (run encode s evs) = [] /\ isLoading (run encode s evs) = true.
Proof.
  intros Hp Hl Hevs. revert s Hp Hl. induction Hevs as [|ev evs Hev _ IH]; intros s Hp Hl; [done|].
  simpl. destruct (step_no_pending encode s ev Hp Hl Hev). by apply IH.
Qed.

(** The link the share button builds for the encoded text [e], on a
    page [base?p1&...] without a fragment whose other query parameters
    parse to [ps] and are not named [code], and with any old [code]
    parameter: it keeps the other parameters in order and adds [code];
    the code loader reads [e] back ([decodeURIComponent] after
    [URLSearchParams] is harmless because [e] has no [%]). *)
Lemma share_link_params (base : JsString) (A B : list JsString) (old : option JsString)
    (ps : list (JsString * JsString)) (e : JsString) :
  base_ok base -> Forall piece_ok (A ++ B) -> Forall piece_ok (old_piece old) ->
  mapM parse_piece (A ++ B) = Some ps -> Forall (fun kv => kv.1 <> js "code") ps ->
  "%"%char ∉ e ->
  let url := share_url (page_url base (A ++ old_piece old ++ B)) (encodeURIComponent e) in
  URLSearchParams (url_search url) = Some (ps ++ [(js "code", e)]) /\
  codeLoader_param url = Some (Some e).
Proof.
  intros Hb HAB Hold Hm Hn He url.
  assert (Hok : pieces_named_ok (A ++ B)) by by apply (pieces_named_ok_of _ ps).
  destruct (share_url_page base A B old (encodeURIComponent e) Hb Hok Hold) as (Z & HZ & HZp & HZh);
    [by apply encode_not_in..|].
  assert (Hq : URLSearchParams (url_search url) = Some (ps ++ [(js "code", e)])).
  { unfold url. rewrite HZ, URLSearchParams_page, HZp; [|done|done|].
    2: { intros ->. apply (f_equal List.length) in HZp. rewrite length_app in HZp. simpl in HZp. lia. }
    apply mapM_Some. apply Forall2_app; [by apply mapM_Some|]. constructor; [|constructor].
    by rewrite parse_piece_code_eq, form_decode_encode. }
  split; [done|]. unfold codeLoader_param. rewrite Hq. simpl.
  rewrite params_get_last by done. simpl. by rewrite decodeURIComponent_no_pct.
Qed.

(** ** Lemmas on [Button] *)

(** The label [drawButtonContent] shows: empty while loading,
    ["Copied!"] after a copy, the [label] prop otherwise. *)
Definition shown_label (label : JsString) (isLoading isCopied : bool) : JsString :=
  if isLoading then [] else if isCopied then js "Copied!" else label.

(** The icon [drawButtonContent] asks for. *)
Definition shown_icon (icon : option Icon) (isLoading isCopied : bool) : option Icon :=
  if isLoading then Some SpinnerIcon else if isCopied then Some CopySuccessIcon else icon.

Lemma drawButtonContent_eq (label : JsString) (icon : option Icon) (pl : ButtonIconPlacement)
    (l c : bool) :
  drawButtonContent label icon pl l c =
  drawLabelWithIcon icon pl (shown_label label l c) (shown_icon icon l c).
Proof. unfold drawButtonContent, shown_label, shown_icon. by destruct l, c. Qed.

(** ** Theorems on sharing *)

(** C29: on a page whose URL has a fragment and no query, the link puts
    the [code] parameter after the [#], inside the fragment, so the code
    loader of the shared page finds no [code] parameter and the shared
    text is not loaded. *)
Theorem share_link_fragment_loses_code (base frag e : JsString) :
  base_ok base -> "&"%char ∉ frag -> "?"%char ∉ frag ->
  codeLoader_param (share_url (base ++ "#"%char :: frag) (encodeURIComponent e)) = Some None.
Proof.
  intros (Hba & Hbq & Hbh) Hfa Hfq.
  assert (Ha : "&"%char ∉ base ++ "#"%char :: frag) by set_solver.
  assert (Hq : "?"%char ∉ base ++ "#"%char :: frag) by set_solver.
  assert (Hu : remove_code_param (base ++ "#"%char :: frag) = base ++ "#"%char :: frag).
  { rewrite <- (app_nil_r (base ++ "#"%char :: frag)) at 1.
    rewrite remove_code_param_plain by done. by rewrite app_nil_r. }
  rewrite share_url_eq. cbn zeta. rewrite Hu.
  change (js "?") with ["?"%char]. rewrite js_includes_single, bool_decide_false by done.
  replace ((base ++ "#"%char :: frag) ++ js "?code=" ++ encodeURIComponent e)
    with (base ++ "#"%char :: (frag ++ js "?code=" ++ encodeURIComponent e)) by (by rewrite <- app_assoc).
  unfold codeLoader_param, url_search. rewrite (split_first_app "#"%char) by done.
  by rewrite (split_first_none "?"%char).
Qed.

Example share_link_fragment_loses_code_witness :
  codeLoader_param (share_url (js "http://h/p" ++ "#"%char :: js "intro") (encodeURIComponent (js "H4sI")))
  = Some None.
Proof. apply share_link_fragment_loses_code; apply (bool_decide_unpack _); vm_compute; reflexivity. Defined.

(** C30: when the shortener request fails (network error, or a
    response that is not JSON), [handleClick] rejects before
    [setIsLoading(false)]: from a state with no call in flight, a click
    followed by the rejection leaves the button showing the spinner for
    ever, whatever happens next short of another click. *)
Theorem failed_share_spins_forever (encode : JsString -> JsString) (s : State) (href code : JsString)
    (evs : list Event) :
  pending s = [] -> Forall (fun ev => forall h c, ev <> Click h c) evs ->
  let s' := run encode (step encode (step encode s (Click href code)) (Shortened 0 None)) evs in
  isLoading s' = true /\ shareButton_content s' = mkContent (Some SpinnerIcon) [] None.
Proof.
  intros Hp Hevs s'.
  assert (H : pending (step encode (step encode s (Click href code)) (Shortened 0 None)) = [] /\
              isLoading (step encode (step encode s (Click href code)) (Shortened 0 None)) = true).
  { cbn [step]. rewrite click_eq. cbn. by rewrite Hp. }
  destruct H as [Hp' Hl']. destruct (run_no_pending encode _ evs Hp' Hl' Hevs) as [_ Hl].
  unfold shareButton_content, shareButton_props. fold s' in Hl. rewrite Hl. by split.
Qed.

Example failed_share_spins_forever_witness :
  let s' := run (fun t => t) (step (fun t => t) (step (fun t => t) mount (Click (js "http://h/") (js "MATCH")))
                                 (Shortened 0 None)) [Timeout; Copied 0 true; Shortened 0 (Some (js "u"))] in
  isLoading s' = true /\ shareButton_content s' = mkContent (Some SpinnerIcon) [] None.
Proof.
  apply failed_share_spins_forever; [done|].
  repeat constructor; intros h c; discriminate.
Defined.

(** A share that succeeds: the click shows the spinner and sends
    the link for the encoded text to the shortener; once the short URL is
    in the clipboard the button shows ["Copied!"] and a timer is armed
    for 1000 ms later; when it fires the button shows ["Share"] again. *)
Theorem successful_share (encode : JsString -> JsString) (s : State) (href code u : JsString) :
  pending s = [] -> isLoading s = false -> isCopied s = false -> timers s = [] ->
  let s1 := step encode s (Click href code) in
  let s2 := step encode (step encode s1 (Shortened 0 (Some u))) (Copied 0 true) in
  let s3 := step encode s2 Timeout in
  shareButton_content s1 = mkContent (Some SpinnerIcon) [] None /\
  requests s1 = requests s ++ [share_url href (encodeURIComponent (encode code))] /\
  clipboard s2 = Some u /\
  shareButton_content s2 = mkContent (Some CopySuccessIcon) (js "Copied!") None /\
  timers s2 = [now s + 1000] /\
  shareButton_content s3 = mkContent (Some ShareIcon) (js "Share") None.
Proof.
  intros Hp Hl Hc Ht. cbn [step]. rewrite click_eq.
  destruct s as [l c p r cb ts t]; simpl in *; subst. unfold commit. simpl. repeat split; lia.
Qed.

Example successful_share_witness :
  let s := step (fun t => t) mount Timeout in
  let s1 := step (fun t => t) s (Click (js "http://h/") (js "MATCH")) in
  let s2 := step (fun t => t) (step (fun t => t) s1 (Shortened 0 (Some (js "https://s/x")))) (Copied 0 true) in
  let s3 := step (fun t => t) s2 Timeout in
  shareButton_content s1 = mkContent (Some SpinnerIcon) [] None /\
  requests s1 = requests s ++ [share_url (js "http://h/") (encodeURIComponent (js "MATCH"))] /\
  clipboard s2 = Some (js "https://s/x") /\
  shareButton_content s2 = mkContent (Some CopySuccessIcon) (js "Copied!") None /\
  timers s2 = [now s + 1000] /\
  shareButton_content s3 = mkContent (Some ShareIcon) (js "Share") None.
Proof. apply successful_share; reflexivity. Defined.

(** ** Theorems on [Button] *)

(** Without an [icon] prop, [Button] draws no icon in any state: the
    loading spinner and the copy mark are asked for through
    [targetIcon], but [drawLabelWithIcon] tests [icon].  While loading
    the button shows an empty label and nothing else. *)
Theorem Button_without_icon_draws_no_icon (p : ButtonProps) :
  bp_icon p = None ->
  let t := default (js "ti-button") (bp_testId p) in
  testids (Button p) = [t; t ++ js "--btn-content"; t ++ js "--btn-label"] /\
  content_label (r_content (Button p)) =
    shown_label (bp_label p) (default false (bp_isLoading p)) (default false (bp_isCopied p)).
Proof. intros Hi t. unfold Button. rewrite drawButtonContent_eq, Hi. by split. Qed.

(** The props of the Button test [should render the button with
    loading spinner]: the rendered button holds no element with the
    test id [ti-button-spinner-icon] the test looks for. *)
Example Button_loading_test_has_no_spinner :
  let r := Button (mkButtonProps (js "Test Button") None None (Some true) None None) in
  testids r = [js "ti-button"; js "ti-button--btn-content"; js "ti-button--btn-label"] /\
  js "ti-button-spinner-icon" ∉ testids r.
Proof.
  cbn zeta. rewrite (proj1 (Button_without_icon_draws_no_icon
    (mkButtonProps (js "Test Button") None None (Some true) None None) eq_refl)).
  split; [reflexivity|]. cbn. set_solver.
Qed.

(** With an [icon] prop, the icon [drawButtonContent] asks for is drawn
    before the label for the placement [Left] (the default), after it
    for [Right], and not at all for any other placement. *)
Theorem Button_icon_layout (p : ButtonProps) (i : Icon) :
  bp_icon p = Some i ->
  let t := default (js "ti-button") (bp_testId p) in
  let l := default false (bp_isLoading p) in
  let c := default false (bp_isCopied p) in
  let j := default i (shown_icon (Some i) l c) in
  testids (Button p) =
    match default PlacementLeft (bp_iconPlacement p) with
    | PlacementLeft => [t; t ++ js "--btn-content"; t ++ js "--btn-icon-left"; icon_testId j;
                        t ++ js "--btn-label"]
    | PlacementRight => [t; t ++ js "--btn-content"; t ++ js "--btn-label";
                         t ++ js "--btn-icon-right"; icon_testId j]
    | PlacementOther => [t; t ++ js "--btn-content"; t ++ js "--btn-label"]
    end.
Proof.
  intros Hi t l c j. unfold Button. rewrite drawButtonContent_eq, Hi.
  fold t l c. subst j. unfold shown_icon.
  destruct (default PlacementLeft (bp_iconPlacement p)), l, c; reflexivity.
Qed.

Example Button_icon_layout_witness :
  testids (Button (mkButtonProps (js "Test Button") (Some (IconElement (js "test-icon")))
                     (Some PlacementRight) None None None)) =
  [js "ti-button"; js "ti-button--btn-content"; js "ti-button--btn-label";
   js "ti-button--btn-icon-right"; js "test-icon"].
Proof.
  exact (Button_icon_layout (mkButtonProps (js "Test Button") (Some (IconElement (js "test-icon")))
                               (Some PlacementRight) None None None) _ eq_refl).
Defined.

(** The share button's elements: the share icon, the spinner while a
    share is in flight, the copy mark after a copy, always before the
    label. *)
Theorem shareButton_testids (s : State) :
  testids (Button (shareButton_props s)) =
  [js "ti-share-button"; js "ti-share-button--btn-content"; js "ti-share-button--btn-icon-left";
   icon_testId (default ShareIcon (shown_icon (Some ShareIcon) (isLoading s) (isCopied s)));
   js "ti-share-button--btn-label"].
Proof. exact (Button_icon_layout (shareButton_props s) ShareIcon eq_refl). Qed.

End ShareButton.
