(* ===== verification/Sharing.v ===== *)
(** * Sharing a document: [useEncoding] and [useCodeLoader] together

    [encode] of [src/src/hooks/encoding/encoding.ts] gzips the text with
    pako and writes the bytes in base64 ([Base64.fromByteArray]); its
    [decode] re-pads the argument ([Encoding.decode_padding]), reads the
    bytes back ([Base64.toByteArray]), gunzips them and decodes their
    UTF-8 with [TextDecoder].  pako and the text codec are libraries:
    the classes [Pako] and [TextCodec] state what the code relies on
    (gunzip gives back the bytes that were gzipped; decoding the UTF-8
    of a text gives the text), and the instances [identity_pako] and
    [latin1_codec] show the laws can hold.  [useCodeLoader]
    ([src/src/hooks/code-loader/code-loader.ts]) decodes the URL's
    [code] parameter ([ShareButton.codeLoader_param]) and [App] mounts
    the editor with the result ([Editor.App]).

    The theorems: [decode] inverts [encode]; an encoding whose [=]
    padding was stripped decodes again unless the gzip output has
    [2 mod 3] bytes, where [decode] throws; the link the share button
    builds loads the shared text into the editor. *)

From S2P Require Import Prelude Base64 Encoding Acceptance ShareButton Editor.

Module Sharing.
Import Base64.

(** [pako.gzip] and [pako.ungzip] on byte arrays; [None] is the
    exception [ungzip] throws on data that is not a gzip member. *)
Class Pako := {
  gzip : list Z -> list Z;
  ungzip : list Z -> option (list Z);
  gzip_bytes b : Forall is_byte (gzip b);
  ungzip_gzip b : Forall is_byte b -> ungzip (gzip b) = Some b
}.

(** The UTF-8 encoding pako applies to a string argument
    ([strings.string2buf]) and [new TextDecoder().decode]. *)
Class TextCodec := {
  string2buf : JsString -> list Z;
  text_decode : list Z -> JsString;
  string2buf_bytes s : Forall is_byte (string2buf s);
  text_decode_string2buf s : text_decode (string2buf s) = s
}.

Section Codec.
Context `{!Pako} `{!TextCodec}.

(** [encode]: [pako.gzip(value)], then [base64.fromByteArray]. *)
Definition encode (value : JsString) : JsString := fromByteArray (gzip (string2buf value)).

(** [decode]: [None] is an exception of [base64.toByteArray] or of
    [pako.ungzip]. *)
Definition decode (value : JsString) : option JsString :=
  let validValue := decode_padding value in
  decoded ← toByteArray validValue;
  decompressed ← ungzip decoded;
  Some (text_decode decompressed).

(** The effect of [useCodeLoader]: [Some None] when the URL has no
    [code] parameter, [Some (Some c)] for the [loadedCode] it sets, and
    [None] when [decodeURIComponent] or [decode] throws. *)
Definition useCodeLoader (href : JsString) : option (option JsString) :=
  p ← ShareButton.codeLoader_param href;
  match p with
  | None => Some None
  | Some t => Some <$> decode t
  end.

(** The page at [href]: [App] mounted with the loaded code.  An
    exception in the effect reaches no error boundary and React unmounts
    the whole tree: [None]. *)
Definition load_page (href : JsString) : option Editor.State :=
  loadedCode ← useCodeLoader href; Some (Editor.App loadedCode).

End Codec.

(** [encodedString.replace(/=+$/, '')] of the encoding test: the
    trailing [=] removed. *)
Fixpoint strip_leading_pad (s : JsString) : JsString :=
  match s with
  | c :: s' => if decide (c = "="%char) then strip_leading_pad s' else s
  | [] => []
  end.

Definition strip_padding (s : JsString) : JsString := rev (strip_leading_pad (rev s)).

(** The laws hold: a gzip that stores the numbers in a [Uint8Array]
    (modulo 256) as they are, and the Latin-1 code units as bytes. *)
#[export] Instance identity_pako : Pako.
Proof.
  refine {| gzip b := map (fun x => x mod 256) b; ungzip b := Some b |}.
  - intros b. apply Forall_fmap, Forall_forall. intros x _. cbn. unfold is_byte.
    pose proof (Z.mod_pos_bound x 256). lia.
  - intros b Hb. f_equal. rewrite <- (map_id b) at 2. apply map_ext_Forall.
    eapply Forall_impl; [exact Hb|]. intros x Hx. by apply Z.mod_small.
Defined.

#[export] Instance latin1_codec : TextCodec.
Proof.
  refine {| string2buf s := map (fun c => Z.of_nat (nat_of_ascii c)) s;
            text_decode bs := map (fun b => ascii_of_nat (Z.to_nat b)) bs |}.
  - intros s. apply Forall_fmap, Forall_forall. intros c _. cbn.
    pose proof (nat_ascii_bounded c). unfold is_byte. lia.
  - intros s. rewrite map_map. transitivity (map id s); [|apply map_id].
    apply map_ext. intros c. by rewrite Nat2Z.id, ascii_nat_embedding.
Defined.

(** ** Lemmas *)

Lemma rev_replicate {A} n (x : A) : rev (replicate n x) = replicate n x.
Proof. rewrite rev_alt. apply reverse_replicate. Qed.

Lemma strip_leading_pad_replicate k s :
  strip_leading_pad (replicate k "="%char ++ s) = strip_leading_pad s.
Proof. induction k as [|k IH]; [done|]. cbn [replicate app strip_leading_pad]. by rewrite decide_True. Qed.

(** Stripping removes exactly the padding of a text without [=]. *)
Lemma strip_padding_app p k : "="%char ∉ p -> strip_padding (p ++ replicate k "="%char) = p.
Proof.
  intros Hp. unfold strip_padding. rewrite rev_app_distr, rev_replicate, strip_leading_pad_replicate.
  destruct (rev p) as [|c r] eqn:Hr; [by rewrite <- (rev_involutive p), Hr|].
  cbn [strip_leading_pad]. rewrite decide_False; [by rewrite <- (rev_involutive p), Hr|].
  intros ->. apply Hp, list_elem_of_In, in_rev. rewrite Hr. by left.
Qed.

Lemma js_length_mod4 (s : JsString) : js_length s mod 4 = Z.of_nat (List.length s mod 4).
Proof. unfold js_length. by rewrite Nat2Z.inj_mod. Qed.

Section Proofs.
Context `{!Pako} `{!TextCodec}.

Lemma ungzip_text value : text_decode <$> ungzip (gzip (string2buf value)) = Some value.
Proof. rewrite ungzip_gzip by apply string2buf_bytes. cbn. by rewrite text_decode_string2buf. Qed.

(** [decode_padding] appends [length mod 4] signs [=]. *)
Lemma decode_padding_mod v k : (List.length v mod 4 = k)%nat -> decode_padding v = v ++ replicate k "="%char.
Proof. intros Hk. by rewrite decode_padding_eq, js_length_mod4, Hk, Nat2Z.id. Qed.

Lemma decode_via v w : decode_padding v = decode_padding w -> decode v = decode w.
Proof. intros Hvw. unfold decode. by rewrite Hvw. Qed.

Lemma length_fromByteArray_mod4 b : (List.length (fromByteArray b) mod 4 = 0)%nat.
Proof. by rewrite length_fromByteArray, Nat.mul_comm, Nat.Div0.mod_mul. Qed.

(** An encoding is a multiple of four characters: [decode] reads its
    bytes back and gunzips them. *)
Lemma decode_fromByteArray b : Forall is_byte b -> decode (fromByteArray b) = text_decode <$> ungzip b.
Proof.
  intros Hb. unfold decode.
  rewrite (decode_padding_mod _ 0), app_nil_r, toByteArray_fromByteArray by (done || apply length_fromByteArray_mod4).
  cbn. by destruct (ungzip b).
Qed.

(** The link of a text holds no [%]. *)
Lemma encode_no_pct value : "%"%char ∉ encode value.
Proof. apply fromByteArray_excludes; [apply (bool_decide_unpack _); vm_compute; reflexivity|done]. Qed.

(** ** Theorems *)

(** C16: [decode] inverts [encode]: the base64 text of the gzip of a
    text is re-padded as it is, read back to the same bytes, gunzipped
    and decoded to the text. *)
Theorem decode_encode (value : JsString) : decode (encode value) = Some value.
Proof. unfold encode. rewrite decode_fromByteArray by apply gzip_bytes. apply ungzip_text. Qed.

(** C17: an encoding whose trailing [=] were stripped (as the encoding
    test does) decodes to the text when the gzip output has [0] or [1]
    bytes modulo 3 (no padding, or [==] put back by [decode]); with [2]
    bytes modulo 3 the single [=] is replaced by three, the length is
    [2 mod 4] and [base64.toByteArray] throws. *)
Theorem decode_stripped_padding (value : JsString) :
  decode (strip_padding (encode value)) =
  if bool_decide (List.length (gzip (string2buf value)) mod 3 = 2)%nat then None else Some value.
Proof.
  unfold encode. pose proof (gzip_bytes (string2buf value)) as Hb. pose proof (ungzip_text value) as Hu.
  destruct (fromByteArray_padded (gzip (string2buf value))) as (p & Hp & Hc & Hl).
  rewrite Hp, strip_padding_app
    by (rewrite Forall_forall in Hc; intros Hin; by apply Hc in Hin; revert Hin; apply (bool_decide_unpack _); vm_compute).
  unfold padding_count in Hp.
  pose proof (length_fromByteArray_mod4 (gzip (string2buf value))) as H4.
  pose proof (Nat.mod_upper_bound (List.length (gzip (string2buf value))) 3 ltac:(lia)).
  destruct (List.length (gzip (string2buf value)) mod 3)%nat as [|[|[|r]]] eqn:Hr; [| | |lia];
    rewrite ?Hr in Hp, Hl; cbn in Hp.
  - rewrite app_nil_r in Hp. rewrite (decode_via _ (fromByteArray (gzip (string2buf value)))).
    + rewrite decode_fromByteArray by done. exact Hu.
    + by rewrite (decode_padding_mod _ 0 H4), (decode_padding_mod _ 0 Hl), Hp, !app_nil_r.
  - rewrite (decode_via _ (fromByteArray (gzip (string2buf value)))).
    + rewrite decode_fromByteArray by done. exact Hu.
    + by rewrite (decode_padding_mod _ 0 H4), (decode_padding_mod _ 2 Hl), Hp, !app_nil_r.
  - unfold decode. rewrite (decode_padding_mod _ 3 Hl), toByteArray_bad_length; [done|].
    rewrite js_length_mod4, length_app, length_replicate, Nat.Div0.add_mod, Hl. cbn. lia.
Qed.

(** C28: a shared link loads the shared text.  On a page [base?p1&...]
    without a fragment, whose other query parameters parse and are not
    named [code], and with any old [code] parameter, the link the share
    button builds for [encode value] (see [ShareButton.successful_share])
    makes [useCodeLoader] set [loadedCode] to [value], and the [App]
    mounted on it loads [value] into the editor. *)
Theorem shared_link_loads_text (base : JsString) (A B : list JsString) (old : option JsString)
    (ps : list (JsString * JsString)) (value : JsString) :
  ShareButton.base_ok base -> Forall ShareButton.piece_ok (A ++ B) ->
  Forall ShareButton.piece_ok (ShareButton.old_piece old) ->
  mapM Url.parse_piece (A ++ B) = Some ps -> Forall (fun kv => kv.1 <> js "code") ps ->
  let url := ShareButton.share_url (ShareButton.page_url base (A ++ ShareButton.old_piece old ++ B))
               (Url.encodeURIComponent (encode value)) in
  useCodeLoader url = Some (Some value) /\
  load_page url = Some (Editor.App (Some value)) /\
  Editor.value (Editor.App (Some value)) = value /\
  Editor.loadedCode (Editor.App (Some value)) = Some value.
Proof.
  intros Hb HAB Hold Hm Hn. cbn zeta.
  pose proof (ShareButton.share_link_params base A B old ps (encode value) Hb HAB Hold Hm Hn
                (encode_no_pct value)) as Hc. cbn zeta in Hc. destruct Hc as [_ Hc].
  assert (Hl : useCodeLoader (ShareButton.share_url (ShareButton.page_url base (A ++ ShareButton.old_piece old ++ B))
                 (Url.encodeURIComponent (encode value))) = Some (Some value)).
  { unfold useCodeLoader. rewrite Hc. cbn. unfold encode.
    rewrite decode_fromByteArray by apply gzip_bytes. by rewrite ungzip_text. }
  pose proof (Editor.mount_loads Editor.App_initial_query value) as (_ & _ & _ & Hv & _ & _ & _ & Hlc & _).
  unfold load_page. rewrite Hl. split_and!; done.
Qed.

End Proofs.

Example decode_stripped_padding_witness :
  decode (strip_padding (encode (js "ab"))) = None /\ decode (strip_padding (encode (js "a"))) = Some (js "a").
Proof. split; rewrite decode_stripped_padding; reflexivity. Defined.

Example shared_link_loads_text_witness :
  let url := ShareButton.share_url
               (ShareButton.page_url (js "http://h/p") ([js "x=1"] ++ ShareButton.old_piece (Some (js "AB")) ++ [js "y=2"]))
               (Url.encodeURIComponent (encode (js "MATCH"))) in
  useCodeLoader url = Some (Some (js "MATCH")) /\
  load_page url = Some (Editor.App (Some (js "MATCH"))) /\
  Editor.value (Editor.App (Some (js "MATCH"))) = js "MATCH" /\
  Editor.loadedCode (Editor.App (Some (js "MATCH"))) = Some (js "MATCH").
Proof.
  apply (shared_link_loads_text _ _ _ _ [(js "x", js "1"); (js "y", js "2")]);
    first [reflexivity | apply (bool_decide_unpack _); vm_compute; reflexivity].
Defined.
End Sharing.
