(* ===== verification/Examples.v ===== *)
(** * The examples column: [ExamplesList] and [ExampleCode]

    [src/src/components/examples-list/examples-list.tsx] keeps a [Fuse]
    search index over the grammar's examples, the search phrase typed in
    its input, a debounced copy of it, and the examples shown.  Two
    effects set the shown examples: the first, on
    [[examples, searchForExamples, searchPhrase]], makes a new index
    ([setFuse(new Fuse(examples, ...))]) and searches with the index of
    the render; the second, on
    [[debouncedSearchPhrase, examples, searchForExamples]], shows all
    examples for an empty phrase and the search results otherwise.
    [searchForExamples] is a [useCallback] on [[fuse]].
    [src/src/components/examples-list/example-code.tsx] draws one example
    as a table of highlighted lines, like [useHighlights] without the
    class renaming, on the trimmed code.

    React compares state by identity ([Object.is]): every [new Fuse] and
    every array returned by a search is a new object.  The model gives
    each object an identity: [Fuse]s and search results take fresh
    numbers from a counter, the [examples] prop keeps the identity [0].
    Fuse's [search] is a library: a section variable.  [useDebounce]
    ([$hooks/debounce/debounce]) is imported but absent from the
    repository; the debounced phrase changes by an event of its own.

    The theorem shows that as soon as the grammar has examples the
    component never stops re-rendering: each run of the first effect
    stores a new index, which rebuilds [searchForExamples], which is a
    dependency of the same effect. *)

From S2P Require Import Prelude WordExtraction Highlights.

Module Examples.

(** ** [ExampleCode] *)

(** [String.prototype.trim]: the white space and line terminators below
    256 are the code units of [is_space_code]. *)
Fixpoint drop_spaces (s : JsString) : JsString :=
  match s with
  | c :: s' => if is_space_code c then drop_spaces s' else s
  | [] => []
  end.

Definition js_trim (s : JsString) : JsString := rev (drop_spaces (rev (drop_spaces s))).

(** [GrammarExample] of [@syntaxica/lib], with the fields the sources read. *)
Record GrammarExample := mkGrammarExample { example_name : JsString; example_code : JsString }.

(** A [<tr>] of [ExampleCode]'s [assemblyLine]: key, number, code cell. *)
Record ExampleRow := mkExampleRow { ex_key : Z; ex_number : Z; ex_code : JsString }.

Definition example_assemblyLine (line : JsString) (index : Z) : ExampleRow :=
  mkExampleRow index (index + 1) line.

Section Code.

Context {Pattern : Type} (prism : Highlights.JsObject (@Highlights.GrammarValue Pattern) -> JsString -> JsString).

(** [getCodeLines(input)]. *)
Definition getCodeLines (grammar : Highlights.JsObject Highlights.GrammarValue) (input : JsString)
    : list ExampleRow :=
  imap (fun index line => example_assemblyLine line (Z.of_nat index))
       (js_split newline (Highlights.replace_nodes (prism grammar input))).

(** The rows of [ExampleCode] for an example. *)
Definition exampleCode_rows (grammar : Highlights.JsObject Highlights.GrammarValue)
    (example : GrammarExample) : list ExampleRow :=
  getCodeLines grammar (js_trim (example_code example)).

End Code.

(** ** [ExamplesList] *)

Section List.

Local Open Scope nat_scope.

Context {Example : Type}.
(** [fuse.search(pattern).map((result) => result.item)] for an index over
    the given examples. *)
Variable fuse_search : list Example -> JsString -> list Example.

(** A JavaScript object: its identity and its contents. *)
Record Obj (A : Type) := mkObj { obj_id : nat; obj_val : A }.
Arguments mkObj {A}.
Arguments obj_id {A}.
Arguments obj_val {A}.

Record State := mkState {
  examples : Obj (list Example);           (* the prop [examples] *)
  fuse : Obj (list Example);               (* the index, by the examples it holds *)
  searchPhrase : JsString;
  debouncedSearchPhrase : JsString;
  currentExamples : Obj (list Example);
  next_obj : nat;                          (* the identity of the next new object *)
  deps1 : option (nat * nat * JsString);   (* [[examples, searchForExamples, searchPhrase]] at the last run *)
  deps2 : option (JsString * nat * nat)    (* [[debouncedSearchPhrase, examples, searchForExamples]] *)
}.

Inductive Update :=
| SetFuse (f : Obj (list Example))
| SetCurrentExamples (a : Obj (list Example))
| SetSearchPhrase (p : JsString)
| SetDebouncedSearchPhrase (p : JsString).

Definition apply_update (s : State) (u : Update) : State :=
  let '(mkState ex f p dp cur n d1 d2) := s in
  match u with
  | SetFuse f' => mkState ex f' p dp cur n d1 d2
  | SetCurrentExamples cur' => mkState ex f p dp cur' n d1 d2
  | SetSearchPhrase p' => mkState ex f p' dp cur n d1 d2
  | SetDebouncedSearchPhrase dp' => mkState ex f p dp' cur n d1 d2
  end.

(** A state update is seen only when it changes the identity or the
    text it stores. *)
Definition same_state (s s' : State) : bool :=
  bool_decide (obj_id (fuse s) = obj_id (fuse s') /\ obj_id (currentExamples s) = obj_id (currentExamples s') /\
               searchPhrase s = searchPhrase s' /\ debouncedSearchPhrase s = debouncedSearchPhrase s').

(** [searchForExamples]: rebuilt when [fuse] changes, so its identity is
    that of the index it closes over. *)
Definition searchForExamples (s : State) (pattern : JsString) : list Example :=
  fuse_search (obj_val (fuse s)) pattern.

(** A new object with the next identity. *)
Definition alloc {A} (s : State) (v : A) : Obj A * State :=
  let '(mkState ex f p dp cur n d1 d2) := s in (mkObj n v, mkState ex f p dp cur (S n) d1 d2).

(** The first effect's body. *)
Definition effect1 (s : State) : State * list Update :=
  if bool_decide (obj_val (examples s) = []) then (s, [])
  else
    let '(f, s1) := alloc s (obj_val (examples s)) in
    let '(found, s2) := alloc s1 (searchForExamples s (searchPhrase s)) in
    (s2, [SetFuse f; SetCurrentExamples found]).

(** The second effect's body. *)
Definition effect2 (s : State) : State * list Update :=
  if bool_decide (obj_val (examples s) = []) then (s, [])
  else if bool_decide (debouncedSearchPhrase s = []) then (s, [SetCurrentExamples (examples s)])
  else
    let '(found, s1) := alloc s (searchForExamples s (debouncedSearchPhrase s)) in
    (s1, [SetCurrentExamples found]).

Definition deps1_of (s : State) : nat * nat * JsString :=
  (obj_id (examples s), obj_id (fuse s), searchPhrase s).
Definition deps2_of (s : State) : JsString * nat * nat :=
  (debouncedSearchPhrase s, obj_id (examples s), obj_id (fuse s)).

Definition changed {A} `{EqDecision A} (prev : option A) (now : A) : bool :=
  match prev with None => true | Some p => bool_decide (p <> now) end.

Definition set_deps (s : State) : State :=
  let '(mkState ex f p dp cur n _ _) := s in
  mkState ex f p dp cur n (Some (deps1_of s)) (Some (deps2_of s)).

(** The effects after a commit of [s], in declaration order, then their
    batched updates. *)
Definition commit (s : State) : State :=
  let '(s1, us1) := if changed (deps1 s) (deps1_of s) then effect1 s else (s, []) in
  let '(s2, us2) := if changed (deps2 s) (deps2_of s) then effect2 s1 else (s1, []) in
  fold_left apply_update (us1 ++ us2) (set_deps s2).

(** Render and commit until a commit changes no state; [None] when the
    fuel runs out. *)
Fixpoint settle (fuel : nat) (s : State) : option State :=
  match fuel with
  | O => None
  | S fuel' => let s' := commit s in if same_state s s' then Some s' else settle fuel' s'
  end.

(** The state of the first render: [examples] is the array [0], the
    index the object [1] built over no example. *)
Definition initial (ex : list Example) : State :=
  mkState (mkObj 0 ex) (mkObj 1 []) [] [] (mkObj 0 ex) 2 None None.

Inductive Event :=
| NewExamples (ex : list Example)   (* the prop changes to a new array *)
| Typed (p : JsString)              (* [onChange] of the search input *)
| Debounced.                        (* [useDebounce] passes the phrase on *)

Definition event_update (s : State) (ev : Event) : State :=
  match ev with
  | NewExamples ex =>
      let '(a, s1) := alloc s ex in
      let '(mkState _ f p dp cur n d1 d2) := s1 in mkState a f p dp cur n d1 d2
  | Typed p => apply_update s (SetSearchPhrase p)
  | Debounced => apply_update s (SetDebouncedSearchPhrase (searchPhrase s))
  end.

(** An event, then the renders it causes, within [fuel] commits. *)
Definition step (fuel : nat) (s : State) (ev : Event) : option State := settle fuel (event_update s ev).

(** ** Lemmas on the render loop *)

(** Identities below [next_obj] are taken. *)
Definition fresh_ok (s : State) : Prop := obj_id (fuse s) < next_obj s.

Lemma effect2_fields (s : State) :
  let '(s', us) := effect2 s in
  fuse s' = fuse s /\ examples s' = examples s /\ searchPhrase s' = searchPhrase s /\
  debouncedSearchPhrase s' = debouncedSearchPhrase s /\ deps1 s' = deps1 s /\ deps2 s' = deps2 s /\
  next_obj s <= next_obj s' /\ Forall (fun u => exists a, u = SetCurrentExamples a) us.
Proof.
  destruct s as [ex f p dp cur n d1 d2]. unfold effect2. simpl.
  repeat case_bool_decide; simpl; repeat split; try lia; repeat constructor; eauto.
Qed.

Lemma fold_current (s : State) (us : list Update) :
  Forall (fun u => exists a, u = SetCurrentExamples a) us ->
  let s' := fold_left apply_update us s in
  fuse s' = fuse s /\ examples s' = examples s /\ searchPhrase s' = searchPhrase s /\
  next_obj s' = next_obj s /\ deps1 s' = deps1 s.
Proof.
  intros Hus. revert s. induction Hus as [|u us (a & ->) _ IH]; intros s; [done|].
  simpl. destruct (IH (apply_update s (SetCurrentExamples a))) as (H1 & H2 & H3 & H4 & H5).
  destruct s. simpl in *. by rewrite H1, H2, H3, H4, H5.
Qed.

(** A commit in which the first effect runs stores a new index, and the
    first effect is due again at the next commit. *)
Lemma commit_effect1 (s : State) :
  obj_val (examples s) <> [] -> changed (deps1 s) (deps1_of s) = true -> fresh_ok s ->
  same_state s (commit s) = false /\ examples (commit s) = examples s /\
  changed (deps1 (commit s)) (deps1_of (commit s)) = true /\ fresh_ok (commit s).
Proof.
  intros Hex Hd Hf. unfold commit. rewrite Hd. unfold effect1. rewrite bool_decide_false by done.
  destruct s as [ex f p dp cur n d1 d2]. unfold fresh_ok in *; simpl in *.
  set (s1 := mkState ex f p dp cur (S (S n)) d1 d2).
  assert (Hc : forall s2 us2, fuse s2 = f -> examples s2 = ex -> searchPhrase s2 = p ->
              deps1 s2 = d1 -> S (S n) <= next_obj s2 ->
              Forall (fun u => exists a, u = SetCurrentExamples a) us2 ->
              let s' := fold_left apply_update ([SetFuse (mkObj n (obj_val ex));
                          SetCurrentExamples (mkObj (S n) (fuse_search (obj_val f) p))] ++ us2) (set_deps s2) in
              same_state (mkState ex f p dp cur n d1 d2) s' = false /\ examples s' = ex /\
              changed (deps1 s') (deps1_of s') = true /\ obj_id (fuse s') < next_obj s').
  { intros s2 us2 H1 H2 H3 H4 H5 Hus s'. unfold s'. rewrite fold_left_app.
    set (s3 := fold_left apply_update _ (set_deps s2)).
    assert (Hs3 : fuse s3 = mkObj n (obj_val ex) /\ examples s3 = ex /\ searchPhrase s3 = p /\
                  next_obj s3 = next_obj s2 /\ deps1 s3 = Some (obj_id ex, obj_id f, p)).
    { unfold s3. destruct s2; simpl in *; subst. done. }
    destruct (fold_current s3 us2 Hus) as (Hfu & He & Hp & Hn & Hdp).
    unfold same_state, changed, deps1_of. rewrite Hfu, He, Hp, Hn, Hdp.
    destruct Hs3 as (-> & -> & -> & -> & ->). simpl.
    split; [apply bool_decide_false; simpl; lia|]. split; [done|].
    split; [apply bool_decide_true; intros [=]; lia|lia]. }
  destruct (changed d2 _).
  - pose proof (effect2_fields s1) as He. destruct (effect2 s1) as [s2 us2].
    destruct He as (H1 & H2 & H3 & _ & H5 & _ & H7 & H8). exact (Hc s2 us2 H1 H2 H3 H5 H7 H8).
  - exact (Hc s1 [] eq_refl eq_refl eq_refl eq_refl (le_n _) (List.Forall_nil _)).
Qed.

(** ** Theorems on the examples list *)

(** C31: once the list has examples and the first effect is due (its
    dependencies changed since its last run, as at mount or when the
    specification's examples arrive), the component never settles: every
    commit stores a new [Fuse], which rebuilds [searchForExamples], which
    makes the first effect run again, for any number of renders. *)
Theorem examples_list_never_settles (s : State) :
  obj_val (examples s) <> [] -> changed (deps1 s) (deps1_of s) = true -> fresh_ok s ->
  forall fuel, settle fuel s = None.
Proof.
  intros Hex Hd Hf fuel. revert s Hex Hd Hf. induction fuel as [|fuel IH]; intros s Hex Hd Hf; [done|].
  simpl. destruct (commit_effect1 s Hex Hd Hf) as (Hs & He & Hd' & Hf'). rewrite Hs.
  apply IH; [by rewrite He|done|done].
Qed.

End List.

(** The list mounted before the specification arrives settles; the
    examples of the specification then start a render loop that never
    ends. *)
Example examples_list_never_settles_witness :
  let s0 := initial (Example := nat) [] in
  settle (fun l _ => l) 10 s0 <> None /\
  forall fuel, settle (fun l _ => l) fuel (event_update s0 (NewExamples [7%nat; 8%nat])) = None.
Proof.
  split; [vm_compute; discriminate|].
  apply examples_list_never_settles; [discriminate|reflexivity|unfold fresh_ok; simpl; lia].
Defined.

End Examples.
